(* ===== verification/_CoqProject ===== *)
-Q . S2P
Prelude.v
Errors.v
Common.v
Traits.v
Externals.v
Nvram.v
Compression.v
KeyManager.v
Encryption.v
Dedup.v
Registry.v
Gc.v
WritePipeline.v
PipelineInvariant.v
PipelineTheorems.v
PipelineProgress.v
Recovery.v
RecoveryTheorems.v
AsyncPipeline.v
AsyncSchedule.v
AsyncInvariant.v
AsyncTheorems.v
Threads.v
PipelineThreads.v
PipelineSharing.v
CapsuleService.v
BlockView.v
BlockConcurrency.v
NfsView.v
NfsTheorems.v
S3View.v
Guard.v
SpaceCtl.v
SpaceCtlTheorems.v
AuditLog.v
Bloom.v
Hybrid.v
SecuredPipeline.v
SecuredTheorems.v
HybridTheorems.v
Gateway.v
Layout.v
Scaling.v
Mesh.v
Replication.v
Agent.v
Views.v
Storage.v
ModularPipeline.v
ModularInvariant.v
ModularTheorems.v
ModularBuild.v
Values.v
Xtask.v
Builder.v
Legacy.v
Sim.v
AuditEnv.v
