(* ===== verification/Prelude.v ===== *)
(** * SPACE: a capsule store

    SPACE stores capsules: immutable byte strings cut into segments that are
    compressed, deduplicated by content hash, optionally encrypted, and appended to a
    log.  This library models the crates that carry that logic (under src/crates/) and
    proves what they promise.

    ** How the program is put together

    A client hands bytes and a policy to [WritePipeline] (capsule-registry/src/
    pipeline.rs).  The pipeline cuts the bytes into 4 MiB chunks, compresses each
    (compression), hashes the result (dedup), encrypts and authenticates it when the
    policy and a key manager ask for it (encryption), and either takes a reference to
    the segment the registry's content store names or appends a new one to the log
    (nvram-sim).  The registry (capsule-registry/src/lib.rs) then records the capsule.
    Reading walks the capsule's segments backwards through the same stages.  Deleting a
    capsule drops references; the collector (gc.rs) sweeps segments without any, and
    reconciliation at start-up recounts them.

    The modular pipeline (crate pipeline) does the same work over traits (common/src/
    traits.rs): the layout engine (layout-engine) plans the segments, and a compressor, an
    encryptor, a keyring, a storage backend (crate storage) and a catalog are plugged in.
    Beside both, the policy compiler (scaling/src/compiler.rs) turns telemetry into
    replication and migration actions, which an agent logs; a mesh node mirrors the segments
    of new capsules to its peers, and capsules are projected into views of other protocols.

    Clients reach a pipeline through front ends that keep a table of names: block volumes
    (protocol-block), a tree of files (protocol-nfs) and buckets of objects behind HTTP
    handlers (protocol-s3).  They only write, read and delete capsules, and are proved
    against that interface.  With the advanced-security feature events go to an audit log
    chained by hashes, a counting Bloom filter answers dedup questions, chunks can be sealed
    with hybrid post-quantum keys, and a gateway in front of the S3 server authorizes requests
    (common/src/security).  The program is started and stopped: everything it knows is in the
    registry's file, the log and its segment map, and each start reconciles them; the
    command line (spacectl) is such a program, one process per command.

    ** Files

    - Prelude.v: results ([Ok], [Err], [Panic]), the state-and-error monad [M] with its
      triples and weakest preconditions, machine integers, bytes, files as byte lists,
      schedules of I/O outcomes, IEEE floats, hash-map iteration order, sums.
    - Errors.v: the error types of the workspace, as they wrap one another.
    - Common.v: crate common (lib.rs, policy.rs, traits.rs).
    - Traits.v: common/src/traits.rs, the traits as classes of operations, each with a
      class of the laws its implementations owe the modular pipeline.
    - Externals.v: the third-party crates, as a class of operations ([Crates]), with
      their documented laws as separate classes, and toy instances that satisfy them.
    - Nvram.v: nvram-sim/src/lib.rs, the log [NvramLog] and [NvramTransaction].
    - Compression.v: compression/src/lib.rs.
    - KeyManager.v, Encryption.v: encryption/src/keymanager.rs; policy.rs, xts.rs, mac.rs.
    - Dedup.v: dedup/src/lib.rs.
    - Registry.v, Gc.v: capsule-registry/src/lib.rs and gc.rs.
    - WritePipeline.v: capsule-registry/src/pipeline.rs, the synchronous path.
    - PipelineInvariant.v: the abstract view of a pipeline (what bytes each segment
      stands for, its references, the data of each capsule), the invariant that ties
      registry, log and key manager together, and one lemma per operation.
    - PipelineTheorems.v: the pipeline's properties; PipelineProgress.v: requests complete
      once failures stop.
    - Recovery.v: what every call leaves in the files on disk, however it fails, and what a
      start finds there; RecoveryTheorems.v: what survives crashes, and what does not.
    - AsyncPipeline.v: the asynchronous path of the same file (feature pipeline_async):
      tasks, channel and coordinator as a step relation, and the sequential reference.
      AsyncSchedule.v: its invariant over all schedules; AsyncInvariant.v: one lemma per
      operation of the coordinator; AsyncTheorems.v: the properties of a whole write.
    - Threads.v: calls as sequences of atomic actions, alone and interleaved.
      PipelineThreads.v: the calls of the pipeline cut at every lock of the registry, the log
      and the key manager; PipelineSharing.v: what threads that share a pipeline may rely on.
    - CapsuleService.v: what a front end asks of a pipeline, as a class of operations with
      a class of laws; the write pipeline and a table in memory implement it.
    - BlockView.v: protocol-block/src/lib.rs and its specification, an array of bytes per
      volume; BlockConcurrency.v: the same calls cut into their atomic actions, those of the
      write pipeline included, for any number of concurrent callers.
    - NfsView.v: protocol-nfs/src/lib.rs, with the lemmas on paths and the tree of nodes;
      NfsTheorems.v: its specification and properties.
    - S3View.v: protocol-s3/src/lib.rs and handlers.rs.
    - SpaceCtl.v: spacectl/src/main.rs, each command as a process over the files on disk;
      Guard.v: what a front end keeps of a capsule it does not name, whatever it does;
      SpaceCtlTheorems.v: what holds from one process to the next.
    - AuditLog.v: common/src/security/audit_log.rs.
    - Bloom.v: common/src/security/bloom_dedup.rs.
    - Hybrid.v: common/src/security/crypto_profiles.rs.
    - SecuredPipeline.v: the synchronous path, the registry's content store and the log as
      the build advanced-security compiles them; SecuredTheorems.v: this build against the
      default one; HybridTheorems.v: chunks sealed with hybrid keys.
    - Gateway.v: common/src/security/ebpf_gateway.rs and protocol-s3/src/server.rs.
    - Layout.v: layout-engine (lib.rs, compiler.rs, offload/cpu.rs).
    - Scaling.v: scaling/src/compiler.rs.
    - Mesh.v: scaling/src/lib.rs, the mesh node; Replication.v: what the podms feature adds to
      an asynchronous write; Agent.v: scaling/src/agent.rs; Views.v: the projections of
      protocol-nvme, protocol-csi, protocol-fuse and protocol-nfs/src/phase4.rs.
    - Storage.v: storage/src/lib.rs; the in-memory backend is shown lawful.
    - ModularPipeline.v: pipeline/src/lib.rs, generic in the traits, with the encryptors,
      keyrings, evaluator and catalog it ships and the pipelines assembled from them.
    - ModularInvariant.v: its abstract state (what the backend stores, the catalog), the
      invariant, and one lemma per operation proved from the laws alone.
    - ModularTheorems.v: its properties.
    - Builder.v: its builder and the defaults of its parts.
    - ModularBuild.v: the feature modular_pipeline of capsule-registry and spacectl, the build
      in which the calls of the write pipeline go to a modular one.
    - AuditEnv.v: the builder, environment and time-stamping client of the audit log.
    - Legacy.v: capsule-registry/src and common/src at the root, the first registry and
      pipeline, which the crates supersede.
    - Sim.v: sim-nvram, sim-nvmeof with its binary, sim-other.
    - Xtask.v: xtask/src/main.rs, the audit, drift and graph tasks; Values.v: the values toml
      and serde_json parse to.

    ** Conventions

    A method on a shared object is a function [M S Error A]: the state it reaches is kept
    when it fails, as the in-memory tables are.  Where a call holds its locks throughout it
    is one step and interleavings are sequences of calls; the calls of the write pipeline and
    of the block and NFS views release them in between, and each locked region is a
    definition of its own.  Properties of the pipeline alone are about calls made one after
    the other; for the block view every lock of view and pipeline is an interleaving point.
    Where the program spawns tasks, an event says which of them the scheduler runs next up
    to its next await point, and a theorem about all runs holds for all schedules.
    Every call to the file
    system consumes one entry of a schedule of outcomes, so a theorem without a
    hypothesis on the schedule holds for every combination of I/O failures; a write that
    fails may have written any prefix.  Integers are [Z] with the wrap-around of a
    release build written out.  Iteration over a hash map follows an arbitrary fixed
    permutation ([HashOrder]).  Formatted messages keep their literal text only.

    ** What the theorems show

    - Nvram.v: appended segments read back; appends are durable when they succeed and
      harmless when they do not; every reachable log is well formed; a transaction used
      alone commits exactly what it staged or nothing, and rollbacks are exact.  Two
      transactions opened at once overlap, and a commit whose final save fails has installed
      its segments all the same and leaves them unprotected.
    - Compression.v: whatever the codecs do, a compression that succeeds decompresses.
    - KeyManager.v: the key derivation loop is RFC 5869 and terminates; the key of a
      version never depends on the history of calls; what rotation does.
    - Encryption.v: sealing and opening; a forged tag is a second preimage.
    - Registry.v: an operation that succeeds is on disk.
    - PipelineTheorems.v: a written capsule survives every sequence of calls under every
      I/O failure; deletion and collection never take a referenced segment; reconciliation
      makes the counts exact; ranges; and the edges where the pipeline does something
      unexpected (overflowing ranges, short encrypted chunks, dedup across encryption
      policies, raw chunks that look compressed, the dedup counter).
    - RecoveryTheorems.v: a written capsule survives crashes and restarts: a process may die
      at any I/O call, leaving any prefix of what it wrote.  A torn registry file stops the
      store for good, and a failed deregistration can poison a content hash.
    - PipelineProgress.v: whatever failures the synchronous calls before it met, every
      answerable request is answered once no failure is pending.  Restarts and asynchronous
      writes are left out: their failures can poison a hash for good.
    - PipelineThreads.v, PipelineSharing.v: a thread alone is the sequential call; whatever
      the others do, a read gives the data of its capsule or fails, and a write enters its
      capsule or fails.
    - AsyncSchedule.v: every schedule of an asynchronous write ends without deadlock, with
      the result and the final state of the sequential reference.
    - AsyncTheorems.v: what it wrote survives like any capsule; when it fails, the data of
      the other capsules is still there.  Two clean-ups leave entries behind that do harm
      later, and two writes in flight at once overwrite each other.
    - BlockView.v, BlockConcurrency.v: volumes are arrays of bytes under every I/O
      failure, and concurrent calls take effect one at a time, with no update lost to
      another; a read that races a write may fail without reason, and a deletion that races
      a write can remove a segment the write has just shared, which loses its data.
    - NfsTheorems.v: the namespace is a tree of directories and files under every I/O
      failure, calls the specification allows succeed when nothing fails, listings are
      exact, a reopened view shows the same tree; and the races, save failures, backslashes
      in paths and ranges past 64 bits that break it.
    - S3View.v: the HTTP front end is an object store.
    - SpaceCtlTheorems.v: what one run of the tool stored a later one prints, whatever runs
      and dies in between; a restarted S3 server has lost its objects.
    - AuditLog.v: the chain is kept through every failure, a reopened log continues it
      unless it was rotated, and equal last hashes mean equal logs.
    - Bloom.v: no false negatives while no counter saturates; insertions commute.
    - SecuredTheorems.v: while the filter has room, the build with filter and audit log does
      what the default build does.
    - HybridTheorems.v: a hybrid chunk opens at its place after any restart, and its keys are
      bound to the place; without deduplication, or shared with another place, it never opens.
    - Gateway.v: exactly the listed identities get through, and a list once there stays; an
      empty one admits everybody.
    - ModularTheorems.v: over every lawful backend a written capsule survives, deletion
      keeps the others, collection is exact; a deletion that failed must not be tried
      again, which can destroy another capsule.  The NVRAM backend is not lawful: every new
      segment is written at the start of the file, over the last one, and none can be
      shared; and the XTS encryptor does not decrypt.
    - Layout.v: plans partition their input, for positive segment sizes; size zero loops.
    - Scaling.v: exactly when and where capsules are replicated and moved; the final
      validation filters nothing.
    - Replication.v: mirroring and telemetry never change what a write does; without failures
      two peers get every stored byte.  With failures a write of recovery point zero may have no replica.
    - Agent.v: what the agent does for each event, exactly; Views.v: the four projections do
      the same, and show an empty capsule.
    - Builder.v: a built pipeline has the last part given of each kind; an encryptor that is
      not given has a key anyone knows.  ModularBuild.v: without a handle the build is the
      default one; with one, capsules overwrite one another.
    - AuditEnv.v: whatever the environment says, intervals are positive.
    - Legacy.v: what the first pipeline wrote stays readable through every other call.
    - Sim.v: when the simulation of NVMe-oF starts; its fallback is out of reach.
    - Xtask.v: an audit runs its checks in order up to the first that fails and passes exactly
      when all do; the drift report has exactly
      the broken pins, and never fails because of them.

    ** Assumptions

    The laws of Externals.v where a theorem names them.  For the survival of capsules: no
    hash collision among the compressed chunks written ([hash_injective_on]), no raw chunk
    that is a frame of its codec ([chunks_ok]), and room in the 64-bit offset, the segment
    counter and the 32-bit reference counts ([fits]).  Across restarts, a file that was cut off
    does not parse ([TornDoc]) and the next process derives the same keys.  For the modular pipeline the same,
    with one hypothesis ([hash_decides]) for collisions and raw frames, and [room].

    ** Fuel

    The key derivation loop runs with 256 rounds: its one-byte counter ends it earlier, and
    the theorem about it rules out exhaustion.  The planner's inner loop gets one unit more
    than the slice has bytes; that suffices for every positive segment size, and for size
    zero no amount does.

    ** Not modelled

    Collection, reconciliation and restarts among concurrent callers of one pipeline: there
    they are not threads.

    The modular backend of the S3 view, whose parts are modelled here.  The eBPF program, the matching of
    routes, sockets, the sending of HTTP requests, randomness, argument parsing and log
    output: code of other crates, or only calls to it.  The layouts for zoned devices (a todo)
    and learned models (the default planner behind a model nothing asks).  The fuzz targets and the
    assets of the web interface. *)
From stdpp Require Export base gmap strings list pretty countable sorting.
From Stdlib Require Export ZArith Lia.
From Stdlib Require Import Floats.SpecFloat.
From Stdlib Require Export Strings.Byte.

#[global] Open Scope Z_scope.

(** ** Results and the state-and-error monad *)

(** A Rust call returns a value, returns an error, or panics. *)
Inductive Res (E A : Type) : Type :=
| Ok (a : A)
| Err (e : E)
| Panic.
Arguments Ok {E A} a.
Arguments Err {E A} e.
Arguments Panic {E A}.

Definition res_bind {E A B : Type} (r : Res E A) (k : A → Res E B) : Res E B :=
  match r with
  | Ok a => k a
  | Err e => Err e
  | Panic => Panic
  end.

Definition res_map_err {E E' A : Type} (f : E → E') (r : Res E A) : Res E' A :=
  match r with
  | Ok a => Ok a
  | Err e => Err (f e)
  | Panic => Panic
  end.

Definition ok_or {E A : Type} (o : option A) (e : E) : Res E A :=
  match o with
  | Some a => Ok a
  | None => Err e
  end.

Definition is_ok {E A : Type} (r : Res E A) : bool :=
  match r with
  | Ok _ => true
  | _ => false
  end.

(** A stateful call on [S]: the state reached is kept when the call fails. *)
Definition M (S E A : Type) : Type := S → Res E A * S.

Definition ret {S E A : Type} (a : A) : M S E A := λ s, (Ok a, s).

Definition fail {S E A : Type} (e : E) : M S E A := λ s, (Err e, s).

Definition panic {S E A : Type} : M S E A := λ s, (Panic, s).

Definition bind {S E A B : Type} (m : M S E A) (k : A → M S E B) : M S E B :=
  λ s, match m s with
       | (Ok a, s') => k a s'
       | (Err e, s') => (Err e, s')
       | (Panic, s') => (Panic, s')
       end.

Definition gets {S E A : Type} (f : S → A) : M S E A := λ s, (Ok (f s), s).

Definition modify {S E : Type} (f : S → S) : M S E unit := λ s, (Ok tt, f s).

Definition lift {S E A : Type} (r : Res E A) : M S E A := λ s, (r, s).

Definition map_err {S E E' A : Type} (f : E → E') (m : M S E A) : M S E' A :=
  λ s, let '(r, s') := m s in (res_map_err f r, s').

(** [match call() { Ok(..) => .., Err(..) => .. }]: the outcome as a value. *)
Definition attempt {S E E' A : Type} (m : M S E A) : M S E' (A + E) :=
  λ s, match m s with
       | (Ok a, s') => (Ok (inl a), s')
       | (Err e, s') => (Ok (inr e), s')
       | (Panic, s') => (Panic, s')
       end.

(** A call on a component [S1] of a larger state [S2]. *)
Definition zoom {S1 S2 E A : Type} (get : S2 → S1) (put : S1 → S2 → S2) (m : M S1 E A)
    : M S2 E A :=
  λ s, let '(r, s1) := m (get s) in (r, put s1 s).

Declare Scope space_scope.
Delimit Scope space_scope with space.

Notation "'let!' x ':=' m 'in' k" := (bind m (λ x, k))
  (at level 10, x pattern, m at level 200, k at level 200) : space_scope.
Notation "'let?' x ':=' r 'in' k" := (res_bind r (λ x, k))
  (at level 10, x pattern, r at level 200, k at level 200) : space_scope.
Notation "m1 ;;; m2" := (bind m1 (λ _, m2))
  (at level 199, right associativity) : space_scope.
#[global] Open Scope space_scope.

(** [for x in l { body }] threading an accumulator. *)
Fixpoint foldM {S E A B : Type} (f : B → A → M S E B) (b : B) (l : list A) : M S E B :=
  match l with
  | [] => ret b
  | x :: r => let! b' := f b x in foldM f b' r
  end.

Fixpoint fold_res {E A B : Type} (f : B → A → Res E B) (b : B) (l : list A) : Res E B :=
  match l with
  | [] => Ok b
  | x :: r => let? b' := f b x in fold_res f b' r
  end.

(** ** Triples: [Q] on success, [R] on error; a panic satisfies neither. *)
Definition triple {S E A : Type} (P : S → Prop) (m : M S E A)
    (Q : A → S → Prop) (R : E → S → Prop) : Prop :=
  ∀ s, P s →
    match m s with
    | (Ok a, s') => Q a s'
    | (Err e, s') => R e s'
    | (Panic, _) => False
    end.

(** The same conditions for a run from one state. *)
Definition wp {S E A : Type} (m : M S E A) (Q : A → S → Prop) (R : E → S → Prop) (s : S) : Prop :=
  match m s with
  | (Ok a, s') => Q a s'
  | (Err e, s') => R e s'
  | (Panic, _) => False
  end.

(** Sums, and the number of occurrences of an element. *)
Definition sumZ (l : list Z) : Z := foldr Z.add 0 l.
Definition countZ {A : Type} `{EqDecision A} (x : A) (l : list A) : Z :=
  sumZ ((λ y, if bool_decide (y = x) then 1 else 0) <$> l).

(** ** Machine integers: release builds wrap. *)
Definition wrap (w : Z) (z : Z) : Z := z `mod` 2 ^ w.
Definition U8_MAX : Z := 2 ^ 8 - 1.
Definition U32_MAX : Z := 2 ^ 32 - 1.
Definition U64_MAX : Z := 2 ^ 64 - 1.
Definition u32_add (a b : Z) : Z := wrap 32 (a + b).
Definition u64_add (a b : Z) : Z := wrap 64 (a + b).
Definition u64_mul (a b : Z) : Z := wrap 64 (a * b).
Definition u32_saturating_add (a b : Z) : Z := Z.min (a + b) U32_MAX.
Definition u64_saturating_add (a b : Z) : Z := Z.min (a + b) U64_MAX.
Definition saturating_sub (a b : Z) : Z := Z.max (a - b) 0.
Definition u64_saturating_mul (a b : Z) : Z := Z.min (a * b) U64_MAX.

(** ** Bytes and little/big endian encodings *)
Abbreviation bytes := (list byte).

Definition byte_of_Z (z : Z) : byte :=
  match Byte.of_N (Z.to_N (z `mod` 256)) with
  | Some b => b
  | None => x00
  end.

Definition Z_of_byte (b : byte) : Z := Z.of_N (Byte.to_N b).

Fixpoint to_le_bytes (n : nat) (z : Z) : bytes :=
  match n with
  | O => []
  | S n' => byte_of_Z z :: to_le_bytes n' (z / 256)
  end.

Definition to_be_bytes (n : nat) (z : Z) : bytes := reverse (to_le_bytes n z).

Fixpoint from_le_bytes (l : bytes) : Z :=
  match l with
  | [] => 0
  | b :: r => Z_of_byte b + 256 * from_le_bytes r
  end.

(** The UTF-8 bytes of an ASCII string. *)
Definition string_bytes (s : string) : bytes := String.list_byte_of_string s.

(** ** Lists indexed by machine integers *)
Definition lenZ {A : Type} (l : list A) : Z := Z.of_nat (length l).

Fixpoint takeZ {A : Type} (n : Z) (l : list A) : list A :=
  match l with
  | [] => []
  | x :: r => if 0 <? n then x :: takeZ (n - 1) r else []
  end.

Fixpoint dropZ {A : Type} (n : Z) (l : list A) : list A :=
  match l with
  | [] => []
  | x :: r => if 0 <? n then dropZ (n - 1) r else l
  end.

(** [slice::chunks(n)] for [n > 0]; the fuel is the length of the list. *)
Fixpoint chunks_fuel {A : Type} (fuel : nat) (n : Z) (l : list A) : list (list A) :=
  match fuel with
  | O => []
  | S fuel' =>
      match l with
      | [] => []
      | _ => takeZ n l :: chunks_fuel fuel' n (dropZ n l)
      end
  end.

Definition chunks {A : Type} (n : Z) (l : list A) : list (list A) :=
  chunks_fuel (length l) n l.

(** Writing [data] at offset [off] of a file; a gap is filled with zeros, and an
    empty write leaves the file alone. *)
Definition write_at (file : bytes) (off : Z) (data : bytes) : bytes :=
  match data with
  | [] => file
  | _ =>
      takeZ off file ++ replicate (Z.to_nat (off - lenZ file)) x00
        ++ data ++ dropZ (off + lenZ data) file
  end.

Definition read_at (file : bytes) (off len : Z) : option bytes :=
  let r := takeZ len (dropZ off file) in
  if lenZ r =? len then Some r else None.

(** ** I/O outcomes: each call consumes one entry of a schedule.  [None] (or the
    end of the schedule) is success; [Some k] is a failure after [k] bytes. *)
Abbreviation faults := (list (option Z)).

Definition next_fault (f : faults) : option Z * faults :=
  match f with
  | [] => (None, [])
  | x :: r => (x, r)
  end.

(** ** IEEE floats, computed exactly *)
Abbreviation f32 := spec_float.
Abbreviation f64 := spec_float.
Definition f32_of_Z (z : Z) : f32 := binary_normalize 24 128 z 0 false.
Definition f64_of_Z (z : Z) : f64 := binary_normalize 53 1024 z 0 false.
(** The literal [num / 10^k]. *)
Definition f32_lit (num : Z) (k : Z) : f32 := SFdiv 24 128 (f32_of_Z num) (f32_of_Z (10 ^ k)).
Definition f32_add : f32 → f32 → f32 := SFadd 24 128.
Definition f32_sub : f32 → f32 → f32 := SFsub 24 128.
Definition f32_mul : f32 → f32 → f32 := SFmul 24 128.
Definition f32_div : f32 → f32 → f32 := SFdiv 24 128.
Definition f64_mul : f64 → f64 → f64 := SFmul 53 1024.
Definition f64_div : f64 → f64 → f64 := SFdiv 53 1024.
Definition f32_ge (a b : f32) : bool := SFleb b a.
Definition f32_lt (a b : f32) : bool := SFltb a b.
Definition f32_le (a b : f32) : bool := SFleb a b.
Definition f32_abs : f32 → f32 := SFabs.
(** [x as f32] for [x : f64]. *)
Definition f32_of_f64 (x : f64) : f32 :=
  match x with
  | S754_finite s m e => binary_normalize 24 128 (if s then Zneg m else Zpos m) e s
  | y => y
  end.

(** ** Iteration order of [HashMap]: some fixed permutation of the entries. *)
Class HashOrder := {
  hash_iter : ∀ {K V : Type} `{Countable K}, gmap K V → list (K * V);
  hash_iter_perm : ∀ {K V : Type} `{Countable K} (m : gmap K V),
    hash_iter m ≡ₚ map_to_list m;
}.

(** The order of [map_to_list]: an instance for concrete runs. *)
Definition listed_order : HashOrder :=
  {| hash_iter := λ K V _ _ m, map_to_list m;
     hash_iter_perm := λ K V _ _ m, Permutation_refl _ |}.

(** ** Strings *)
Fixpoint str_prefix (p s : string) : bool :=
  match p, s with
  | EmptyString, _ => true
  | String a p', String b s' => Ascii.eqb a b && str_prefix p' s'
  | String _ _, EmptyString => false
  end.

Fixpoint str_contains (s p : string) : bool :=
  str_prefix p s ||
  match s with
  | EmptyString => false
  | String _ s' => str_contains s' p
  end.

(** [s.ends_with(p)] *)
Fixpoint str_suffix (p s : string) : bool :=
  String.eqb s p ||
  match s with
  | EmptyString => false
  | String _ s' => str_suffix p s'
  end.

(** '/', code 47. *)
Definition SLASH : Ascii.ascii := Ascii.Ascii true true true true false true false false.

Fixpoint has_char (c : Ascii.ascii) (s : string) : bool :=
  match s with
  | EmptyString => false
  | String x r => Ascii.eqb x c || has_char c r
  end.

(** The parts between the separators, empty ones included. *)
Fixpoint split_on (c : Ascii.ascii) (s : string) : list string :=
  match s with
  | EmptyString => [EmptyString]
  | String x r =>
      if Ascii.eqb x c then EmptyString :: split_on c r
      else match split_on c r with
           | p :: ps => String x p :: ps
           | [] => [String x EmptyString]
           end
  end.

Definition in_range (lo hi : Z) (b : byte) : bool := (lo <=? Z_of_byte b) && (Z_of_byte b <=? hi).

(** [str::trim]: characters with the White_Space property, in UTF-8, are dropped at both
    ends; [is_blank]: there is nothing else. *)
Fixpoint is_blank (d : bytes) : bool :=
  match d with
  | [] => true
  | a :: r =>
      if in_range 9 13 a || in_range 32 32 a then is_blank r
      else match a, r with
      | xc2, b :: r => (in_range 133 133 b || in_range 160 160 b) && is_blank r
      | xe1, x9a :: x80 :: r => is_blank r
      | xe2, x80 :: c :: r =>
          (in_range 128 138 c || in_range 168 169 c || in_range 175 175 c) && is_blank r
      | xe2, x81 :: x9f :: r => is_blank r
      | xe3, x80 :: x80 :: r => is_blank r
      | _, _ => false
      end
  end.

Fixpoint trim_start (d : bytes) : bytes :=
  match d with
  | [] => []
  | a :: r =>
      if in_range 9 13 a || in_range 32 32 a then trim_start r
      else match a, r with
      | xc2, b :: r' => if in_range 133 133 b || in_range 160 160 b then trim_start r' else d
      | xe1, x9a :: x80 :: r' => trim_start r'
      | xe2, x80 :: c :: r' =>
          if in_range 128 138 c || in_range 168 169 c || in_range 175 175 c then trim_start r' else d
      | xe2, x81 :: x9f :: r' => trim_start r'
      | xe3, x80 :: x80 :: r' => trim_start r'
      | _, _ => d
      end
  end.

Fixpoint trim_end (d : bytes) : bytes :=
  match d with
  | [] => []
  | a :: r => if is_blank d then [] else a :: trim_end r
  end.

Definition trim (s : string) : string :=
  String.string_of_list_byte (trim_end (trim_start (string_bytes s))).

(** [str::parse::<u64>] *)
Definition parse_u64 (s : string) : option Z :=
  let digits := match string_bytes s with x2b :: d => d | d => d end in
  if bool_decide (digits = []) || negb (forallb (in_range 48 57) digits) then None
  else let v := foldl (λ n b, n * 10 + (Z_of_byte b - 48)) 0 digits in
       if v <=? U64_MAX then Some v else None.

(** ** Automation *)
Create HintDb space.

(** Unfold one layer of the monad's combinators. *)
Ltac mred := cbv [bind ret fail panic gets modify lift map_err attempt zoom res_bind res_map_err] in *.

Ltac case_if :=
  match goal with
  | |- context [if ?b then _ else _] => destruct b eqn:?
  | H : context [if ?b then _ else _] |- _ => destruct b eqn:?
  end.

Ltac case_match_eq :=
  match goal with
  | |- context [match ?x with _ => _ end] => destruct x eqn:?
  | H : context [match ?x with _ => _ end] |- _ => destruct x eqn:?
  end.

(** Split every conditional and close the goals that computation decides. *)
Ltac split_cases := repeat (case_match_eq; simplify_eq/=; try done).

Lemma Ok_inj {E A : Type} (a b : A) : @Ok E A a = Ok b → a = b.
Proof. congruence. Qed.

(** ** The rules of triples *)
Section triple_rules.
Context {S E : Type}.
Implicit Types P : S → Prop.
Implicit Types R : E → S → Prop.

Lemma triple_ret {A : Type} P (Q : A → S → Prop) R a :
  (∀ s, P s → Q a s) → triple P (ret a) Q R.
Proof. intros H s Hs. by apply H. Qed.

Lemma triple_fail {A : Type} P (Q : A → S → Prop) R e :
  (∀ s, P s → R e s) → triple P (fail e) Q R.
Proof. intros H s Hs. by apply H. Qed.

Lemma triple_bind {A B : Type} P (Q : A → S → Prop) (Q' : B → S → Prop) R
    (m : M S E A) (k : A → M S E B) :
  triple P m Q R → (∀ a, triple (Q a) (k a) Q' R) → triple P (bind m k) Q' R.
Proof.
  intros Hm Hk s Hs. specialize (Hm s Hs). unfold bind.
  destruct (m s) as [[a | e | ] s']; [| done | done]. by apply Hk.
Qed.

Lemma triple_gets {A : Type} P (Q : A → S → Prop) R (f : S → A) :
  (∀ s, P s → Q (f s) s) → triple P (gets f) Q R.
Proof. intros H s Hs. by apply H. Qed.

Lemma triple_modify P (Q : unit → S → Prop) R (f : S → S) :
  (∀ s, P s → Q tt (f s)) → triple P (modify f) Q R.
Proof. intros H s Hs. by apply H. Qed.

Lemma triple_lift_ok_or {A : Type} P (Q : A → S → Prop) R (o : option A) e :
  (∀ a s, o = Some a → P s → Q a s) → (∀ s, o = None → P s → R e s) →
  triple P (lift (ok_or o e)) Q R.
Proof. intros H1 H2 s Hs. unfold lift. destruct o; simpl; eauto. Qed.

Lemma triple_conseq {A : Type} P P' (Q Q' : A → S → Prop) R R' (m : M S E A) :
  triple P m Q R → (∀ s, P' s → P s) → (∀ a s, Q a s → Q' a s) →
  (∀ e s, R e s → R' e s) → triple P' m Q' R'.
Proof.
  intros Hm HP HQ HR s Hs. specialize (Hm s (HP s Hs)).
  destruct (m s) as [[a | e | ] s']; eauto.
Qed.

Lemma triple_foldM {A B : Type} (I : B → list A → S → Prop) R (f : B → A → M S E B)
    (l : list A) (b : B) :
  (∀ b x r, triple (I b (x :: r)) (f b x) (λ b', I b' r) R) →
  triple (I b l) (foldM f b l) (λ b', I b' []) R.
Proof.
  intros Hf. revert b. induction l as [|x r IH]; intros b; simpl.
  - by apply triple_ret.
  - eapply triple_bind; [apply Hf | intros b'; apply IH].
Qed.

Lemma triple_attempt {E' A : Type} P (Q : A → S → Prop) R (R' : E' → S → Prop) (m : M S E A) :
  triple P m Q R →
  triple P (attempt m) (λ r s, match r with inl a => Q a s | inr e => R e s end) R'.
Proof.
  intros Hm s Hs. specialize (Hm s Hs). unfold attempt.
  destruct (m s) as [[a | e | ] s']; done.
Qed.

Lemma triple_map_err {E' A : Type} P (Q : A → S → Prop) R (R' : E' → S → Prop)
    (g : E → E') (m : M S E A) :
  triple P m Q R → (∀ e s, R e s → R' (g e) s) → triple P (map_err g m) Q R'.
Proof.
  intros Hm Hg s Hs. specialize (Hm s Hs). unfold map_err.
  destruct (m s) as [[a | e | ] s']; simpl; eauto.
Qed.
End triple_rules.

(** ** The rules of [wp] *)
Section wp_rules.
Context {S E : Type}.
Implicit Types s : S.

Lemma wp_bind {A B : Type} (m : M S E A) (k : A → M S E B) Q R s :
  wp m (λ a, wp (k a) Q R) R s → wp (bind m k) Q R s.
Proof. unfold wp, bind. by destruct (m s) as [[a|e| ] s']. Qed.

Lemma wp_mono {A : Type} (m : M S E A) (Q Q' : A → S → Prop) (R R' : E → S → Prop) s :
  wp m Q R s → (∀ a s', Q a s' → Q' a s') → (∀ e s', R e s' → R' e s') → wp m Q' R' s.
Proof. unfold wp. destruct (m s) as [[a|e| ] s']; eauto. Qed.

Lemma wp_and {A : Type} (m : M S E A) (Q Q' : A → S → Prop) (R R' : E → S → Prop) s :
  wp m Q R s → wp m Q' R' s →
  wp m (λ a s', Q a s' ∧ Q' a s') (λ e s', R e s' ∧ R' e s') s.
Proof. unfold wp. by destruct (m s) as [[a|e| ] s']. Qed.

(** A call whose error condition is absurd returns a value. *)
Lemma wp_total {A : Type} (m : M S E A) (Q : A → S → Prop) s :
  wp m Q (λ _ _, False) s ↔ ∃ a s', m s = (Ok a, s') ∧ Q a s'.
Proof.
  unfold wp. destruct (m s) as [[a|e| ] s']; split; try done; try (intros (? & ? & ? & ?); by simplify_eq).
  intros HQ. by exists a, s'.
Qed.

Lemma wp_map_err {E' A : Type} (g : E → E') (m : M S E A) Q R s :
  wp m Q (λ e, R (g e)) s → wp (map_err g m) Q R s.
Proof. unfold wp, map_err. by destruct (m s) as [[a|e| ] s']. Qed.

Lemma wp_zoom {S2 A : Type} (get : S2 → S) (put : S → S2 → S2) (m : M S E A) Q R (t : S2) :
  wp m (λ a s, Q a (put s t)) (λ e s, R e (put s t)) (get t) → wp (zoom get put m) Q R t.
Proof. unfold wp, zoom. by destruct (m (get t)) as [[a|e| ] s']. Qed.

Lemma wp_attempt {E' A : Type} (m : M S E A) (Q : A + E → S → Prop) (R : E' → S → Prop) s :
  wp m (λ a, Q (inl a)) (λ e, Q (inr e)) s → wp (attempt m) Q R s.
Proof. unfold wp, attempt. by destruct (m s) as [[a|e| ] s']. Qed.

(** An invariant over the part of the list that is left. *)
Lemma wp_foldM {A B : Type} (I : B → list A → S → Prop) (R : E → S → Prop)
    (f : B → A → M S E B) l b s :
  (∀ b x r s, I b (x :: r) s → wp (f b x) (λ b', I b' r) R s) →
  I b l s → wp (foldM f b l) (λ b', I b' []) R s.
Proof.
  intros Hf. revert b s. induction l as [|x r IH]; intros b s Hi; [done|].
  simpl. apply wp_bind. eapply wp_mono; [by apply Hf| |done]. intros b' s' Hi'. by apply IH.
Qed.

Lemma foldM_app {A B : Type} (f : B → A → M S E B) b l1 l2 s :
  foldM f b (l1 ++ l2) s = bind (foldM f b l1) (λ b', foldM f b' l2) s.
Proof.
  revert b s. induction l1 as [|x l1 IH]; intros b s; [done|]. simpl. unfold bind.
  destruct (f b x s) as [[b'|e| ] s']; [|done..]. apply IH.
Qed.

(** What a successful run went through. *)
Lemma bind_Ok {A B : Type} (m : M S E A) (k : A → M S E B) s b s' :
  bind m k s = (Ok b, s') → ∃ a s1, m s = (Ok a, s1) ∧ k a s1 = (Ok b, s').
Proof. unfold bind. destruct (m s) as [[a|e| ] s1]; [|done..]. by exists a, s1. Qed.

Lemma zoom_Ok {S2 A : Type} (get : S2 → S) (put : S → S2 → S2) (m : M S E A) t a t' :
  zoom get put m t = (Ok a, t') → ∃ s1, m (get t) = (Ok a, s1) ∧ t' = put s1 t.
Proof. unfold zoom. destruct (m (get t)) as [r s1]. intros ?; simplify_eq. by exists s1. Qed.

(** Nested loops are one loop over the concatenation. *)
Lemma foldM_concat {A B C : Type} (f : B → A → M S E B) (g : C → list A) b zs s :
  foldM (λ b z, foldM f b (g z)) b zs s = foldM f b (concat (g <$> zs)) s.
Proof.
  revert b s. induction zs as [|z zs IH]; intros b s; [done|].
  rewrite fmap_cons. cbn [foldM concat]. rewrite foldM_app. unfold bind.
  destruct (foldM f b (g z) s) as [[b'|e| ] s']; [apply IH|done..].
Qed.

Lemma wp_run {A : Type} (m : M S E A) Q R s r s' :
  wp m Q R s → m s = (r, s') →
  match r with Ok a => Q a s' | Err e => R e s' | Panic => False end.
Proof. unfold wp. intros H Hm. rewrite Hm in H. by destruct r. Qed.
End wp_rules.

(** ** Lists *)
Section sums.
Context {A : Type} `{EqDecision A}.

Lemma sumZ_app l1 l2 : sumZ (l1 ++ l2) = sumZ l1 + sumZ l2.
Proof. induction l1 as [|x l1 IH]; simpl; [done|]. unfold sumZ in *. simpl. rewrite IH. lia. Qed.

#[export] Instance sumZ_perm : Proper ((≡ₚ) ==> (=)) sumZ.
Proof.
  intros l1 l2 Hp. induction Hp; unfold sumZ in *; simpl in *; lia.
Qed.

Lemma countZ_nil (x : A) : countZ x [] = 0.
Proof. done. Qed.

Lemma countZ_cons (x y : A) l :
  countZ x (y :: l) = (if bool_decide (y = x) then 1 else 0) + countZ x l.
Proof. done. Qed.

Lemma countZ_app (x : A) l1 l2 : countZ x (l1 ++ l2) = countZ x l1 + countZ x l2.
Proof. unfold countZ. by rewrite fmap_app, sumZ_app. Qed.

Lemma countZ_nonneg (x : A) l : 0 ≤ countZ x l.
Proof.
  induction l as [|y l IH]; [done|]. rewrite countZ_cons. case_bool_decide; lia.
Qed.

Lemma countZ_elem (x : A) l : x ∈ l ↔ 0 < countZ x l.
Proof.
  induction l as [|y l IH].
  { rewrite countZ_nil. split; [by intros ?%elem_of_nil|lia]. }
  rewrite countZ_cons, elem_of_cons, IH. pose proof (countZ_nonneg x l).
  case_bool_decide as Hyx; split; intros Hc; try lia.
  - by left.
  - destruct Hc as [->|]; [done|lia].
Qed.
End sums.

Section lists.
Context {A : Type}.
Implicit Types l : list A.

Lemma lenZ_nonneg l : 0 ≤ lenZ l.
Proof. unfold lenZ; lia. Qed.

Lemma lenZ_app l1 l2 : lenZ (l1 ++ l2) = lenZ l1 + lenZ l2.
Proof. unfold lenZ. rewrite length_app. lia. Qed.

Lemma lenZ_cons x l : lenZ (x :: l) = 1 + lenZ l.
Proof. unfold lenZ; simpl; lia. Qed.

Lemma takeZ_take n l : takeZ n l = take (Z.to_nat n) l.
Proof.
  revert n. induction l as [|x l IH]; intros n; simpl.
  - by rewrite take_nil.
  - destruct (Z.ltb_spec 0 n).
    + replace (Z.to_nat n) with (S (Z.to_nat (n - 1))) by lia. simpl. by rewrite IH.
    + by replace (Z.to_nat n) with O by lia.
Qed.

Lemma dropZ_drop n l : dropZ n l = drop (Z.to_nat n) l.
Proof.
  revert n. induction l as [|x l IH]; intros n; simpl.
  - by rewrite drop_nil.
  - destruct (Z.ltb_spec 0 n).
    + replace (Z.to_nat n) with (S (Z.to_nat (n - 1))) by lia. simpl. by rewrite IH.
    + by replace (Z.to_nat n) with O by lia.
Qed.

Lemma takeZ_dropZ n l : takeZ n l ++ dropZ n l = l.
Proof. rewrite takeZ_take, dropZ_drop. apply take_drop. Qed.

Lemma lenZ_takeZ n l : lenZ (takeZ n l) = Z.max 0 (Z.min n (lenZ l)).
Proof. unfold lenZ. rewrite takeZ_take, length_take. lia. Qed.

Lemma lenZ_dropZ n l : lenZ (dropZ n l) = Z.max 0 (lenZ l - Z.max 0 n).
Proof. unfold lenZ. rewrite dropZ_drop, length_drop. lia. Qed.

Lemma takeZ_ge n l : lenZ l ≤ n → takeZ n l = l.
Proof. unfold lenZ. intros. rewrite takeZ_take. apply take_ge. lia. Qed.

Lemma takeZ_le0 n l : n ≤ 0 → takeZ n l = [].
Proof. intros. rewrite takeZ_take. by replace (Z.to_nat n) with O by lia. Qed.

Lemma dropZ_le0 n l : n ≤ 0 → dropZ n l = l.
Proof. intros. rewrite dropZ_drop. by replace (Z.to_nat n) with O by lia. Qed.

Lemma lookup_takeZ n l (i : nat) : Z.of_nat i < n → takeZ n l !! i = l !! i.
Proof. intros. rewrite takeZ_take. apply lookup_take_lt. lia. Qed.

Lemma lookup_dropZ n l (i : nat) : dropZ n l !! i = l !! (Z.to_nat n + i)%nat.
Proof. rewrite dropZ_drop. apply lookup_drop. Qed.

Lemma chunks_fuel_concat fuel n l :
  0 < n → (length l ≤ fuel)%nat → concat (chunks_fuel fuel n l) = l.
Proof.
  intros Hn. revert l. induction fuel as [|fuel IH]; intros l Hl; simpl.
  - by destruct l; simpl in Hl; [|lia].
  - destruct l as [|x l]; [done|]. cbn [concat].
    rewrite IH; [apply takeZ_dropZ|]. rewrite dropZ_drop, length_drop. simpl in *. lia.
Qed.

Lemma concat_chunks n l : 0 < n → concat (chunks n l) = l.
Proof. intros. by apply chunks_fuel_concat. Qed.

Lemma chunks_fuel_bound fuel n l :
  0 < n → Forall (λ c, 0 < lenZ c ≤ n) (chunks_fuel fuel n l).
Proof.
  intros Hn. revert l. induction fuel as [|fuel IH]; intros l; simpl; [constructor|].
  destruct l as [|x l]; constructor; [|apply IH].
  rewrite lenZ_takeZ, lenZ_cons. pose proof (lenZ_nonneg l). lia.
Qed.

Lemma chunks_bound n l : 0 < n → Forall (λ c, 0 < lenZ c ≤ n) (chunks n l).
Proof. intros. by apply chunks_fuel_bound. Qed.
End lists.
#[export] Hint Resolve lenZ_nonneg : space.

(** ** Reading and writing byte ranges of a file *)
Section files.
Implicit Types file data : bytes.

Lemma write_at_nonempty file off data :
  data ≠ [] →
  write_at file off data = takeZ off file ++ replicate (Z.to_nat (off - lenZ file)) x00
    ++ data ++ dropZ (off + lenZ data) file.
Proof. by destruct data. Qed.

Lemma write_at_length file off data :
  0 ≤ off → data ≠ [] → lenZ (write_at file off data) = Z.max (lenZ file) (off + lenZ data).
Proof.
  intros. rewrite write_at_nonempty by done. rewrite !lenZ_app, lenZ_takeZ, lenZ_dropZ.
  unfold lenZ. rewrite length_replicate. lia.
Qed.

Lemma write_at_length_ge file off data : 0 ≤ off → lenZ file ≤ lenZ (write_at file off data).
Proof.
  intros. destruct data as [|x d]; [simpl; lia|]. rewrite write_at_length by done. lia.
Qed.

Lemma write_at_length_data file off data :
  0 ≤ off → 0 < lenZ data → off + lenZ data ≤ lenZ (write_at file off data).
Proof.
  intros. destruct data as [|x d]; [done|]. rewrite write_at_length by done. lia.
Qed.

Lemma write_at_lookup file off data (i : nat) :
  0 ≤ off → (Z.of_nat i < off ∨ off + lenZ data ≤ Z.of_nat i) → (i < length file)%nat →
  write_at file off data !! i = file !! i.
Proof.
  intros Hoff Hi Hf. destruct (decide (data = [])) as [->|Hd]; [done|].
  rewrite write_at_nonempty by done.
  destruct Hi as [Hi | Hi].
  - rewrite lookup_app_l; [by apply lookup_takeZ|].
    rewrite takeZ_take, length_take. lia.
  - rewrite lookup_app_r; rewrite takeZ_take, length_take; [|unfold lenZ in *; lia].
    rewrite lookup_app_r; rewrite length_replicate; [|unfold lenZ in *; lia].
    rewrite lookup_app_r; [|unfold lenZ in *; lia].
    rewrite lookup_dropZ. f_equal. unfold lenZ in *. lia.
Qed.

Lemma read_at_Some file off len :
  0 ≤ off → 0 ≤ len → off + len ≤ lenZ file →
  read_at file off len = Some (takeZ len (dropZ off file)).
Proof.
  intros. unfold read_at. rewrite lenZ_takeZ, lenZ_dropZ.
  case_if; [done|]. lia.
Qed.

Lemma read_at_is_Some file off len r :
  0 ≤ off → 0 < len → read_at file off len = Some r → off + len ≤ lenZ file.
Proof. unfold read_at. rewrite lenZ_takeZ, lenZ_dropZ. intros. case_if; [lia|done]. Qed.

Lemma read_at_0 file off : read_at file off 0 = Some [].
Proof. unfold read_at. by rewrite takeZ_le0. Qed.

(** Reading a range depends only on the bytes of the range. *)
Lemma read_at_ext file1 file2 off len :
  0 ≤ off → 0 ≤ len → off + len ≤ lenZ file1 → off + len ≤ lenZ file2 →
  (∀ i : nat, off ≤ Z.of_nat i < off + len → file1 !! i = file2 !! i) →
  read_at file1 off len = read_at file2 off len.
Proof.
  intros. rewrite !read_at_Some by done. f_equal.
  apply list_eq. intros i. destruct (decide (Z.of_nat i < len)).
  - rewrite !lookup_takeZ, !lookup_dropZ by done. apply H3. lia.
  - rewrite !lookup_ge_None_2; [done| |]; rewrite takeZ_take, length_take; lia.
Qed.

Lemma read_write_disjoint file off data o len :
  0 ≤ off → 0 ≤ o → 0 ≤ len → o + len ≤ lenZ file → (o + len ≤ off ∨ off + lenZ data ≤ o) →
  read_at (write_at file off data) o len = read_at file o len.
Proof.
  intros. pose proof (write_at_length_ge file off data). apply read_at_ext; try done.
  - lia.
  - intros i Hi. apply write_at_lookup; [done| |unfold lenZ in *]; lia.
Qed.

Lemma read_write_same file off data n :
  0 ≤ off → 0 ≤ n ≤ lenZ data → read_at (write_at file off data) off n = Some (takeZ n data).
Proof.
  intros. destruct (decide (data = [])) as [->|Hd].
  { replace n with 0 by (cbv [lenZ length] in *; lia). apply read_at_0. }
  rewrite read_at_Some; [|lia|lia|rewrite write_at_length by done; lia].
  rewrite write_at_nonempty by done.
  f_equal. rewrite app_assoc, !takeZ_take, !dropZ_drop.
  rewrite drop_app_length'.
  - rewrite take_app_le; [done|]. unfold lenZ in *. lia.
  - rewrite length_app, length_take, length_replicate. unfold lenZ in *. lia.
Qed.
End files.

(** ** Bytes *)
Section byte_lemmas.
Lemma Z_of_byte_bound b : 0 ≤ Z_of_byte b < 256.
Proof. unfold Z_of_byte. pose proof (Byte.to_N_bounded b). lia. Qed.

Lemma byte_of_Z_Z_of_byte b : byte_of_Z (Z_of_byte b) = b.
Proof.
  unfold byte_of_Z. pose proof (Z_of_byte_bound b).
  rewrite Z.mod_small by done. unfold Z_of_byte. by rewrite N2Z.id, Byte.of_to_N.
Qed.

Lemma Z_of_byte_byte_of_Z z : Z_of_byte (byte_of_Z z) = z `mod` 256.
Proof.
  unfold byte_of_Z, Z_of_byte. pose proof (Z.mod_pos_bound z 256 ltac:(lia)).
  destruct (Byte.of_N _) as [b|] eqn:Hb.
  - apply Byte.to_of_N in Hb. lia.
  - apply Byte.of_N_None_iff in Hb. lia.
Qed.

Lemma length_to_le_bytes n z : length (to_le_bytes n z) = n.
Proof. revert z. induction n; intros; simpl; congruence. Qed.

Lemma from_to_le_bytes n z : from_le_bytes (to_le_bytes n z) = z `mod` 256 ^ Z.of_nat n.
Proof.
  revert z. induction n as [|n IH]; intros z; cbn [to_le_bytes from_le_bytes].
  - by rewrite Z.mod_1_r.
  - rewrite IH, Z_of_byte_byte_of_Z, Nat2Z.inj_succ, Z.pow_succ_r by lia.
    rewrite Z.rem_mul_r by lia. lia.
Qed.

Lemma to_le_bytes_inj n z1 z2 :
  0 ≤ z1 < 256 ^ Z.of_nat n → 0 ≤ z2 < 256 ^ Z.of_nat n →
  to_le_bytes n z1 = to_le_bytes n z2 → z1 = z2.
Proof.
  intros H1 H2 H%(f_equal from_le_bytes).
  rewrite !from_to_le_bytes, !Z.mod_small in H; done.
Qed.

#[export] Instance string_bytes_inj : Inj (=) (=) string_bytes.
Proof.
  intros s s' Hs%(f_equal String.string_of_list_byte). by rewrite !String.string_of_list_byte_of_string in Hs.
Qed.
End byte_lemmas.

(** ** Hash iteration *)
Lemma hash_iter_elem `{HashOrder} {K V : Type} `{Countable K} (m : gmap K V) k v :
  (k, v) ∈ hash_iter m ↔ m !! k = Some v.
Proof. rewrite hash_iter_perm. apply elem_of_map_to_list. Qed.

Lemma hash_iter_NoDup `{HashOrder} {K V : Type} `{Countable K} (m : gmap K V) :
  NoDup (hash_iter m).*1.
Proof.
  rewrite (fmap_Permutation fst _ _ (hash_iter_perm m)). apply NoDup_fst_map_to_list.
Qed.
#[export] Hint Resolve hash_iter_NoDup : space.

(** ** Strings put together *)
Lemma append_empty s : s +:+ "" = s.
Proof. induction s as [|x s IH]; [done|]. exact (f_equal (String x) IH). Qed.

Lemma append_assoc s1 s2 s3 : (s1 +:+ s2) +:+ s3 = s1 +:+ (s2 +:+ s3).
Proof. induction s1 as [|x s IH]; [done|]. exact (f_equal (String x) IH). Qed.

Lemma append_cons x s r : String x s +:+ r = String x (s +:+ r).
Proof. done. Qed.

Lemma str_prefix_app p s : str_prefix p s = true ↔ ∃ r, s = p +:+ r.
Proof.
  revert s. induction p as [|x p IH]; intros s; [split; [by exists s|done]|].
  destruct s as [|y s]; simpl; [split; [done|by intros [r Hr]]|]. rewrite andb_true_iff, IH. split.
  - intros [->%Ascii.eqb_eq [r ->]]. by exists r.
  - intros [r Hr]. rewrite append_cons in Hr. injection Hr as -> ->. rewrite Ascii.eqb_refl. eauto.
Qed.

Lemma length_append s r : String.length (s +:+ r) = (String.length s + String.length r)%nat.
Proof. induction s as [|x s IH]; [done|]. rewrite append_cons. simpl. by rewrite IH. Qed.

Lemma has_char_app c s r : has_char c (s +:+ r) = has_char c s || has_char c r.
Proof. induction s as [|x s IH]; [done|]. simpl. by rewrite IH, orb_assoc. Qed.

(** Parts before the first separator tell joined strings apart. *)
Lemma append_char_inj c s1 s2 r1 r2 :
  has_char c s1 = false → has_char c s2 = false →
  s1 +:+ String c r1 = s2 +:+ String c r2 → s1 = s2 ∧ r1 = r2.
Proof.
  revert s2. induction s1 as [|x s1 IH]; intros [|y s2]; simpl; intros H1 H2 He.
  - by injection He.
  - rewrite append_cons in He. injection He as <- _. by rewrite Ascii.eqb_refl in H2.
  - rewrite append_cons in He. injection He as -> _. by rewrite Ascii.eqb_refl in H1.
  - rewrite !append_cons in He. injection He as -> He.
    apply orb_false_iff in H1 as [_ H1]. apply orb_false_iff in H2 as [_ H2].
    by destruct (IH s2 H1 H2 He) as [-> ->].
Qed.

Lemma append_inj_l s r1 r2 : s +:+ r1 = s +:+ r2 → r1 = r2.
Proof. induction s as [|x s IH]; [done|]. rewrite !append_cons. intros [= He]. by apply IH. Qed.

(** ** Ordered maps *)

(** A [BTreeMap] iterates in the order of its keys, compared byte by byte. *)
Definition key_le {A : Type} (a b : string * A) : Prop := String.leb a.1 b.1 = true.
#[export] Instance key_le_dec {A : Type} : RelDecision (@key_le A).
Proof. intros a b. unfold key_le. apply _. Defined.
Definition btree_iter {A : Type} (m : gmap string A) : list (string * A) :=
  merge_sort key_le (map_to_list m).

Lemma string_leb_trans s1 s2 s3 : String.leb s1 s2 = true → String.leb s2 s3 = true → String.leb s1 s3 = true.
Proof.
  revert s2 s3. induction s1 as [|x s1 IH]; intros [|y s2] [|z s3]; try done.
  unfold String.leb, Ascii.compare in *. simpl. unfold Ascii.compare.
  destruct (N.compare_spec (Ascii.N_of_ascii x) (Ascii.N_of_ascii y)),
    (N.compare_spec (Ascii.N_of_ascii y) (Ascii.N_of_ascii z)),
    (N.compare_spec (Ascii.N_of_ascii x) (Ascii.N_of_ascii z)); try done; try lia.
  apply IH.
Qed.

#[export] Instance key_le_trans {A : Type} : Transitive (@key_le A).
Proof. intros a b c. apply string_leb_trans. Qed.
#[export] Instance key_le_total {A : Type} : Total (@key_le A).
Proof. intros a b. apply String.leb_total. Qed.

Lemma btree_iter_perm {A : Type} (m : gmap string A) : btree_iter m ≡ₚ map_to_list m.
Proof. apply merge_sort_Permutation. Qed.

Lemma btree_iter_sorted {A : Type} (m : gmap string A) : StronglySorted key_le (btree_iter m).
Proof. apply (StronglySorted_merge_sort _). Qed.

Lemma elem_of_btree_iter {A : Type} (m : gmap string A) k x : (k, x) ∈ btree_iter m ↔ m !! k = Some x.
Proof. rewrite btree_iter_perm. apply elem_of_map_to_list. Qed.

Lemma NoDup_btree_iter {A : Type} (m : gmap string A) : NoDup (btree_iter m).*1.
Proof. rewrite btree_iter_perm. apply NoDup_fst_map_to_list. Qed.

Lemma StronglySorted_filter {A : Type} (R : relation A) (Q : A → Prop) `{∀ x, Decision (Q x)} l :
  StronglySorted R l → StronglySorted R (filter Q l).
Proof.
  induction 1 as [|x l Hl IH Hx]; [constructor|]. rewrite filter_cons. case_decide; [|done].
  constructor; [done|]. apply Forall_forall. intros y [_ Hy]%list_elem_of_filter.
  by eapply Forall_forall in Hx.
Qed.
