(* ===== verification/Errors.v ===== *)
(** Error values of the workspace: [CompressionError] (crates/compression/src/error.rs),
    [EncryptionError] (crates/encryption/src/error.rs), [DedupError] and [PipelineError]
    (crates/capsule-registry/src/error.rs), and the [anyhow::Error] that wraps them.
    A formatted message keeps its literal text and, where the text names one, the
    segment; the other format arguments are dropped. *)
From S2P Require Import Prelude.

(** [pub struct SegmentId(pub u64)] *)
Record SegmentId := mkSegmentId { seg_u64 : Z }.

(** The codec named by a compression error. *)
Inductive CompressionError : Type :=
| EntropySkip (entropy : f32) (size : Z)
| IneffectiveRatio (ratio : f32) (size : Z)
| InvalidPolicy (reason : string)
| CompIo (algorithm : string)
| Codec (algorithm : string) (message : string)
| IntegrityFailure (algorithm : string).

Inductive DedupError : Type :=
| HashCollision (hash : string)
| RegistrationFailed (hash reason : string)
| LookupFailed (hash reason : string).

(** [EncryptionError], [PipelineError] and [anyhow::Error] wrap one another. *)
Inductive EncryptionError : Type :=
| KeyNotFound (version : Z)
| InvalidKeyLength (expected actual : Z)
| KeyDerivationFailed (reason : string)
| KeyRotationInProgress
| EncryptionFailed (reason : string)
| DecryptionFailed (reason : string)
| InvalidTweakLength (len : Z)
| InvalidCiphertextLength (len : Z)
| MacMismatch
| MissingIntegrityTag
| InvalidMacLength (len : Z)
| UnsupportedVersion (version : Z)
| MissingMetadata
| CorruptedMetadata (reason : string)
| EncryptionNotEnabled
| InvalidConfiguration (reason : string)
| AesNiNotAvailable
| HardwareAccelerationFailed (reason : string)
| SerializationError
| CipherError (reason : string)
| EncIoError
| EncOther (source : Error)
with PipelineError : Type :=
| PeCompression (segment_index : Z) (source : CompressionError)
| PeDedup (source : DedupError)
| PeEncryption (source : EncryptionError)
| PeRegistry (operation : string) (source : Error)
| PeNvram (operation : string) (source : Error)
| PeTelemetry (reason : string)
| PeInvariant (reason : string)
with Error : Type :=
| Msg (text : string)
| MsgSegment (text : string) (id : SegmentId)
| IoFailed (operation : string)
| JsonFailed
| Context (context : string) (source : Error)
| OfCompression (e : CompressionError)
| OfEncryption (e : EncryptionError)
| OfPipeline (e : PipelineError).

(** [err.downcast::<CompressionError>()] looks through the attached contexts. *)
Fixpoint downcast_compression (err : Error) : option CompressionError :=
  match err with
  | OfCompression e => Some e
  | Context _ source => downcast_compression source
  | _ => None
  end.

#[export] Instance SegmentId_eq_dec : EqDecision SegmentId.
Proof. solve_decision. Defined.

#[export] Instance SegmentId_countable : Countable SegmentId :=
  inj_countable' seg_u64 mkSegmentId (λ '(mkSegmentId z), eq_refl).
