(* ===== verification/Common.v ===== *)
(** Crate [common] (crates/common/src/lib.rs, policy.rs, traits.rs): identifiers,
    policies and their presets, capsule and segment metadata, the summaries the
    engines return, the PODMS types and the migration hooks of a capsule. *)
From S2P Require Import Prelude Errors.
From Stdlib Require Import Floats.SpecFloat.

#[export] Instance byte_eq_decision : EqDecision byte := Byte.byte_eq_dec.
#[export] Instance byte_countable : Countable byte :=
  inj_countable Byte.to_N Byte.of_N Byte.of_to_N.

Definition SEGMENT_SIZE : Z := 4 * 1024 * 1024.

(** ** Identifiers *)

(** [pub struct CapsuleId(pub Uuid)]; a UUID is its 16 bytes. *)
Record CapsuleId := mkCapsuleId { as_uuid : bytes }.

(** Shard keys: the first eight bytes of the UUID, then consecutive values. *)
Definition shard_keys (id : CapsuleId) (count : Z) : list Z :=
  let count := Z.max count 1 in
  let base := from_le_bytes (takeZ 8 (as_uuid id)) in
  (λ idx, u64_add base (Z.of_nat idx)) <$> seq 0 (Z.to_nat count).

(** [pub struct ContentHash(pub String)] *)
Record ContentHash := mkContentHash { as_str : string }.

(** ** Policies *)
Inductive CryptoProfile := Classical | HybridKyber.

Inductive CompressionPolicy :=
| CompNone
| LZ4 (level : Z)
| Zstd (level : Z).

Definition CompressionPolicy_default : CompressionPolicy := LZ4 1.

Inductive EncryptionPolicy :=
| Disabled
| XtsAes256 (key_version : option Z).

Definition is_enabled (p : EncryptionPolicy) : bool :=
  match p with
  | Disabled => false
  | XtsAes256 _ => true
  end.

Definition policy_key_version (p : EncryptionPolicy) : option Z :=
  match p with
  | Disabled => None
  | XtsAes256 key_version => key_version
  end.

Inductive MerkleAlgo := Blake3 | SphincsPlus.

Inductive LayoutStrategy :=
| Fixed (segment_size : Z)
| AdaptiveEntropy
| ZnsGraph (zone_size_mib graph_radius : Z)
| Learned (model_path : string)
| QuantumReady (merkle_algo : MerkleAlgo).

Record LayoutPolicy := mkLayoutPolicy {
  strategy : LayoutStrategy;
  ec_profile : Z * Z;
  heat_threshold : f32;
}.

Definition LayoutPolicy_default : LayoutPolicy :=
  {| strategy := Fixed (4 * 1024 * 1024);
     ec_profile := (6, 2);
     heat_threshold := f32_lit 7 1 |}.

Definition default_segment_size (s : LayoutStrategy) : Z :=
  match s with
  | Fixed segment_size => segment_size
  | AdaptiveEntropy => 4 * 1024 * 1024
  | ZnsGraph zone_size_mib _ => u64_saturating_mul zone_size_mib (1024 * 1024)
  | Learned _ => 4 * 1024 * 1024
  | QuantumReady _ => 4 * 1024 * 1024
  end.

(** Data sovereignty level controlling replication scope. *)
Inductive SovereigntyLevel := Local | Zone | Global.

(** [std::time::Duration], in nanoseconds. *)
Definition Duration : Type := Z.
Definition from_secs (s : Z) : Duration := s * 1000000000.
Definition from_millis (ms : Z) : Duration := ms * 1000000.

Record Policy := mkPolicy {
  compression : CompressionPolicy;
  dedupe : bool;
  compact_interval_secs : option Z;
  erasure_profile : option string;
  encryption : EncryptionPolicy;
  crypto_profile : CryptoProfile;
  layout : LayoutPolicy;
  rpo : Duration;
  latency_target : Duration;
  sovereignty : SovereigntyLevel;
}.

Definition default_rpo : Duration := from_secs 60.
Definition default_latency_target : Duration := from_millis 10.

Definition Policy_default : Policy :=
  {| compression := CompressionPolicy_default;
     dedupe := true;
     compact_interval_secs := Some 3600;
     erasure_profile := None;
     encryption := Disabled;
     crypto_profile := Classical;
     layout := LayoutPolicy_default;
     rpo := default_rpo;
     latency_target := default_latency_target;
     sovereignty := Local |}.

Definition text_optimized : Policy :=
  {| compression := Zstd 3;
     dedupe := true;
     compact_interval_secs := Some 1800;
     erasure_profile := None;
     encryption := Disabled;
     crypto_profile := Classical;
     layout := LayoutPolicy_default;
     rpo := default_rpo;
     latency_target := default_latency_target;
     sovereignty := Local |}.

Definition precompressed : Policy :=
  {| compression := CompNone;
     dedupe := false;
     compact_interval_secs := Some 7200;
     erasure_profile := None;
     encryption := Disabled;
     crypto_profile := Classical;
     layout := LayoutPolicy_default;
     rpo := default_rpo;
     latency_target := default_latency_target;
     sovereignty := Local |}.

Definition edge_optimized : Policy :=
  {| compression := LZ4 1;
     dedupe := false;
     compact_interval_secs := None;
     erasure_profile := None;
     encryption := Disabled;
     crypto_profile := Classical;
     layout := LayoutPolicy_default;
     rpo := from_secs 300;
     latency_target := from_millis 50;
     sovereignty := Local |}.

Definition encrypted : Policy :=
  {| compression := CompressionPolicy_default;
     dedupe := true;
     compact_interval_secs := Some 3600;
     erasure_profile := None;
     encryption := XtsAes256 None;
     crypto_profile := Classical;
     layout := LayoutPolicy_default;
     rpo := default_rpo;
     latency_target := default_latency_target;
     sovereignty := Local |}.

Definition encrypted_compressed : Policy :=
  {| compression := Zstd 3;
     dedupe := true;
     compact_interval_secs := Some 3600;
     erasure_profile := None;
     encryption := XtsAes256 None;
     crypto_profile := Classical;
     layout := LayoutPolicy_default;
     rpo := default_rpo;
     latency_target := default_latency_target;
     sovereignty := Local |}.

Definition metro_sync : Policy :=
  {| compression := LZ4 1;
     dedupe := true;
     compact_interval_secs := Some 3600;
     erasure_profile := None;
     encryption := XtsAes256 None;
     crypto_profile := Classical;
     layout := LayoutPolicy_default;
     rpo := 0;
     latency_target := from_millis 2;
     sovereignty := Zone |}.

Definition geo_replicated : Policy :=
  {| compression := Zstd 3;
     dedupe := true;
     compact_interval_secs := Some 3600;
     erasure_profile := None;
     encryption := XtsAes256 None;
     crypto_profile := Classical;
     layout := LayoutPolicy_default;
     rpo := from_secs 300;
     latency_target := from_millis 100;
     sovereignty := Global |}.

(** ** Capsules and segments *)
Record Capsule := mkCapsule {
  cap_id : CapsuleId;
  cap_size : Z;
  cap_segments : list SegmentId;
  cap_created_at : Z;
  cap_policy : Policy;
  cap_deduped_bytes : Z;
}.

Record Segment := mkSegment {
  seg_id : SegmentId;
  seg_offset : Z;
  seg_len : Z;
  seg_compressed : bool;
  seg_compression_algo : string;
  seg_content_hash : option ContentHash;
  seg_ref_count : Z;
  seg_deduplicated : bool;
  seg_access_count : Z;
  seg_encryption_version : option Z;
  seg_key_version : option Z;
  seg_tweak_nonce : option bytes;
  seg_integrity_tag : option bytes;
  seg_encrypted : bool;
  seg_pq_ciphertext : option string;
  seg_pq_nonce : option bytes;
}.

(** Field updates of a segment, as the code assigns them together. *)
Definition set_refs (ref_count access_count : Z) (s : Segment) : Segment :=
  {| seg_id := seg_id s; seg_offset := seg_offset s; seg_len := seg_len s;
     seg_compressed := seg_compressed s; seg_compression_algo := seg_compression_algo s;
     seg_content_hash := seg_content_hash s;
     seg_ref_count := ref_count;
     seg_deduplicated := 1 <? ref_count;
     seg_access_count := access_count;
     seg_encryption_version := seg_encryption_version s;
     seg_key_version := seg_key_version s; seg_tweak_nonce := seg_tweak_nonce s;
     seg_integrity_tag := seg_integrity_tag s; seg_encrypted := seg_encrypted s;
     seg_pq_ciphertext := seg_pq_ciphertext s; seg_pq_nonce := seg_pq_nonce s |}.

Definition set_compression (compressed : bool) (algo : string) (s : Segment) : Segment :=
  {| seg_id := seg_id s; seg_offset := seg_offset s; seg_len := seg_len s;
     seg_compressed := compressed; seg_compression_algo := algo;
     seg_content_hash := seg_content_hash s; seg_ref_count := seg_ref_count s;
     seg_deduplicated := seg_deduplicated s; seg_access_count := seg_access_count s;
     seg_encryption_version := seg_encryption_version s;
     seg_key_version := seg_key_version s; seg_tweak_nonce := seg_tweak_nonce s;
     seg_integrity_tag := seg_integrity_tag s; seg_encrypted := seg_encrypted s;
     seg_pq_ciphertext := seg_pq_ciphertext s; seg_pq_nonce := seg_pq_nonce s |}.

Definition set_content_hash (h : option ContentHash) (s : Segment) : Segment :=
  {| seg_id := seg_id s; seg_offset := seg_offset s; seg_len := seg_len s;
     seg_compressed := seg_compressed s; seg_compression_algo := seg_compression_algo s;
     seg_content_hash := h; seg_ref_count := seg_ref_count s;
     seg_deduplicated := seg_deduplicated s; seg_access_count := seg_access_count s;
     seg_encryption_version := seg_encryption_version s;
     seg_key_version := seg_key_version s; seg_tweak_nonce := seg_tweak_nonce s;
     seg_integrity_tag := seg_integrity_tag s; seg_encrypted := seg_encrypted s;
     seg_pq_ciphertext := seg_pq_ciphertext s; seg_pq_nonce := seg_pq_nonce s |}.

Definition set_encryption (version key : option Z) (tweak tag : option bytes) (s : Segment) : Segment :=
  {| seg_id := seg_id s; seg_offset := seg_offset s; seg_len := seg_len s;
     seg_compressed := seg_compressed s; seg_compression_algo := seg_compression_algo s;
     seg_content_hash := seg_content_hash s; seg_ref_count := seg_ref_count s;
     seg_deduplicated := seg_deduplicated s; seg_access_count := seg_access_count s;
     seg_encryption_version := version; seg_key_version := key; seg_tweak_nonce := tweak;
     seg_integrity_tag := tag; seg_encrypted := true;
     seg_pq_ciphertext := seg_pq_ciphertext s; seg_pq_nonce := seg_pq_nonce s |}.

Inductive Event :=
| CapsuleCreated (capsule_id : CapsuleId) (size : Z) (segments : Z) (policy : Policy)
| CapsuleRead (capsule_id : CapsuleId) (size : Z)
| CapsuleDeleted (capsule_id : CapsuleId) (reclaimed_bytes : Z)
| SegmentAppended (segment_id : SegmentId) (len : Z) (content_hash : option ContentHash)
    (encrypted : bool)
| DedupHit (segment_id : SegmentId) (capsule_id : CapsuleId) (content_hash : ContentHash)
| AuditHeartbeat (timestamp capsules segments : Z).

(** ** Summaries returned by the engines (traits.rs) *)
(** [Cow<'a, [u8]>] *)
Inductive Cow := Borrowed (b : bytes) | Owned (b : bytes).
Definition as_ref (c : Cow) : bytes := match c with Borrowed b | Owned b => b end.

Record CompressionSummary := mkCompressionSummary {
  cs_original_size : Z;
  cs_output_size : Z;
  cs_algorithm : string;
  cs_compressed : bool;
  cs_reused_input : bool;
  cs_reason : option string;
}.

Definition CompressionSummary_new (original_size output_size : Z) (algorithm : string) :
    CompressionSummary :=
  {| cs_original_size := original_size;
     cs_output_size := output_size;
     cs_algorithm := algorithm;
     cs_compressed := output_size <? original_size;
     cs_reused_input := false;
     cs_reason := None |}.

Definition CompressionSummary_ratio (s : CompressionSummary) : f32 :=
  if cs_output_size s =? 0 then f32_of_Z 1
  else f32_div (f32_of_Z (cs_original_size s)) (f32_of_Z (cs_output_size s)).

Record EncryptionSummary := mkEncryptionSummary {
  es_algorithm : string;
  es_key_version : option Z;
  es_encryption_version : option Z;
  es_mac : option bytes;
  es_tweak_nonce : option bytes;
  es_integrity_tag : option bytes;
}.

Definition EncryptionSummary_new (algorithm : string) : EncryptionSummary :=
  {| es_algorithm := algorithm; es_key_version := None; es_encryption_version := None;
     es_mac := None; es_tweak_nonce := None; es_integrity_tag := None |}.

Record DedupStats := mkDedupStats {
  total_segments : Z;
  deduped_segments : Z;
  bytes_saved : Z;
  dedup_ratio : f32;
}.

Definition DedupStats_new : DedupStats :=
  {| total_segments := 0; deduped_segments := 0; bytes_saved := 0; dedup_ratio := f32_of_Z 0 |}.

Definition record (segment_len : Z) (was_deduped : bool) (s : DedupStats) : DedupStats :=
  {| total_segments := u64_add (total_segments s) 1;
     deduped_segments :=
       if was_deduped then u64_add (deduped_segments s) 1 else deduped_segments s;
     bytes_saved := if was_deduped then u64_add (bytes_saved s) segment_len else bytes_saved s;
     dedup_ratio := dedup_ratio s |}.

Definition add_segment (segment_len : Z) (was_deduped : bool) (s : DedupStats) : DedupStats :=
  record segment_len was_deduped s.

Definition compute_ratio (s : DedupStats) : DedupStats :=
  if (0 <? bytes_saved s) && (0 <? total_segments s) then
    let total_bytes := u64_mul (total_segments s) SEGMENT_SIZE in
    {| total_segments := total_segments s;
       deduped_segments := deduped_segments s;
       bytes_saved := bytes_saved s;
       dedup_ratio :=
         f32_div (f32_of_Z total_bytes) (f32_of_Z (saturating_sub total_bytes (bytes_saved s))) |}
  else s.

(** ** PODMS types *)
Record NodeId := mkNodeId { node_uuid : bytes }.

Inductive ZoneId :=
| Metro (name : string)
| Geo (name : string)
| Edge (name : string).

Definition ZoneId_display (z : ZoneId) : string :=
  match z with
  | Metro name => "metro:" ++ name
  | Geo name => "geo:" ++ name
  | Edge name => "edge:" ++ name
  end.

Inductive Telemetry :=
| NewCapsule (id : CapsuleId) (policy : Policy) (node_id : option NodeId)
| HeatSpike (id : CapsuleId) (accesses_per_min : Z) (node_id : option NodeId)
| CapacityThreshold (node_id : NodeId) (used_bytes total_bytes : Z) (threshold_pct : f64)
| NodeDegraded (node_id : NodeId) (reason : string)
| ViewProjection (id : CapsuleId) (view : string).

#[export] Instance CapsuleId_eq_dec : EqDecision CapsuleId.
Proof. solve_decision. Defined.
#[export] Instance CapsuleId_countable : Countable CapsuleId :=
  inj_countable' as_uuid mkCapsuleId (λ '(mkCapsuleId u), eq_refl).
#[export] Instance ContentHash_eq_dec : EqDecision ContentHash.
Proof. solve_decision. Defined.
#[export] Instance ContentHash_countable : Countable ContentHash :=
  inj_countable' as_str mkContentHash (λ '(mkContentHash s), eq_refl).
#[export] Instance Segment_eq_dec : EqDecision Segment.
Proof. solve_decision. Defined.
#[export] Instance NodeId_eq_dec : EqDecision NodeId.
Proof. solve_decision. Defined.
#[export] Instance NodeId_countable : Countable NodeId :=
  inj_countable' node_uuid mkNodeId (λ '(mkNodeId u), eq_refl).
#[export] Instance ZoneId_eq_dec : EqDecision ZoneId.
Proof. solve_decision. Defined.
#[export] Instance SovereigntyLevel_eq_dec : EqDecision SovereigntyLevel.
Proof. solve_decision. Defined.
#[export] Instance CompressionPolicy_eq_dec : EqDecision CompressionPolicy.
Proof. solve_decision. Defined.

(** ** Swarm behaviour of a capsule (placeholders included, as written) *)

(** [Capsule::is_compressed] is a placeholder in the code. *)
Definition is_compressed (c : Capsule) : bool := false.

(** [apply_transform] decides whether recompression would be needed, and returns
    the data unchanged either way. *)
Definition needs_recompression (c : Capsule) (policy : Policy) : bool :=
  match compression policy with
  | CompNone => false
  | LZ4 _ | Zstd _ => negb (is_compressed c)
  end.

Definition apply_transform (c : Capsule) (data : bytes) (policy : Policy) : Res Error bytes :=
  let _ := needs_recompression c policy in
  Ok data.

Definition on_migrate (c : Capsule) (destination : NodeId) (dest_zone : ZoneId) : Res Error unit :=
  match sovereignty (cap_policy c) with
  | Local => Err (Msg "capsule has Local sovereignty, cannot migrate")
  | Zone => Ok tt
  | Global => Ok tt
  end.

Definition requires_transform (source_zone dest_zone : ZoneId) : bool :=
  negb (bool_decide (source_zone = dest_zone)).

(** ** Facts shared by the components *)
Lemma set_refs_id r a s : seg_id (set_refs r a s) = seg_id s.
Proof. done. Qed.

Lemma shard_keys_length id count : length (shard_keys id count) = Z.to_nat (Z.max count 1).
Proof. unfold shard_keys. by rewrite length_fmap, length_seq. Qed.

(** Shard keys are pairwise distinct unless more than 2^64 are asked for. *)
Lemma shard_keys_NoDup id count : count ≤ 2 ^ 64 → NoDup (shard_keys id count).
Proof.
  intros Hc. unfold shard_keys. apply NoDup_fmap_2_strong; [|apply NoDup_seq].
  intros i j Hi%elem_of_seq Hj%elem_of_seq Heq. unfold u64_add, wrap in Heq.
  set (b := from_le_bytes _) in *.
  assert ((b + Z.of_nat i - (b + Z.of_nat j)) `mod` 2 ^ 64 = 0) as Hm.
  { rewrite Zminus_mod, Heq, Z.sub_diag. done. }
  replace (b + Z.of_nat i - (b + Z.of_nat j)) with (Z.of_nat i - Z.of_nat j) in Hm by lia.
  apply Z.mod_divide in Hm as [k Hk]; [|done]. nia.
Qed.
