(* ===== verification/Traits.v ===== *)
(** Crate [common], crates/common/src/traits.rs: the traits the modular pipeline
    composes, as classes of operations.  A method that takes [&mut self], or shares
    its state behind an [Arc], is a stateful call; a pure [&self] method is a
    function.  Each trait the pipeline's correctness rests on has a second class with
    the laws its implementation owes the pipeline. *)
From S2P Require Import Prelude Errors Common.

(** ** Operations *)
Class Compressor := {
  tr_compress : bytes → CompressionPolicy → Res Error (Cow * CompressionSummary);
  tr_decompress : bytes → string → Res Error bytes;
  tr_supports_algorithm : string → bool;
}.

Class Deduper (Dd : Type) := {
  tr_hash_content : bytes → ContentHash;
  tr_check_dedup : ContentHash → Dd → option SegmentId;
  tr_register_content : ContentHash → SegmentId → M Dd Error unit;
  tr_update_stats : Z → bool → Dd → Dd;
  tr_stats : Dd → DedupStats;
}.

Class Encryptor (X : Type) := {
  tr_encrypt : bytes → EncryptionPolicy → SegmentId → M X Error (bytes * EncryptionSummary);
  tr_decrypt : bytes → EncryptionPolicy → SegmentId → M X Error bytes;
  tr_compute_mac : bytes → SegmentId → Res Error bytes;
  tr_verify_mac : bytes → bytes → SegmentId → Res Error unit;
}.

Class Keyring (X : Type) := {
  kr_derive_key : CapsuleId → SegmentId → M X Error bytes;
  kr_rotate_key : CapsuleId → M X Error unit;
}.

(** A backend [S] whose transactions [T] share it. [tx_drop] is what dropping the
    transaction does, also after [commit] has consumed it. *)
Class StorageBackend (S T : Type) := {
  sb_append : SegmentId → bytes → M S Error unit;
  sb_read : SegmentId → M S Error bytes;
  sb_metadata : SegmentId → M S Error Segment;
  sb_delete : SegmentId → M S Error unit;
  sb_segment_ids : M S Error (list SegmentId);
  sb_begin_txn : M S Error T;
  tx_append : SegmentId → bytes → M (T * S) Error unit;
  tx_set_segment_metadata : SegmentId → Segment → M (T * S) Error unit;
  tx_delete : SegmentId → M (T * S) Error unit;
  tx_commit : M (T * S) Error unit;
  tx_rollback : M (T * S) Error unit;
  tx_drop : T → S → S;
}.

(** [common::traits::ReplicationStrategy] *)
Record ReplicationStrategy := mkReplicationStrategy {
  synchronous : bool;
  targets : list string;
}.

Class PolicyEvaluator := {
  evaluate_compression : Policy → bytes → Res Error CompressionPolicy;
  evaluate_dedup : Policy → Res Error bool;
  evaluate_encryption : Policy → Res Error EncryptionPolicy;
  evaluate_replication : Policy → Res Error ReplicationStrategy;
}.

(** [create_capsule] reads the clock: its first argument, [None] before the epoch. *)
Class CapsuleCatalog (R : Type) := {
  cat_allocate_segment : M R Error SegmentId;
  cat_lookup_capsule : CapsuleId → M R Error Capsule;
  cat_create_capsule :
    option Z → CapsuleId → Z → Policy → list SegmentId → DedupStats → M R Error unit;
  cat_delete_capsule : CapsuleId → M R Error Capsule;
  cat_lookup_content : ContentHash → M R Error (option SegmentId);
  cat_register_content : ContentHash → SegmentId → M R Error unit;
  cat_deregister_content : ContentHash → SegmentId → M R Error bool;
  cat_capsules : R → list Capsule;
  cat_content_entries : R → list (ContentHash * SegmentId);
}.

(** ** Laws *)

(** How the pipeline decodes a stored chunk. *)
Definition decode `{Compressor} (compressed : bool) (algorithm : string) (d : bytes) :
    Res Error bytes :=
  if compressed then tr_decompress d algorithm else Ok d.

Class CompressorLaws `{Compressor} : Prop := {
  decode_compress : ∀ data policy view s,
    tr_compress data policy = Ok (view, s) →
    decode (cs_compressed s) (cs_algorithm s) (as_ref view) = Ok data;
  compress_no_panic : ∀ data policy, tr_compress data policy ≠ Panic;
  decompress_no_panic : ∀ data algorithm, tr_decompress data algorithm ≠ Panic;
}.

(** [sealed id ct data]: [ct] stands for [data] as the payload of segment [id],
    whatever the state of the keys. *)
Class Sealing (X : Type) `{Encryptor X} := {
  sealed : SegmentId → bytes → bytes → Prop;
  encrypt_seals : ∀ data policy id x,
    wp (tr_encrypt data policy id) (λ r _, sealed id r.1 data) (λ _ _, True) x;
}.

#[global] Arguments sealed X {_ _} id ct data.

Class EncryptorLaws (X : Type) `{Sealing X} : Prop := {
  decrypt_opens : ∀ ct data policy id x,
    sealed X id ct data → wp (tr_decrypt ct policy id) (λ out _, out = data) (λ _ _, False) x;
  decrypt_no_panic : ∀ ct policy id x,
    wp (tr_decrypt ct policy id) (λ _ _, True) (λ _ _, True) x;
}.

(** Deriving a key may fail but not panic. *)
Class KeyringLaws (X : Type) `{Keyring X} : Prop := {
  derive_no_panic : ∀ c id x, wp (kr_derive_key c id) (λ _ _, True) (λ _ _, True) x;
}.

Class DeduperLaws (Dd : Type) `{Deduper Dd} : Prop := {
  register_no_panic : ∀ h id d, wp (tr_register_content h id) (λ _ _, True) (λ _ _, True) d;
}.

Class EvaluatorLaws `{PolicyEvaluator} : Prop := {
  compression_no_panic : ∀ p d, evaluate_compression p d ≠ Panic;
  encryption_no_panic : ∀ p, evaluate_encryption p ≠ Panic;
}.

(** What a backend stores, and what a transaction has staged. *)
Record StorageView := mkStorageView {
  v_data : gmap SegmentId bytes;
  v_meta : gmap SegmentId Segment;
}.

Record Staged := mkStaged {
  sg_data : gmap SegmentId bytes;
  sg_meta : gmap SegmentId Segment;
  sg_deleted : list SegmentId;
}.

Definition delete_all {V : Type} (ids : list SegmentId) (m : gmap SegmentId V) : gmap SegmentId V :=
  foldl (λ m id, delete id m) m ids.

Definition apply_staged (s : Staged) (v : StorageView) : StorageView :=
  mkStorageView (delete_all (sg_deleted s) (sg_data s ∪ v_data v))
                (delete_all (sg_deleted s) (sg_meta s ∪ v_meta v)).

(** A backend is a store of bytes and metadata by segment; a transaction stages
    changes and [commit] applies all of them or none.  A call that fails leaves the
    store alone; [fallible] says whether calls on present segments may fail at all. *)
Class StorageSpec (S T : Type) `{StorageBackend S T} := {
  view_of : S → StorageView;
  staged_of : T → Staged;
  fallible : Prop;
  read_law : ∀ id s,
    wp (sb_read id) (λ raw s', view_of s' = view_of s ∧ v_data (view_of s) !! id = Some raw)
      (λ _ s', view_of s' = view_of s ∧ (v_data (view_of s) !! id = None ∨ fallible)) s;
  metadata_law : ∀ id s,
    wp (sb_metadata id) (λ m s', view_of s' = view_of s ∧ v_meta (view_of s) !! id = Some m)
      (λ _ s', view_of s' = view_of s ∧ (v_meta (view_of s) !! id = None ∨ fallible)) s;
  delete_law : ∀ id s,
    wp (sb_delete id)
      (λ _ s', view_of s' = mkStorageView (delete id (v_data (view_of s)))
                                          (delete id (v_meta (view_of s))))
      (λ _ s', view_of s' = view_of s ∧ fallible) s;
  segment_ids_law : ∀ s,
    wp sb_segment_ids
      (λ ids s', view_of s' = view_of s ∧ ids ≡ₚ (map_to_list (v_meta (view_of s))).*1)
      (λ _ s', view_of s' = view_of s ∧ fallible) s;
  begin_law : ∀ s,
    wp sb_begin_txn (λ t s', view_of s' = view_of s ∧ staged_of t = mkStaged ∅ ∅ [])
      (λ _ s', view_of s' = view_of s ∧ fallible) s;
  tx_append_law : ∀ id d ts,
    wp (tx_append id d)
      (λ _ ts', view_of ts'.2 = view_of ts.2 ∧
         staged_of ts'.1 = mkStaged (<[id := d]> (sg_data (staged_of ts.1)))
                             (sg_meta (staged_of ts.1)) (sg_deleted (staged_of ts.1)))
      (λ _ ts', view_of ts'.2 = view_of ts.2 ∧ fallible) ts;
  tx_metadata_law : ∀ id m ts,
    wp (tx_set_segment_metadata id m)
      (λ _ ts', view_of ts'.2 = view_of ts.2 ∧
         staged_of ts'.1 = mkStaged (sg_data (staged_of ts.1))
                             (<[id := m]> (sg_meta (staged_of ts.1))) (sg_deleted (staged_of ts.1)))
      (λ _ ts', view_of ts'.2 = view_of ts.2 ∧ fallible) ts;
  tx_delete_law : ∀ id ts,
    wp (tx_delete id)
      (λ _ ts', view_of ts'.2 = view_of ts.2 ∧
         staged_of ts'.1 = mkStaged (sg_data (staged_of ts.1)) (sg_meta (staged_of ts.1))
                             (sg_deleted (staged_of ts.1) ++ [id]))
      (λ _ ts', view_of ts'.2 = view_of ts.2 ∧ fallible) ts;
  tx_commit_law : ∀ ts,
    wp tx_commit (λ _ ts', view_of ts'.2 = apply_staged (staged_of ts.1) (view_of ts.2))
      (λ _ ts', view_of ts'.2 = view_of ts.2 ∧ fallible) ts;
  tx_rollback_law : ∀ ts,
    wp tx_rollback (λ _ ts', view_of ts'.2 = view_of ts.2) (λ _ ts', view_of ts'.2 = view_of ts.2) ts;
  tx_drop_law : ∀ t s, view_of (tx_drop t s) = view_of s;
}.
