(* ===== verification/Externals.v ===== *)
(** Code outside src/: the crates the workspace calls (blake3, hex, lz4, zstd,
    xts-mode over aes, hmac/sha2, serde_json) and the floating-point [log2], whose
    precision Rust leaves open.  Operations are fields of a class; the documented
    laws a theorem needs are separate classes, so that each theorem shows which it
    uses.  The toy instances at the end satisfy the laws and evaluate; the
    witnesses run the model on them. *)
From S2P Require Import Prelude Errors Common.

(** Outcome of an encoder: the three places [compress_lz4] can fail. *)
Inductive EncodeOutcome :=
| Encoded (out : bytes)
| BuildFailed (message : string)
| WriteFailed
| FinishFailed (message : string).

Inductive DecodeOutcome :=
| Decoded (out : bytes)
| OpenFailed (message : string)
| ReadFailed.

Class Crates := {
  (** [blake3::hash], also [Hasher::new] with the concatenated updates *)
  blake3_hash : bytes → bytes;
  (** [Hasher::new_keyed] *)
  blake3_keyed : bytes → bytes → bytes;
  hex_encode : bytes → string;
  hex_decode : string → option bytes;
  (** [lz4::EncoderBuilder] .. [finish], at a [u32] level *)
  lz4_encode : Z → bytes → EncodeOutcome;
  lz4_decode : bytes → DecodeOutcome;
  (** [zstd::encode_all], [zstd::decode_all]; [inr] is the error text *)
  zstd_encode : bytes → Z → bytes + string;
  zstd_decode : bytes → bytes + string;
  (** [Xts128::encrypt_sector] with the two AES-256 keys and the tweak *)
  xts_encrypt_sector : bytes → bytes → bytes → bytes → bytes;
  xts_decrypt_sector : bytes → bytes → bytes → bytes → bytes;
  (** HMAC-SHA256; [None] is the [InvalidLength] of [new_from_slice] *)
  hmac_sha256 : bytes → bytes → option bytes;
  f32_log2 : f32 → f32;
}.

(** blake3 digests have 32 bytes; XTS is a length-preserving permutation of the
    sectors of at least one block; HMAC accepts every key and returns 32 bytes. *)
Class Blake3Length `{Crates} : Prop := {
  blake3_hash_length : ∀ d, length (blake3_hash d) = 32%nat;
  blake3_keyed_length : ∀ k d, length (blake3_keyed k d) = 32%nat;
}.

Class XtsLaws `{Crates} : Prop := {
  xts_decrypt_encrypt : ∀ k1 k2 t d, (16 ≤ length d)%nat →
    xts_decrypt_sector k1 k2 t (xts_encrypt_sector k1 k2 t d) = d;
  xts_encrypt_length : ∀ k1 k2 t d,
    length (xts_encrypt_sector k1 k2 t d) = length d;
}.

Class HmacLaws `{Crates} : Prop := {
  hmac_total : ∀ k d, ∃ out, hmac_sha256 k d = Some out ∧ length out = 32%nat;
}.

(** Hexadecimal text decodes to what was encoded. *)
Class HexLaws `{Crates} : Prop := hex_decode_encode : ∀ d, hex_decode (hex_encode d) = Some d.

(** A file holding the JSON text of a [T].  [prefix_doc k] is the file after a
    write that stopped at byte [k]. *)
Class JsonDoc (T : Type) := {
  doc : Type;
  to_doc : T → doc;
  of_doc : doc → option T;
  prefix_doc : Z → doc → doc;
  of_to_doc : ∀ t, of_doc (to_doc t) = Some t;
}.
#[global] Arguments doc T {_}.

(** [fs::write] of a document: what the file holds after it, given the outcome. *)
Definition write_doc {T : Type} `{JsonDoc T} (outcome : option Z) (d : doc T)
    (old : option (doc T)) : option (doc T) :=
  match outcome with
  | None => Some d
  | Some k => if k <? 0 then old else Some (prefix_doc k d)
  end.

(** ** Toy instances *)

(** A document is the value itself; a torn write leaves nothing readable. *)
Definition plain_doc (T : Type) : JsonDoc T :=
  {| doc := option T; to_doc := Some; of_doc := λ d, d; prefix_doc := λ _ _, None;
     of_to_doc := λ t, eq_refl |}.

Definition byte_xor (a b : byte) : byte :=
  byte_of_Z (Z.lxor (Z_of_byte a) (Z_of_byte b)).

Definition toy_keystream (k1 t : bytes) : byte :=
  match k1, t with
  | a :: _, b :: _ => byte_xor a b
  | _, _ => xff
  end.

Definition toy_xts (k1 k2 t d : bytes) : bytes := byte_xor (toy_keystream k1 t) <$> d.

(** Run-length frames: byte [04], a count, the byte repeated. *)
Definition toy_lz4_encode (level : Z) (d : bytes) : EncodeOutcome :=
  match d with
  | [] => Encoded [x04]
  | b :: _ =>
      if (lenZ d <? 256) && forallb (Byte.eqb b) d
      then Encoded [x04; byte_of_Z (lenZ d); b]
      else Encoded (x05 :: d)
  end.

Definition toy_lz4_decode (d : bytes) : DecodeOutcome :=
  match d with
  | [x04] => Decoded []
  | [x04; n; b] => Decoded (replicate (Z.to_nat (Z_of_byte n)) b)
  | x05 :: r => Decoded r
  | _ => OpenFailed "bad magic"
  end.

(** A digest of 32 bytes: the length and the first bytes of the input, padded. *)
Definition toy_hash (d : bytes) : bytes :=
  let b := byte_of_Z (lenZ d) :: take 31 d in
  b ++ replicate (32 - length b) x00.

Definition toy_hex (d : bytes) : string := String.string_of_list_byte d.

Definition toy_crates : Crates :=
  {| blake3_hash := toy_hash;
     blake3_keyed := λ k d, toy_hash (d ++ k);
     hex_encode := toy_hex;
     hex_decode := λ s, Some (string_bytes s);
     lz4_encode := toy_lz4_encode;
     lz4_decode := toy_lz4_decode;
     zstd_encode := λ d _, inl (x06 :: d);
     zstd_decode := λ d, match d with x06 :: r => inl r | _ => inr "bad magic" end;
     xts_encrypt_sector := toy_xts;
     xts_decrypt_sector := toy_xts;
     hmac_sha256 := λ k d, Some (toy_hash (d ++ k));
     f32_log2 := λ x, x |}.

(** ** The toy instances satisfy the laws *)
Lemma toy_hash_length d : length (toy_hash d) = 32%nat.
Proof.
  unfold toy_hash. rewrite length_app, length_replicate. simpl.
  rewrite length_take. lia.
Qed.

Lemma toy_Blake3Length : @Blake3Length toy_crates.
Proof. split; intros; apply toy_hash_length. Qed.

Lemma Z_of_byte_xor a b : Z_of_byte (byte_xor a b) = Z.lxor (Z_of_byte a) (Z_of_byte b).
Proof.
  unfold byte_xor. rewrite Z_of_byte_byte_of_Z.
  pose proof (Z_of_byte_bound a). pose proof (Z_of_byte_bound b).
  apply Z.mod_small. split; [apply Z.lxor_nonneg; lia|].
  destruct (decide (Z.lxor (Z_of_byte a) (Z_of_byte b) = 0)) as [->|Hne]; [lia|].
  assert (0 < Z.lxor (Z_of_byte a) (Z_of_byte b)) as Hpos.
  { assert (0 ≤ Z.lxor (Z_of_byte a) (Z_of_byte b)) by (apply Z.lxor_nonneg; lia). lia. }
  apply Z.log2_lt_pow2 with (b := 8); [done|].
  pose proof (Z.log2_lxor (Z_of_byte a) (Z_of_byte b) ltac:(lia) ltac:(lia)).
  assert (∀ x, 0 ≤ x < 256 → Z.log2 x < 8) as Hlog.
  { intros x Hx. destruct (decide (x = 0)) as [->|]; [done|]. apply Z.log2_lt_pow2; lia. }
  pose proof (Hlog _ H). pose proof (Hlog _ H0). lia.
Qed.

Lemma byte_xor_cancel a b : byte_xor a (byte_xor a b) = b.
Proof.
  rewrite <- (byte_of_Z_Z_of_byte b) at 2. unfold byte_xor at 1.
  rewrite Z_of_byte_xor, <- Z.lxor_assoc, Z.lxor_nilpotent, Z.lxor_0_l. done.
Qed.

Lemma toy_XtsLaws : @XtsLaws toy_crates.
Proof.
  split; intros; simpl; unfold toy_xts.
  - rewrite <- list_fmap_compose. rewrite (list_fmap_ext _ id).
    + apply list_fmap_id.
    + intros i x _. apply byte_xor_cancel.
  - apply length_fmap.
Qed.

Lemma toy_HmacLaws : @HmacLaws toy_crates.
Proof. split. intros. eexists. split; [done|]. apply toy_hash_length. Qed.
