(* ===== verification/Nvram.v ===== *)
(** Crate [nvram-sim] (crates/nvram-sim/src/lib.rs): the append-only log
    [NvramLog] and its staged [NvramTransaction].

    The log is the data file, the in-memory segment map, the next offset, the
    metadata file and the schedule of outcomes of its future I/O calls; the locks
    are taken and released inside each call, so a call is one step.  The
    [advanced-security] audit hook is in SecuredPipeline.v.  A transaction shares the log
    with other users: its calls act on the pair of both. *)
From S2P Require Import Prelude Errors Common Externals.

Abbreviation SegmentMap := (gmap SegmentId Segment).

Section nvram.
Context {J : JsonDoc SegmentMap}.

Record NvramLog := mkNvramLog {
  nv_file : bytes;
  segment_map : SegmentMap;
  next_offset : Z;
  nv_metadata : option (doc SegmentMap);
  nv_faults : faults;
}.

Definition set_nv_file (f : bytes) (l : NvramLog) : NvramLog :=
  mkNvramLog f (segment_map l) (next_offset l) (nv_metadata l) (nv_faults l).
Definition set_segment_map (m : SegmentMap) (l : NvramLog) : NvramLog :=
  mkNvramLog (nv_file l) m (next_offset l) (nv_metadata l) (nv_faults l).
Definition set_next_offset (o : Z) (l : NvramLog) : NvramLog :=
  mkNvramLog (nv_file l) (segment_map l) o (nv_metadata l) (nv_faults l).
Definition set_nv_metadata (d : option (doc SegmentMap)) (l : NvramLog) : NvramLog :=
  mkNvramLog (nv_file l) (segment_map l) (next_offset l) d (nv_faults l).
Definition set_nv_faults (f : faults) (l : NvramLog) : NvramLog :=
  mkNvramLog (nv_file l) (segment_map l) (next_offset l) (nv_metadata l) f.

(** *** I/O calls *)

(** A call with no effect on the data: [seek], [sync_data]. *)
Definition nv_io (operation : string) : M NvramLog Error unit := λ l,
  let '(f, fs) := next_fault (nv_faults l) in
  match f with
  | None => (Ok tt, set_nv_faults fs l)
  | Some _ => (Err (IoFailed operation), set_nv_faults fs l)
  end.

(** [write_all] after a seek to [off]; a failure may leave a prefix written. *)
Definition nv_write_all (off : Z) (data : bytes) : M NvramLog Error unit := λ l,
  let '(f, fs) := next_fault (nv_faults l) in
  let l := set_nv_faults fs l in
  match f with
  | None => (Ok tt, set_nv_file (write_at (nv_file l) off data) l)
  | Some k => (Err (IoFailed "write_all"), set_nv_file (write_at (nv_file l) off (takeZ k data)) l)
  end.

(** [read_exact] after a seek to [off]. *)
Definition nv_read_exact (off len : Z) : M NvramLog Error bytes :=
  nv_io "read_exact" ;;;
  let! l := gets (λ l, l) in
  lift (ok_or (read_at (nv_file l) off len) (IoFailed "read_exact")).

Definition save_segment_map : M NvramLog Error unit := λ l,
  let '(f, fs) := next_fault (nv_faults l) in
  let l := set_nv_faults fs l in
  let l := set_nv_metadata (write_doc f (to_doc (segment_map l)) (nv_metadata l)) l in
  match f with
  | None => (Ok tt, l)
  | Some _ => (Err (IoFailed "fs::write"), l)
  end.

(** *** Opening a log from its two files: four I/O calls *)
Definition nv_open (file : bytes) (metadata : option (doc SegmentMap)) (fs : faults) :
    Res Error NvramLog :=
  match next_fault fs with
  | (Some _, _) => Err (IoFailed "open")
  | (None, fs) =>
      match next_fault fs with
      | (Some _, _) => Err (IoFailed "metadata")
      | (None, fs) =>
          match metadata with
          | None => Ok (mkNvramLog file ∅ (lenZ file) None fs)
          | Some d =>
              match next_fault fs with
              | (Some _, _) => Err (IoFailed "read_to_string")
              | (None, fs) =>
                  let? m := ok_or (of_doc d) JsonFailed in
                  Ok (mkNvramLog file m (lenZ file) metadata fs)
              end
          end
      end
  end.

(** *** Operations *)
Definition list_segments `{HashOrder} : M NvramLog Error (list Segment) :=
  gets (λ l, (hash_iter (segment_map l)).*2).

Definition list_segment_ids `{HashOrder} : M NvramLog Error (list SegmentId) :=
  gets (λ l, (hash_iter (segment_map l)).*1).

(** The segment record [append] and [append_segment] create. *)
Definition fresh_segment (id : SegmentId) (offset len : Z) : Segment :=
  {| seg_id := id; seg_offset := offset; seg_len := len;
     seg_compressed := false; seg_compression_algo := "none";
     seg_content_hash := None; seg_ref_count := 1; seg_deduplicated := false;
     seg_access_count := 0; seg_encryption_version := None; seg_key_version := None;
     seg_tweak_nonce := None; seg_integrity_tag := None; seg_encrypted := false;
     seg_pq_ciphertext := None; seg_pq_nonce := None |}.

Definition append (id : SegmentId) (data : bytes) : M NvramLog Error Segment :=
  let! offset := gets next_offset in
  nv_io "seek" ;;;
  nv_write_all offset data ;;;
  nv_io "sync_data" ;;;
  let segment := fresh_segment id offset (wrap 32 (lenZ data)) in
  modify (λ l, set_next_offset (u64_add (next_offset l) (lenZ data)) l) ;;;
  modify (λ l, set_segment_map (<[id := segment]> (segment_map l)) l) ;;;
  save_segment_map ;;;
  ret segment.

Definition increment_refcount (id : SegmentId) : M NvramLog Error Segment :=
  let! l := gets (λ l, l) in
  let! segment := lift (ok_or (segment_map l !! id) (MsgSegment "Segment not found" id)) in
  let updated := set_refs (u32_saturating_add (seg_ref_count segment) 1)
                   (u32_saturating_add (seg_access_count segment) 1) segment in
  modify (λ l, set_segment_map (<[id := updated]> (segment_map l)) l) ;;;
  save_segment_map ;;;
  ret updated.

Definition decrement_refcount (id : SegmentId) : M NvramLog Error Segment :=
  let! l := gets (λ l, l) in
  let! segment := lift (ok_or (segment_map l !! id) (MsgSegment "Segment not found" id)) in
  if seg_ref_count segment =? 0 then fail (MsgSegment "Segment already has ref_count=0" id)
  else
    let updated := set_refs (seg_ref_count segment - 1) (seg_access_count segment) segment in
    modify (λ l, set_segment_map (<[id := updated]> (segment_map l)) l) ;;;
    save_segment_map ;;;
    ret updated.

Definition remove_segment (id : SegmentId) : M NvramLog Error (option Segment) :=
  let! removed := gets (λ l, segment_map l !! id) in
  modify (λ l, set_segment_map (delete id (segment_map l)) l) ;;;
  match removed with
  | Some _ => save_segment_map ;;; ret removed
  | None => ret removed
  end.

Definition read (id : SegmentId) : M NvramLog Error bytes :=
  let! l := gets (λ l, l) in
  let! segment := lift (ok_or (segment_map l !! id) (Msg "Segment not found")) in
  nv_io "seek" ;;;
  nv_read_exact (seg_offset segment) (seg_len segment).

Definition get_segment_metadata (id : SegmentId) : M NvramLog Error Segment :=
  let! l := gets (λ l, l) in
  lift (ok_or (segment_map l !! id) (MsgSegment "Segment not found" id)).

Definition update_segment_metadata (id : SegmentId) (segment : Segment) :
    M NvramLog Error unit :=
  modify (λ l, set_segment_map (<[id := segment]> (segment_map l)) l) ;;;
  save_segment_map.

(** *** Transactions *)
Record PendingSegment := mkPendingSegment { pend_segment : Segment; pend_data : bytes }.

Record NvramTransaction := mkNvramTransaction {
  pending : list PendingSegment;
  base_offset : Z;
  current_offset : Z;
  finalized : bool;
}.

(** A transaction together with the log it shares. *)
Record TxnState := mkTxnState { txn : NvramTransaction; txn_log : NvramLog }.

Definition set_pending (p : list PendingSegment) (t : NvramTransaction) : NvramTransaction :=
  mkNvramTransaction p (base_offset t) (current_offset t) (finalized t).
Definition set_current_offset (o : Z) (t : NvramTransaction) : NvramTransaction :=
  mkNvramTransaction (pending t) (base_offset t) o (finalized t).
Definition set_finalized (b : bool) (t : NvramTransaction) : NvramTransaction :=
  mkNvramTransaction (pending t) (base_offset t) (current_offset t) b.

Definition on_log {A : Type} (m : M NvramLog Error A) : M TxnState Error A :=
  zoom txn_log (λ l s, mkTxnState (txn s) l) m.
Definition on_txn (f : NvramTransaction → NvramTransaction) : M TxnState Error unit :=
  modify (λ s, mkTxnState (f (txn s)) (txn_log s)).

Definition txn_new (base_offset : Z) : NvramTransaction :=
  mkNvramTransaction [] base_offset base_offset false.

Definition begin_transaction (l : NvramLog) : NvramTransaction := txn_new (next_offset l).

Definition ensure_active : M TxnState Error unit := λ s,
  if finalized (txn s) then (Err (Msg "transaction already finalized"), s) else (Ok tt, s).

Definition append_segment (id : SegmentId) (data : bytes) : M TxnState Error Segment :=
  ensure_active ;;;
  let! s := gets (λ s, s) in
  let offset := current_offset (txn s) in
  let segment := fresh_segment id offset (wrap 32 (lenZ data)) in
  let current := u64_add offset (lenZ data) in
  on_txn (set_current_offset current) ;;;
  on_log (modify (set_next_offset current)) ;;;
  on_txn (λ t, set_pending (pending t ++ [mkPendingSegment segment data]) t) ;;;
  ret segment.

(** [pending.iter_mut().find(..)]: update the first entry with this id. *)
Fixpoint update_pending (id : SegmentId) (f : Segment → Segment) (p : list PendingSegment) :
    option (list PendingSegment) :=
  match p with
  | [] => None
  | e :: r =>
      if decide (seg_id (pend_segment e) = id)
      then Some (mkPendingSegment (f (pend_segment e)) (pend_data e) :: r)
      else cons e <$> update_pending id f r
  end.

Definition with_segment_mut (id : SegmentId) (f : Segment → Segment) : M TxnState Error unit :=
  ensure_active ;;;
  let! s := gets (λ s, s) in
  let! p := lift (ok_or (update_pending id f (pending (txn s)))
                    (MsgSegment "pending segment not found" id)) in
  on_txn (set_pending p).

Definition set_segment_metadata (id : SegmentId) (segment : Segment) : M TxnState Error unit :=
  ensure_active ;;;
  let! s := gets (λ s, s) in
  let! p := lift (ok_or (update_pending id (λ _, segment) (pending (txn s)))
                    (MsgSegment "pending segment not found" id)) in
  on_txn (set_pending p).

Definition pending_segment (id : SegmentId) (t : NvramTransaction) : option Segment :=
  pend_segment <$> find (λ e, bool_decide (seg_id (pend_segment e) = id)) (pending t).

(** The closure of [commit] that writes the staged data. *)
Definition write_pending (p : list PendingSegment) : M NvramLog Error unit :=
  foldM (λ _ e,
    nv_io "seek" ;;; nv_write_all (seg_offset (pend_segment e)) (pend_data e)) tt p ;;;
  nv_io "sync_data".

(** [map.insert(entry.segment.id, ..)] for each entry, in order. *)
Definition install_pending (p : list PendingSegment) (m : SegmentMap) : SegmentMap :=
  foldl (λ m e, <[seg_id (pend_segment e) := pend_segment e]> m) m p.

Definition commit : M TxnState Error unit :=
  let! s := gets (λ s, s) in
  let t := txn s in
  if finalized t then ret tt
  else if bool_decide (pending t = []) then on_txn (set_finalized true)
  else
    let! write_result := on_log (attempt (write_pending (pending t))) in
    match write_result with
    | inr err =>
        on_log (modify (set_next_offset (base_offset t))) ;;;
        on_txn (set_finalized true) ;;;
        fail err
    | inl _ =>
        on_log (modify (set_next_offset (current_offset t))) ;;;
        on_log (modify (λ l, set_segment_map (install_pending (pending t) (segment_map l)) l)) ;;;
        on_log save_segment_map ;;;
        on_txn (λ t, set_finalized true (set_pending [] t))
    end.

Definition rollback : M TxnState Error unit :=
  let! s := gets (λ s, s) in
  if finalized (txn s) then ret tt
  else
    on_log (modify (set_next_offset (base_offset (txn s)))) ;;;
    on_txn (λ t, set_finalized true (set_current_offset (base_offset t) (set_pending [] t))).

(** [Drop]: a transaction that was not finalized is rolled back. *)
Definition txn_drop : M TxnState Error unit :=
  let! s := gets (λ s, s) in
  if finalized (txn s) then ret tt else (attempt rollback ;;; ret tt).

(** ** Abstraction: the bytes each segment denotes *)
Definition segment_bytes (l : NvramLog) (id : SegmentId) : option bytes :=
  match segment_map l !! id with
  | Some s => read_at (nv_file l) (seg_offset s) (seg_len s)
  | None => None
  end.

(** Every segment lies below [next_offset] and inside the file. *)
Definition seg_wf (l : NvramLog) (s : Segment) : Prop :=
  0 ≤ seg_offset s ∧ 0 ≤ seg_len s ∧ seg_offset s + seg_len s ≤ next_offset l ∧
  (0 < seg_len s → seg_offset s + seg_len s ≤ lenZ (nv_file l)) ∧
  0 ≤ seg_ref_count s ≤ U32_MAX ∧ seg_deduplicated s = (1 <? seg_ref_count s).

Definition log_wf (l : NvramLog) : Prop :=
  0 ≤ next_offset l ∧ map_Forall (λ _ s, seg_wf l s) (segment_map l).

(** The metadata file holds the current segment map. *)
Definition synced (l : NvramLog) : Prop := nv_metadata l = Some (to_doc (segment_map l)).
End nvram.

(** ** Lemmas *)
Section nvram_lemmas.
Context {J : JsonDoc SegmentMap}.
Implicit Types l : NvramLog.

Lemma segment_bytes_lookup l id s :
  segment_map l !! id = Some s → segment_bytes l id = read_at (nv_file l) (seg_offset s) (seg_len s).
Proof. unfold segment_bytes. by intros ->. Qed.

(** A write at or above [next_offset] leaves every segment's bytes alone. *)
Lemma segment_bytes_write l off data id :
  log_wf l → next_offset l ≤ off →
  segment_bytes (set_nv_file (write_at (nv_file l) off data) l) id = segment_bytes l id.
Proof.
  intros [Hn Hwf] Hoff. unfold segment_bytes; simpl.
  destruct (segment_map l !! id) as [s|] eqn:Hs; [|done].
  destruct (Hwf _ _ Hs) as (? & ? & ? & Hin & _).
  destruct (decide (seg_len s = 0)) as [->|]; [by rewrite !read_at_0|].
  apply read_write_disjoint; lia.
Qed.

Lemma log_wf_write l off data :
  log_wf l → 0 ≤ off → log_wf (set_nv_file (write_at (nv_file l) off data) l).
Proof.
  intros [Hn Hwf] Hoff. split; [done|]. intros id s Hs.
  destruct (Hwf _ _ Hs) as (? & ? & ? & Hin & ?). repeat split; simpl; try tauto.
  intros Hp. specialize (Hin Hp). pose proof (write_at_length_ge (nv_file l) off data Hoff). lia.
Qed.

Lemma log_wf_faults l fs : log_wf l → log_wf (set_nv_faults fs l).
Proof. done. Qed.

Lemma log_wf_metadata l d : log_wf l → log_wf (set_nv_metadata d l).
Proof. done. Qed.

Lemma log_wf_next l o : log_wf l → next_offset l ≤ o → log_wf (set_next_offset o l).
Proof.
  intros [Hn Hwf] Ho. split; [simpl; lia|]. intros id s Hs.
  destruct (Hwf _ _ Hs) as (? & ? & ? & ? & ?). repeat split; simpl; try tauto. lia.
Qed.

Lemma log_wf_insert l id s :
  log_wf l → seg_wf l s → log_wf (set_segment_map (<[id := s]> (segment_map l)) l).
Proof. intros [Hn Hwf] Hs. split; [done|]. by apply map_Forall_insert_2. Qed.

Lemma log_wf_delete l id :
  log_wf l → log_wf (set_segment_map (delete id (segment_map l)) l).
Proof. intros [Hn Hwf]. split; [done|]. by apply map_Forall_delete. Qed.

Lemma seg_wf_set_refs l s r a :
  seg_wf l s → 0 ≤ r ≤ U32_MAX → seg_wf l (set_refs r a s).
Proof. intros (? & ? & ? & ? & ? & ?) Hr. repeat split; simpl; tauto || lia. Qed.

Lemma nv_faults_set_file l f : nv_faults (set_nv_file f l) = nv_faults l.
Proof. done. Qed.

(** *** What the primitive calls do *)
Lemma nv_io_ok l op : nv_faults l = [] → nv_io op l = (Ok tt, l).
Proof. intros H. unfold nv_io. rewrite H. simpl. by destruct l; simpl in *; subst. Qed.

Lemma nv_write_all_ok l off data :
  nv_faults l = [] →
  nv_write_all off data l = (Ok tt, set_nv_file (write_at (nv_file l) off data) l).
Proof. intros H. unfold nv_write_all. rewrite H. simpl. by destruct l; simpl in *; subst. Qed.

Lemma save_segment_map_ok l :
  nv_faults l = [] →
  save_segment_map l = (Ok tt, set_nv_metadata (Some (to_doc (segment_map l))) l).
Proof. intros H. unfold save_segment_map. rewrite H. simpl. by destruct l; simpl in *; subst. Qed.

(** Any property of the log that ignores the fault schedule is kept by an I/O
    call without effect. *)
Lemma triple_nv_io P op :
  (∀ l fs, P l → P (set_nv_faults fs l)) → triple P (nv_io op) (λ _, P) (λ _, P).
Proof.
  intros HP l Hl. unfold nv_io. destruct (next_fault (nv_faults l)) as [[k|] fs]; by apply HP.
Qed.

Lemma triple_save P :
  (∀ l fs d, P l → P (set_nv_metadata d (set_nv_faults fs l))) →
  triple P save_segment_map (λ _, P) (λ _, P).
Proof.
  intros HP l Hl. unfold save_segment_map.
  destruct (next_fault (nv_faults l)) as [[k|] fs]; by apply HP.
Qed.

Lemma triple_write P off data :
  (∀ l fs d, P l → P (set_nv_file (write_at (nv_file l) off d) (set_nv_faults fs l))) →
  triple P (nv_write_all off data) (λ _, P) (λ _, P).
Proof.
  intros HP l Hl. unfold nv_write_all.
  destruct (next_fault (nv_faults l)) as [[k|] fs]; by apply (HP l fs).
Qed.

(** *** Calls without I/O failures *)
Lemma append_ok l id data :
  nv_faults l = [] →
  append id data l =
    (let s := fresh_segment id (next_offset l) (wrap 32 (lenZ data)) in
     (Ok s, mkNvramLog (write_at (nv_file l) (next_offset l) data)
              (<[id := s]> (segment_map l)) (u64_add (next_offset l) (lenZ data))
              (Some (to_doc (<[id := s]> (segment_map l)))) [])).
Proof.
  intros H. unfold append. cbv [bind gets modify ret].
  rewrite nv_io_ok by done. rewrite nv_write_all_ok by done. rewrite nv_io_ok by done.
  rewrite save_segment_map_ok by done. destruct l; simpl in *; by subst.
Qed.

Lemma increment_refcount_ok l id s :
  nv_faults l = [] → segment_map l !! id = Some s →
  increment_refcount id l =
    (let s' := set_refs (u32_saturating_add (seg_ref_count s) 1)
                 (u32_saturating_add (seg_access_count s) 1) s in
     (Ok s', mkNvramLog (nv_file l) (<[id := s']> (segment_map l)) (next_offset l)
               (Some (to_doc (<[id := s']> (segment_map l)))) [])).
Proof.
  intros H Hs. unfold increment_refcount. cbv [bind gets modify ret lift].
  rewrite Hs. cbn [ok_or]. rewrite save_segment_map_ok by done. destruct l; simpl in *; by subst.
Qed.

Lemma decrement_refcount_ok l id s :
  nv_faults l = [] → segment_map l !! id = Some s → seg_ref_count s ≠ 0 →
  decrement_refcount id l =
    (let s' := set_refs (seg_ref_count s - 1) (seg_access_count s) s in
     (Ok s', mkNvramLog (nv_file l) (<[id := s']> (segment_map l)) (next_offset l)
               (Some (to_doc (<[id := s']> (segment_map l)))) [])).
Proof.
  intros H Hs Hr. unfold decrement_refcount. cbv [bind gets modify ret lift].
  rewrite Hs. cbn [ok_or]. rewrite (proj2 (Z.eqb_neq _ _) Hr).
  rewrite save_segment_map_ok by done. destruct l; simpl in *; by subst.
Qed.

Lemma update_segment_metadata_ok l id s :
  nv_faults l = [] →
  update_segment_metadata id s l =
    (Ok tt, mkNvramLog (nv_file l) (<[id := s]> (segment_map l)) (next_offset l)
              (Some (to_doc (<[id := s]> (segment_map l)))) []).
Proof.
  intros H. unfold update_segment_metadata. cbv [bind modify].
  rewrite save_segment_map_ok by done. destruct l; simpl in *; by subst.
Qed.

Lemma remove_segment_ok l id :
  nv_faults l = [] →
  remove_segment id l =
    (Ok (segment_map l !! id),
     match segment_map l !! id with
     | Some _ => mkNvramLog (nv_file l) (delete id (segment_map l)) (next_offset l)
                   (Some (to_doc (delete id (segment_map l)))) []
     | None => l
     end).
Proof.
  intros H. unfold remove_segment. cbv [bind gets modify ret].
  destruct (segment_map l !! id) as [s|] eqn:Hs.
  - rewrite save_segment_map_ok by done. destruct l; simpl in *; by subst.
  - f_equal. rewrite delete_id by done. by destruct l.
Qed.

Lemma read_ok l id s :
  nv_faults l = [] → segment_map l !! id = Some s →
  read id l = (ok_or (segment_bytes l id) (IoFailed "read_exact"), l).
Proof.
  intros H Hs. unfold read, nv_read_exact, segment_bytes. cbv [bind gets lift].
  rewrite Hs. cbn [ok_or]. rewrite !nv_io_ok by done. done.
Qed.

Lemma read_missing l id :
  segment_map l !! id = None → read id l = (Err (Msg "Segment not found"), l).
Proof. intros Hs. unfold read. cbv [bind gets lift]. by rewrite Hs. Qed.

Lemma fresh_segment_wf l id data :
  log_wf l → next_offset l + lenZ data < 2 ^ 64 →
  seg_wf (set_next_offset (u64_add (next_offset l) (lenZ data))
            (set_nv_file (write_at (nv_file l) (next_offset l) data) l))
    (fresh_segment id (next_offset l) (wrap 32 (lenZ data))).
Proof.
  intros [Hn _] Hlt. pose proof (lenZ_nonneg data).
  assert (0 ≤ wrap 32 (lenZ data) ≤ lenZ data) as Hw.
  { unfold wrap. split; [apply Z.mod_pos_bound; lia|apply Z.mod_le; lia]. }
  assert (u64_add (next_offset l) (lenZ data) = next_offset l + lenZ data) as ->.
  { unfold u64_add, wrap. apply Z.mod_small. lia. }
  repeat split; simpl; try lia; [|done].
  intros Hp. pose proof (write_at_length_data (nv_file l) (next_offset l) data). lia.
Qed.

(** *** Updating the pending list *)
Lemma update_pending_bytes id f p p' :
  update_pending id f p = Some p' → map pend_data p' = map pend_data p.
Proof.
  revert p'. induction p as [|e r IH]; intros p'; simpl; [done|].
  case_decide; intros H'; simplify_eq/=; [done|].
  destruct (update_pending id f r); simplify_eq/=. by rewrite IH.
Qed.

Lemma update_pending_None id f p :
  update_pending id f p = None ↔ id ∉ map (λ e, seg_id (pend_segment e)) p.
Proof.
  induction p as [|e r IH]; simpl; [set_solver|].
  rewrite not_elem_of_cons. case_decide.
  - split; [done|]. intros [? ?]. congruence.
  - rewrite fmap_None, IH. split; [|tauto]. intros ?. split; [congruence|done].
Qed.

Lemma install_pending_lookup_other p m id :
  id ∉ map (λ e, seg_id (pend_segment e)) p → install_pending p m !! id = m !! id.
Proof.
  unfold install_pending. revert m. induction p as [|e r IH]; intros m Hid; simpl; [done|].
  apply not_elem_of_cons in Hid as [? ?].
  rewrite IH by done. by rewrite lookup_insert_ne.
Qed.
End nvram_lemmas.
#[export] Hint Resolve log_wf_write log_wf_faults log_wf_metadata log_wf_next
  log_wf_insert log_wf_delete seg_wf_set_refs : space.

(** ** Changes confined to the file above an offset *)
Section above.
Context {J : JsonDoc SegmentMap}.
Implicit Types l : NvramLog.

(** [g] extends [f] and agrees with it below [base]. *)
Definition above (base : Z) (f g : bytes) : Prop :=
  lenZ f ≤ lenZ g ∧
  ∀ i : nat, Z.of_nat i < base → (i < length f)%nat → g !! i = f !! i.

#[export] Instance above_preorder base : PreOrder (above base).
Proof.
  split; [done|]. intros f g h [H1 H2] [H3 H4]. split; [lia|].
  intros i Hi Hf. rewrite H4; [by apply H2|done|unfold lenZ in *; lia].
Qed.

Lemma above_write base f off d : 0 ≤ base → base ≤ off → above base f (write_at f off d).
Proof.
  intros. split; [apply write_at_length_ge; lia|].
  intros i Hi Hf. apply write_at_lookup; [lia| |done]. lia.
Qed.

Lemma read_at_above base f g o n :
  above base f g → 0 ≤ o → 0 ≤ n → o + n ≤ base → (0 < n → o + n ≤ lenZ f) →
  read_at g o n = read_at f o n.
Proof.
  intros [Hl Hb] Ho Hn Hon Hf. destruct (decide (n = 0)) as [->|]; [by rewrite !read_at_0|].
  apply read_at_ext; [done..|lia|lia|]. intros i Hi. apply Hb; [lia|unfold lenZ in *; lia].
Qed.

(** The part of a log that file writes leave alone. *)
Definition core l : SegmentMap * Z * option (doc SegmentMap) :=
  (segment_map l, next_offset l, nv_metadata l).

(** The log with its next offset moved back to [base] is well formed. *)
Definition wf_below (base : Z) l : Prop := log_wf (set_next_offset base l).

Lemma wf_below_next base l : next_offset l = base → wf_below base l ↔ log_wf l.
Proof. intros <-. by destruct l. Qed.

Lemma wf_below_above base l l' :
  wf_below base l → segment_map l' = segment_map l → above base (nv_file l) (nv_file l') →
  wf_below base l'.
Proof.
  intros [Hb Hwf] Hm [Hl _]. split; [done|]. simpl in *. rewrite Hm.
  intros id s Hs. destruct (Hwf _ _ Hs) as (? & ? & ? & Hin & ?).
  repeat split; simpl in *; try tauto. intros Hp. specialize (Hin Hp). lia.
Qed.

Lemma segment_bytes_above base l l' id :
  wf_below base l → segment_map l' !! id = segment_map l !! id →
  above base (nv_file l) (nv_file l') →
  segment_bytes l' id = segment_bytes l id.
Proof.
  intros [Hb Hwf] Hm Ha. unfold segment_bytes. rewrite Hm.
  destruct (segment_map l !! id) as [s|] eqn:Hs; [|done].
  destruct (Hwf _ _ Hs) as (? & ? & ? & Hin & _). simpl in *.
  eapply read_at_above; eauto.
Qed.

Lemma triple_write_exact c f off d :
  triple (λ l, core l = c ∧ nv_file l = f) (nv_write_all off d)
    (λ _ l, core l = c ∧ nv_file l = write_at f off d)
    (λ _ l, core l = c ∧ ∃ d', nv_file l = write_at f off d').
Proof.
  intros l [Hc Hf]. unfold nv_write_all.
  destruct (next_fault (nv_faults l)) as [[k|] fs]; simpl; subst; eauto.
Qed.

(** The file after the data of a pending list is written. *)
Definition written (f : bytes) (p : list PendingSegment) : bytes :=
  foldl (λ f e, write_at f (seg_offset (pend_segment e)) (pend_data e)) f p.

(** The entries lie one after the other from [o] to [c]. *)
Fixpoint contig (o : Z) (p : list PendingSegment) (c : Z) : Prop :=
  match p with
  | [] => o = c
  | e :: r =>
      seg_offset (pend_segment e) = o ∧
      seg_len (pend_segment e) = wrap 32 (lenZ (pend_data e)) ∧
      0 ≤ seg_ref_count (pend_segment e) ≤ U32_MAX ∧
      seg_deduplicated (pend_segment e) = (1 <? seg_ref_count (pend_segment e)) ∧
      contig (o + lenZ (pend_data e)) r c
  end.

Lemma contig_le o p c : contig o p c → o ≤ c.
Proof.
  revert o. induction p as [|e r IH]; simpl; intros o; [lia|].
  intros (? & ? & ? & ? & Hr). apply IH in Hr. pose proof (lenZ_nonneg (pend_data e)). lia.
Qed.

Lemma contig_snoc o p c e :
  contig o p c →
  seg_offset (pend_segment e) = c →
  seg_len (pend_segment e) = wrap 32 (lenZ (pend_data e)) →
  0 ≤ seg_ref_count (pend_segment e) ≤ U32_MAX →
  seg_deduplicated (pend_segment e) = (1 <? seg_ref_count (pend_segment e)) →
  contig o (p ++ [e]) (c + lenZ (pend_data e)).
Proof.
  revert o. induction p as [|e' r IH]; simpl; intros o; [by intros -> ?|].
  intros (? & ? & ? & ? & Hr) ????. split_and!; try done; try lia. by apply IH.
Qed.

Lemma written_above base o p c f :
  0 ≤ base → base ≤ o → contig o p c → above base f (written f p).
Proof.
  revert o f. induction p as [|e r IH]; simpl; intros o f Hb Ho Hc; [done|].
  destruct Hc as (He & _ & _ & _ & Hr). pose proof (lenZ_nonneg (pend_data e)).
  etrans; [apply above_write; [done|]|eapply IH; [done| |exact Hr]]; lia.
Qed.

Lemma wrap32_le {A} (d : list A) : 0 ≤ wrap 32 (lenZ d) ≤ lenZ d.
Proof.
  pose proof (lenZ_nonneg d). unfold wrap.
  split; [apply Z.mod_pos_bound|apply Z.mod_le]; lia.
Qed.

(** Each entry of a contiguous list reads back as its own data. *)
Lemma written_read o p c f e :
  0 ≤ o → contig o p c → e ∈ p →
  read_at (written f p) (seg_offset (pend_segment e)) (seg_len (pend_segment e)) =
    Some (takeZ (wrap 32 (lenZ (pend_data e))) (pend_data e)) ∧
  0 ≤ seg_offset (pend_segment e) ∧
  seg_offset (pend_segment e) + lenZ (pend_data e) ≤ c ∧
  (0 < seg_len (pend_segment e) →
    seg_offset (pend_segment e) + lenZ (pend_data e) ≤ lenZ (written f p)).
Proof.
  revert o f. induction p as [|e' r IH]; intros o f Ho Hc; [by intros ?%elem_of_nil|].
  destruct Hc as (He' & Hl & _ & _ & Hr). pose proof (lenZ_nonneg (pend_data e')).
  intros [->|Hin]%elem_of_cons; [|by eapply IH; [| exact Hr | ]; [lia|]].
  pose proof (contig_le _ _ _ Hr). pose proof (wrap32_le (pend_data e')).
  assert (above (o + lenZ (pend_data e')) (write_at f o (pend_data e')) (written f (e' :: r))) as Ha.
  { simpl. rewrite He'. eapply written_above; [lia|reflexivity|done]. }
  rewrite Hl, He'. split_and!; try lia.
  - rewrite (read_at_above _ _ _ _ _ Ha); [|lia..|].
    + by apply read_write_same.
    + intros. pose proof (write_at_length_data f o (pend_data e')). lia.
  - intros Hp. destruct Ha as [Ha _]. pose proof (write_at_length_data f o (pend_data e')). lia.
Qed.

(** *** [write_pending]: all of it, or a change confined above the base *)
Lemma write_pending_spec base o c k p f :
  0 ≤ base → base ≤ o → contig o p c →
  triple (λ l, core l = k ∧ nv_file l = f) (write_pending p)
    (λ _ l, core l = k ∧ nv_file l = written f p)
    (λ _ l, core l = k ∧ above base f (nv_file l)).
Proof.
  intros Hb Ho Hc. unfold write_pending.
  eapply triple_bind with (Q := λ _ l, core l = k ∧ nv_file l = written f p).
  2:{ intros _. eapply triple_conseq; [apply (triple_nv_io (λ l, core l = k ∧ nv_file l = written f p))|..];
        try done. intros _ l [? ->]. split; [done|]. by eapply written_above. }
  revert o f Ho Hc. induction p as [|e r IH]; intros o f Ho Hc; simpl.
  { by apply triple_ret. }
  destruct Hc as (He & _ & _ & _ & Hr). pose proof (lenZ_nonneg (pend_data e)).
  eapply triple_bind with
    (Q := λ _ l, core l = k ∧ nv_file l = write_at f (seg_offset (pend_segment e)) (pend_data e)).
  - eapply triple_bind with (Q := λ _ l, core l = k ∧ nv_file l = f).
    + eapply triple_conseq; [apply (triple_nv_io (λ l, core l = k ∧ nv_file l = f))|..]; try done.
      intros ? l [? ->]. done.
    + intros _. eapply triple_conseq; [apply (triple_write_exact k f)|..]; try done.
      intros _ l [? [d' ->]]. split; [done|]. apply above_write; lia.
  - intros []. eapply triple_conseq; [refine (IH (o + lenZ (pend_data e)) (write_at f (seg_offset (pend_segment e)) (pend_data e)) _ Hr); lia|done|done|].
    intros _ l [? Ha]. split; [done|]. etrans; [apply above_write|exact Ha]; lia.
Qed.
End above.

(** ** The log as a map from segments to bytes *)
Section nvram_spec.
Context {J : JsonDoc SegmentMap}.
Implicit Types l : NvramLog.

(** Outside transactions the next offset is inside the file. *)
Definition log_inv l : Prop := log_wf l ∧ next_offset l ≤ lenZ (nv_file l).

(** Any call on the log, whatever its I/O outcomes. *)
Inductive nv_step : NvramLog → NvramLog → Prop :=
| step_append l l' id data r :
    next_offset l + lenZ data < 2 ^ 64 → append id data l = (r, l') → nv_step l l'
| step_increment l l' id r : increment_refcount id l = (r, l') → nv_step l l'
| step_decrement l l' id r : decrement_refcount id l = (r, l') → nv_step l l'
| step_remove l l' id r : remove_segment id l = (r, l') → nv_step l l'
| step_read l l' id r : read id l = (r, l') → nv_step l l'
| step_update l l' id s r :
    seg_wf l s → update_segment_metadata id s l = (r, l') → nv_step l l'.

Lemma u64_add_small a b : 0 ≤ a → 0 ≤ b → a + b < 2 ^ 64 → u64_add a b = a + b.
Proof. intros. unfold u64_add, wrap. apply Z.mod_small. lia. Qed.

(** The one lemma behind every statement about [append]. *)
Lemma append_spec l id data :
  log_inv l → next_offset l + lenZ data < 2 ^ 64 →
  match append id data l with
  | (Ok s, l') =>
      log_inv l' ∧ synced l' ∧
      s = fresh_segment id (next_offset l) (wrap 32 (lenZ data)) ∧
      segment_map l' = <[id := s]> (segment_map l) ∧
      next_offset l' = next_offset l + lenZ data ∧
      segment_bytes l' id = Some (takeZ (wrap 32 (lenZ data)) data) ∧
      ∀ j, j ≠ id → segment_bytes l' j = segment_bytes l j
  | (Err _, l') =>
      log_inv l' ∧ (∀ j, j ≠ id → segment_bytes l' j = segment_bytes l j) ∧
      (segment_map l' = segment_map l ∨
       segment_map l' =
         <[id := fresh_segment id (next_offset l) (wrap 32 (lenZ data))]> (segment_map l))
  | (Panic, _) => False
  end.
Proof.
  intros [Hwf Hnf] Hlt. pose proof (fresh_segment_wf l id data Hwf Hlt) as Hs.
  pose proof Hwf as [Hn _]. pose proof (lenZ_nonneg data).
  rewrite u64_add_small in Hs by lia.
  set (seg := fresh_segment id (next_offset l) (wrap 32 (lenZ data))) in *.
  assert (∀ d, log_inv (set_nv_file (write_at (nv_file l) (next_offset l) d) l)) as Hw.
  { intros d. split; [by apply log_wf_write|]. simpl.
    pose proof (write_at_length_ge (nv_file l) (next_offset l) d Hn). lia. }
  assert (∀ d j, segment_bytes (set_nv_file (write_at (nv_file l) (next_offset l) d) l) j
            = segment_bytes l j) as Hb by (intros; by apply segment_bytes_write).
  set (l1 := set_nv_file (write_at (nv_file l) (next_offset l) data) l) in *.
  set (l2 := set_segment_map (<[id := seg]> (segment_map l))
               (set_next_offset (next_offset l + lenZ data) l1)).
  assert (log_inv l2) as Hl2.
  { split; [apply (log_wf_insert (set_next_offset (next_offset l + lenZ data) l1)); [|done];
      apply log_wf_next; [apply Hw|simpl; lia]|].
    simpl. destruct (decide (0 < lenZ data)).
    - pose proof (write_at_length_data (nv_file l) (next_offset l) data). lia.
    - pose proof (write_at_length_ge (nv_file l) (next_offset l) data). lia. }
  assert (segment_bytes l2 id = Some (takeZ (wrap 32 (lenZ data)) data)) as Hid.
  { unfold segment_bytes; simpl. rewrite lookup_insert_eq. simpl.
    apply read_write_same; [done|]. apply wrap32_le. }
  assert (∀ j, j ≠ id → segment_bytes l2 j = segment_bytes l j) as Hj.
  { intros j Hj. rewrite <- (Hb data). unfold segment_bytes; simpl.
    by rewrite lookup_insert_ne. }
  unfold append. cbv [bind gets modify ret].
  unfold nv_io at 1. destruct (next_fault (nv_faults l)) as [[?|] fs1]; [by split_and!; [| |left]|].
  unfold nv_write_all at 1. simpl (nv_faults _).
  destruct (next_fault fs1) as [[k|] fs2]; [split_and!; [apply Hw|intros; apply Hb|by left]|].
  unfold nv_io at 1. simpl (nv_faults _).
  destruct (next_fault fs2) as [[?|] fs3]; [split_and!; [apply Hw|intros; apply Hb|by left]|].
  unfold save_segment_map. simpl (nv_faults _). simpl. rewrite u64_add_small by lia.
  destruct (next_fault fs3) as [[?|] fs4];
    [split_and!; [apply Hl2|intros; by apply Hj|by right]|].
  by split_and!; try apply Hl2.
Qed.

Lemma save_segment_map_frame l :
  let l' := snd (save_segment_map l) in
  core l' = (segment_map l, next_offset l, nv_metadata l') ∧ nv_file l' = nv_file l.
Proof. unfold save_segment_map. by destruct (next_fault (nv_faults l)) as [[k|] fs]. Qed.

Lemma save_segment_map_synced l :
  match save_segment_map l with
  | (Ok _, l') => synced l'
  | (Err _, _) => True
  | (Panic, _) => False
  end.
Proof. unfold save_segment_map. by destruct (next_fault (nv_faults l)) as [[k|] fs]. Qed.

(** Replacing the map by one whose segments are well formed. *)
Lemma log_inv_map l l' :
  log_inv l → nv_file l' = nv_file l → next_offset l' = next_offset l →
  map_Forall (λ _ s, seg_wf l s) (segment_map l') → log_inv l'.
Proof.
  intros [[Hn Hwf] Hf] Hfile Hnext Hm. split; [split; [by rewrite Hnext|]|by rewrite Hfile, Hnext].
  intros id s Hs. specialize (Hm id s Hs). unfold seg_wf in *. by rewrite Hfile, Hnext.
Qed.

Lemma save_inv l : log_inv l → log_inv (snd (save_segment_map l)).
Proof.
  intros Hi. destruct (save_segment_map_frame l) as [Hc Hf]. unfold core in Hc. simplify_eq.
  eapply log_inv_map; [done|done|done|]. rewrite H. apply Hi.
Qed.

(** A call that stores one segment record and saves the map. *)
Lemma store_inv l id s :
  log_inv l → seg_wf l s →
  log_inv (snd (save_segment_map (set_segment_map (<[id := s]> (segment_map l)) l))).
Proof.
  intros [Hwf Hf] Hs. apply save_inv. split; [by apply log_wf_insert|done].
Qed.

Lemma nv_step_inv l l' : nv_step l l' → log_inv l → log_inv l'.
Proof.
  intros Hstep Hi. destruct Hstep as
    [l l' id data r Hlt Ha|l l' id r Ha|l l' id r Ha|l l' id r Ha|l l' id r Ha|l l' id s r Hs Ha].
  - pose proof (append_spec l id data Hi Hlt) as Hspec. rewrite Ha in Hspec.
    destruct r; tauto.
  - unfold increment_refcount in Ha. cbv [bind gets modify ret lift] in Ha.
    destruct (segment_map l !! id) as [s|] eqn:Hs; simpl in Ha; [|by simplify_eq].
    pose proof (store_inv l id (set_refs (u32_saturating_add (seg_ref_count s) 1)
      (u32_saturating_add (seg_access_count s) 1) s) Hi) as Hst.
    destruct (save_segment_map _) as [[[]| | ] l1]; simplify_eq; apply Hst;
      (apply seg_wf_set_refs; [by eapply Hi|]; unfold u32_saturating_add, U32_MAX;
       destruct (proj2 (proj1 Hi) _ _ Hs) as (_ & _ & _ & _ & Hr & _); unfold U32_MAX in Hr; lia).
  - unfold decrement_refcount in Ha. cbv [bind gets modify ret lift fail] in Ha.
    destruct (segment_map l !! id) as [s|] eqn:Hs; simpl in Ha; [|by simplify_eq].
    destruct (Z.eqb_spec (seg_ref_count s) 0); [by simplify_eq|].
    pose proof (store_inv l id (set_refs (seg_ref_count s - 1) (seg_access_count s) s) Hi) as Hst.
    destruct (save_segment_map _) as [[[]| | ] l1]; simplify_eq; apply Hst;
      (apply seg_wf_set_refs; [by eapply Hi|];
       destruct (proj2 (proj1 Hi) _ _ Hs) as (_ & _ & _ & _ & Hr & _); lia).
  - unfold remove_segment in Ha. cbv [bind gets modify ret] in Ha.
    assert (log_inv (set_segment_map (delete id (segment_map l)) l)) as Hd.
    { split; [by apply log_wf_delete, Hi|apply Hi]. }
    destruct (segment_map l !! id); [|by simplify_eq].
    pose proof (save_inv _ Hd) as Hst.
    destruct (save_segment_map _) as [[[]| | ] l1]; by simplify_eq.
  - unfold read, nv_read_exact, nv_io in Ha. cbv [bind gets lift] in Ha.
    destruct (segment_map l !! id) as [s|]; simpl in Ha; [|by simplify_eq].
    destruct (next_fault (nv_faults l)) as [[?|] fs1]; [by simplify_eq|].
    simpl in Ha. destruct (next_fault fs1) as [[?|] fs2]; [by simplify_eq|].
    simpl in Ha. destruct (read_at _ _ _); by simplify_eq.
  - unfold update_segment_metadata in Ha. cbv [bind modify] in Ha.
    pose proof (store_inv l id s Hi Hs) as Hst. by rewrite Ha in Hst.
Qed.

(** Opening the two files of a synced log finds the same segments. *)
Lemma open_synced l :
  log_inv l → synced l →
  ∃ lr, nv_open (nv_file l) (nv_metadata l) [] = Ok lr ∧ log_inv lr ∧ synced lr ∧
    segment_map lr = segment_map l ∧ nv_faults lr = [] ∧
    ∀ j, segment_bytes lr j = segment_bytes l j.
Proof.
  intros [[Hn Hwf] Hf] Hs. unfold nv_open. rewrite Hs. simpl. rewrite of_to_doc. simpl.
  eexists. split; [done|]. split_and!; try done.
  split; [split; simpl; [lia|]|simpl; lia].
  intros id s Hid. destruct (Hwf id s Hid) as (? & ? & ? & ? & ?).
  repeat split; simpl; try tauto. lia.
Qed.
End nvram_spec.

(** ** The effect of each call on the data, whatever its I/O outcomes *)
Section nvram_effects.
Context {J : JsonDoc SegmentMap}.
Implicit Types l : NvramLog.

(** A log without its metadata file and its schedule. *)
Definition log_view l : bytes * SegmentMap * Z := (nv_file l, segment_map l, next_offset l).

Definition bump (s : Segment) : Segment :=
  set_refs (u32_saturating_add (seg_ref_count s) 1) (u32_saturating_add (seg_access_count s) 1) s.
Definition unref (s : Segment) : Segment :=
  set_refs (seg_ref_count s - 1) (seg_access_count s) s.

Lemma save_view l :
  match save_segment_map l with
  | (Ok _, l') | (Err _, l') => log_view l' = log_view l
  | (Panic, _) => False
  end.
Proof. unfold save_segment_map. by destruct (next_fault (nv_faults l)) as [[k|] fs]. Qed.

Lemma log_inv_view l l' : log_view l' = log_view l → log_inv l → log_inv l'.
Proof.
  unfold log_view. intros [= Hf Hm Hn] Hi. apply (log_inv_map l); [done..|]. rewrite Hm. apply Hi.
Qed.

Lemma segment_bytes_view l l' id :
  log_view l' = log_view l → segment_bytes l' id = segment_bytes l id.
Proof. unfold log_view, segment_bytes. intros [= Hf Hm Hn]. by rewrite Hf, Hm. Qed.

Lemma update_effect id s l :
  match update_segment_metadata id s l with
  | (Ok _, l') | (Err _, l') => log_view l' = (nv_file l, <[id := s]> (segment_map l), next_offset l)
  | (Panic, _) => False
  end.
Proof.
  unfold update_segment_metadata. cbv [bind modify].
  pose proof (save_view (set_segment_map (<[id := s]> (segment_map l)) l)) as Hs.
  by destruct (save_segment_map _) as [[u|e| ] l'].
Qed.

Lemma increment_effect id l :
  match increment_refcount id l with
  | (Ok s', l') => ∃ s, segment_map l !! id = Some s ∧ s' = bump s ∧
      log_view l' = (nv_file l, <[id := bump s]> (segment_map l), next_offset l)
  | (Err _, l') => log_view l' = log_view l ∨
      ∃ s, segment_map l !! id = Some s ∧
        log_view l' = (nv_file l, <[id := bump s]> (segment_map l), next_offset l)
  | (Panic, _) => False
  end.
Proof.
  unfold increment_refcount. cbv [bind gets modify lift ret].
  destruct (segment_map l !! id) as [s|]; simpl; [|by left]. fold (bump s).
  pose proof (save_view (set_segment_map (<[id := bump s]> (segment_map l)) l)) as Hs.
  destruct (save_segment_map _) as [[u|e| ] l']; [|right|done]; by exists s.
Qed.

Lemma decrement_effect id l :
  match decrement_refcount id l with
  | (Ok s', l') => ∃ s, segment_map l !! id = Some s ∧ seg_ref_count s ≠ 0 ∧ s' = unref s ∧
      log_view l' = (nv_file l, <[id := unref s]> (segment_map l), next_offset l)
  | (Err _, l') => log_view l' = log_view l ∨
      ∃ s, segment_map l !! id = Some s ∧ seg_ref_count s ≠ 0 ∧
        log_view l' = (nv_file l, <[id := unref s]> (segment_map l), next_offset l)
  | (Panic, _) => False
  end.
Proof.
  unfold decrement_refcount. cbv [bind gets modify lift ret fail].
  destruct (segment_map l !! id) as [s|]; simpl; [|by left]. fold (unref s).
  destruct (Z.eqb_spec (seg_ref_count s) 0); [by left|].
  pose proof (save_view (set_segment_map (<[id := unref s]> (segment_map l)) l)) as Hs.
  destruct (save_segment_map _) as [[u|e| ] l']; [|right|done]; by exists s.
Qed.

Lemma remove_effect id l :
  match remove_segment id l with
  | (Ok o, l') => o = segment_map l !! id ∧
      log_view l' = (nv_file l, delete id (segment_map l), next_offset l)
  | (Err _, l') => log_view l' = (nv_file l, delete id (segment_map l), next_offset l)
  | (Panic, _) => False
  end.
Proof.
  unfold remove_segment. cbv [bind gets modify lift ret].
  destruct (segment_map l !! id) as [s|]; [|done].
  pose proof (save_view (set_segment_map (delete id (segment_map l)) l)) as Hs.
  by destruct (save_segment_map _) as [[u|e| ] l'].
Qed.

Lemma read_effect id l :
  match read id l with
  | (Ok d, l') => segment_bytes l id = Some d ∧ log_view l' = log_view l ∧ nv_metadata l' = nv_metadata l
  | (Err _, l') => log_view l' = log_view l ∧ nv_metadata l' = nv_metadata l
  | (Panic, _) => False
  end.
Proof.
  unfold read, nv_read_exact, nv_io, segment_bytes. cbv [bind gets lift].
  destruct (segment_map l !! id) as [s|]; simpl; [|done].
  destruct (next_fault (nv_faults l)) as [[?|] fs]; [done|]. simpl.
  destruct (next_fault fs) as [[?|] fs']; [done|]. simpl.
  by destruct (read_at _ _ _).
Qed.

(** Updates of one record that keep it well formed keep the invariant and every
    segment's bytes. *)
Lemma log_inv_store l l' id s :
  log_inv l → seg_wf l s →
  log_view l' = (nv_file l, <[id := s]> (segment_map l), next_offset l) → log_inv l'.
Proof.
  unfold log_view. intros Hi Hs [= Hf Hm Hn]. apply (log_inv_map l); [done..|]. rewrite Hm.
  apply map_Forall_insert_2; [done|apply Hi].
Qed.

Lemma log_inv_remove l l' id :
  log_inv l → log_view l' = (nv_file l, delete id (segment_map l), next_offset l) → log_inv l'.
Proof.
  unfold log_view. intros Hi [= Hf Hm Hn]. apply (log_inv_map l); [done..|]. rewrite Hm.
  apply map_Forall_delete, Hi.
Qed.
End nvram_effects.

(** ** Transactions: staging, commit, rollback *)
Section txn_spec.
Context {J : JsonDoc SegmentMap}.
Implicit Types (l : NvramLog) (s : TxnState) (t : NvramTransaction).

Abbreviation pending_ids t := (map (λ e, seg_id (pend_segment e)) (pending t)).

(** An update of a staged record that keeps its identity and its place. *)
Definition keeps_layout (f : Segment → Segment) : Prop := ∀ x,
  seg_id (f x) = seg_id x ∧ seg_offset (f x) = seg_offset x ∧ seg_len (f x) = seg_len x ∧
  0 ≤ seg_ref_count (f x) ≤ U32_MAX ∧ seg_deduplicated (f x) = (1 <? seg_ref_count (f x)).

(** The states of a transaction opened on [l0] while nobody else uses the log. *)
Inductive staged l0 : TxnState → Prop :=
| staged_begin : staged l0 (mkTxnState (begin_transaction l0) l0)
| staged_append s s' id data seg :
    staged l0 s → current_offset (txn s) + lenZ data < 2 ^ 64 →
    append_segment id data s = (Ok seg, s') → staged l0 s'
| staged_update s s' id f :
    staged l0 s → keeps_layout f → with_segment_mut id f s = (Ok tt, s') → staged l0 s'.

(** What staging maintains. *)
Definition txn_ok l0 s : Prop :=
  finalized (txn s) = false ∧ base_offset (txn s) = next_offset l0 ∧
  contig (next_offset l0) (pending (txn s)) (current_offset (txn s)) ∧
  txn_log s = set_next_offset (current_offset (txn s)) l0.

Lemma append_segment_eq s id data :
  finalized (txn s) = false →
  append_segment id data s =
    (let seg := fresh_segment id (current_offset (txn s)) (wrap 32 (lenZ data)) in
     let cur := u64_add (current_offset (txn s)) (lenZ data) in
     (Ok seg, mkTxnState
        (mkNvramTransaction (pending (txn s) ++ [mkPendingSegment seg data])
           (base_offset (txn s)) cur (finalized (txn s)))
        (set_next_offset cur (txn_log s)))).
Proof.
  intros Hf. unfold append_segment, ensure_active.
  cbv [bind gets modify ret zoom on_txn on_log].
  destruct s as [[p b c f] l]. simpl in *. by subst.
Qed.

Lemma contig_update id f o p c p' :
  keeps_layout f → contig o p c → update_pending id f p = Some p' →
  contig o p' c ∧ map (λ e, seg_id (pend_segment e)) p' = map (λ e, seg_id (pend_segment e)) p.
Proof.
  intros Hf. revert o p'. induction p as [|e r IH]; intros o p' Hc Hu; [done|].
  simpl in Hu. destruct Hc as (? & ? & ? & ? & Hr). destruct (Hf (pend_segment e)) as (Hi & Ho & Hl & ? & ?).
  case_decide.
  - simplify_eq/=. rewrite Ho, Hl, Hi. done.
  - destruct (update_pending id f r) as [r'|] eqn:Hr'; simplify_eq/=.
    destruct (IH _ _ Hr eq_refl) as [? ->]. done.
Qed.

Lemma staged_ok l0 s : log_wf l0 → staged l0 s → txn_ok l0 s.
Proof.
  intros Hwf. induction 1 as [|s s' id data seg Hs IH Hlt Ha|s s' id f Hs IH Hf Ha].
  - repeat split. by destruct l0.
  - destruct IH as (Hfin & Hb & Hc & Hl). rewrite append_segment_eq in Ha by done.
    simplify_eq/=. pose proof (contig_le _ _ _ Hc). pose proof (lenZ_nonneg data).
    destruct Hwf as [Hn _]. unfold txn_ok; simpl. rewrite u64_add_small by lia.
    split_and!; try done; [|by rewrite Hl].
    apply (contig_snoc _ _ _ (mkPendingSegment _ data)); done || (simpl; unfold U32_MAX; lia).
  - destruct IH as (Hfin & Hb & Hc & Hl).
    unfold with_segment_mut, ensure_active in Ha. cbv [bind gets lift modify on_txn] in Ha.
    rewrite Hfin in Ha. destruct (update_pending id f _) as [p'|] eqn:Hp; simplify_eq/=.
    destruct (contig_update _ _ _ _ _ _ Hf Hc Hp) as [? _]. done.
Qed.

Lemma install_pending_lookup p m e :
  NoDup (map (λ e, seg_id (pend_segment e)) p) → e ∈ p →
  install_pending p m !! seg_id (pend_segment e) = Some (pend_segment e).
Proof.
  revert m. induction p as [|e' r IH]; intros m Hn He; [by apply elem_of_nil in He|].
  apply NoDup_cons in Hn as [Hni Hn]. apply elem_of_cons in He as [->|He].
  - unfold install_pending; simpl. change (foldl _ ?x r) with (install_pending r x).
    rewrite install_pending_lookup_other by done. apply lookup_insert_eq.
  - by apply (IH (<[seg_id (pend_segment e') := pend_segment e']> m)).
Qed.

Lemma install_pending_inv p m id (x : Segment) :
  install_pending p m !! id = Some x →
  m !! id = Some x ∨ ∃ e, e ∈ p ∧ pend_segment e = x.
Proof.
  revert m. induction p as [|e r IH]; intros m Hs; [by left|].
  apply (IH (<[seg_id (pend_segment e) := pend_segment e]> m)) in Hs as [Hs|(e' & ? & ?)].
  - apply lookup_insert_Some in Hs as [[? ?]|[? ?]]; [right; exists e|by left].
    split; [constructor|done].
  - right. exists e'. split; [by constructor|done].
Qed.

(** The log after the data is written and the records installed. *)
Lemma installed_wf l0 l p c :
  log_wf l0 → contig (next_offset l0) p c → segment_map l = install_pending p (segment_map l0) →
  nv_file l = written (nv_file l0) p → next_offset l = c → log_wf l.
Proof.
  intros Hwf Hc Hm Hf Hn. pose proof Hwf as [H0 Hseg]. pose proof (contig_le _ _ _ Hc).
  split; [lia|]. rewrite Hm. intros id s Hs.
  pose proof (written_above (next_offset l0) _ _ _ (nv_file l0) H0 (Z.le_refl _) Hc) as [Hlen _].
  apply install_pending_inv in Hs as [Hs|(e & He & <-)].
  - destruct (Hseg _ _ Hs) as (? & ? & ? & Hin & ?). unfold seg_wf. rewrite Hf, Hn.
    split_and!; try tauto; [lia|]. intros Hp. specialize (Hin Hp). lia.
  - destruct (written_read _ _ _ (nv_file l0) e H0 Hc He) as (_ & ? & ? & Hin).
    assert (seg_len (pend_segment e) = wrap 32 (lenZ (pend_data e)) ∧
      0 ≤ seg_ref_count (pend_segment e) ≤ U32_MAX ∧
      seg_deduplicated (pend_segment e) = (1 <? seg_ref_count (pend_segment e))) as (Hl & ? & ?).
    { clear -Hc He. revert He Hc. generalize (next_offset l0).
      induction p as [|e' r IH]; intros o He Hc; [by apply elem_of_nil in He|].
      destruct Hc as (? & ? & ? & ? & ?). apply elem_of_cons in He as [->|He]; eauto. }
    pose proof (wrap32_le (pend_data e)). unfold seg_wf. rewrite Hf, Hn, Hl in *.
    split_and!; try tauto; lia.
Qed.

(** What a commit that installed its records leaves in memory and in the data file:
    the records of the log it was opened on and the staged ones, the next offset behind
    them, their bytes (the first [len mod 2^32] of each), and every other segment as it
    was. *)
Definition installed l0 t l : Prop :=
  segment_map l = install_pending (pending t) (segment_map l0) ∧
  next_offset l = current_offset t ∧ log_wf l ∧
  (∀ e, e ∈ pending t →
     segment_bytes l (seg_id (pend_segment e)) =
       Some (takeZ (wrap 32 (lenZ (pend_data e))) (pend_data e))) ∧
  ∀ j, j ∉ pending_ids t → segment_bytes l j = segment_bytes l0 j.

(** What a commit that could not write its data leaves: all as it was, down to the
    metadata file; only the data file above the offset may differ. *)
Definition untouched l0 l : Prop :=
  segment_map l = segment_map l0 ∧ next_offset l = next_offset l0 ∧
  nv_metadata l = nv_metadata l0 ∧ log_wf l ∧
  ∀ j, segment_bytes l j = segment_bytes l0 j.

Lemma written_installed l0 t l :
  log_wf l0 → contig (next_offset l0) (pending t) (current_offset t) →
  NoDup (pending_ids t) →
  segment_map l = install_pending (pending t) (segment_map l0) →
  next_offset l = current_offset t → nv_file l = written (nv_file l0) (pending t) →
  installed l0 t l.
Proof.
  intros Hwf Hc Hnd Hm Hn Hf. pose proof Hwf as [H0 _].
  split; [done|]. split; [done|]. split; [by eapply (installed_wf l0 _ (pending t))|]. split.
  - intros e He. erewrite segment_bytes_lookup; [|rewrite Hm; by apply install_pending_lookup].
    rewrite Hf. by apply (written_read _ _ _ _ _ H0 Hc He).
  - intros j Hj. apply (segment_bytes_above (next_offset l0)); [by apply wf_below_next|..].
    + by rewrite Hm, install_pending_lookup_other.
    + rewrite Hf. by eapply written_above.
Qed.

Lemma commit_spec l0 s :
  log_wf l0 → txn_ok l0 s → NoDup (pending_ids (txn s)) →
  match commit s with
  | (Ok _, s') =>
      finalized (txn s') = true ∧ installed l0 (txn s) (txn_log s') ∧
      (pending (txn s) ≠ [] → synced (txn_log s'))
  | (Err _, s') =>
      (finalized (txn s') = true ∧ untouched l0 (txn_log s')) ∨
      (finalized (txn s') = false ∧ base_offset (txn s') = next_offset l0 ∧
       installed l0 (txn s) (txn_log s'))
  | (Panic, _) => False
  end.
Proof.
  intros Hwf (Hfin & Hb & Hc & Hl) Hnd. pose proof Hwf as [H0 _].
  assert (∀ l j, segment_map l = segment_map l0 →
    above (next_offset l0) (nv_file l0) (nv_file l) → segment_bytes l j = segment_bytes l0 j) as Hsame.
  { intros l j Hm Ha. apply (segment_bytes_above (next_offset l0)); [by apply wf_below_next| |done].
    by rewrite Hm. }
  unfold commit. cbv [bind gets]. rewrite Hfin.
  case_bool_decide as Hp.
  { simpl. split; [done|]. split; [|done].
    apply written_installed; try done; by rewrite Hl, ?Hp. }
  pose proof (write_pending_spec (next_offset l0) _ _ (core (txn_log s)) _ (nv_file l0)
    H0 (Z.le_refl _) Hc (txn_log s)) as Hw.
  cbv [attempt zoom on_log modify on_txn fail].
  destruct (write_pending (pending (txn s)) (txn_log s)) as [[u|e| ] l1];
    (specialize (Hw ltac:(split; [done|by rewrite Hl]))); [|simpl|done].
  - destruct Hw as [Hcore Hfile]. unfold core in Hcore. rewrite Hl in Hcore. simplify_eq/=.
    match goal with |- context [save_segment_map ?x] => set (l2 := x) end.
    assert (installed l0 (txn s) (snd (save_segment_map l2))) as Hin.
    { destruct (save_segment_map_frame l2) as [Hk Hf]. unfold core in Hk. simplify_eq/=.
      apply written_installed; try done; congruence. }
    pose proof (save_segment_map_synced l2) as Hsy.
    destruct (save_segment_map l2) as [[[]|e| ] l3]; simpl in Hin, Hsy; [|by right|done].
    split; [done|]. split; [done|]. intros _. exact Hsy.
  - destruct Hw as [Hcore Ha]. unfold core in Hcore. rewrite Hl in Hcore. simplify_eq/=.
    left. split; [done|]. split; [simpl; congruence|]. split; [done|].
    split; [simpl; congruence|]. split.
    + rewrite Hb. eapply (wf_below_above _ l0 l1); [by apply wf_below_next|congruence|done].
    + intros j. apply Hsame; [simpl; congruence|done].
Qed.
End txn_spec.

(** ** Properties *)
Section nvram_properties.
Context {J : JsonDoc SegmentMap}.
Implicit Types l : NvramLog.

(** Without I/O failures [append] succeeds, a [read] of the new segment then
    returns the data (its first [len mod 2^32] bytes, because the recorded length
    is the [u32] cast of the length) and every other segment still reads the same. *)
Theorem append_read_roundtrip l id data :
  log_inv l → nv_faults l = [] → next_offset l + lenZ data < 2 ^ 64 →
  ∃ s l', append id data l = (Ok s, l') ∧ log_inv l' ∧ nv_faults l' = [] ∧
    read id l' = (Ok (takeZ (wrap 32 (lenZ data)) data), l') ∧
    ∀ j, j ≠ id → segment_map l' !! j = segment_map l !! j ∧
      segment_bytes l' j = segment_bytes l j.
Proof.
  intros Hi Hf Hlt. pose proof (append_spec l id data Hi Hlt) as Hs.
  rewrite append_ok in * by done. cbv zeta in *. destruct Hs as (Hi' & _ & _ & Hm & _ & Hid & Hj).
  eexists _, _. split; [done|]. split_and!; [done|done| |].
  - erewrite read_ok; [by rewrite Hid|done|]. simpl. apply lookup_insert_eq.
  - intros j Hne. split; [|by apply Hj]. simpl. by rewrite lookup_insert_ne.
Qed.

(** C11: whatever its I/O calls return, [append] never panics; when it succeeds, the
    data file and the metadata file left on disk reopen to a log in which the new
    segment has its bytes and all others are unchanged; when it fails, the log
    keeps its invariant and the bytes of every other segment. *)
Theorem append_crash_safe l id data :
  log_inv l → next_offset l + lenZ data < 2 ^ 64 →
  match append id data l with
  | (Ok _, l') =>
      ∃ lr, nv_open (nv_file l') (nv_metadata l') [] = Ok lr ∧ log_inv lr ∧
        segment_bytes lr id = Some (takeZ (wrap 32 (lenZ data)) data) ∧
        ∀ j, j ≠ id → segment_bytes lr j = segment_bytes l j
  | (Err _, l') => log_inv l' ∧ ∀ j, j ≠ id → segment_bytes l' j = segment_bytes l j
  | (Panic, _) => False
  end.
Proof.
  intros Hi Hlt. pose proof (append_spec l id data Hi Hlt) as Hs.
  destruct (append id data l) as [[s|e| ] l']; [|tauto|done].
  destruct Hs as (Hi' & Hsync & _ & _ & _ & Hid & Hj).
  destruct (open_synced l' Hi' Hsync) as (lr & Ho & Hir & _ & _ & _ & Hb).
  exists lr. split_and!; try done; [by rewrite Hb|]. intros. rewrite Hb. by apply Hj.
Qed.

(** Every log reached by appends, reference-count updates, removals, reads and
    well-formed metadata updates, under any I/O outcomes, keeps every segment
    below [next_offset] and inside the data file, its reference count a [u32] and
    its [deduplicated] flag equal to [ref_count > 1]. *)
Theorem nv_reachable_invariant l l' : log_inv l → rtc nv_step l l' → log_inv l'.
Proof. intros Hi. induction 1; eauto using nv_step_inv. Qed.


(** Rolling back a staged transaction (or dropping it) restores the log it was
    opened on, byte for byte. *)
Theorem rollback_restores l0 s :
  log_wf l0 → staged l0 s →
  ∃ s', rollback s = (Ok tt, s') ∧ txn_drop s = (Ok tt, s') ∧
    txn_log s' = l0 ∧ finalized (txn s') = true ∧ pending (txn s') = [].
Proof.
  intros Hwf (Hfin & Hb & _ & Hl)%staged_ok; [|done].
  unfold txn_drop, attempt, rollback. cbv [bind gets ret zoom on_log on_txn modify].
  rewrite !Hfin. eexists. split_and!; try done. simpl. rewrite Hl, Hb. by destruct l0.
Qed.

(** Two transactions opened on the same log, each staging one segment, the first
    committing before the second. *)
Definition interleaved_commits l id1 id2 (d1 d2 : bytes) :
    Res Error unit * Res Error unit * NvramLog :=
  let t1 := begin_transaction l in
  let t2 := begin_transaction l in
  let '(_, a) := append_segment id1 d1 (mkTxnState t1 l) in
  let '(_, b) := append_segment id2 d2 (mkTxnState t2 (txn_log a)) in
  let '(r1, c) := commit (mkTxnState (txn a) (txn_log b)) in
  let '(r2, d) := commit (mkTxnState (txn b) (txn_log c)) in
  (r1, r2, txn_log d).

Lemma commit_single_ok t l seg d :
  nv_faults l = [] → finalized t = false → pending t = [mkPendingSegment seg d] →
  ∃ t', commit (mkTxnState t l) =
    (Ok tt, mkTxnState t'
       (mkNvramLog (write_at (nv_file l) (seg_offset seg) d)
          (<[seg_id seg := seg]> (segment_map l)) (current_offset t)
          (Some (to_doc (<[seg_id seg := seg]> (segment_map l)))) [])).
Proof.
  intros Hf Hfin Hp. unfold commit. cbv [bind gets attempt zoom on_log on_txn modify fail ret].
  simpl. rewrite Hfin, Hp. simpl. unfold write_pending. cbv [foldM bind ret].
  rewrite nv_io_ok by done. simpl. rewrite nv_write_all_ok by done.
  rewrite nv_io_ok by done. simpl. rewrite save_segment_map_ok by done.
  eexists. destruct l; simpl in *; by subst.
Qed.

(** Transactions are not isolated from each other.  Two transactions opened on
    the same log stage their data at the same offset; both commits succeed, and
    afterwards the first one's segment holds the second one's bytes. *)
Theorem interleaved_transactions_overlap l id1 id2 d1 d2 :
  log_wf l → nv_faults l = [] → id1 ≠ id2 → lenZ d1 = lenZ d2 → lenZ d1 < 2 ^ 32 →
  let '(r1, r2, l') := interleaved_commits l id1 id2 d1 d2 in
  r1 = Ok tt ∧ r2 = Ok tt ∧ segment_bytes l' id1 = Some d2 ∧ segment_bytes l' id2 = Some d2.
Proof.
  intros Hwf Hf Hne Hlen Hlt. unfold interleaved_commits. pose proof (lenZ_nonneg d1).
  destruct Hwf as [Hn _].
  rewrite append_segment_eq by done. cbn [txn txn_log]. cbv zeta iota beta.
  rewrite append_segment_eq by done. cbn [txn txn_log]. cbv zeta iota beta.
  edestruct commit_single_ok as [t1 ->]; [|reflexivity..|]; [done|]. cbn [txn txn_log].
  edestruct commit_single_ok as [t2 ->]; [|reflexivity..|]; [done|]. cbn [txn txn_log].
  assert (wrap 32 (lenZ d1) = lenZ d1) as Hw by (unfold wrap; apply Z.mod_small; lia).
  split_and!; try done; unfold segment_bytes; simpl.
  - rewrite lookup_insert_ne, lookup_insert_eq by done. simpl.
    rewrite Hw, Hlen. rewrite read_write_same by (done || lia). f_equal. apply takeZ_ge. lia.
  - rewrite lookup_insert_eq. simpl.
    rewrite <- Hlen, Hw, read_write_same by (done || lia). f_equal. apply takeZ_ge. lia.
Qed.

(** A commit that wrote its data but could not save the segment map leaves the
    transaction open with its segment in the map; dropping it then moves
    [next_offset] back below that segment, and the next append overwrites it. *)
Theorem commit_save_failure_unprotected l id1 id2 d1 d2 k :
  log_wf l → nv_faults l = [None; None; None; Some k] → id1 ≠ id2 →
  lenZ d1 = lenZ d2 → lenZ d1 < 2 ^ 32 →
  ∃ s1 s2 s3 seg l',
    append_segment id1 d1 (mkTxnState (begin_transaction l) l) = (Ok seg, s1) ∧
    commit s1 = (Err (IoFailed "fs::write"), s2) ∧
    segment_bytes (txn_log s2) id1 = Some d1 ∧
    txn_drop s2 = (Ok tt, s3) ∧
    (∃ seg2, append id2 d2 (txn_log s3) = (Ok seg2, l')) ∧
    segment_bytes l' id1 = Some d2.
Proof.
  intros [Hn _] Hf Hne Hlen Hlt. pose proof (lenZ_nonneg d1).
  assert (wrap 32 (lenZ d1) = lenZ d1) as Hw by (unfold wrap; apply Z.mod_small; lia).
  rewrite append_segment_eq by done. do 5 eexists. split; [reflexivity|].
  unfold commit. cbv [bind gets attempt zoom on_log on_txn modify fail ret].
  simpl. unfold write_pending, nv_io, nv_write_all, save_segment_map.
  cbv [foldM bind ret]. simpl. rewrite Hf. simpl. split; [reflexivity|].
  unfold segment_bytes at 1; simpl. rewrite lookup_insert_eq. simpl.
  rewrite Hw, read_write_same by lia. split; [f_equal; apply takeZ_ge; lia|].
  split; [reflexivity|]. simpl. split; [eexists; by rewrite append_ok|].
  unfold segment_bytes; simpl. rewrite lookup_insert_ne, lookup_insert_eq by done. simpl.
  rewrite Hlen, read_write_same by lia. f_equal. apply takeZ_ge. lia.
Qed.
End nvram_properties.

(** ** Witnesses *)
Section nvram_witnesses.
Definition sid (n : Z) : SegmentId := mkSegmentId n.

Definition empty_log (fs : faults) : @NvramLog (plain_doc SegmentMap) :=
  @mkNvramLog (plain_doc SegmentMap) [] ∅ 0 None fs.
End nvram_witnesses.

Lemma empty_log_inv fs : log_inv (empty_log fs).
Proof. split; [split|]; [done|by apply map_Forall_empty|done]. Qed.

Lemma append_read_roundtrip_witness :
  ∃ s l', append (sid 7) [x61; x62] (empty_log []) = (Ok s, l') ∧ log_inv l' ∧
    nv_faults l' = [] ∧ read (sid 7) l' = (Ok [x61; x62], l') ∧
    ∀ j, j ≠ sid 7 → segment_map l' !! j = segment_map (empty_log []) !! j ∧
      segment_bytes l' j = segment_bytes (empty_log []) j.
Proof.
  apply (append_read_roundtrip (empty_log []) (sid 7) [x61; x62]);
    [apply empty_log_inv|reflexivity|reflexivity].
Defined.

Lemma append_crash_safe_witness :
  match append (sid 1) [x61; x62; x63] (empty_log [None; Some 2]) with
  | (Ok _, _) => False
  | (Err _, l') => log_inv l' ∧ nv_file l' = [x61; x62]
  | (Panic, _) => False
  end.
Proof.
  split; [|reflexivity].
  refine (proj1 (append_crash_safe (empty_log [None; Some 2]) (sid 1) [x61; x62; x63] _ _));
    [apply empty_log_inv|reflexivity].
Defined.

Lemma nv_reachable_invariant_witness :
  log_inv (snd (increment_refcount (sid 1) (snd (append (sid 1) [x61] (empty_log []))))).
Proof.
  apply (nv_reachable_invariant (empty_log [])); [apply empty_log_inv|].
  eapply rtc_l; [eapply (step_append (empty_log []) _ (sid 1) [x61]); [reflexivity|apply surjective_pairing]|].
  eapply rtc_l; [eapply (step_increment _ _ (sid 1)), surjective_pairing|]. apply rtc_refl.
Defined.

Lemma staged_one fs :
  staged (empty_log fs)
    (snd (append_segment (sid 1) [x61; x62] (mkTxnState (begin_transaction (empty_log fs)) (empty_log fs)))).
Proof.
  eapply (staged_append (empty_log fs) _ _ (sid 1) [x61; x62]); [apply staged_begin|reflexivity|].
  by rewrite append_segment_eq.
Qed.


Lemma rollback_restores_witness :
  let s := snd (append_segment (sid 1) [x61; x62] (mkTxnState (begin_transaction (empty_log [])) (empty_log []))) in
  ∃ s', rollback s = (Ok tt, s') ∧ txn_drop s = (Ok tt, s') ∧
    txn_log s' = empty_log [] ∧ finalized (txn s') = true ∧ pending (txn s') = [].
Proof. apply (rollback_restores (empty_log [])); [apply empty_log_inv|apply staged_one]. Defined.

Lemma interleaved_transactions_overlap_witness :
  let '(r1, r2, l') := interleaved_commits (empty_log []) (sid 1) (sid 2) [x61] [x7a] in
  r1 = Ok tt ∧ r2 = Ok tt ∧ segment_bytes l' (sid 1) = Some [x7a] ∧
  segment_bytes l' (sid 2) = Some [x7a].
Proof.
  apply (interleaved_transactions_overlap (empty_log []) (sid 1) (sid 2) [x61] [x7a]);
    [apply empty_log_inv|reflexivity|discriminate|reflexivity|reflexivity].
Defined.

Lemma commit_save_failure_unprotected_witness :
  ∃ s1 s2 s3 seg l',
    append_segment (sid 1) [x61]
      (mkTxnState (begin_transaction (empty_log [None; None; None; Some 0]))
         (empty_log [None; None; None; Some 0])) = (Ok seg, s1) ∧
    commit s1 = (Err (IoFailed "fs::write"), s2) ∧
    segment_bytes (txn_log s2) (sid 1) = Some [x61] ∧
    txn_drop s2 = (Ok tt, s3) ∧
    (∃ seg2, append (sid 2) [x7a] (txn_log s3) = (Ok seg2, l')) ∧
    segment_bytes l' (sid 1) = Some [x7a].
Proof.
  apply (commit_save_failure_unprotected _ (sid 1) (sid 2) [x61] [x7a] 0);
    [apply empty_log_inv|reflexivity|discriminate|reflexivity|reflexivity].
Defined.
