(* ===== verification/Compression.v ===== *)
(** Crate [compression] (crates/compression/src/lib.rs): entropy estimation, the LZ4
    and Zstd wrappers, adaptive compression with its integrity check, and the
    [Lz4ZstdCompressor] engine behind the [Compressor] trait.  Logging is left out;
    floats are computed exactly in IEEE binary32 except for [log2], a parameter. *)
From S2P Require Import Prelude Errors Common Traits Externals.
From Stdlib Require Import Floats.SpecFloat.

Section compression.
Context `{Crates}.

(** [subtle]'s [ct_eq] on slices of equal length. *)
Definition constant_time_equal (a b : bytes) : bool :=
  if negb (lenZ a =? lenZ b) then false else bool_decide (a = b).

Inductive CompressionSkipReason :=
| SkipEntropy (entropy : f32)
| SkipIneffective (ratio : f32).

(** The [Display] text, with the number's digits left out. *)
Definition skip_reason_text (r : CompressionSkipReason) : string :=
  match r with
  | SkipEntropy _ => "entropy bits/byte"
  | SkipIneffective _ => "ineffective ratio"
  end.

Record CompressionResult := mkCompressionResult {
  cr_original_size : Z;
  cr_compressed_size : Z;
  cr_compressed : bool;
  cr_reused_original : bool;
  cr_algorithm : string;
  cr_reason : option CompressionSkipReason;
}.

Definition CompressionResult_ratio (r : CompressionResult) : f32 :=
  if cr_compressed_size r =? 0 then f32_of_Z 1
  else f32_div (f32_of_Z (cr_original_size r)) (f32_of_Z (cr_compressed_size r)).

(** The frequency table: 256 wrapping [u32] counters. *)
Definition frequencies (data : bytes) : list Z :=
  foldl (λ freq b, alter (λ n, u32_add n 1) (Z.to_nat (Z_of_byte b)) freq) (replicate 256 0) data.

Definition estimate_entropy (data : bytes) : f32 :=
  match data with
  | [] => f32_of_Z 0
  | _ =>
      let total := f32_of_Z (lenZ data) in
      foldl (λ entropy count,
        if 0 <? count then
          let p := f32_div (f32_of_Z count) total in
          f32_sub entropy (f32_mul p (f32_log2 p))
        else entropy) (f32_of_Z 0) (frequencies data)
  end.

Definition entropy_skip_reason (data : bytes) : option CompressionSkipReason :=
  if lenZ data <? 1024 then None
  else
    let sample_size := Z.min (lenZ data) 1024 in
    let entropy := estimate_entropy (takeZ sample_size data) in
    if f32_ge entropy (f32_lit 75 1) then Some (SkipEntropy entropy) else None.

Definition compress_lz4 (data : bytes) (level : Z) : Res CompressionError bytes :=
  match lz4_encode (wrap 32 level) data with
  | Encoded out => Ok out
  | BuildFailed message => Err (Codec "lz4" message)
  | WriteFailed => Err (CompIo "lz4")
  | FinishFailed message => Err (Codec "lz4" message)
  end.

Definition decompress_lz4 (data : bytes) : Res CompressionError bytes :=
  match lz4_decode data with
  | Decoded out => Ok out
  | OpenFailed message => Err (Codec "lz4" message)
  | ReadFailed => Err (CompIo "lz4")
  end.

Definition compress_zstd (data : bytes) (level : Z) : Res CompressionError bytes :=
  match zstd_encode data level with
  | inl out => Ok out
  | inr message => Err (Codec "zstd" message)
  end.

Definition decompress_zstd (data : bytes) : Res CompressionError bytes :=
  match zstd_decode data with
  | inl out => Ok out
  | inr message => Err (Codec "zstd" message)
  end.

Definition clamp (v lo hi : Z) : Z := Z.min (Z.max v lo) hi.

Definition adjusted_level (level : Z) (algorithm : string) : Res CompressionError Z :=
  Ok (if String.eqb algorithm "lz4" then clamp level 1 16
      else if String.eqb algorithm "zstd" then clamp level (-5) 22
      else level).

Definition attempt_compress (data : bytes) (policy : CompressionPolicy) :
    Res CompressionError (bytes * CompressionResult) :=
  match policy with
  | CompNone =>
      Ok (data,
          {| cr_original_size := lenZ data; cr_compressed_size := lenZ data;
             cr_compressed := false; cr_reused_original := true;
             cr_algorithm := "identity"; cr_reason := None |})
  | LZ4 level =>
      let? level := adjusted_level level "lz4" in
      let? compressed := compress_lz4 data level in
      Ok (compressed,
          {| cr_original_size := lenZ data; cr_compressed_size := lenZ data;
             cr_compressed := true; cr_reused_original := false;
             cr_algorithm := "lz4:" +:+ pretty level; cr_reason := None |})
  | Zstd level =>
      let? level := adjusted_level level "zstd" in
      let? compressed := compress_zstd data level in
      Ok (compressed,
          {| cr_original_size := lenZ data; cr_compressed_size := lenZ data;
             cr_compressed := true; cr_reused_original := false;
             cr_algorithm := "zstd:" +:+ pretty level; cr_reason := None |})
  end.

Definition verify_integrity (policy : CompressionPolicy) (compressed original : bytes) :
    Res CompressionError unit :=
  match policy with
  | LZ4 _ =>
      let? decompressed := decompress_lz4 compressed in
      if negb (constant_time_equal decompressed original) then Err (IntegrityFailure "lz4")
      else Ok tt
  | Zstd _ =>
      let? decompressed := decompress_zstd compressed in
      if negb (constant_time_equal decompressed original) then Err (IntegrityFailure "zstd")
      else Ok tt
  | CompNone => Ok tt
  end.

(** [.context(..)?] on a [CompressionError]. *)
Definition with_context {A : Type} (ctx : string) (r : Res CompressionError A) : Res Error A :=
  res_map_err (λ e, Context ctx (OfCompression e)) r.

(** The result returned when the input slice itself is kept. *)
Definition reused (data : bytes) (reason : CompressionSkipReason) : Cow * CompressionResult :=
  (Borrowed data,
   {| cr_original_size := lenZ data; cr_compressed_size := lenZ data;
      cr_compressed := false; cr_reused_original := true;
      cr_algorithm := "identity"; cr_reason := Some reason |}).

Definition adaptive_compress (data : bytes) (policy : CompressionPolicy) :
    Res Error (Cow * CompressionResult) :=
  if bool_decide (policy = CompNone) then Ok (reused data (SkipIneffective (f32_of_Z 1)))
  else
    match entropy_skip_reason data with
    | Some reason => Ok (reused data reason)
    | None =>
        let? (compressed, result) :=
          with_context "compression backend failure" (attempt_compress data policy) in
        if lenZ data <=? lenZ compressed then
          let ratio := f32_div (f32_of_Z (lenZ compressed)) (f32_of_Z (lenZ data)) in
          Ok (Borrowed data,
              {| cr_original_size := cr_original_size result;
                 cr_compressed_size := lenZ data;
                 cr_compressed := false; cr_reused_original := true;
                 cr_algorithm := "identity"; cr_reason := Some (SkipIneffective ratio) |})
        else
          let? _ := with_context "integrity verification failed"
                      (verify_integrity policy compressed data) in
          Ok (Owned compressed, result)
    end.

Definition compress_segment (data : bytes) (policy : CompressionPolicy) :
    Res Error (Cow * CompressionResult) := adaptive_compress data policy.

(** *** [impl Compressor for Lz4ZstdCompressor] *)
Definition compress (data : bytes) (policy : CompressionPolicy) :
    Res Error (Cow * CompressionSummary) :=
  let? (view, result) := compress_segment data policy in
  let summary := CompressionSummary_new (cr_original_size result) (cr_compressed_size result)
                   (cr_algorithm result) in
  Ok (view,
      {| cs_original_size := cs_original_size summary;
         cs_output_size := cs_output_size summary;
         cs_algorithm := cs_algorithm summary;
         cs_compressed := cr_compressed result;
         cs_reused_input := cr_reused_original result;
         cs_reason := skip_reason_text <$> cr_reason result |}).

Definition decompress (data : bytes) (algorithm : string) : Res Error bytes :=
  if String.eqb algorithm "identity" then Ok data
  else if str_prefix "lz4" algorithm then res_map_err OfCompression (decompress_lz4 data)
  else if str_prefix "zstd" algorithm then res_map_err OfCompression (decompress_zstd data)
  else Err (OfCompression (InvalidPolicy "unsupported algorithm")).

Definition supports_algorithm (algorithm : string) : bool :=
  String.eqb algorithm "identity" || str_prefix "lz4" algorithm || str_prefix "zstd" algorithm.
End compression.

(** ** Lemmas *)
Section compression_lemmas.
Context `{Crates}.

Lemma constant_time_equal_true a b : constant_time_equal a b = true ↔ a = b.
Proof.
  unfold constant_time_equal. split.
  - case_if; [done|]. by intros ?%bool_decide_eq_true.
  - intros ->. rewrite Z.eqb_refl. simpl. by apply bool_decide_eq_true.
Qed.

Lemma decompress_lz4_named l d :
  decompress d ("lz4:" +:+ pretty (l : Z)) = res_map_err OfCompression (decompress_lz4 d).
Proof. done. Qed.

Lemma decompress_zstd_named l d :
  decompress d ("zstd:" +:+ pretty (l : Z)) = res_map_err OfCompression (decompress_zstd d).
Proof. done. Qed.

Lemma verify_integrity_lz4 l c o :
  verify_integrity (LZ4 l) c o = Ok tt → decompress_lz4 c = Ok o.
Proof.
  simpl. destruct (decompress_lz4 c) as [d|e| ]; simpl; [|done|done].
  destruct (constant_time_equal d o) eqn:Hd; simpl; [|done].
  by apply constant_time_equal_true in Hd as ->.
Qed.

Lemma verify_integrity_zstd l c o :
  verify_integrity (Zstd l) c o = Ok tt → decompress_zstd c = Ok o.
Proof.
  simpl. destruct (decompress_zstd c) as [d|e| ]; simpl; [|done|done].
  destruct (constant_time_equal d o) eqn:Hd; simpl; [|done].
  by apply constant_time_equal_true in Hd as ->.
Qed.

(** Both outcomes of a successful compression. *)
Lemma adaptive_compress_cases data policy view r :
  adaptive_compress data policy = Ok (view, r) →
  cr_original_size r = lenZ data ∧ cr_compressed_size r = lenZ data ∧
  ((view = Borrowed data ∧ cr_compressed r = false ∧ cr_reused_original r = true ∧
    cr_algorithm r = "identity") ∨
   (∃ out, view = Owned out ∧ cr_compressed r = true ∧ cr_reused_original r = false ∧
    lenZ out < lenZ data ∧ decompress out (cr_algorithm r) = Ok data ∧
    match policy with
    | CompNone => False
    | LZ4 _ => decompress_lz4 out = Ok data
    | Zstd _ => decompress_zstd out = Ok data
    end)).
Proof.
  unfold adaptive_compress. case_bool_decide as Hp.
  { intros ?; simplify_eq/=. split_and!; try done. by left. }
  destruct (entropy_skip_reason data) as [reason|].
  { intros ?; simplify_eq/=. split_and!; try done. by left. }
  destruct policy as [|level|level]; [done|..]; cbn [attempt_compress adjusted_level res_bind].
  - destruct (compress_lz4 _ _) as [c|e| ]; cbn [res_bind with_context res_map_err]; [|done|done].
    destruct (Z.leb_spec (lenZ data) (lenZ c)).
    { intros ?; simplify_eq/=. split_and!; try done. by left. }
    destruct (verify_integrity _ c data) as [[]|e| ] eqn:Hv; [|done|done].
    intros ?; simplify_eq/=. split_and!; try done. right.
    apply (verify_integrity_lz4 level) in Hv. exists c. split_and!; try done.
    rewrite decompress_lz4_named. by rewrite Hv.
  - destruct (compress_zstd _ _) as [c|e| ]; cbn [res_bind with_context res_map_err]; [|done|done].
    destruct (Z.leb_spec (lenZ data) (lenZ c)).
    { intros ?; simplify_eq/=. split_and!; try done. by left. }
    destruct (verify_integrity _ c data) as [[]|e| ] eqn:Hv; [|done|done].
    intros ?; simplify_eq/=. split_and!; try done. right.
    apply (verify_integrity_zstd level) in Hv. exists c. split_and!; try done.
    rewrite decompress_zstd_named. by rewrite Hv.
Qed.

(** Compression never panics. *)
Lemma adaptive_compress_no_panic data policy : adaptive_compress data policy ≠ Panic.
Proof.
  unfold adaptive_compress. case_bool_decide; [done|].
  destruct (entropy_skip_reason data); [done|].
  destruct policy as [|l|l]; cbn [attempt_compress adjusted_level res_bind].
  - done.
  - unfold compress_lz4. destruct (lz4_encode _ _); simpl; try done.
    case_if; [done|]. unfold decompress_lz4. destruct (lz4_decode _); simpl; try done.
    by destruct (negb _).
  - unfold compress_zstd. destruct (zstd_encode _ _); simpl; try done.
    case_if; [done|]. unfold decompress_zstd. destruct (zstd_decode _); simpl; try done.
    by destruct (negb _).
Qed.
End compression_lemmas.

#[export] Instance Lz4ZstdCompressor `{Crates} : Compressor :=
  {| tr_compress := compress; tr_decompress := decompress;
     tr_supports_algorithm := supports_algorithm |}.

#[export] Instance Lz4ZstdLaws `{Crates} : CompressorLaws.
Proof.
  split.
  - intros data policy view s. cbn. unfold compress, compress_segment.
    destruct (adaptive_compress data policy) as [[v r]|e| ] eqn:Hc; simpl; [|done|done].
    intros ?; simplify_eq/=.
    by apply adaptive_compress_cases in Hc
      as (_ & _ & [(-> & -> & _)|(out & -> & -> & _ & _ & ? & _)]).
  - intros data policy. cbn. unfold compress, compress_segment.
    pose proof (adaptive_compress_no_panic data policy).
    by destruct (adaptive_compress data policy) as [[v r]|e| ].
  - intros data algorithm. cbn. unfold decompress, decompress_lz4, decompress_zstd.
    repeat case_if; try done; [by destruct (lz4_decode data)|by destruct (zstd_decode data)].
Qed.

(** ** Properties *)
Section compression_properties.
Context `{Crates}.

(** C40: whatever the codecs do, when the engine's [compress] succeeds its own
    [decompress], given the algorithm name of the summary, returns the original
    data; a result marked compressed is strictly shorter than the input, and one
    not marked is the input itself. *)
Theorem compress_decompress data policy view s :
  compress data policy = Ok (view, s) →
  decompress (as_ref view) (cs_algorithm s) = Ok data ∧
  (cs_compressed s = true → lenZ (as_ref view) < lenZ data) ∧
  (cs_compressed s = false → view = Borrowed data ∧ cs_reused_input s = true).
Proof.
  unfold compress, compress_segment.
  destruct (adaptive_compress data policy) as [[v r]|e| ] eqn:Hc; simpl; [|done|done].
  intros ?; simplify_eq/=.
  apply adaptive_compress_cases in Hc as (_ & _ & [(-> & -> & -> & ->)|(out & -> & -> & -> & ? & ? & _)]).
  - done.
  - done.
Qed.

(** The reported output size is always the input size, even when the
    compressed output is shorter, so the reported ratio never shows a gain. *)
Theorem compressed_size_never_updated data policy view s :
  compress data policy = Ok (view, s) →
  cs_output_size s = lenZ data ∧ cs_original_size s = lenZ data ∧
  (cs_compressed s = true → lenZ (as_ref view) < cs_output_size s).
Proof.
  unfold compress, compress_segment.
  destruct (adaptive_compress data policy) as [[v r]|e| ] eqn:Hc; simpl; [|done|done].
  intros ?; simplify_eq/=.
  apply adaptive_compress_cases in Hc as (-> & -> & [(-> & -> & _)|(out & -> & -> & _ & ? & _)]).
  - done.
  - done.
Qed.

(** [supports_algorithm] accepts a name exactly when [decompress] never
    rejects it as unsupported. *)
Theorem supports_algorithm_spec algorithm :
  supports_algorithm algorithm = true ↔
  ∀ data, decompress data algorithm ≠ Err (OfCompression (InvalidPolicy "unsupported algorithm")).
Proof.
  unfold supports_algorithm, decompress. split.
  - intros Hs data. destruct (String.eqb algorithm "identity"); [done|].
    destruct (str_prefix "lz4" algorithm).
    { unfold decompress_lz4. by destruct (lz4_decode data). }
    destruct (str_prefix "zstd" algorithm); [|done].
    unfold decompress_zstd. by destruct (zstd_decode data).
  - intros Hd. specialize (Hd []). destruct (String.eqb algorithm "identity"); [done|].
    destruct (str_prefix "lz4" algorithm); [done|].
    by destruct (str_prefix "zstd" algorithm).
Qed.
End compression_properties.

(** ** Witnesses *)
Definition run_of (n : nat) (b : byte) : bytes := replicate n b.

Lemma compress_decompress_witness :
  let out := [x04; x0a; x61] in
  let s := {| cs_original_size := 10; cs_output_size := 10; cs_algorithm := "lz4:1";
              cs_compressed := true; cs_reused_input := false; cs_reason := None |} in
  decompress (H := toy_crates) out "lz4:1" = Ok (run_of 10 x61) ∧
  (cs_compressed s = true → lenZ out < lenZ (run_of 10 x61)) ∧
  (cs_compressed s = false → Owned out = Borrowed (run_of 10 x61) ∧ cs_reused_input s = true).
Proof.
  exact (compress_decompress (H := toy_crates) (run_of 10 x61) (LZ4 1) (Owned [x04; x0a; x61])
    {| cs_original_size := 10; cs_output_size := 10; cs_algorithm := "lz4:1";
       cs_compressed := true; cs_reused_input := false; cs_reason := None |} eq_refl).
Defined.

Lemma compressed_size_never_updated_witness :
  10 = lenZ (run_of 10 x61) ∧ 10 = lenZ (run_of 10 x61) ∧
  (true = true → lenZ [x04; x0a; x61] < 10).
Proof.
  exact (compressed_size_never_updated (H := toy_crates) (run_of 10 x61) (LZ4 1)
    (Owned [x04; x0a; x61])
    {| cs_original_size := 10; cs_output_size := 10; cs_algorithm := "lz4:1";
       cs_compressed := true; cs_reused_input := false; cs_reason := None |} eq_refl).
Defined.
