(* ===== verification/KeyManager.v ===== *)
(** Crate [encryption], crates/encryption/src/keymanager.rs: XTS key pairs, the HKDF
    derivation and the versioned key cache of [KeyManager] with its rotation.

    The environment and the TPM are arguments; zeroizing on drop is not modelled. *)
From S2P Require Import Prelude Errors Common Externals.

Definition XTS_KEY_SIZE : Z := 64.
Definition MASTER_KEY_SIZE : Z := 32.
Definition HKDF_INFO_CONTEXT : bytes := string_bytes "SPACE-XTS-AES-256-KEY-V1".
Definition HKDF_SALT_DOMAIN : bytes := string_bytes "SPACE-HKDF-SALT-V1".
Definition HKDF_SALT_SIZE : Z := 32.

Record XtsKeyPair := mkXtsKeyPair { key1 : bytes; key2 : bytes }.

Definition XtsKeyPair_from_bytes (b : bytes) : XtsKeyPair :=
  {| key1 := takeZ 32 b; key2 := takeZ 32 (dropZ 32 b) |}.

Definition XtsKeyPair_to_bytes (k : XtsKeyPair) : bytes := key1 k ++ key2 k.

Record KeyManager := mkKeyManager {
  master_key : bytes;
  hkdf_salt : bytes;
  key_cache : gmap Z XtsKeyPair;
  current_version : Z;
  rotating : bool;
}.

Section keymanager.
Context `{Crates}.

Definition set_key_cache (c : gmap Z XtsKeyPair) (m : KeyManager) : KeyManager :=
  mkKeyManager (master_key m) (hkdf_salt m) c (current_version m) (rotating m).

Definition derive_hkdf_salt (master : bytes) : bytes :=
  takeZ HKDF_SALT_SIZE (blake3_hash (HKDF_SALT_DOMAIN ++ master)).

Definition hkdf_extract (m : KeyManager) : Res EncryptionError bytes :=
  ok_or (hmac_sha256 (hkdf_salt m) (master_key m))
    (KeyDerivationFailed "HKDF extract init failed").

(** The expansion loop; [okm[generated..generated + take]] is overwritten with
    the head of each block.  Running out of fuel is [Panic]; 256 rounds are more
    than the one-byte counter allows. *)
Fixpoint hkdf_loop (fuel : nat) (prk info okm : bytes) (generated : Z) (previous : bytes)
    (counter : Z) : Res EncryptionError bytes :=
  match fuel with
  | O => Panic
  | S fuel' =>
      if generated <? XTS_KEY_SIZE then
        match hmac_sha256 prk (previous ++ info ++ [byte_of_Z counter]) with
        | None => Err (KeyDerivationFailed "HKDF expand init failed")
        | Some block =>
            let take := Z.min (lenZ block) (XTS_KEY_SIZE - generated) in
            let okm := write_at okm generated (takeZ take block) in
            if counter =? U8_MAX then Err (KeyDerivationFailed "HKDF counter overflowed")
            else hkdf_loop fuel' prk info okm (generated + take) block (counter + 1)
        end
      else Ok okm
  end.

Definition hkdf_expand (prk info : bytes) : Res EncryptionError bytes :=
  hkdf_loop 256 prk info (replicate (Z.to_nat XTS_KEY_SIZE) x00) 0 [] 1.

Definition hkdf_info (version : Z) : bytes := HKDF_INFO_CONTEXT ++ to_be_bytes 4 version.

Definition derive_key (m : KeyManager) (version : Z) : Res EncryptionError XtsKeyPair :=
  let? prk := hkdf_extract m in
  let? okm := hkdf_expand prk (hkdf_info version) in
  Ok (XtsKeyPair_from_bytes okm).

Definition KeyManager_new (master : bytes) : KeyManager :=
  let manager := mkKeyManager master (derive_hkdf_salt master) ∅ 1 false in
  match derive_key manager 1 with
  | Ok key => set_key_cache (<[1 := key]> (key_cache manager)) manager
  | _ => manager
  end.

(** [env] is the value of SPACE_MASTER_KEY, if set. *)
Definition from_env (env : option string) : Res EncryptionError KeyManager :=
  let? hex_key := ok_or env
    (InvalidConfiguration "SPACE_MASTER_KEY environment variable not set") in
  let? b := ok_or (hex_decode hex_key) (InvalidConfiguration "Invalid hex in SPACE_MASTER_KEY") in
  if negb (lenZ b =? MASTER_KEY_SIZE) then Err (InvalidKeyLength MASTER_KEY_SIZE (lenZ b))
  else Ok (KeyManager_new b).

(** The provider's two answers are arguments. *)
Definition from_tpm (read_master_key : Res EncryptionError bytes)
    (read_kdf_salt : Res EncryptionError (option bytes)) : Res EncryptionError KeyManager :=
  let? master := read_master_key in
  let manager := KeyManager_new master in
  let? salt := read_kdf_salt in
  match salt with
  | None => Ok manager
  | Some salt =>
      let manager := mkKeyManager (master_key manager) salt ∅ (current_version manager)
                       (rotating manager) in
      let current := current_version manager in
      match derive_key manager current with
      | Ok key => Ok (set_key_cache (<[current := key]> (key_cache manager)) manager)
      | _ => Ok manager
      end
  end.

Definition get_key (version : Z) : M KeyManager EncryptionError XtsKeyPair :=
  let! m := gets (λ m, m) in
  (if bool_decide (is_Some (key_cache m !! version)) then ret tt
   else
     let! key := lift (derive_key m version) in
     modify (λ m, set_key_cache (<[version := key]> (key_cache m)) m)) ;;;
  let! m := gets (λ m, m) in
  lift (ok_or (key_cache m !! version) (KeyNotFound version)).

Definition is_rotating (m : KeyManager) : bool := rotating m.

Definition rotate : M KeyManager EncryptionError Z :=
  let! m := gets (λ m, m) in
  if rotating m then fail KeyRotationInProgress
  else
    modify (λ m, mkKeyManager (master_key m) (hkdf_salt m) (key_cache m)
                   (u32_add (current_version m) 1) true) ;;;
    let! m := gets (λ m, m) in
    let! new_key := lift (derive_key m (current_version m)) in
    modify (λ m, set_key_cache (<[current_version m := new_key]> (key_cache m)) m) ;;;
    gets current_version.

Definition complete_rotation : M KeyManager EncryptionError unit :=
  modify (λ m, mkKeyManager (master_key m) (hkdf_salt m) (key_cache m) (current_version m) false).

Definition available_versions (m : KeyManager) : list Z :=
  merge_sort Z.le (map_to_list (key_cache m)).*1.

Definition clear_cache : M KeyManager EncryptionError unit := modify (set_key_cache ∅).

(** ** Specification: HKDF of RFC 5869 with two blocks *)
Definition rfc5869_okm (prk info : bytes) : option bytes :=
  match hmac_sha256 prk (info ++ [x01]) with
  | Some t1 =>
      match hmac_sha256 prk (t1 ++ info ++ [x02]) with
      | Some t2 => Some (t1 ++ t2)
      | None => None
      end
  | None => None
  end.

(** Calls on a manager, whatever they return. *)
Inductive km_step : KeyManager → KeyManager → Prop :=
| km_get_key m m' v r : get_key v m = (r, m') → km_step m m'
| km_rotate m m' r : rotate m = (r, m') → km_step m m'
| km_complete m m' r : complete_rotation m = (r, m') → km_step m m'
| km_clear m m' r : clear_cache m = (r, m') → km_step m m'.

(** Every cached key is the derived one. *)
Definition cache_coherent (m : KeyManager) : Prop :=
  map_Forall (λ v k, derive_key m v = Ok k) (key_cache m).
End keymanager.

(** ** Lemmas *)
Section keymanager_lemmas.
Context `{Crates}.

Lemma derive_key_ext m1 m2 v :
  master_key m1 = master_key m2 → hkdf_salt m1 = hkdf_salt m2 → derive_key m1 v = derive_key m2 v.
Proof. intros Hm Hs. unfold derive_key, hkdf_extract. by rewrite Hm, Hs. Qed.

Lemma cache_coherent_ext m1 m2 :
  master_key m1 = master_key m2 → hkdf_salt m1 = hkdf_salt m2 → key_cache m1 = key_cache m2 →
  cache_coherent m1 → cache_coherent m2.
Proof.
  intros Hm Hs Hc Hco v k Hk. rewrite <- (derive_key_ext m1) by done. apply Hco. by rewrite Hc.
Qed.

Lemma cache_coherent_insert m v k :
  cache_coherent m → derive_key m v = Ok k → cache_coherent (set_key_cache (<[v := k]> (key_cache m)) m).
Proof.
  intros Hco Hk v' k' Hv. rewrite (derive_key_ext _ m) by done.
  simpl in Hv. apply lookup_insert_Some in Hv as [[<- <-]|[_ Hv]]; [done|by apply Hco].
Qed.

Lemma KeyManager_new_coherent master : cache_coherent (KeyManager_new master).
Proof.
  unfold KeyManager_new. set (m := mkKeyManager _ _ _ _ _).
  assert (cache_coherent m) as Hm by apply map_Forall_empty.
  destruct (derive_key m 1) eqn:Hd; [|done..]. by apply cache_coherent_insert.
Qed.

(** [get_key] answers the derived key and remembers it. *)
Lemma get_key_eq m v :
  cache_coherent m →
  let '(r, m') := get_key v m in
  r = derive_key m v ∧ cache_coherent m' ∧
  master_key m' = master_key m ∧ hkdf_salt m' = hkdf_salt m ∧
  current_version m' = current_version m ∧ rotating m' = rotating m.
Proof.
  intros Hco. unfold get_key. cbv [bind gets ret lift modify].
  case_bool_decide as Hc.
  - destruct Hc as [k Hk]. rewrite Hk. simpl. by rewrite (Hco _ _ Hk).
  - destruct (derive_key m v) as [k|e| ] eqn:Hd; simpl; [|done|done].
    rewrite lookup_insert_eq. simpl. split_and!; try done. by apply cache_coherent_insert.
Qed.

Lemma km_step_coherent m m' :
  km_step m m' → cache_coherent m →
  cache_coherent m' ∧ master_key m' = master_key m ∧ hkdf_salt m' = hkdf_salt m.
Proof.
  intros Hstep Hco. destruct Hstep as [m m' v r Hg|m m' r Hr|m m' r Hc|m m' r Hc].
  - pose proof (get_key_eq m v Hco) as Hk. rewrite Hg in Hk. tauto.
  - unfold rotate in Hr. cbv [bind gets fail lift modify] in Hr.
    destruct (rotating m); [by simplify_eq|].
    match type of Hr with context [derive_key ?x] => set (m1 := x) in * end.
    assert (cache_coherent m1) as H1 by (by apply (cache_coherent_ext m)).
    destruct (derive_key m1 _) as [k|e| ] eqn:Hd; simplify_eq; [|done|done].
    split; [by apply cache_coherent_insert|done].
  - unfold complete_rotation, modify in Hc. simplify_eq.
    split; [by apply (cache_coherent_ext m)|done].
  - unfold clear_cache, modify in Hc. simplify_eq. split; [|done].
    apply map_Forall_empty.
Qed.

Lemma km_steps_coherent m m' :
  rtc km_step m m' → cache_coherent m →
  cache_coherent m' ∧ master_key m' = master_key m ∧ hkdf_salt m' = hkdf_salt m.
Proof.
  induction 1 as [m|m m1 m2 Hs _ IH]; intros Hco; [done|].
  destruct (km_step_coherent _ _ Hs Hco) as (H1 & Hm & Hk). destruct (IH H1) as (? & ? & ?).
  split_and!; [done|congruence..].
Qed.

(** The counter bounds the loop: with fuel above its remaining range it stops. *)
Lemma hkdf_loop_no_panic fuel prk info okm generated previous counter :
  1 ≤ counter ≤ U8_MAX → U8_MAX - counter < Z.of_nat fuel →
  hkdf_loop fuel prk info okm generated previous counter ≠ Panic.
Proof.
  unfold U8_MAX. revert okm generated previous counter. induction fuel as [|fuel IH];
    intros okm generated previous counter Hc Hf; [lia|].
  cbn [hkdf_loop]. destruct (generated <? XTS_KEY_SIZE); [|done].
  destruct (hmac_sha256 _ _) as [block|]; [|done].
  unfold U8_MAX. destruct (Z.eqb_spec counter (2 ^ 8 - 1)); [done|]. apply IH; lia.
Qed.

Lemma hkdf_loop_S fuel prk info okm generated previous counter :
  hkdf_loop (S fuel) prk info okm generated previous counter =
    if generated <? XTS_KEY_SIZE then
      match hmac_sha256 prk (previous ++ info ++ [byte_of_Z counter]) with
      | None => Err (KeyDerivationFailed "HKDF expand init failed")
      | Some block =>
          let take := Z.min (lenZ block) (XTS_KEY_SIZE - generated) in
          let okm := write_at okm generated (takeZ take block) in
          if counter =? U8_MAX then Err (KeyDerivationFailed "HKDF counter overflowed")
          else hkdf_loop fuel prk info okm (generated + take) block (counter + 1)
      end
    else Ok okm.
Proof. done. Qed.

(** Overwriting the two halves of a 64-byte buffer. *)
Lemma write_two_halves (t1 t2 z : bytes) :
  length t1 = 32%nat → length t2 = 32%nat → length z = 64%nat →
  write_at (write_at z 0 t1) 32 t2 = t1 ++ t2.
Proof.
  intros L1 L2 L3. rewrite (write_at_nonempty z) by (by destruct t1).
  rewrite write_at_nonempty by (by destruct t2).
  rewrite !takeZ_take, !dropZ_drop. unfold lenZ.
  rewrite !length_app, !length_take, !length_drop, !length_replicate, L1, L2, L3.
  cbn [Z.to_nat Z.of_nat]. simpl (take 0 z). simpl (replicate _ _). rewrite !app_nil_l.
  rewrite take_app_length' by done. f_equal.
  rewrite (drop_ge (t1 ++ _)); [by rewrite app_nil_r|].
  rewrite length_app, length_drop, L1, L3. lia.
Qed.

Lemma hkdf_expand_ok `{!HmacLaws} prk info :
  ∃ t1 t2, hmac_sha256 prk (info ++ [x01]) = Some t1 ∧
    hmac_sha256 prk (t1 ++ info ++ [x02]) = Some t2 ∧
    length t1 = 32%nat ∧ length t2 = 32%nat ∧ hkdf_expand prk info = Ok (t1 ++ t2).
Proof.
  destruct (hmac_total prk (info ++ [x01])) as (t1 & H1 & L1).
  destruct (hmac_total prk (t1 ++ info ++ [x02])) as (t2 & H2 & L2).
  exists t1, t2. do 4 (split; [done|]).
  unfold hkdf_expand. change 256%nat with (S (S (S 253))).
  rewrite hkdf_loop_S. change (byte_of_Z 1) with x01.
  assert (lenZ t1 = 32) as Z1 by (unfold lenZ; by rewrite L1).
  assert (lenZ t2 = 32) as Z2 by (unfold lenZ; by rewrite L2).
  rewrite app_nil_l, H1, Z1. change (0 <? XTS_KEY_SIZE) with true. cbv iota zeta.
  change (1 =? U8_MAX) with false. change (0 + Z.min 32 (XTS_KEY_SIZE - 0)) with 32.
  cbv iota. rewrite hkdf_loop_S. change (byte_of_Z (1 + 1)) with x02. rewrite H2, Z2.
  change (32 <? XTS_KEY_SIZE) with true. cbv iota zeta.
  change (1 + 1 =? U8_MAX) with false.
  change (32 + Z.min 32 (XTS_KEY_SIZE - 32)) with 64. cbv iota. rewrite hkdf_loop_S.
  change (64 <? XTS_KEY_SIZE) with false. cbv iota. f_equal.
  rewrite !takeZ_ge by (rewrite ?Z1, ?Z2; done).
  apply write_two_halves; [done|done|by rewrite length_replicate].
Qed.

Lemma derive_key_ok `{!HmacLaws} m v : ∃ k, derive_key m v = Ok k.
Proof.
  unfold derive_key, hkdf_extract.
  destruct (hmac_total (hkdf_salt m) (master_key m)) as (prk & -> & _). simpl.
  destruct (hkdf_expand_ok prk (hkdf_info v)) as (t1 & t2 & _ & _ & _ & _ & ->). by eexists.
Qed.
Lemma derive_key_no_panic m v : derive_key m v ≠ Panic.
Proof.
  unfold derive_key, hkdf_extract. destruct (hmac_sha256 _ _) as [prk|]; [|done].
  cbn [ok_or res_bind].
  assert (hkdf_expand prk (hkdf_info v) ≠ Panic) as Hn.
  { unfold hkdf_expand. apply hkdf_loop_no_panic; unfold U8_MAX; lia. }
  by destruct (hkdf_expand prk (hkdf_info v)).
Qed.
End keymanager_lemmas.

(** ** Properties *)
Section keymanager_properties.
Context `{Crates}.

(** C39: the expansion loop always terminates within its fuel, and with a 32-byte
    HMAC it returns the 64 bytes T(1) || T(2) of RFC 5869. *)
Theorem hkdf_expand_rfc5869 prk info :
  hkdf_expand prk info ≠ Panic ∧
  (HmacLaws → ∃ okm, hkdf_expand prk info = Ok okm ∧ rfc5869_okm prk info = Some okm ∧
     lenZ okm = XTS_KEY_SIZE).
Proof.
  split; [apply hkdf_loop_no_panic; unfold U8_MAX; lia|].
  intros Hh. destruct (hkdf_expand_ok prk info) as (t1 & t2 & H1 & H2 & L1 & L2 & Ho).
  exists (t1 ++ t2). unfold rfc5869_okm. rewrite H1, H2. split_and!; [done|done|].
  unfold lenZ. by rewrite length_app, L1, L2.
Qed.

(** C30: the key a manager returns for a version depends only on its master key and
    salt: after any sequence of lookups, rotations (successful or refused),
    completions and cache clears, [get_key] returns the key HKDF derives, so keys
    of old versions stay available. *)
Theorem get_key_history_independent master m v :
  rtc km_step (KeyManager_new master) m →
  fst (get_key v m) = derive_key (KeyManager_new master) v.
Proof.
  intros Hs. destruct (km_steps_coherent _ _ Hs (KeyManager_new_coherent master)) as (Hco & Hm & Hk).
  pose proof (get_key_eq m v Hco) as Hg. destruct (get_key v m) as [r m'].
  destruct Hg as (-> & _). by apply derive_key_ext.
Qed.

(** A rotation is refused while one is in progress and changes nothing;
    otherwise it moves to the next version (modulo 2^32), caches its key, keeps the
    cached keys of the other versions, and blocks further rotations. *)
Theorem rotate_spec m :
  (rotating m = true → rotate m = (Err KeyRotationInProgress, m)) ∧
  (rotating m = false → HmacLaws →
     ∃ m', rotate m = (Ok (u32_add (current_version m) 1), m') ∧
       current_version m' = u32_add (current_version m) 1 ∧ rotating m' = true ∧
       is_Some (key_cache m' !! current_version m') ∧
       (∀ v, v ≠ current_version m' → key_cache m' !! v = key_cache m !! v) ∧
       fst (rotate m') = Err KeyRotationInProgress).
Proof.
  split; [intros Hr; unfold rotate; cbv [bind gets fail]; by rewrite Hr|].
  intros Hr Hh. unfold rotate at 1. cbv [bind gets fail lift modify]. rewrite Hr.
  match goal with |- context [derive_key ?x] => set (m1 := x) end.
  destruct (derive_key_ok m1 (current_version m1)) as [k Hk].
  rewrite Hk. eexists. split; [reflexivity|]. simpl. split_and!; try done.
  - rewrite lookup_insert_eq. by eexists.
  - intros v Hv. by rewrite lookup_insert_ne.
Qed.
End keymanager_properties.

(** ** Witnesses *)
Lemma hkdf_expand_rfc5869_witness :
  ∃ okm, hkdf_expand (H := toy_crates) [x01] [x02] = Ok okm ∧
    rfc5869_okm (H := toy_crates) [x01] [x02] = Some okm ∧ lenZ okm = XTS_KEY_SIZE.
Proof. exact (proj2 (hkdf_expand_rfc5869 (H := toy_crates) [x01] [x02]) toy_HmacLaws). Defined.

Lemma get_key_history_independent_witness :
  let m0 := KeyManager_new (H := toy_crates) [x61] in
  let m1 := snd (rotate (H := toy_crates) m0) in
  let m2 := snd (clear_cache m1) in
  fst (get_key (H := toy_crates) 1 m2) = derive_key (H := toy_crates) m0 1.
Proof.
  intros m0 m1 m2. apply (get_key_history_independent (H := toy_crates)).
  eapply rtc_l; [eapply km_rotate, surjective_pairing|].
  eapply rtc_l; [eapply km_clear, surjective_pairing|]. apply rtc_refl.
Defined.

Lemma rotate_spec_witness :
  let m := KeyManager_new (H := toy_crates) [x61] in
  ∃ m', rotate (H := toy_crates) m = (Ok 2, m') ∧ current_version m' = 2 ∧ rotating m' = true ∧
    is_Some (key_cache m' !! current_version m') ∧
    (∀ v, v ≠ current_version m' → key_cache m' !! v = key_cache m !! v) ∧
    fst (rotate (H := toy_crates) m') = Err KeyRotationInProgress.
Proof.
  exact (proj2 (rotate_spec (H := toy_crates) (KeyManager_new (H := toy_crates) [x61]))
    eq_refl toy_HmacLaws).
Defined.
