(* ===== verification/Encryption.v ===== *)
(** Crate [encryption]: policy.rs (policies, per-segment metadata, statistics),
    xts.rs (sector encryption with its metadata) and mac.rs (the keyed-hash tag).
    The ciphers and hashes are the fields of [Crates].  [EncryptionPolicy] of this
    crate is in a module of its own, since the crate [common] has a type of the
    same name; [MacMismatch] is [EncryptionError::IntegrityFailure]. *)
From S2P Require Import Prelude Errors Common Externals KeyManager.

(** ** policy.rs *)
Module CratePolicy.
Inductive EncryptionPolicy :=
| EncNone
| XtsAes256 (key_version : Z).

Definition is_enabled (p : EncryptionPolicy) : bool :=
  match p with
  | EncNone => false
  | XtsAes256 _ => true
  end.

Definition key_version (p : EncryptionPolicy) : option Z :=
  match p with
  | EncNone => None
  | XtsAes256 key_version => Some key_version
  end.

Definition algorithm_name (p : EncryptionPolicy) : string :=
  match p with
  | EncNone => "none"
  | XtsAes256 _ => "xts-aes-256"
  end.
End CratePolicy.

Record EncryptionMetadata := mkEncryptionMetadata {
  md_encryption_version : option Z;
  md_key_version : option Z;
  md_tweak_nonce : option bytes;
  md_integrity_tag : option bytes;
  md_ciphertext_len : option Z;
}.

#[export] Instance EncryptionMetadata_eq_dec : EqDecision EncryptionMetadata.
Proof. solve_decision. Defined.

Definition new_xts (key_version : Z) (tweak : bytes) (ciphertext_len : Z) : EncryptionMetadata :=
  {| md_encryption_version := Some 1;
     md_key_version := Some key_version;
     md_tweak_nonce := Some tweak;
     md_integrity_tag := None;
     md_ciphertext_len := Some ciphertext_len |}.

Definition new_unencrypted : EncryptionMetadata := mkEncryptionMetadata None None None None None.

Definition is_encrypted (m : EncryptionMetadata) : bool :=
  bool_decide (is_Some (md_encryption_version m)).

Definition has_integrity_tag (m : EncryptionMetadata) : bool :=
  bool_decide (is_Some (md_integrity_tag m)).

(** The field assignment [metadata.integrity_tag = tag]. *)
Definition with_tag (tag : option bytes) (m : EncryptionMetadata) : EncryptionMetadata :=
  mkEncryptionMetadata (md_encryption_version m) (md_key_version m) (md_tweak_nonce m) tag
    (md_ciphertext_len m).

Definition set_integrity_tag (tag : bytes) (m : EncryptionMetadata) : EncryptionMetadata :=
  with_tag (Some tag) m.

Definition require_version (m : EncryptionMetadata) : Res string Z :=
  ok_or (md_encryption_version m) "Segment is not encrypted"%string.

Definition require_key_version (m : EncryptionMetadata) : Res string Z :=
  ok_or (md_key_version m) "Segment is not encrypted"%string.

Definition require_tweak (m : EncryptionMetadata) : Res string bytes :=
  ok_or (md_tweak_nonce m) "Missing tweak nonce"%string.

Definition require_integrity_tag (m : EncryptionMetadata) : Res string bytes :=
  ok_or (md_integrity_tag m) "Missing integrity tag"%string.

Record EncryptionStats := mkEncryptionStats {
  encrypted_segments : Z;
  unencrypted_segments : Z;
  total_ciphertext_bytes : Z;
  key_versions_used : gset Z;
}.

Definition EncryptionStats_new : EncryptionStats := mkEncryptionStats 0 0 0 ∅.

Definition add_encrypted (key_version bytes : Z) (s : EncryptionStats) : EncryptionStats :=
  mkEncryptionStats (u64_add (encrypted_segments s) 1) (unencrypted_segments s)
    (u64_add (total_ciphertext_bytes s) bytes) ({[key_version]} ∪ key_versions_used s).

Definition add_unencrypted (s : EncryptionStats) : EncryptionStats :=
  mkEncryptionStats (encrypted_segments s) (u64_add (unencrypted_segments s) 1)
    (total_ciphertext_bytes s) (key_versions_used s).

Definition total_segments (s : EncryptionStats) : Z :=
  u64_add (encrypted_segments s) (unencrypted_segments s).

Definition encryption_ratio (s : EncryptionStats) : f32 :=
  let total := total_segments s in
  if total =? 0 then f32_of_Z 0
  else f32_div (f32_of_Z (encrypted_segments s)) (f32_of_Z total).

(** ** xts.rs *)
Definition XTS_BLOCK_SIZE : Z := 16.
Definition MIN_SECTOR_SIZE : Z := XTS_BLOCK_SIZE.
Definition MAC_TAG_SIZE : Z := 16.
Definition MAC_KEY_CONTEXT : bytes := string_bytes "SPACE-BLAKE3-MAC-KEY-V1".

Section encryption.
Context `{Crates}.

Definition encrypt (plaintext : bytes) (key_pair : XtsKeyPair) (tweak : bytes) :
    Res EncryptionError bytes :=
  if lenZ plaintext <? MIN_SECTOR_SIZE then Err (InvalidCiphertextLength (lenZ plaintext))
  else Ok (xts_encrypt_sector (key1 key_pair) (key2 key_pair) tweak plaintext).

Definition decrypt (ciphertext : bytes) (key_pair : XtsKeyPair) (tweak : bytes) :
    Res EncryptionError bytes :=
  if lenZ ciphertext <? MIN_SECTOR_SIZE then Err (InvalidCiphertextLength (lenZ ciphertext))
  else Ok (xts_decrypt_sector (key1 key_pair) (key2 key_pair) tweak ciphertext).

(** [ciphertext.len() as u32] truncates. *)
Definition encrypt_segment (plaintext : bytes) (key_pair : XtsKeyPair) (key_version : Z)
    (tweak : bytes) : Res EncryptionError (bytes * EncryptionMetadata) :=
  let? ciphertext := encrypt plaintext key_pair tweak in
  Ok (ciphertext, new_xts key_version tweak (wrap 32 (lenZ ciphertext))).

Definition decrypt_segment (ciphertext : bytes) (key_pair : XtsKeyPair)
    (metadata : EncryptionMetadata) : Res EncryptionError bytes :=
  if negb (is_encrypted metadata) then Err MissingMetadata
  else
    let? tweak := res_map_err CorruptedMetadata (require_tweak metadata) in
    let? expected_len := ok_or (md_ciphertext_len metadata) MissingMetadata in
    if negb (lenZ ciphertext =? expected_len)
    then Err (InvalidCiphertextLength (lenZ ciphertext))
    else decrypt ciphertext key_pair tweak.

(** [tweak[..copy_len].copy_from_slice(..)] over sixteen zeros. *)
Definition derive_tweak_from_hash (content_hash : bytes) : bytes :=
  let copy_len := Z.min (lenZ content_hash) 16 in
  write_at (replicate 16 x00) 0 (takeZ copy_len content_hash).

(** ** mac.rs *)
Definition derive_mac_key (xts_key1 xts_key2 : bytes) : bytes :=
  blake3_hash (MAC_KEY_CONTEXT ++ xts_key1 ++ xts_key2).

Definition serialize_metadata_for_mac (metadata : EncryptionMetadata) :
    Res EncryptionError bytes :=
  let b := [] ++ from_option (to_le_bytes 2) [] (md_encryption_version metadata) in
  let b := b ++ from_option (to_le_bytes 4) [] (md_key_version metadata) in
  let b := b ++ from_option id [] (md_tweak_nonce metadata) in
  let b := b ++ from_option (to_le_bytes 4) [] (md_ciphertext_len metadata) in
  Ok b.

Definition compute_mac (ciphertext : bytes) (metadata : EncryptionMetadata)
    (xts_key1 xts_key2 : bytes) : Res EncryptionError bytes :=
  let mac_key := derive_mac_key xts_key1 xts_key2 in
  let? metadata_bytes := serialize_metadata_for_mac metadata in
  Ok (takeZ MAC_TAG_SIZE (blake3_keyed mac_key (ciphertext ++ metadata_bytes))).

Definition verify_mac (ciphertext : bytes) (metadata : EncryptionMetadata)
    (xts_key1 xts_key2 : bytes) : Res EncryptionError unit :=
  let? stored_tag :=
    res_map_err (λ _, MissingIntegrityTag) (require_integrity_tag metadata) in
  let metadata_for_mac := with_tag None metadata in
  let? computed_tag := compute_mac ciphertext metadata_for_mac xts_key1 xts_key2 in
  if bool_decide (stored_tag = computed_tag) then Ok tt else Err MacMismatch.

(** ** Specification *)

(** What [new_xts] builds: every field that is authenticated is present and fits
    its width. *)
Definition metadata_full (m : EncryptionMetadata) : Prop :=
  ∃ v k t n, md_encryption_version m = Some v ∧ md_key_version m = Some k ∧
    md_tweak_nonce m = Some t ∧ md_ciphertext_len m = Some n ∧
    0 ≤ v < 2 ^ 16 ∧ 0 ≤ k < 2 ^ 32 ∧ length t = 16%nat ∧ 0 ≤ n < 2 ^ 32.

(** The bytes the tag covers. *)
Definition mac_input (ciphertext : bytes) (m : EncryptionMetadata) : bytes :=
  ciphertext ++ match serialize_metadata_for_mac m with Ok b => b | _ => [] end.

End encryption.

(** ** Lemmas *)
Section encryption_lemmas.
Context `{Crates}.

Lemma encrypt_cases p kp t :
  encrypt p kp t =
    if lenZ p <? 16 then Err (InvalidCiphertextLength (lenZ p))
    else Ok (xts_encrypt_sector (key1 kp) (key2 kp) t p).
Proof. done. Qed.

Lemma lenZ_xts_encrypt `{!XtsLaws} k1 k2 t d : lenZ (xts_encrypt_sector k1 k2 t d) = lenZ d.
Proof. unfold lenZ. by rewrite xts_encrypt_length. Qed.

(** The length the metadata records decides whether the segment opens again. *)
Lemma decrypt_encrypt_segment `{!XtsLaws} p kp v t ct md tag :
  encrypt_segment p kp v t = Ok (ct, md) →
  lenZ p < 2 ^ 32 → decrypt_segment ct kp (with_tag tag md) = Ok p.
Proof.
  unfold encrypt_segment. rewrite encrypt_cases. unfold res_bind.
  destruct (Z.ltb_spec (lenZ p) 16) as [|Hp]; [done|]. intros ? Hl; simplify_eq.
  unfold decrypt_segment, decrypt, MIN_SECTOR_SIZE, XTS_BLOCK_SIZE. simpl.
  rewrite lenZ_xts_encrypt. unfold wrap. rewrite Z.mod_small, Z.eqb_refl by lia. simpl.
  destruct (Z.ltb_spec (lenZ p) 16) as [|_]; [lia|].
  rewrite xts_decrypt_encrypt; [done|]. unfold lenZ in Hp. lia.
Qed.

Lemma compute_mac_ok ct md k1 k2 :
  compute_mac ct md k1 k2 =
    Ok (takeZ MAC_TAG_SIZE (blake3_keyed (derive_mac_key k1 k2)
          (ct ++ match serialize_metadata_for_mac md with Ok b => b | _ => [] end))).
Proof. done. Qed.

Lemma verify_mac_sealed ct md tag k1 k2 :
  compute_mac ct (with_tag None md) k1 k2 = Ok tag →
  verify_mac ct (set_integrity_tag tag md) k1 k2 = Ok tt.
Proof.
  intros Hc. unfold verify_mac, set_integrity_tag. simpl.
  change (with_tag None (with_tag (Some tag) md)) with (with_tag None md).
  unfold compute_mac in Hc. simpl in Hc. simplify_eq. by rewrite bool_decide_true.
Qed.

Lemma verify_mac_inv ct md k1 k2 :
  verify_mac ct md k1 k2 = Ok tt →
  ∃ tag, md_integrity_tag md = Some tag ∧ compute_mac ct (with_tag None md) k1 k2 = Ok tag.
Proof.
  unfold verify_mac, require_integrity_tag. destruct (md_integrity_tag md) as [tag|]; simpl; [|done].
  case_bool_decide as Ht; [|done]. intros _. exists tag. by rewrite Ht.
Qed.

Lemma serialize_full m v k t n :
  md_encryption_version m = Some v → md_key_version m = Some k →
  md_tweak_nonce m = Some t → md_ciphertext_len m = Some n →
  serialize_metadata_for_mac m =
    Ok (to_le_bytes 2 v ++ to_le_bytes 4 k ++ t ++ to_le_bytes 4 n).
Proof.
  intros Hv Hk Ht Hn. unfold serialize_metadata_for_mac. rewrite Hv, Hk, Ht, Hn.
  cbv [from_option id]. by rewrite !app_nil_l, <- !app_assoc.
Qed.

(** The authenticated bytes determine the ciphertext and the metadata: the
    metadata occupies the last 26 bytes, each field at its width. *)
Lemma mac_input_inj ct1 ct2 m1 m2 b1 b2 :
  metadata_full m1 → metadata_full m2 →
  serialize_metadata_for_mac m1 = Ok b1 → serialize_metadata_for_mac m2 = Ok b2 →
  ct1 ++ b1 = ct2 ++ b2 → ct1 = ct2 ∧ with_tag None m1 = with_tag None m2.
Proof.
  intros (v1 & k1 & t1 & n1 & Hv1 & Hk1 & Ht1 & Hn1 & Bv1 & Bk1 & Bt1 & Bn1)
         (v2 & k2 & t2 & n2 & Hv2 & Hk2 & Ht2 & Hn2 & Bv2 & Bk2 & Bt2 & Bn2).
  unfold with_tag. rewrite (serialize_full m1 v1 k1 t1 n1), (serialize_full m2 v2 k2 t2 n2) by done.
  rewrite Hv1, Hk1, Ht1, Hn1, Hv2, Hk2, Ht2, Hn2.
  intros Hb1%Ok_inj Hb2%Ok_inj Heq. subst b1 b2.
  apply app_inj_2 in Heq as [-> Heq];
    [|rewrite !length_app, !length_to_le_bytes; congruence].
  split; [done|].
  apply app_inj_1 in Heq as [Hv Heq]; [|by rewrite !length_to_le_bytes].
  apply app_inj_1 in Heq as [Hk Heq]; [|by rewrite !length_to_le_bytes].
  apply app_inj_1 in Heq as [-> Hn]; [|congruence].
  apply to_le_bytes_inj in Hv, Hk, Hn; try done. by subst.
Qed.
End encryption_lemmas.

(** ** Properties *)
Section encryption_properties.
Context `{Crates}.

(** C22: sealing and opening a segment, the way the pipelines do it.  Below sixteen
    bytes [encrypt_segment] is refused; from sixteen bytes on it succeeds without
    changing the length, the tag [compute_mac] returns is accepted by [verify_mac]
    once stored, and [decrypt_segment] returns the plaintext if its length fits the
    32-bit length field, and refuses the segment if it does not. *)
Theorem segment_seal_open `{!XtsLaws} p kp v t :
  (lenZ p < 16 → encrypt_segment p kp v t = Err (InvalidCiphertextLength (lenZ p))) ∧
  (16 ≤ lenZ p → ∃ ct md tag,
     encrypt_segment p kp v t = Ok (ct, md) ∧ lenZ ct = lenZ p ∧
     compute_mac ct md (key1 kp) (key2 kp) = Ok tag ∧
     verify_mac ct (set_integrity_tag tag md) (key1 kp) (key2 kp) = Ok tt ∧
     decrypt_segment ct kp (set_integrity_tag tag md) =
       if lenZ p <? 2 ^ 32 then Ok p else Err (InvalidCiphertextLength (lenZ p))).
Proof.
  split; intros Hp.
  { unfold encrypt_segment. rewrite encrypt_cases.
    by destruct (Z.ltb_spec (lenZ p) 16); [|lia]. }
  destruct (encrypt_segment p kp v t) as [[ct md]|e| ] eqn:He.
  2-3: unfold encrypt_segment in He; rewrite encrypt_cases in He;
    destruct (Z.ltb_spec (lenZ p) 16); [lia|done].
  eexists ct, md, _. split; [done|].
  pose proof He as Hs. unfold encrypt_segment in Hs. rewrite encrypt_cases in Hs.
  destruct (Z.ltb_spec (lenZ p) 16); [lia|]. simpl in Hs. simplify_eq.
  split; [apply lenZ_xts_encrypt|]. split; [apply compute_mac_ok|].
  split; [by apply verify_mac_sealed|].
  destruct (Z.ltb_spec (lenZ p) (2 ^ 32)) as [Hl|Hl].
  - by eapply decrypt_encrypt_segment.
  - unfold decrypt_segment, wrap. simpl. rewrite lenZ_xts_encrypt.
    pose proof (Z.mod_pos_bound (lenZ p) (2 ^ 32) ltac:(done)).
    by destruct (Z.eqb_spec (lenZ p) (lenZ p `mod` 2 ^ 32)); [lia|].
Qed.

(** C23: forging a segment that [verify_mac] accepts means finding a second preimage:
    if the tag was computed for one ciphertext and its full metadata, then another
    ciphertext or other full metadata carrying the same tag is accepted exactly when
    its authenticated bytes, which then differ, have the same sixteen leading bytes
    of keyed hash. *)
Theorem mac_forgery_is_second_preimage ct md tag ct' md' k1 k2 :
  metadata_full md → metadata_full md' →
  compute_mac ct md k1 k2 = Ok tag → md_integrity_tag md' = Some tag →
  (ct', with_tag None md') ≠ (ct, with_tag None md) →
  mac_input ct' md' ≠ mac_input ct md ∧
  (verify_mac ct' md' k1 k2 = Ok tt ↔
   takeZ MAC_TAG_SIZE (blake3_keyed (derive_mac_key k1 k2) (mac_input ct' md')) =
     takeZ MAC_TAG_SIZE (blake3_keyed (derive_mac_key k1 k2) (mac_input ct md))).
Proof.
  intros Hf Hf' Hc Ht Hne. split.
  - intros Heq. apply Hne. unfold mac_input in Heq.
    destruct (serialize_metadata_for_mac md) as [b|e| ] eqn:Hb; [|done|done].
    destruct (serialize_metadata_for_mac md') as [b'|e| ] eqn:Hb'; [|done|done].
    destruct (mac_input_inj ct' ct md' md b' b) as [-> ->]; done.
  - rewrite compute_mac_ok in Hc. apply Ok_inj in Hc. fold (mac_input ct md) in Hc. rewrite Hc.
    unfold verify_mac, require_integrity_tag. rewrite Ht. simpl res_map_err.
    rewrite compute_mac_ok. cbv [res_bind].
    change (serialize_metadata_for_mac (with_tag None md')) with (serialize_metadata_for_mac md').
    fold (mac_input ct' md'). case_bool_decide; split; intros; congruence.
Qed.

(** The serialisation the tag covers has no framing: when an optional field is
    absent the same tag is accepted for another split between ciphertext and
    metadata, whatever the hash. *)
Lemma mac_unframed_when_partial k1 k2 tag :
  let md key := mkEncryptionMetadata (Some 1) key None tag None in
  verify_mac [] (md (Some 257)) k1 k2 = Ok tt ↔
  verify_mac [x01; x00; x01; x01] (mkEncryptionMetadata (Some 0) None None tag None) k1 k2 = Ok tt.
Proof. done. Qed.
End encryption_properties.

(** ** Witnesses *)
Definition sample_key : XtsKeyPair := mkXtsKeyPair (replicate 32 x0f) (replicate 32 xf0).
Definition sample_plain : bytes := replicate 20 x61.
Definition sample_tweak : bytes := replicate 16 x03.

Lemma segment_seal_open_witness :
  ∃ ct md tag,
    encrypt_segment (H := toy_crates) sample_plain sample_key 7 sample_tweak = Ok (ct, md) ∧
    lenZ ct = 20 ∧
    compute_mac (H := toy_crates) ct md (key1 sample_key) (key2 sample_key) = Ok tag ∧
    verify_mac (H := toy_crates) ct (set_integrity_tag tag md) (key1 sample_key) (key2 sample_key)
      = Ok tt ∧
    decrypt_segment (H := toy_crates) ct sample_key (set_integrity_tag tag md) = Ok sample_plain.
Proof.
  exact (proj2 (segment_seal_open (H := toy_crates) (H0 := toy_XtsLaws) sample_plain
    sample_key 7 sample_tweak) ltac:(vm_compute; discriminate)).
Defined.

Definition sample_metadata : EncryptionMetadata := new_xts 7 sample_tweak 20.
Definition sample_tag : bytes :=
  match compute_mac (H := toy_crates) sample_plain sample_metadata (key1 sample_key)
          (key2 sample_key) with
  | Ok t => t
  | _ => []
  end.

Lemma mac_forgery_is_second_preimage_witness :
  mac_input [x62] (with_tag (Some sample_tag) sample_metadata) ≠
    mac_input sample_plain sample_metadata.
Proof.
  assert (metadata_full sample_metadata) as Hf.
  { exists 1, 7, sample_tweak, 20. by vm_compute. }
  exact (proj1 (mac_forgery_is_second_preimage (H := toy_crates) sample_plain sample_metadata
    sample_tag [x62] (with_tag (Some sample_tag) sample_metadata) (key1 sample_key)
    (key2 sample_key) Hf Hf ltac:(vm_compute; reflexivity) eq_refl ltac:(vm_compute; discriminate))).
Defined.
