(* ===== verification/Dedup.v ===== *)
(** Crate [dedup] (crates/dedup/src/lib.rs): the content hash and the in-memory
    deduper the modular pipeline uses. *)
From S2P Require Import Prelude Errors Common Traits Externals.

Section dedup.
Context `{Crates}.

(** [ContentHash::from_bytes] (crates/common/src/lib.rs). *)
Definition ContentHash_from_bytes (hash : bytes) : ContentHash := mkContentHash (hex_encode hash).

Definition hash_content (data : bytes) : ContentHash := ContentHash_from_bytes (blake3_hash data).

Record Blake3Deduper := mkBlake3Deduper {
  dd_index : gmap ContentHash SegmentId;
  dd_stats : DedupStats;
}.

Definition Blake3Deduper_new : Blake3Deduper := mkBlake3Deduper ∅ DedupStats_new.

Definition check_dedup (hash : ContentHash) (d : Blake3Deduper) : option SegmentId :=
  dd_index d !! hash.

Definition register_content (hash : ContentHash) (segment : SegmentId) (d : Blake3Deduper) :
    Blake3Deduper :=
  mkBlake3Deduper (<[hash := segment]> (dd_index d)) (dd_stats d).

Definition update_stats (segment_len : Z) (was_deduped : bool) (d : Blake3Deduper) :
    Blake3Deduper :=
  mkBlake3Deduper (dd_index d) (add_segment segment_len was_deduped (dd_stats d)).

Definition stats (d : Blake3Deduper) : DedupStats := dd_stats d.

#[export] Instance Blake3DeduperTrait : Deduper Blake3Deduper :=
  {| tr_hash_content := hash_content; tr_check_dedup := check_dedup;
     tr_register_content := λ hash segment, modify (register_content hash segment);
     tr_update_stats := update_stats; tr_stats := stats |}.
End dedup.
