(* ===== verification/Registry.v ===== *)
(** Crate [capsule-registry], crates/capsule-registry/src/lib.rs: the capsule table,
    the segment-id counter and the content store, saved together as one JSON file.

    The locks are taken and released inside each call, so a call is one step; the
    clones of a registry share its state.  The registry of the
    [advanced-security] build, with its Bloom filter, is in SecuredPipeline.v. *)
From S2P Require Import Prelude Errors Common Traits Externals.

Record RegistryState := mkRegistryState {
  rs_capsules : gmap CapsuleId Capsule;
  rs_next_segment_id : Z;
  rs_content_store : gmap ContentHash SegmentId;
}.

Section registry.
Context {J : JsonDoc RegistryState}.

Record CapsuleRegistry := mkCapsuleRegistry {
  capsules : gmap CapsuleId Capsule;
  next_segment_id : Z;
  content_store : gmap ContentHash SegmentId;
  reg_metadata : option (doc RegistryState);
  reg_faults : faults;
}.

Definition set_capsules (c : gmap CapsuleId Capsule) (r : CapsuleRegistry) : CapsuleRegistry :=
  mkCapsuleRegistry c (next_segment_id r) (content_store r) (reg_metadata r) (reg_faults r).
Definition set_next_segment_id (n : Z) (r : CapsuleRegistry) : CapsuleRegistry :=
  mkCapsuleRegistry (capsules r) n (content_store r) (reg_metadata r) (reg_faults r).
Definition set_content_store (c : gmap ContentHash SegmentId) (r : CapsuleRegistry) :
    CapsuleRegistry :=
  mkCapsuleRegistry (capsules r) (next_segment_id r) c (reg_metadata r) (reg_faults r).

Definition state_of (r : CapsuleRegistry) : RegistryState :=
  mkRegistryState (capsules r) (next_segment_id r) (content_store r).

(** [open]: one read of the metadata file, if it exists. *)
Definition reg_open (metadata : option (doc RegistryState)) (fs : faults) :
    Res Error CapsuleRegistry :=
  match metadata with
  | None => Ok (mkCapsuleRegistry ∅ 0 ∅ None fs)
  | Some d =>
      match next_fault fs with
      | (Some _, _) => Err (IoFailed "read_to_string")
      | (None, fs) =>
          let? state := ok_or (of_doc d) JsonFailed in
          Ok (mkCapsuleRegistry (rs_capsules state) (rs_next_segment_id state)
                (rs_content_store state) metadata fs)
      end
  end.

Definition save : M CapsuleRegistry Error unit := λ r,
  let '(f, fs) := next_fault (reg_faults r) in
  let r := mkCapsuleRegistry (capsules r) (next_segment_id r) (content_store r)
             (write_doc f (to_doc (state_of r)) (reg_metadata r)) fs in
  match f with
  | None => (Ok tt, r)
  | Some _ => (Err (IoFailed "fs::write"), r)
  end.

(** [now] is the system clock, [None] when it is before the epoch. *)
Definition create_capsule_with_segments (now : option Z) (id : CapsuleId) (size : Z)
    (segments : list SegmentId) (policy : Policy) : M CapsuleRegistry Error unit :=
  let! r := gets (λ r, r) in
  if bool_decide (is_Some (capsules r !! id))
  then fail (Msg "Capsule collision (extremely unlikely)")
  else
    let! created_at := lift (ok_or now (IoFailed "duration_since")) in
    let capsule :=
      {| cap_id := id; cap_size := size; cap_segments := segments;
         cap_created_at := created_at; cap_policy := policy; cap_deduped_bytes := 0 |} in
    modify (λ r, set_capsules (<[id := capsule]> (capsules r)) r) ;;;
    save.

Definition lookup (id : CapsuleId) : M CapsuleRegistry Error Capsule :=
  let! r := gets (λ r, r) in
  lift (ok_or (capsules r !! id) (Msg "Capsule not found")).

Definition serialize_capsule {JC : JsonDoc Capsule} (id : CapsuleId) :
    M CapsuleRegistry Error (doc Capsule) :=
  let! capsule := lookup id in
  ret (to_doc capsule).

Definition alloc_segment : M CapsuleRegistry Error SegmentId :=
  let! id := gets next_segment_id in
  modify (λ r, set_next_segment_id (u64_add (next_segment_id r) 1) r) ;;;
  ret (mkSegmentId id).

Definition add_segment (capsule_id : CapsuleId) (id : SegmentId) : M CapsuleRegistry Error unit :=
  let! r := gets (λ r, r) in
  let! c := lift (ok_or (capsules r !! capsule_id) (Msg "Capsule not found")) in
  let c := mkCapsule (cap_id c) (cap_size c) (cap_segments c ++ [id]) (cap_created_at c)
             (cap_policy c) (cap_deduped_bytes c) in
  modify (λ r, set_capsules (<[capsule_id := c]> (capsules r)) r) ;;;
  save.

Definition lookup_content (hash : ContentHash) : M CapsuleRegistry Error (option SegmentId) :=
  gets (λ r, content_store r !! hash).

Definition register_content (hash : ContentHash) (id : SegmentId) :
    M CapsuleRegistry Error unit :=
  modify (λ r, set_content_store (<[hash := id]> (content_store r)) r) ;;;
  save.

Definition deregister_content (hash : ContentHash) (id : SegmentId) :
    M CapsuleRegistry Error bool :=
  let! current := gets (λ r, content_store r !! hash) in
  if bool_decide (current = Some id) then
    modify (λ r, set_content_store (delete hash (content_store r)) r) ;;;
    save ;;;
    ret true
  else ret false.

Definition add_deduped_bytes (capsule_id : CapsuleId) (b : Z) : M CapsuleRegistry Error unit :=
  modify (λ r,
    match capsules r !! capsule_id with
    | Some c =>
        let c := mkCapsule (cap_id c) (cap_size c) (cap_segments c) (cap_created_at c)
                   (cap_policy c) (u64_add (cap_deduped_bytes c) b) in
        set_capsules (<[capsule_id := c]> (capsules r)) r
    | None => r
    end).

Definition list_capsules `{HashOrder} : M CapsuleRegistry Error (list CapsuleId) :=
  gets (λ r, (hash_iter (capsules r)).*1).

Definition delete_capsule (id : CapsuleId) : M CapsuleRegistry Error Capsule :=
  let! removed := gets (λ r, capsules r !! id) in
  modify (λ r, set_capsules (delete id (capsules r)) r) ;;;
  let! capsule := lift (ok_or removed (Msg "Capsule not found")) in
  save ;;;
  ret capsule.

(** [(total_segments, unique_segments)] *)
Definition get_dedup_stats `{HashOrder} (r : CapsuleRegistry) : Z * Z :=
  (foldr (λ c n, u64_add (lenZ (cap_segments c)) n) 0 (hash_iter (capsules r)).*2,
   Z.of_nat (size (content_store r))).

(** *** [impl CapsuleCatalog for CapsuleRegistry] (the other methods forward) *)
Definition catalog_create_capsule (now : option Z) (id : CapsuleId) (size : Z) (policy : Policy)
    (segments : list SegmentId) (stats : DedupStats) : M CapsuleRegistry Error unit :=
  create_capsule_with_segments now id size segments policy ;;;
  modify (λ r,
    match capsules r !! id with
    | Some c =>
        let c := mkCapsule (cap_id c) (cap_size c) (cap_segments c) (cap_created_at c)
                   policy (bytes_saved stats) in
        set_capsules (<[id := c]> (capsules r)) r
    | None => r
    end) ;;;
  save.

Definition catalog_capsules `{HashOrder} (r : CapsuleRegistry) : list Capsule :=
  (hash_iter (capsules r)).*2.

Definition content_entries `{HashOrder} (r : CapsuleRegistry) : list (ContentHash * SegmentId) :=
  hash_iter (content_store r).

#[export] Instance RegistryCatalog `{HashOrder} : CapsuleCatalog CapsuleRegistry :=
  {| cat_allocate_segment := alloc_segment; cat_lookup_capsule := lookup;
     cat_create_capsule := catalog_create_capsule; cat_delete_capsule := delete_capsule;
     cat_lookup_content := lookup_content; cat_register_content := register_content;
     cat_deregister_content := deregister_content; cat_capsules := catalog_capsules;
     cat_content_entries := content_entries |}.

(** ** Specification *)

(** The metadata file describes the registry. *)
Definition reg_synced (r : CapsuleRegistry) : Prop :=
  reg_metadata r = Some (to_doc (state_of r)).

(** A registry operation, with the outcome it returned. *)
Inductive reg_op : CapsuleRegistry → bool → CapsuleRegistry → Prop :=
| op_create r now id size segs p res r' :
    create_capsule_with_segments now id size segs p r = (res, r') → reg_op r (is_ok res) r'
| op_catalog_create r now id size p segs st res r' :
    catalog_create_capsule now id size p segs st r = (res, r') → reg_op r (is_ok res) r'
| op_add_segment r c id res r' :
    add_segment c id r = (res, r') → reg_op r (is_ok res) r'
| op_register r h id res r' :
    register_content h id r = (res, r') → reg_op r (is_ok res) r'
| op_delete r id res r' :
    delete_capsule id r = (res, r') → reg_op r (is_ok res) r'.
End registry.

(** ** Lemmas *)
Section registry_lemmas.
Context {J : JsonDoc RegistryState}.
Implicit Types r : CapsuleRegistry.

(** [save] changes only the file and the schedule. *)
Lemma save_frame r res r' :
  save r = (res, r') → state_of r' = state_of r ∧ (res = Ok tt → reg_synced r') ∧ res ≠ Panic.
Proof.
  unfold save. destruct (next_fault (reg_faults r)) as [[k|] fs]; intros; by simplify_eq.
Qed.

Lemma save_ok r :
  reg_faults r = [] →
  save r = (Ok tt, mkCapsuleRegistry (capsules r) (next_segment_id r) (content_store r)
                     (Some (to_doc (state_of r))) []).
Proof. intros Hf. unfold save. by rewrite Hf. Qed.

Lemma state_of_eq r1 r2 :
  state_of r1 = state_of r2 ↔
  capsules r1 = capsules r2 ∧ next_segment_id r1 = next_segment_id r2 ∧
  content_store r1 = content_store r2.
Proof. unfold state_of. split; [intros; by simplify_eq|by intros (-> & -> & ->)]. Qed.

(** The effect of each operation on the tables, whatever the I/O outcomes. *)
Lemma create_spec now id size segs p r :
  match create_capsule_with_segments now id size segs p r with
  | (Ok _, r') =>
      ∃ t, now = Some t ∧ capsules r !! id = None ∧ reg_synced r' ∧
      state_of r' = state_of (set_capsules (<[id := mkCapsule id size segs t p 0]> (capsules r)) r)
  | (Err _, r') =>
      state_of r' = state_of r ∨
      (capsules r !! id = None ∧ ∃ t,
       state_of r' = state_of (set_capsules (<[id := mkCapsule id size segs t p 0]> (capsules r)) r))
  | (Panic, _) => False
  end.
Proof.
  unfold create_capsule_with_segments. cbv [bind gets fail lift modify].
  case_bool_decide as Hc; [by left|]. apply eq_None_not_Some in Hc.
  destruct now as [t|]; simpl; [|by left].
  destruct (save _) as [[[]|e| ] r'] eqn:Hs; apply save_frame in Hs as (H1 & H2 & H3); eauto 8.
Qed.

Lemma delete_spec id r :
  match delete_capsule id r with
  | (Ok c, r') => capsules r !! id = Some c ∧ reg_synced r' ∧
      state_of r' = state_of (set_capsules (delete id (capsules r)) r)
  | (Err _, r') => state_of r' = state_of (set_capsules (delete id (capsules r)) r)
  | (Panic, _) => False
  end.
Proof.
  unfold delete_capsule. cbv [bind gets lift modify ret].
  destruct (capsules r !! id) as [c|]; simpl; [|done].
  destruct (save _) as [[[]|e| ] r'] eqn:Hs; apply save_frame in Hs as (H1 & H2 & H3); eauto.
Qed.

Lemma register_spec h id r :
  match register_content h id r with
  | (Ok _, r') => reg_synced r' ∧
      state_of r' = state_of (set_content_store (<[h := id]> (content_store r)) r)
  | (Err _, r') => state_of r' = state_of (set_content_store (<[h := id]> (content_store r)) r)
  | (Panic, _) => False
  end.
Proof.
  unfold register_content. cbv [bind modify].
  destruct (save _) as [[[]|e| ] r'] eqn:Hs; apply save_frame in Hs as (H1 & H2 & H3); eauto.
Qed.

Lemma deregister_spec h id r :
  match deregister_content h id r with
  | (Ok b, r') =>
      b = bool_decide (content_store r !! h = Some id) ∧
      (b = true → reg_synced r') ∧
      state_of r' = state_of (if b then set_content_store (delete h (content_store r)) r else r)
  | (Err _, r') =>
      content_store r !! h = Some id ∧
      state_of r' = state_of (set_content_store (delete h (content_store r)) r)
  | (Panic, _) => False
  end.
Proof.
  unfold deregister_content. cbv [bind gets modify ret]. case_bool_decide as Hc; [|done].
  destruct (save _) as [[[]|e| ] r'] eqn:Hs; apply save_frame in Hs as (H1 & H2 & H3); eauto.
Qed.

Lemma reg_open_synced r :
  reg_synced r →
  reg_open (reg_metadata r) [] =
    Ok (mkCapsuleRegistry (capsules r) (next_segment_id r) (content_store r) (reg_metadata r) []).
Proof.
  intros Hs. unfold reg_open. rewrite Hs.
  simpl. rewrite of_to_doc. cbn. by rewrite Hs.
Qed.

Lemma reg_op_synced r r' : reg_op r true r' → reg_synced r'.
Proof.
  intros Hop. remember true as b eqn:Hb. destruct Hop as
    [r now id sz segs p res r' H|r now id sz p segs st res r' H|r c id res r' H|r h id res r' H|r id res r' H];
    destruct res; try done.
  - pose proof (create_spec now id sz segs p r) as Hs. rewrite H in Hs. by destruct Hs as (? & _ & _ & ? & _).
  - unfold catalog_create_capsule in H. cbv [bind modify] in H.
    destruct (create_capsule_with_segments _ _ _ _ _ _) as [[[]| | ] r1]; [|done..].
    apply save_frame in H as (_ & H & _). destruct a. by apply H.
  - unfold add_segment in H. cbv [bind gets lift modify] in H.
    destruct (capsules r !! c); [|done]. apply save_frame in H as (_ & H & _). destruct a. by apply H.
  - pose proof (register_spec h id r) as Hs. rewrite H in Hs. tauto.
  - pose proof (delete_spec id r) as Hs. rewrite H in Hs. tauto.
Qed.
End registry_lemmas.

(** ** Properties *)
Section registry_properties.
Context {J : JsonDoc RegistryState}.

(** An operation that succeeds has saved: whatever I/O outcomes preceded it, the
    metadata file it leaves reopens to the same capsules, the same segment counter
    and the same content store. *)
Theorem successful_op_is_durable r r' :
  reg_op r true r' →
  ∃ ro, reg_open (reg_metadata r') [] = Ok ro ∧ state_of ro = state_of r'.
Proof.
  intros Hop%reg_op_synced. rewrite reg_open_synced by done. eexists. by split.
Qed.
End registry_properties.

(** ** Witnesses *)
Definition toy_state_doc : JsonDoc RegistryState := plain_doc RegistryState.

Definition sample_capsule_id : CapsuleId := mkCapsuleId (replicate 16 x07).

(** A registry whose first write failed half way. *)
Definition sample_registry : @CapsuleRegistry toy_state_doc :=
  mkCapsuleRegistry (J := toy_state_doc) ∅ 3 ∅ (Some None) [].

Definition sample_created : Res Error unit * @CapsuleRegistry toy_state_doc :=
  create_capsule_with_segments (J := toy_state_doc) (Some 100) sample_capsule_id 5
    [mkSegmentId 2] Policy_default sample_registry.

Lemma successful_op_is_durable_witness :
  ∃ ro, reg_open (J := toy_state_doc) (reg_metadata (snd sample_created)) [] = Ok ro ∧
    state_of ro = state_of (snd sample_created) ∧ next_segment_id ro = 3.
Proof.
  destruct (successful_op_is_durable (J := toy_state_doc) sample_registry (snd sample_created)
    (op_create (J := toy_state_doc) sample_registry (Some 100) sample_capsule_id 5 [mkSegmentId 2]
       Policy_default _ _ (surjective_pairing _))) as (ro & Ho & Hs).
  exists ro. split; [exact Ho|]. split; [exact Hs|].
  apply (f_equal rs_next_segment_id) in Hs. exact Hs.
Defined.
