(* ===== verification/Gc.v ===== *)
(** Crate [capsule-registry], crates/capsule-registry/src/gc.rs: the reference-count
    garbage collector over the registry and the log it borrows. *)
From S2P Require Import Prelude Errors Common Externals.
From S2P Require Nvram Registry.
Import Nvram Registry.

Section gc.
Context {JR : JsonDoc RegistryState} {JN : JsonDoc SegmentMap}.

(** The registry and the log a collector (and a pipeline) works on. *)
Record Store := mkStore { registry : CapsuleRegistry; nvram : NvramLog }.

Definition on_registry {A : Type} (m : M CapsuleRegistry Error A) : M Store Error A :=
  zoom registry (λ r s, mkStore r (nvram s)) m.
Definition on_nvram {A : Type} (m : M NvramLog Error A) : M Store Error A :=
  zoom nvram (λ l s, mkStore (registry s) l) m.

Definition reclaim_segment (segment : Segment) : M Store Error unit :=
  (match seg_content_hash segment with
   | Some hash => on_registry (deregister_content hash (seg_id segment)) ;;; ret tt
   | None => ret tt
   end) ;;;
  let! removed := on_nvram (remove_segment (seg_id segment)) in
  match removed with
  | None => fail (MsgSegment "vanished during GC" (seg_id segment))
  | Some _ => ret tt
  end.

Definition sweep `{HashOrder} : M Store Error Z :=
  let! segments := on_nvram list_segments in
  foldM (λ reclaimed segment,
    if seg_ref_count segment =? 0
    then reclaim_segment segment ;;; ret (reclaimed + 1)
    else ret reclaimed) 0 segments.
End gc.
