(* ===== verification/WritePipeline.v ===== *)
(** Crate [capsule-registry], crates/capsule-registry/src/pipeline.rs: the write
    pipeline of the default build (synchronous; no [modular_pipeline],
    [pipeline_async], [advanced-security] or [podms] feature).

    The state is the store (registry and log) and the optional key manager, whose
    mutex is taken and released inside each call.  Log messages, and the byte totals
    only they use, are left out; the capsule id a write draws and the system clock
    are arguments. *)
From S2P Require Import Prelude Errors Common Externals.
From S2P Require Nvram Compression KeyManager Encryption Dedup Registry Gc.
Import Nvram Compression KeyManager Encryption Registry Gc.

Section write_pipeline.
Context {JR : JsonDoc RegistryState} {JN : JsonDoc SegmentMap} `{Crates}.

Record WritePipeline := mkWritePipeline {
  store : Store;
  key_manager : option KeyManager;
}.

Definition on_store {A : Type} (m : M Store Error A) : M WritePipeline Error A :=
  zoom store (λ s p, mkWritePipeline s (key_manager p)) m.
Definition reg {A : Type} (m : M CapsuleRegistry Error A) : M WritePipeline Error A :=
  on_store (on_registry m).
Definition nv {A : Type} (m : M NvramLog Error A) : M WritePipeline Error A :=
  on_store (on_nvram m).

(** A call on the locked key manager; [?] turns its error into [anyhow::Error]. *)
Definition on_km {A : Type} (m : M KeyManager EncryptionError A) : M WritePipeline Error A :=
  λ p, match key_manager p with
       | None => (Panic, p)
       | Some km =>
           let '(r, km') := m km in
           (res_map_err OfEncryption r, mkWritePipeline (store p) (Some km'))
       end.

(** *** Error mapping *)
Definition map_compression_error (segment_index : Z) (err : Error) : Error :=
  match downcast_compression err with
  | Some comp_err => OfPipeline (PeCompression segment_index comp_err)
  | None => err
  end.

Definition map_registry_error (operation : string) (err : Error) : Error :=
  OfPipeline (PeRegistry operation err).

Definition map_nvram_error (operation : string) (err : Error) : Error :=
  OfPipeline (PeNvram operation err).

(** *** Writing *)

(** Step 3: encrypt the compressed bytes and build the metadata with its tag. *)
Definition encrypt_chunk (content_hash : ContentHash) (compressed_data : bytes) :
    M WritePipeline Error (bytes * EncryptionMetadata) :=
  let! (key_version, key_pair) := on_km (
    let! key_version := gets current_version in
    let! key_pair := get_key key_version in
    ret (key_version, key_pair)) in
  let tweak := derive_tweak_from_hash (string_bytes (as_str content_hash)) in
  let! (ciphertext, enc_meta) := lift (res_map_err OfEncryption
    (encrypt_segment compressed_data key_pair key_version tweak)) in
  let! mac_tag := lift (res_map_err OfEncryption
    (compute_mac ciphertext enc_meta (key1 key_pair) (key2 key_pair))) in
  ret (ciphertext, set_integrity_tag mac_tag enc_meta).

Definition apply_encryption_meta (m : EncryptionMetadata) (s : Segment) : Segment :=
  set_encryption (md_encryption_version m) (md_key_version m) (md_tweak_nonce m)
    (md_integrity_tag m) s.

(** The metadata a fresh segment gets; [hash] is recorded when dedup is on. *)
Definition describe_segment (comp_result : CompressionResult) (hash : option ContentHash)
    (encryption_meta : option EncryptionMetadata) (segment : Segment) : Segment :=
  let segment := set_compression (cr_compressed comp_result) (cr_algorithm comp_result) segment in
  let segment :=
    match hash with
    | Some h => set_content_hash (Some h) segment
    | None => segment
    end in
  let segment := set_refs 1 (seg_access_count segment) segment in
  match encryption_meta with
  | Some m => apply_encryption_meta m segment
  | None => segment
  end.

(** Allocate, append, describe. *)
Definition write_new_segment (final_data : bytes) (comp_result : CompressionResult)
    (hash : option ContentHash) (encryption_meta : option EncryptionMetadata) :
    M WritePipeline Error SegmentId :=
  let! new_seg_id := reg alloc_segment in
  let! segment := map_err (map_nvram_error "append") (nv (append new_seg_id final_data)) in
  map_err (map_nvram_error "update_segment_metadata")
    (nv (update_segment_metadata new_seg_id
           (describe_segment comp_result hash encryption_meta segment))) ;;;
  ret new_seg_id.

(** Step 4: reuse the stored segment or write a new one. *)
Definition place_segment (policy : Policy) (content_hash : ContentHash) (final_data : bytes)
    (comp_result : CompressionResult) (encryption_meta : option EncryptionMetadata)
    (dedup_stats : DedupStats) : M WritePipeline Error (SegmentId * DedupStats) :=
  if dedupe policy then
    let! existing := reg (lookup_content content_hash) in
    match existing with
    | Some existing_seg_id =>
        let! updated_segment := map_err (map_nvram_error "increment_refcount")
          (nv (increment_refcount existing_seg_id)) in
        ret (existing_seg_id, Common.add_segment (seg_len updated_segment) true dedup_stats)
    | None =>
        let! new_seg_id :=
          write_new_segment final_data comp_result (Some content_hash) encryption_meta in
        map_err (map_registry_error "register_content")
          (reg (register_content content_hash new_seg_id)) ;;;
        ret (new_seg_id, Common.add_segment (lenZ final_data) false dedup_stats)
    end
  else
    let! new_seg_id := write_new_segment final_data comp_result None encryption_meta in
    ret (new_seg_id, Common.add_segment (lenZ final_data) false dedup_stats).

(** The body of the chunk loop; the accumulator is the index, the segment ids so
    far and the statistics. *)
Definition write_chunk (policy : Policy) (encryption_enabled : bool)
    (acc : Z * list SegmentId * DedupStats) (chunk : bytes) :
    M WritePipeline Error (Z * list SegmentId * DedupStats) :=
  let '(index, segment_ids, dedup_stats) := acc in
  let! (view, comp_result) := lift (res_map_err (map_compression_error index)
    (compress_segment chunk (compression policy))) in
  let compressed_data := as_ref view in
  let content_hash := Dedup.hash_content compressed_data in
  let! (final_data, encryption_meta) :=
    (if encryption_enabled then
       let! (ciphertext, m) := encrypt_chunk content_hash compressed_data in
       ret (ciphertext, Some m)
     else ret (compressed_data, None)) in
  let! (seg_id, dedup_stats) :=
    place_segment policy content_hash final_data comp_result encryption_meta dedup_stats in
  ret (index + 1, segment_ids ++ [seg_id], dedup_stats).

Definition write_capsule_with_policy (capsule_id : CapsuleId) (now : option Z) (data : bytes)
    (policy : Policy) : M WritePipeline Error CapsuleId :=
  let! km := gets key_manager in
  let encryption_enabled := is_enabled (encryption policy) && bool_decide (is_Some km) in
  let! (_, segment_ids, dedup_stats) :=
    foldM (write_chunk policy encryption_enabled) (0, [], DedupStats_new)
      (chunks SEGMENT_SIZE data) in
  (if 0 <? bytes_saved dedup_stats
   then map_err (map_registry_error "add_deduped_bytes")
          (reg (add_deduped_bytes capsule_id (bytes_saved dedup_stats)))
   else ret tt) ;;;
  map_err (map_registry_error "create_capsule_with_segments")
    (reg (create_capsule_with_segments now capsule_id (lenZ data) segment_ids policy)) ;;;
  ret capsule_id.

Definition write_capsule (capsule_id : CapsuleId) (now : option Z) (data : bytes) :
    M WritePipeline Error CapsuleId :=
  write_capsule_with_policy capsule_id now data Policy_default.

(** *** Reading *)

(** Step 1: decrypt when the segment says so. *)
Definition decrypt_raw (segment : Segment) (raw_data : bytes) : M WritePipeline Error bytes :=
  if seg_encrypted segment then
    let! km := gets key_manager in
    let! _ := lift (ok_or km (Msg "Cannot decrypt: key manager not initialized")) in
    let! key_version := lift (ok_or (seg_key_version segment)
      (Msg "Missing key version in encrypted segment")) in
    let! key_pair := on_km (get_key key_version) in
    let enc_meta :=
      {| md_encryption_version := seg_encryption_version segment;
         md_key_version := seg_key_version segment;
         md_tweak_nonce := seg_tweak_nonce segment;
         md_integrity_tag := seg_integrity_tag segment;
         md_ciphertext_len := Some (wrap 32 (lenZ raw_data)) |} in
    lift (res_map_err OfEncryption (verify_mac raw_data enc_meta (key1 key_pair) (key2 key_pair))) ;;;
    lift (res_map_err OfEncryption (decrypt_segment raw_data key_pair enc_meta))
  else ret raw_data.

(** Step 2: decompress by the capsule's policy; a failure means "not compressed". *)
Definition decompress_for (policy : CompressionPolicy) (decrypted_data : bytes) :
    Res Error bytes :=
  match policy with
  | CompNone => Ok decrypted_data
  | LZ4 _ =>
      match decompress_lz4 decrypted_data with
      | Ok decompressed => Ok decompressed
      | Err _ => Ok decrypted_data
      | Panic => Panic
      end
  | Zstd _ =>
      match decompress_zstd decrypted_data with
      | Ok decompressed => Ok decompressed
      | Err _ => Ok decrypted_data
      | Panic => Panic
      end
  end.

Definition read_segment (policy : CompressionPolicy) (id : SegmentId) :
    M WritePipeline Error bytes :=
  let! raw_data := nv (read id) in
  let! segment := nv (get_segment_metadata id) in
  let! decrypted_data := decrypt_raw segment raw_data in
  lift (decompress_for policy decrypted_data).

Definition read_capsule (id : CapsuleId) : M WritePipeline Error bytes :=
  let! capsule := reg (lookup id) in
  foldM (λ result seg_id,
    let! data := read_segment (compression (cap_policy capsule)) seg_id in
    ret (result ++ data)) [] (cap_segments capsule).

(** [full_data[a..b]]. *)
Definition slice (a b : Z) (d : bytes) : Res Error bytes :=
  if (a <=? b) && (b <=? lenZ d) then Ok (takeZ (b - a) (dropZ a d)) else Panic.

(** [offset] is a [u64] and [len] a 64-bit [usize]; both sums wrap. *)
Definition read_range (id : CapsuleId) (offset len : Z) : M WritePipeline Error bytes :=
  let! capsule := reg (lookup id) in
  if cap_size capsule <? u64_add offset len then fail (Msg "Read beyond capsule boundary")
  else
    let! full_data := read_capsule id in
    lift (slice offset (u64_add offset len) full_data).

(** *** Deleting, collecting, reconciling *)
Definition delete_capsule (capsule_id : CapsuleId) : M WritePipeline Error unit :=
  let! capsule := reg (Registry.delete_capsule capsule_id) in
  foldM (λ _ seg_id,
    let! segment := nv (decrement_refcount seg_id) in
    if seg_ref_count segment =? 0 then
      (match seg_content_hash segment with
       | Some hash => reg (deregister_content hash seg_id) ;;; ret tt
       | None => ret tt
       end) ;;;
      nv (remove_segment seg_id) ;;; ret tt
    else ret tt) tt (cap_segments capsule).

Definition garbage_collect `{HashOrder} : M WritePipeline Error Z := on_store sweep.

(** [counts.entry(id).and_modify(|c| *c += 1).or_insert(1)] over every capsule. *)
Definition count_ref (counts : gmap SegmentId Z) (id : SegmentId) : gmap SegmentId Z :=
  <[id := match counts !! id with Some c => u32_add c 1 | None => 1 end]> counts.

Definition count_refs `{HashOrder} (r : CapsuleRegistry) : gmap SegmentId Z :=
  foldl (λ counts capsule_id,
    match capsules r !! capsule_id with
    | Some capsule => foldl count_ref counts (cap_segments capsule)
    | None => counts
    end) ∅ (hash_iter (capsules r)).*1.

Definition reconcile_refcounts `{HashOrder} : M WritePipeline Error unit :=
  let! p := gets (λ p, p) in
  let counts := count_refs (registry (store p)) in
  let! segments := nv list_segments in
  foldM (λ _ segment,
    let expected := default 0 (counts !! seg_id segment) in
    if negb (seg_ref_count segment =? expected) then
      nv (update_segment_metadata (seg_id segment)
            (set_refs expected (seg_access_count segment) segment))
    else ret tt) tt segments ;;;
  on_store sweep ;;;
  ret tt.

(** [new] after the key manager was looked up: reconcile, ignoring its error. *)
Definition WritePipeline_new `{HashOrder} (r : CapsuleRegistry) (l : NvramLog)
    (km : option KeyManager) : Res Error unit * WritePipeline :=
  (attempt reconcile_refcounts ;;; ret tt) (mkWritePipeline (mkStore r l) km).

Definition with_key_manager (r : CapsuleRegistry) (l : NvramLog) (km : KeyManager) :
    WritePipeline :=
  mkWritePipeline (mkStore r l) (Some km).
End write_pipeline.
