(* ===== verification/PipelineInvariant.v ===== *)
(** What the write pipeline promises, and the invariant behind it.

    The abstract view of a pipeline is, for each segment, the compressed bytes it
    stands for with the hash it is recorded under ([content]), its reference count
    ([refs]) and, for each capsule, the data it reads as ([capsule_reads]).  The
    invariant [pipe_inv] ties the registry, the log and the key manager to a ghost
    map from capsules to their data; it is stated for the state in memory and holds
    whatever I/O calls fail.  [held] lists references that an operation in progress
    owns: the segments of a capsule being written or deleted.

    [D] is the set of compressed chunks on which the content hash is assumed free
    of collisions. *)
From S2P Require Import Prelude Errors Common Externals.
From S2P Require Nvram Compression KeyManager Encryption Dedup Registry Gc WritePipeline.
Import Nvram Compression KeyManager Encryption Registry Gc WritePipeline.

Section spec.
Context {JR : JsonDoc RegistryState} {JN : JsonDoc SegmentMap} `{Crates}.
Implicit Types p : WritePipeline.

Definition rg p : CapsuleRegistry := registry (store p).
Definition lg p : NvramLog := nvram (store p).
Definition set_rg (r : CapsuleRegistry) p : WritePipeline :=
  mkWritePipeline (mkStore r (lg p)) (key_manager p).
Definition set_lg (l : NvramLog) p : WritePipeline :=
  mkWritePipeline (mkStore (rg p) l) (key_manager p).

(** ** The abstract view *)

(** The metadata [decrypt_raw] rebuilds from a segment. *)
Definition stored_metadata (s : Segment) (raw : bytes) : EncryptionMetadata :=
  mkEncryptionMetadata (seg_encryption_version s) (seg_key_version s) (seg_tweak_nonce s)
    (seg_integrity_tag s) (Some (wrap 32 (lenZ raw))).

Definition unseal (km : option KeyManager) (s : Segment) (raw : bytes) : option bytes :=
  if seg_encrypted s then
    m ← km;
    v ← seg_key_version s;
    match derive_key m v with
    | Ok kp =>
        match verify_mac raw (stored_metadata s raw) (key1 kp) (key2 kp),
              decrypt_segment raw kp (stored_metadata s raw) with
        | Ok _, Ok d => Some d
        | _, _ => None
        end
    | _ => None
    end
  else Some raw.

Definition content p (id : SegmentId) : option (bytes * option ContentHash) :=
  s ← segment_map (lg p) !! id;
  raw ← segment_bytes (lg p) id;
  d ← unseal (key_manager p) s raw;
  Some (d, seg_content_hash s).

Definition refs p (id : SegmentId) : Z :=
  match segment_map (lg p) !! id with
  | Some s => seg_ref_count s
  | None => 0
  end.

(** References from the capsules to a segment. *)
Definition occ (caps : gmap CapsuleId Capsule) (id : SegmentId) : Z :=
  sumZ ((λ kc, countZ id (cap_segments kc.2)) <$> map_to_list caps).

(** Under this policy the segment reads as [out]. *)
Definition seg_reads p (policy : CompressionPolicy) (id : SegmentId) (out : bytes) : Prop :=
  ∃ d h, content p id = Some (d, h) ∧ decompress_for policy d = Ok out.

Definition capsule_reads p (cap : Capsule) (data : bytes) : Prop :=
  cap_size cap = lenZ data ∧
  ∃ outs, Forall2 (seg_reads p (compression (cap_policy cap))) (cap_segments cap) outs ∧
    concat outs = data.

(** ** The invariant *)
Record pipe_inv (D : bytes → Prop) (held : list SegmentId) (G : gmap CapsuleId bytes) p : Prop := {
  pi_log : log_inv (lg p);
  pi_key : ∀ m, key_manager p = Some m → cache_coherent m;
  pi_next : 0 ≤ next_segment_id (rg p);
  pi_ids : ∀ id s, segment_map (lg p) !! id = Some s →
    seg_id s = id ∧ 0 ≤ seg_u64 id < next_segment_id (rg p);
  pi_caps : ∀ c cap, capsules (rg p) !! c = Some cap →
    ∃ data, G !! c = Some data ∧ capsule_reads p cap data;
  pi_dom : ∀ c, capsules (rg p) !! c = None → G !! c = None;
  pi_refs : ∀ id, occ (capsules (rg p)) id + countZ id held ≤ refs p id;
  pi_store : ∀ h id, content_store (rg p) !! h = Some id →
    ∃ d, content p id = Some (d, Some h) ∧ D d ∧ Dedup.hash_content d = h;
}.

(** Some data for every live capsule. *)
Definition pipe_ok (D : bytes → Prop) p : Prop := ∃ G, pipe_inv D [] G p.

Definition hash_injective_on (D : bytes → Prop) : Prop :=
  ∀ a b, D a → D b → Dedup.hash_content a = Dedup.hash_content b → a = b.

(** What a write needs of its data: the compressed chunks are in [D], and a chunk
    the compressor keeps raw is not itself a frame of the policy's codec. *)
Definition chunks_ok (D : bytes → Prop) (policy : CompressionPolicy) (data : bytes) : Prop :=
  ∀ chunk, chunk ∈ chunks SEGMENT_SIZE data →
  ∀ view r, compress_segment chunk policy = Ok (view, r) →
    D (as_ref view) ∧
    (cr_compressed r = false → decompress_for policy chunk = Ok chunk).

(** Room for [b] more bytes and [k] more segments in the machine integers. *)
Definition budget (b k : Z) p : Prop :=
  next_offset (lg p) + b < 2 ^ 64 ∧ next_segment_id (rg p) + k < 2 ^ 64 ∧
  ∀ id, refs p id + k ≤ U32_MAX.

Definition fits (data : bytes) p : Prop :=
  budget (lenZ data) (lenZ (chunks SEGMENT_SIZE data)) p.

(** The calls a client makes on a pipeline, whatever they return; [keep] is a
    capsule nobody deletes. *)
Inductive client_step `{HashOrder} (D : bytes → Prop) (keep : CapsuleId) :
    WritePipeline → WritePipeline → Prop :=
| step_write id now data policy p r p' :
    fits data p → chunks_ok D (compression policy) data →
    write_capsule_with_policy id now data policy p = (r, p') → client_step D keep p p'
| step_read id p r p' : read_capsule id p = (r, p') → client_step D keep p p'
| step_range id off len p r p' : read_range id off len p = (r, p') → client_step D keep p p'
| step_delete id p r p' :
    id ≠ keep → delete_capsule id p = (r, p') → client_step D keep p p'
| step_gc p r p' : garbage_collect p = (r, p') → client_step D keep p p'
| step_reconcile p r p' : reconcile_refcounts p = (r, p') → client_step D keep p p'
| step_keys p m m' :
    key_manager p = Some m → km_step m m' →
    client_step D keep p (mkWritePipeline (store p) (Some m')).
End spec.

(** Project the components of an updated pipeline. *)
Ltac vs :=
  repeat match goal with
  | |- context [lg (set_lg ?l ?p)] => change (lg (set_lg l p)) with l
  | |- context [rg (set_lg ?l ?p)] => change (rg (set_lg l p)) with (rg p)
  | |- context [lg (set_rg ?r ?p)] => change (lg (set_rg r p)) with (lg p)
  | |- context [rg (set_rg ?r ?p)] => change (rg (set_rg r p)) with r
  | |- context [key_manager (set_lg ?l ?p)] => change (key_manager (set_lg l p)) with (key_manager p)
  | |- context [key_manager (set_rg ?r ?p)] => change (key_manager (set_rg r p)) with (key_manager p)
  end.

(** ** The view under changes of the components *)
Section view_lemmas.
Context {JR : JsonDoc RegistryState} {JN : JsonDoc SegmentMap} `{Crates}.
Implicit Types p : WritePipeline.

(** Two key managers that derive the same keys. *)
Definition same_keys (a b : option KeyManager) : Prop :=
  match a, b with
  | None, None => True
  | Some m, Some m' => master_key m' = master_key m ∧ hkdf_salt m' = hkdf_salt m
  | _, _ => False
  end.

#[export] Instance same_keys_refl : Reflexive same_keys.
Proof. by intros [m|]. Qed.

Lemma unseal_keys a b s raw : same_keys a b → unseal b s raw = unseal a s raw.
Proof.
  destruct a as [m|], b as [m'|]; try done. intros [Hm Hs]. unfold unseal.
  destruct (seg_encrypted s); [|done]. simpl. destruct (seg_key_version s); [|done]. simpl.
  by rewrite (derive_key_ext m' m).
Qed.

(** Only these fields of a segment matter for its content. *)
Definition same_seal (s s' : Segment) : Prop :=
  seg_encrypted s' = seg_encrypted s ∧ seg_encryption_version s' = seg_encryption_version s ∧
  seg_key_version s' = seg_key_version s ∧ seg_tweak_nonce s' = seg_tweak_nonce s ∧
  seg_integrity_tag s' = seg_integrity_tag s ∧ seg_content_hash s' = seg_content_hash s ∧
  seg_offset s' = seg_offset s ∧ seg_len s' = seg_len s.

Lemma same_seal_set_refs r a s : same_seal s (set_refs r a s).
Proof. done. Qed.

Lemma unseal_same km s s' raw : same_seal s s' → unseal km s' raw = unseal km s raw.
Proof.
  intros (He & Hv & Hk & Ht & Hi & _). unfold unseal, stored_metadata.
  by rewrite He, Hv, Hk, Ht, Hi.
Qed.

(** The content of a segment whose record keeps its seal and whose bytes stay. *)
Lemma content_same p p' id :
  same_keys (key_manager p) (key_manager p') →
  segment_bytes (lg p') id = segment_bytes (lg p) id →
  (∀ s, segment_map (lg p) !! id = Some s →
     ∃ s', segment_map (lg p') !! id = Some s' ∧ same_seal s s') →
  ∀ x, content p id = Some x → content p' id = Some x.
Proof.
  intros Hk Hb Hs x. unfold content. destruct (segment_map (lg p) !! id) as [s|]; [|done].
  destruct (Hs s eq_refl) as (s' & -> & Hss). simpl. rewrite Hb.
  destruct (segment_bytes (lg p) id) as [raw|]; [|done]. simpl.
  rewrite (unseal_keys _ _ s' raw Hk), (unseal_same _ s s' raw Hss).
  destruct Hss as (_ & _ & _ & _ & _ & -> & _). done.
Qed.

Lemma seg_reads_mono p p' pol id out :
  (∀ x, content p id = Some x → content p' id = Some x) →
  seg_reads p pol id out → seg_reads p' pol id out.
Proof. intros Hc (d & h & Hd & Ho). exists d, h. eauto. Qed.

Lemma capsule_reads_mono p p' cap data :
  (∀ id x, id ∈ cap_segments cap → content p id = Some x → content p' id = Some x) →
  capsule_reads p cap data → capsule_reads p' cap data.
Proof.
  intros Hc (Hl & outs & Ho & Hd). split; [done|]. exists outs. split; [|done].
  clear Hl Hd. induction Ho as [|id out ids outs Hid Ho IH]; constructor.
  - destruct Hid as (d & h & ? & ?). exists d, h. split; [|done]. apply Hc; [left|done].
  - apply IH. intros j x Hj. apply Hc. by right.
Qed.

Lemma occ_insert caps c cap id :
  caps !! c = None → occ (<[c := cap]> caps) id = countZ id (cap_segments cap) + occ caps id.
Proof. intros Hc. unfold occ. by rewrite map_to_list_insert. Qed.

Lemma occ_delete caps c cap id :
  caps !! c = Some cap → occ caps id = countZ id (cap_segments cap) + occ (delete c caps) id.
Proof.
  intros Hc. rewrite <- (occ_insert (delete c caps) c) by apply lookup_delete_eq.
  by rewrite insert_delete_id.
Qed.

Lemma occ_nonneg caps id : 0 ≤ occ caps id.
Proof.
  unfold occ. induction (map_to_list caps) as [|kc l IH]; [done|].
  rewrite fmap_cons. unfold sumZ in *. simpl. pose proof (countZ_nonneg id (cap_segments kc.2)). lia.
Qed.

(** A segment of a capsule is referenced. *)
Lemma occ_elem caps c cap id : caps !! c = Some cap → id ∈ cap_segments cap → 0 < occ caps id.
Proof.
  intros Hc Hid%countZ_elem. rewrite (occ_delete caps c cap) by done.
  pose proof (occ_nonneg (delete c caps) id). lia.
Qed.

(** *** The invariant under changes that keep the capsules *)
Lemma pipe_inv_change D held held' G p p' :
  pipe_inv D held G p →
  capsules (rg p') = capsules (rg p) → content_store (rg p') ⊆ content_store (rg p) →
  0 ≤ next_segment_id (rg p') → log_inv (lg p') →
  (∀ m, key_manager p' = Some m → cache_coherent m) →
  (∀ id s, segment_map (lg p') !! id = Some s → seg_id s = id ∧ 0 ≤ seg_u64 id < next_segment_id (rg p')) →
  (∀ id x, (0 < occ (capsules (rg p)) id ∨ ∃ h, content_store (rg p') !! h = Some id) →
     content p id = Some x → content p' id = Some x) →
  (∀ id, occ (capsules (rg p)) id + countZ id held' ≤ refs p' id) →
  pipe_inv D held' G p'.
Proof.
  intros [] Hcaps Hstore Hnext Hlog Hkey Hids Hcont Hrefs. constructor; try done.
  - intros c cap Hc. rewrite Hcaps in Hc. destruct (pi_caps0 c cap Hc) as (data & ? & ?).
    exists data. split; [done|]. eapply capsule_reads_mono; [|done].
    intros id x Hid. apply Hcont. left. by eapply occ_elem.
  - intros c. rewrite Hcaps. apply pi_dom0.
  - intros id. rewrite Hcaps. apply Hrefs.
  - intros h id Hh. assert (content_store (rg p) !! h = Some id) as Hh' by (by eapply lookup_weaken).
    destruct (pi_store0 h id Hh') as (d & ? & ? & ?). exists d. split; [|done].
    apply Hcont; [right; by exists h|done].
Qed.

Lemma pipe_inv_drop D held G p : pipe_inv D held G p → pipe_inv D [] G p.
Proof.
  intros [] . constructor; try done. intros id. specialize (pi_refs0 id).
  pose proof (countZ_nonneg id held). rewrite countZ_nil. lia.
Qed.

(** The refs of a segment are what its record counts. *)
Lemma refs_lookup p id s : segment_map (lg p) !! id = Some s → refs p id = seg_ref_count s.
Proof. unfold refs. by intros ->. Qed.

Lemma pi_held_lookup D held G p id :
  pipe_inv D held G p → 0 < occ (capsules (rg p)) id + countZ id held →
  ∃ s, segment_map (lg p) !! id = Some s ∧
    occ (capsules (rg p)) id + countZ id held ≤ seg_ref_count s.
Proof.
  intros Hi Hpos. pose proof (pi_refs _ _ _ _ Hi id) as Hr. unfold refs in Hr.
  destruct (segment_map (lg p) !! id) as [s|]; [by exists s|lia].
Qed.

(** Changing the log only, where no record that matters loses its seal. *)
Lemma content_log_store p l' id s s' j x :
  segment_map (lg p) !! id = Some s → same_seal s s' →
  log_view l' = (nv_file (lg p), <[id := s']> (segment_map (lg p)), next_offset (lg p)) →
  content p j = Some x → content (set_lg l' p) j = Some x.
Proof.
  intros Hs Hss [= Hf Hm Hn]. apply content_same; [done|..].
  - vs. unfold segment_bytes. rewrite Hm, Hf. destruct (decide (j = id)) as [->|Hne].
    + rewrite lookup_insert_eq, Hs. destruct Hss as (_ & _ & _ & _ & _ & _ & -> & ->). done.
    + by rewrite lookup_insert_ne.
  - intros sj Hj. vs. rewrite Hm. destruct (decide (j = id)) as [->|Hne].
    + rewrite lookup_insert_eq. rewrite Hs in Hj. simplify_eq. by exists s'.
    + rewrite lookup_insert_ne by done. by exists sj.
Qed.

Lemma pipe_inv_store D held held' G p l' id s s' :
  pipe_inv D held G p → segment_map (lg p) !! id = Some s → same_seal s s' → seg_id s' = seg_id s →
  seg_wf (lg p) s' →
  log_view l' = (nv_file (lg p), <[id := s']> (segment_map (lg p)), next_offset (lg p)) →
  (∀ j, occ (capsules (rg p)) j + countZ j held' ≤ if decide (j = id) then seg_ref_count s' else refs p j) →
  pipe_inv D held' G (set_lg l' p).
Proof.
  intros Hi Hs Hss Hid Hwf Hv Hr. pose proof Hv as [= Hf Hm Hn].
  apply (pipe_inv_change D held held' G p); vs; try done; try by apply Hi.
  - eapply (log_inv_store (lg p)); [apply Hi|done|done].
  - intros j sj. rewrite Hm. destruct (decide (j = id)) as [->|Hne].
    + rewrite lookup_insert_eq. intros ?; simplify_eq. rewrite Hid. by apply (pi_ids _ _ _ _ Hi).
    + rewrite lookup_insert_ne by done. by apply (pi_ids _ _ _ _ Hi).
  - intros j x _. by eapply content_log_store.
  - intros j. specialize (Hr j). unfold refs in *. vs. rewrite Hm.
    destruct (decide (j = id)) as [->|Hne]; [by rewrite lookup_insert_eq|by rewrite lookup_insert_ne].
Qed.

(** Changing only the log's schedule and metadata file. *)
Lemma pipe_inv_log_view D held G p l' :
  pipe_inv D held G p → log_view l' = log_view (lg p) →
  pipe_inv D held G (set_lg l' p) ∧ (∀ j, content (set_lg l' p) j = content p j) ∧
  (∀ j, refs (set_lg l' p) j = refs p j).
Proof.
  intros Hi Hv. pose proof Hv as [= Hf Hm Hn].
  assert (∀ j, content (set_lg l' p) j = content p j) as Hc.
  { intros j. unfold content. vs. by rewrite Hm, (segment_bytes_view (lg p) l'). }
  assert (∀ j, refs (set_lg l' p) j = refs p j) as Hr by (intros j; unfold refs; vs; by rewrite Hm).
  split_and!; [|done|done].
  apply (pipe_inv_change D held held G p); vs; try done; try by apply Hi.
  - eapply log_inv_view; [done|apply Hi].
  - rewrite Hm. apply Hi.
  - intros j x _. by rewrite Hc.
  - intros j. rewrite Hr. apply Hi.
Qed.
End view_lemmas.

(** ** Writing one segment *)
Section write_lemmas.
Context {JR : JsonDoc RegistryState} {JN : JsonDoc SegmentMap} `{Crates}.
Implicit Types p : WritePipeline.

Lemma wp_nv {A : Type} (m : M NvramLog Error A) Q R p :
  wp m (λ a l, Q a (set_lg l p)) (λ e l, R e (set_lg l p)) (lg p) → wp (nv m) Q R p.
Proof. intros Hm. unfold nv, on_store, on_nvram. by apply wp_zoom, wp_zoom. Qed.

Lemma wp_reg {A : Type} (m : M CapsuleRegistry Error A) Q R p :
  wp m (λ a r, Q a (set_rg r p)) (λ e r, R e (set_rg r p)) (rg p) → wp (reg m) Q R p.
Proof. intros Hm. unfold reg, on_store, on_registry. by apply wp_zoom, wp_zoom. Qed.

(** A log that gained at most the record of a fresh segment. *)
Lemma content_fresh p p' id :
  same_keys (key_manager p) (key_manager p') →
  segment_map (lg p) !! id = None →
  (∀ j, j ≠ id → segment_map (lg p') !! j = segment_map (lg p) !! j) →
  (∀ j, j ≠ id → segment_bytes (lg p') j = segment_bytes (lg p) j) →
  ∀ j x, content p j = Some x → content p' j = Some x.
Proof.
  intros Hk Hn Hm Hb j x Hj. destruct (decide (j = id)) as [->|Hne].
  { unfold content in Hj. by rewrite Hn in Hj. }
  revert Hj. apply content_same; [done|by apply Hb|].
  intros s Hs. exists s. split; [by rewrite Hm|done].
Qed.

Lemma pipe_inv_fresh D held held' G p p' id s :
  pipe_inv D held G p → segment_map (lg p) !! id = None →
  capsules (rg p') = capsules (rg p) → content_store (rg p') = content_store (rg p) →
  next_segment_id (rg p') = next_segment_id (rg p) + 1 → seg_u64 id = next_segment_id (rg p) →
  key_manager p' = key_manager p → log_inv (lg p') → seg_id s = id →
  (segment_map (lg p') = segment_map (lg p) ∧ held' = held ∨
   segment_map (lg p') = <[id := s]> (segment_map (lg p)) ∧
     (∀ j, countZ j held' ≤ countZ j held + if bool_decide (id = j) then seg_ref_count s else 0)) →
  (∀ j, j ≠ id → segment_bytes (lg p') j = segment_bytes (lg p) j) →
  pipe_inv D held' G p' ∧ (∀ j x, content p j = Some x → content p' j = Some x).
Proof.
  intros Hi Hn Hcaps Hstore Hnext Hid Hkey Hlog Hsid Hmap Hb.
  assert (∀ j, j ≠ id → segment_map (lg p') !! j = segment_map (lg p) !! j) as Hm.
  { intros j Hj. destruct Hmap as [[-> _]|[-> _]]; [done|by rewrite lookup_insert_ne]. }
  assert (∀ j x, content p j = Some x → content p' j = Some x) as Hc.
  { apply (content_fresh _ _ id); try done. by rewrite Hkey. }
  pose proof (pi_next _ _ _ _ Hi). split; [|done].
  apply (pipe_inv_change D held held' G p); try done.
  - by rewrite Hstore.
  - lia.
  - rewrite Hkey. apply Hi.
  - intros j sj Hj. rewrite Hnext. destruct (decide (j = id)) as [->|Hne].
    + destruct Hmap as [[Hmm _]|[Hmm _]]; rewrite Hmm in Hj; [congruence|].
      rewrite lookup_insert_eq in Hj. simplify_eq. split; [done|]. lia.
    + rewrite Hm in Hj by done. destruct (pi_ids _ _ _ _ Hi j sj Hj). split; [done|]. lia.
  - intros j x _. apply Hc.
  - intros j. pose proof (pi_refs _ _ _ _ Hi j) as Hr.
    destruct Hmap as [[Hmm ->]|[Hmm Hh]].
    + unfold refs in *. by rewrite Hmm.
    + specialize (Hh j). unfold refs in *. rewrite Hmm. case_bool_decide as Hij.
      * subst j. rewrite lookup_insert_eq. rewrite Hn in Hr. lia.
      * rewrite lookup_insert_ne by done. lia.
Qed.

Lemma describe_fresh cr hash meta id off len :
  let s := describe_segment cr hash meta (fresh_segment id off len) in
  seg_id s = id ∧ seg_offset s = off ∧ seg_len s = len ∧ seg_ref_count s = 1 ∧
  seg_deduplicated s = false ∧ seg_content_hash s = hash.
Proof. by destruct hash, meta. Qed.

(** The bytes of a new segment, once sealed, unseal to [d]. *)
Definition seals (km : option KeyManager) (cr : CompressionResult) (hash : option ContentHash)
    (meta : option EncryptionMetadata) (data d : bytes) : Prop :=
  ∀ s, seg_encrypted s = false → unseal km (describe_segment cr hash meta s) data = Some d.

(** What the log holds once a fresh segment has its record [s']. *)
Definition described (l0 : NvramLog) (id : SegmentId) (s' : Segment) (data : bytes) (l : NvramLog) :
    Prop :=
  log_inv l ∧ segment_map l = <[id := s']> (segment_map l0) ∧ segment_bytes l id = Some data ∧
  next_offset l = next_offset l0 + lenZ data ∧
  ∀ j, j ≠ id → segment_bytes l j = segment_bytes l0 j.

Lemma described_view l0 l1 l2 id s s' data :
  log_inv l1 → segment_map l1 = <[id := s]> (segment_map l0) →
  next_offset l1 = next_offset l0 + lenZ data →
  segment_bytes l1 id = Some (takeZ (wrap 32 (lenZ data)) data) →
  (∀ j, j ≠ id → segment_bytes l1 j = segment_bytes l0 j) → lenZ data < 2 ^ 32 →
  seg_offset s' = seg_offset s → seg_len s' = seg_len s → seg_ref_count s' = 1 →
  seg_deduplicated s' = false →
  log_view l2 = (nv_file l1, <[id := s']> (segment_map l1), next_offset l1) →
  described l0 id s' data l2.
Proof.
  intros Hl1 Hm1 Hn1 Hb1 Hj1 Hlen Ho Hl Hr Hd Hv. pose proof Hv as [= Hf2 Hm2 Hn2].
  rewrite Hm1, insert_insert_eq in Hm2. split; [|split; [done|split]].
  - eapply (log_inv_store l1); [done| |done].
    assert (seg_wf l1 s) as (W1 & W2 & W3 & W4 & _).
    { eapply (proj2 (proj1 Hl1) id). by rewrite Hm1, lookup_insert_eq. }
    unfold seg_wf. rewrite Ho, Hl, Hr, Hd. by repeat split.
  - unfold segment_bytes in *. rewrite Hm2, lookup_insert_eq, Hf2, Ho, Hl.
    rewrite Hm1, lookup_insert_eq in Hb1. rewrite Hb1. f_equal.
    apply takeZ_ge. pose proof (lenZ_nonneg data). unfold wrap. rewrite Z.mod_small; lia.
  - split; [congruence|]. intros j Hj. rewrite <- Hj1 by done.
    unfold segment_bytes. by rewrite Hm2, Hf2, Hm1, !lookup_insert_ne.
Qed.

Lemma write_new_spec D held G p data cr hash meta d b k :
  pipe_inv D held G p → budget (lenZ data + b) (1 + k) p → lenZ data < 2 ^ 32 →
  0 ≤ b → 0 ≤ k → seals (key_manager p) cr hash meta data d →
  wp (write_new_segment data cr hash meta)
    (λ id p', pipe_inv D (held ++ [id]) G p' ∧ budget b k p' ∧ content p' id = Some (d, hash) ∧
       (∀ j x, content p j = Some x → content p' j = Some x) ∧
       key_manager p' = key_manager p)
    (λ _, pipe_inv D [] G) p.
Proof.
  intros Hi (Bo & Bn & Br) Hlen Hb0 Hk0 Hseal. pose proof (pi_next _ _ _ _ Hi) as Hn0.
  pose proof (lenZ_nonneg data) as Hd0.
  unfold write_new_segment. apply wp_bind, wp_reg. unfold wp, alloc_segment, gets, modify, bind, ret.
  set (id := mkSegmentId (next_segment_id (rg p))).
  rewrite (u64_add_small (next_segment_id (rg p)) 1) by lia.
  set (r1 := set_next_segment_id (next_segment_id (rg p) + 1) (rg p)).
  assert (segment_map (lg p) !! id = None) as Hnone.
  { destruct (segment_map (lg p) !! id) as [s|] eqn:Hs; [|done].
    destruct (pi_ids _ _ _ _ Hi _ _ Hs) as [_ ?]. simpl in *. lia. }
  apply (wp_bind (map_err _ _)). apply wp_map_err, wp_nv. vs.
  pose proof (append_spec (lg p) id data (pi_log _ _ _ _ Hi) ltac:(lia)) as Ha.
  unfold wp. destruct (append id data (lg p)) as [[s|e| ] l1]; [| |done].
  2:{ destruct Ha as (Hl1 & Hb1 & Hm1).
      eapply (pipe_inv_drop D held).
      eapply (pipe_inv_fresh D held held G p (set_lg l1 (set_rg r1 p)) id
                (fresh_segment id (next_offset (lg p)) (wrap 32 (lenZ data)))); try done.
      destruct Hm1 as [?|?]; [by left|right]. split; [done|].
      intros j. case_bool_decide; simpl; lia. }
  destruct Ha as (Hl1 & _ & Hs & Hm1 & Hn1 & Hb1 & Hj1).
  apply (wp_bind (map_err _ _)). apply wp_map_err, wp_nv. vs.
  set (s' := describe_segment cr hash meta s).
  pose proof (describe_fresh cr hash meta id (next_offset (lg p)) (wrap 32 (lenZ data))) as Hdesc.
  cbv zeta in Hdesc. rewrite <- Hs in Hdesc. fold s' in Hdesc.
  destruct Hdesc as (Hs1 & Hs2 & Hs3 & Hs4 & Hs5 & Hs6).
  pose proof (update_effect id s' l1) as Hu. unfold wp.
  assert (∀ l2, log_view l2 = (nv_file l1, <[id := s']> (segment_map l1), next_offset l1) →
    described (lg p) id s' data l2) as Hl2.
  { intros l2. apply (described_view (lg p) l1 l2 id s); try done; [by rewrite Hs2, Hs|by rewrite Hs3, Hs]. }
  destruct (update_segment_metadata id s' l1) as [[u|e| ] l2]; [| |done];
    destruct (Hl2 l2 Hu) as (Hi2 & Hm2 & Hb2 & Hn2 & Hj2).
  2:{ eapply (pipe_inv_drop D held).
      eapply (pipe_inv_fresh D held held G p (set_lg l2 (set_rg r1 p)) id s'); try done.
      right. split; [done|]. intros j. case_bool_decide; lia. }
  unfold ret. set (p' := set_lg l2 _).
  destruct (pipe_inv_fresh D held (held ++ [id]) G p p' id s') as [Hi' Hc']; try done.
  { right. split; [done|]. intros j. rewrite countZ_app, countZ_cons, countZ_nil, Hs4.
    case_bool_decide; lia. }
  split; [done|]. split_and!; try done.
  - subst p'. unfold budget. vs. rewrite Hn2. simpl. split_and!; [lia|lia|].
    intros j. unfold refs in *. vs. rewrite Hm2. specialize (Br j).
    destruct (decide (j = id)) as [->|]; [rewrite lookup_insert_eq, Hs4; rewrite Hnone in Br; lia|].
    rewrite lookup_insert_ne by done. lia.
  - subst p'. unfold content. vs. rewrite Hm2, lookup_insert_eq. simpl. rewrite Hb2. simpl.
    unfold s'. rewrite Hseal; [|by rewrite Hs]. simpl. f_equal. fold s'. by rewrite Hs6.
Qed.
End write_lemmas.

(** ** Encrypting, placing and registering a segment *)
Section place_lemmas.
Context {JR : JsonDoc RegistryState} {JN : JsonDoc SegmentMap} `{Crates}.
Implicit Types p : WritePipeline.

Definition set_km (m : KeyManager) p : WritePipeline := mkWritePipeline (store p) (Some m).

Lemma wp_on_km {A : Type} (mm : M KeyManager EncryptionError A) Q R p m :
  key_manager p = Some m →
  wp mm (λ a m', Q a (set_km m' p)) (λ e m', R (OfEncryption e) (set_km m' p)) m →
  wp (on_km mm) Q R p.
Proof.
  intros Hm. unfold wp, on_km. rewrite Hm. by destruct (mm m) as [[a|e| ] m'].
Qed.

Lemma pipe_inv_km D held G p m m' :
  pipe_inv D held G p → key_manager p = Some m → cache_coherent m' →
  master_key m' = master_key m → hkdf_salt m' = hkdf_salt m →
  pipe_inv D held G (set_km m' p) ∧
  (∀ j x, content p j = Some x → content (set_km m' p) j = Some x).
Proof.
  intros Hi Hm Hco Hmk Hs.
  assert (∀ j x, content p j = Some x → content (set_km m' p) j = Some x) as Hc.
  { intros j x. apply content_same; [|done|intros s ?; by exists s].
    simpl. by rewrite Hm. }
  split; [|done]. apply (pipe_inv_change D held held G p); try done; try by apply Hi.
  - intros m'' Hm''. simpl in Hm''. by simplify_eq.
  - intros j x _. apply Hc.
Qed.

(** What [encrypt_segment] and [compute_mac] sealed opens again from the record the segment
    keeps of it. *)
Lemma sealed_record `{!XtsLaws} d kp v t ct md tag cr h s :
  encrypt_segment d kp v t = Ok (ct, md) → compute_mac ct md (key1 kp) (key2 kp) = Ok tag → lenZ d < 2 ^ 32 →
  let seg := describe_segment cr h (Some (set_integrity_tag tag md)) s in
  lenZ ct = lenZ d ∧ seg_encrypted seg = true ∧ seg_key_version seg = Some v ∧
  stored_metadata seg ct = set_integrity_tag tag md ∧
  verify_mac ct (set_integrity_tag tag md) (key1 kp) (key2 kp) = Ok tt ∧
  decrypt_segment ct kp (set_integrity_tag tag md) = Ok d.
Proof.
  intros He Hm Hlen seg. pose proof He as He'. unfold encrypt_segment in He'. rewrite encrypt_cases in He'.
  destruct (lenZ d <? 16); [done|]. simpl in He'. simplify_eq.
  rewrite compute_mac_ok in Hm. simplify_eq.
  split; [apply lenZ_xts_encrypt|]. subst seg. do 3 (split; [by destruct h|]).
  split; [|by eapply decrypt_encrypt_segment]. by apply verify_mac_sealed.
Qed.

Lemma encrypt_chunk_spec `{!XtsLaws} D held G p m hash d :
  pipe_inv D held G p → key_manager p = Some m → lenZ d < 2 ^ 32 →
  wp (encrypt_chunk hash d)
    (λ cm p', ∃ m', p' = set_km m' p ∧ pipe_inv D held G p' ∧
       (∀ j x, content p j = Some x → content p' j = Some x) ∧
       lenZ cm.1 = lenZ d ∧ ∀ cr h, seals (key_manager p') cr h (Some cm.2) cm.1 d)
    (λ _, pipe_inv D held G) p.
Proof.
  intros Hi Hm Hlen. unfold encrypt_chunk. apply wp_bind. apply (wp_on_km _ _ _ _ m Hm).
  pose proof (get_key_eq m (current_version m) (pi_key _ _ _ _ Hi m Hm)) as Hg.
  unfold wp at 1. cbv [bind gets ret].
  destruct (get_key (current_version m) m) as [r m'].
  destruct Hg as (-> & Hco & Hmk & Hs & _ & _).
  destruct (pipe_inv_km D held G p m m' Hi Hm Hco Hmk Hs) as [Hi' Hc'].
  assert (derive_key m' (current_version m) = derive_key m (current_version m)) as Hdk.
  { by apply derive_key_ext. }
  destruct (derive_key m (current_version m)) as [kp|e| ] eqn:Hkp; [|done|].
  2:{ by apply derive_key_no_panic in Hkp. }
  set (t := derive_tweak_from_hash _). unfold wp, lift.
  destruct (encrypt_segment d kp (current_version m) t) as [[ct md]|e| ] eqn:He; cbn [res_map_err].
  - destruct (compute_mac ct md (key1 kp) (key2 kp)) as [tag|e| ] eqn:Ht; rewrite compute_mac_ok in Ht; [|done..].
    rewrite <- compute_mac_ok in Ht. cbn [res_map_err]. exists m'. split; [done|]. split; [done|]. split; [done|].
    split; [by destruct (sealed_record d kp _ t ct md tag (mkCompressionResult 0 0 false false "" None)
              None (fresh_segment (mkSegmentId 0) 0 0) He Ht Hlen)|].
    intros cr h s Hs0. cbn [fst snd].
    destruct (sealed_record d kp _ t ct md tag cr h s He Ht Hlen) as (_ & Henc & Hv & Hmd & Hvm & Hdec).
    unfold unseal. rewrite Henc, Hv, Hmd. simpl key_manager. cbv [mbind option_bind]. by rewrite Hdk, Hvm, Hdec.
  - done.
  - unfold encrypt_segment in He. rewrite encrypt_cases in He. by destruct (lenZ d <? 16).
Qed.

Lemma pipe_inv_register D held G p r' h id d :
  pipe_inv D held G p → content p id = Some (d, Some h) → D d → Dedup.hash_content d = h →
  state_of r' = state_of (set_content_store (<[h := id]> (content_store (rg p))) (rg p)) →
  pipe_inv D held G (set_rg r' p).
Proof.
  intros Hi Hc Hd Hh (Hcaps & Hnext & Hst)%state_of_eq. simpl in *.
  destruct Hi. constructor; vs; rewrite ?Hcaps, ?Hnext; try done.
  intros h' id'. rewrite Hst. intros [[<- <-]|[_ Hl]]%lookup_insert_Some.
  - exists d. by rewrite <- Hc.
  - destruct (pi_store0 h' id' Hl) as (d' & ? & ?). by exists d'.
Qed.

(** Taking a reference: a record whose count went up by one. *)
Lemma pipe_inv_take D held G p l' id s a b k :
  pipe_inv D held G p → budget b (1 + k) p → segment_map (lg p) !! id = Some s → 0 ≤ k →
  let s' := set_refs (u32_saturating_add (seg_ref_count s) 1) a s in
  log_view l' = (nv_file (lg p), <[id := s']> (segment_map (lg p)), next_offset (lg p)) →
  pipe_inv D (held ++ [id]) G (set_lg l' p) ∧ budget b k (set_lg l' p) ∧
  (∀ j x, content p j = Some x → content (set_lg l' p) j = Some x).
Proof.
  intros Hi (Bo & Bn & Br) Hs Hk s' Hv. pose proof Hv as [= _ Hm Hn].
  pose proof (proj2 (proj1 (pi_log _ _ _ _ Hi)) _ _ Hs) as Hwf.
  pose proof (Br id) as Bi. rewrite (refs_lookup _ _ _ Hs) in Bi.
  pose proof Hwf as (_ & _ & _ & _ & Hr & _).
  assert (u32_saturating_add (seg_ref_count s) 1 = seg_ref_count s + 1) as Hu
    by (unfold u32_saturating_add; lia).
  split; [|split].
  - apply (pipe_inv_store D held (held ++ [id]) G p l' id s s'); try done.
    { apply seg_wf_set_refs; [done|lia]. }
    intros j. pose proof (pi_refs _ _ _ _ Hi j) as Hrj. rewrite countZ_app, countZ_cons, countZ_nil.
    case_decide as Hj; [|rewrite bool_decide_false by done; lia].
    subst j. rewrite bool_decide_true by done. rewrite (refs_lookup _ _ _ Hs) in Hrj. simpl. lia.
  - unfold budget. vs. rewrite Hn. split_and!; [lia..|]. intros j. specialize (Br j).
    unfold refs in *. vs. rewrite Hm.
    destruct (decide (j = id)) as [->|]; [|rewrite lookup_insert_ne by done; lia].
    rewrite lookup_insert_eq. rewrite Hs in Br. simpl. lia.
  - intros j x. by apply (content_log_store p l' id s s').
Qed.

(** Taking a reference on a stored segment. *)
Lemma increment_spec D held G p id s b k :
  pipe_inv D held G p → budget b (1 + k) p → segment_map (lg p) !! id = Some s → 0 ≤ k →
  wp (nv (increment_refcount id))
    (λ _ p', pipe_inv D (held ++ [id]) G p' ∧ budget b k p' ∧
       (∀ j x, content p j = Some x → content p' j = Some x) ∧ key_manager p' = key_manager p)
    (λ _, pipe_inv D [] G) p.
Proof.
  intros Hi Hb Hs Hk. apply wp_nv. pose proof (increment_effect id (lg p)) as Hinc.
  unfold wp. destruct (increment_refcount id (lg p)) as [[s'|e| ] l']; [| |done].
  - destruct Hinc as (s0 & Hs0 & -> & Hv). assert (s0 = s) as -> by congruence.
    by destruct (pipe_inv_take D held G p l' id s _ b k Hi Hb Hs Hk Hv) as (? & ? & ?).
  - destruct Hinc as [Hv|(s0 & Hs0 & Hv)]; [eapply pipe_inv_drop; by apply pipe_inv_log_view|].
    assert (s0 = s) as -> by congruence.
    destruct (pipe_inv_take D held G p l' id s _ b k Hi Hb Hs Hk Hv) as (Hi' & _).
    by eapply pipe_inv_drop.
Qed.

Lemma place_spec D held G p policy final cr meta st d b k :
  hash_injective_on D → D d →
  pipe_inv D held G p → budget (lenZ final + b) (1 + k) p → lenZ final < 2 ^ 32 →
  0 ≤ b → 0 ≤ k → (∀ h, seals (key_manager p) cr h meta final d) →
  wp (place_segment policy (Dedup.hash_content d) final cr meta st)
    (λ ist p', pipe_inv D (held ++ [ist.1]) G p' ∧ budget b k p' ∧
       (∃ h, content p' ist.1 = Some (d, h)) ∧
       (∀ j x, content p j = Some x → content p' j = Some x) ∧
       key_manager p' = key_manager p)
    (λ _, pipe_inv D [] G) p.
Proof.
  intros Hinj HD Hi Hbud Hlen Hb Hk Hseal. unfold place_segment.
  destruct (dedupe policy).
  2:{ apply wp_bind. eapply wp_mono; [by apply write_new_spec| |done].
      intros id p' (? & ? & ? & ? & ?). unfold wp, ret. simpl. eauto 10. }
  apply wp_bind, wp_reg. unfold wp, lookup_content, gets.
  change (set_rg (rg p) p) with (mkWritePipeline (mkStore (rg p) (lg p)) (key_manager p)).
  assert (mkWritePipeline (mkStore (rg p) (lg p)) (key_manager p) = p) as ->.
  { by destruct p as [[? ?] ?]. }
  destruct (content_store (rg p) !! Dedup.hash_content d) as [id|] eqn:Hst.
  - destruct (pi_store _ _ _ _ Hi _ _ Hst) as (d' & Hc & HD' & Hh).
    assert (d' = d) as -> by (by apply Hinj). clear HD' Hh.
    pose proof Hc as Hlk. unfold content in Hlk.
    destruct (segment_map (lg p) !! id) as [s|] eqn:Hs; [|done]. clear Hlk.
    apply (wp_bind (map_err _ _)). apply wp_map_err.
    pose proof (lenZ_nonneg final). destruct Hbud as (Bo & Bn & Br).
    eapply wp_mono; [apply (increment_spec D held G p id s b k); [done|by split_and!; [lia|..]|done|done]| |done].
    intros s' p' (Hi' & Hbud' & Hmono & Hkey). unfold wp, ret. cbn [fst]. split_and!; try done.
    exists (Some (Dedup.hash_content d)). by apply Hmono.
  - apply (wp_bind (write_new_segment _ _ _ _)). eapply wp_mono; [by apply write_new_spec| |done].
    intros id p' (Hi' & Hbud' & Hc' & Hmono & Hkey').
    apply (wp_bind (map_err _ _)). apply wp_map_err, wp_reg.
    pose proof (register_spec (Dedup.hash_content d) id (rg p')) as Hreg. unfold wp.
    destruct (register_content _ _ _) as [[u|e| ] r']; [| |done].
    + destruct Hreg as [_ Hst']. unfold ret. cbn [fst].
      split; [by eapply pipe_inv_register|]. split; [|split; [|split]].
      * apply state_of_eq in Hst' as (_ & Hn & _). simpl in Hn.
        destruct Hbud' as (? & ? & ?). split_and!; [done|vs; by rewrite Hn|done].
      * by eexists.
      * done.
      * done.
    + eapply pipe_inv_drop. by eapply pipe_inv_register.
Qed.
End place_lemmas.

(** ** Writing a capsule *)
Section capsule_lemmas.
Context {JR : JsonDoc RegistryState} {JN : JsonDoc SegmentMap} `{Crates} `{!XtsLaws}.
Implicit Types p : WritePipeline.

Lemma decompress_for_compressed policy out data :
  match policy with
  | CompNone => False
  | LZ4 _ => decompress_lz4 out = Ok data
  | Zstd _ => decompress_zstd out = Ok data
  end → decompress_for policy out = Ok data.
Proof. destruct policy; simpl; [done|by intros ->..]. Qed.

(** What compression yields reads back under the same policy. *)
Lemma compress_reads policy chunk view r :
  compress_segment chunk policy = Ok (view, r) →
  (cr_compressed r = false → decompress_for policy chunk = Ok chunk) →
  lenZ (as_ref view) ≤ lenZ chunk ∧ decompress_for policy (as_ref view) = Ok chunk.
Proof.
  intros (_ & _ & [(-> & Hr & _)|(out & -> & _ & _ & Hl & _ & Ho)])%adaptive_compress_cases Hraw.
  - simpl. split; [lia|by apply Hraw].
  - simpl. split; [lia|]. by apply decompress_for_compressed.
Qed.

Lemma budget_weaken b b' k p : b' ≤ b → budget b k p → budget b' k p.
Proof. intros ? (? & ? & ?). split_and!; [lia|done|done]. Qed.

Lemma budget_km b k m p : budget b k p → budget b k (set_km m p).
Proof. done. Qed.

(** The state between two chunks: the references taken so far are held and read
    as the chunks done. *)
Definition writing (D : bytes → Prop) (G : gmap CapsuleId bytes) (policy : Policy) (enc : bool)
    (ids : list SegmentId) (outs : list bytes) (b k : Z) p : Prop :=
  pipe_inv D ids G p ∧ Forall2 (seg_reads p (compression policy)) ids outs ∧ budget b k p ∧
  (enc = true → is_Some (key_manager p)).

Lemma write_chunk_spec D G policy enc i ids st outs chunk b k p :
  hash_injective_on D →
  (∀ view r, compress_segment chunk (compression policy) = Ok (view, r) →
     D (as_ref view) ∧ (cr_compressed r = false → decompress_for (compression policy) chunk = Ok chunk)) →
  lenZ chunk < 2 ^ 32 → 0 ≤ b → 0 ≤ k →
  writing D G policy enc ids outs (lenZ chunk + b) (1 + k) p →
  wp (write_chunk policy enc (i, ids, st) chunk)
    (λ acc p', ∃ id st', acc = (i + 1, ids ++ [id], st') ∧
       writing D G policy enc (ids ++ [id]) (outs ++ [chunk]) b k p')
    (λ _, pipe_inv D [] G) p.
Proof.
  intros Hinj Hok Hlen Hb Hk (Hi & Hreads & Hbud & Hkm). unfold write_chunk.
  unfold wp at 1, bind at 1, lift at 1.
  destruct (compress_segment chunk (compression policy)) as [[view r]|e| ] eqn:Hc;
    cbn [res_map_err]; [|by eapply pipe_inv_drop|by apply adaptive_compress_no_panic in Hc].
  destruct (Hok view r eq_refl) as [HD Hraw].
  destruct (compress_reads _ _ _ _ Hc Hraw) as [Hle Hdec].
  set (d := as_ref view) in *. pose proof (lenZ_nonneg d).
  assert (∀ final meta q,
    pipe_inv D ids G q → (∀ j x, content p j = Some x → content q j = Some x) →
    budget (lenZ chunk + b) (1 + k) q → (enc = true → is_Some (key_manager q)) →
    lenZ final = lenZ d → (∀ h, seals (key_manager q) r h meta final d) →
    wp (bind (place_segment policy (Dedup.hash_content d) final r meta st)
          (λ '(seg_id, dedup_stats), ret (i + 1, ids ++ [seg_id], dedup_stats)))
      (λ acc p', ∃ id st', acc = (i + 1, ids ++ [id], st') ∧
         writing D G policy enc (ids ++ [id]) (outs ++ [chunk]) b k p')
      (λ _, pipe_inv D [] G) q) as Hplace.
  { intros final meta q Hq Hmono Hbq Hkq Hf Hs. apply wp_bind. eapply wp_mono.
    - apply (place_spec D ids G q policy final r meta st d b k); try done; [|lia].
      eapply budget_weaken; [|done]. lia.
    - intros [id st'] q' (Hi' & Hb' & (h & Hc') & Hm' & Hk'). unfold wp, ret. cbn [fst] in *.
      exists id, st'. split; [done|]. split; [done|]. split; [|split; [done|by rewrite Hk']].
      apply Forall2_app.
      + eapply Forall2_impl; [done|]. intros j o. apply seg_reads_mono. eauto.
      + constructor; [|done]. by exists d, h.
    - done. }
  destruct enc.
  - destruct (Hkm eq_refl) as [m Hm].
    apply (wp_bind (bind _ _)), wp_bind. eapply wp_mono.
    + apply (encrypt_chunk_spec D ids G p m); [done|done|lia].
    + intros [ct md] q (m' & -> & Hq & Hmono & Hct & Hs). unfold wp at 1, ret at 1.
      cbn [fst snd] in *. apply Hplace; try done.
    + intros e q Hq. exact (pipe_inv_drop _ _ _ _ Hq).
  - apply (wp_bind (ret _)). unfold wp at 1, ret at 1. apply Hplace; try done.
    intros h s Hs. unfold unseal, describe_segment. by destruct h; simpl; rewrite Hs.
Qed.

Lemma pipe_inv_set_capsule D held held' G G' p r' c cap cap' data :
  pipe_inv D held G p →
  state_of r' = state_of (set_capsules (<[c := cap']> (capsules (rg p))) (rg p)) →
  capsules (rg p) !! c = cap →
  G' = <[c := data]> G → capsule_reads p cap' data →
  (∀ id, countZ id (cap_segments cap') + countZ id held' ≤
         countZ id held + match cap with Some x => countZ id (cap_segments x) | None => 0 end) →
  pipe_inv D held' G' (set_rg r' p).
Proof.
  intros Hi (Hcaps & Hnext & Hst)%state_of_eq Hcap -> Hr Hcnt. simpl in *.
  destruct Hi. constructor; vs; rewrite ?Hcaps, ?Hnext, ?Hst; try done.
  - intros c0 cap0 [[<- <-]|[Hne Hc0]]%lookup_insert_Some.
    + exists data. by rewrite lookup_insert_eq.
    + rewrite lookup_insert_ne by done. by apply pi_caps0.
  - intros c0 [Hc0 Hne]%lookup_insert_None. rewrite lookup_insert_ne by done. by apply pi_dom0.
  - intros id. specialize (pi_refs0 id). specialize (Hcnt id).
    change (refs (set_rg r' p) id) with (refs p id).
    rewrite (occ_delete _ c cap') by apply lookup_insert_eq. rewrite delete_insert_eq.
    destruct cap as [x|].
    + rewrite (occ_delete _ c x) in pi_refs0 by done. lia.
    + rewrite delete_id by done. lia.
Qed.

Lemma pipe_inv_add_deduped D held G p c b :
  pipe_inv D held G p →
  wp (reg (add_deduped_bytes c b)) (λ _ p', pipe_inv D held G p' ∧
    (∀ j x, content p j = Some x → content p' j = Some x)) (λ _ _, False) p.
Proof.
  intros Hi. apply wp_reg. unfold wp, add_deduped_bytes, modify.
  destruct (capsules (rg p) !! c) as [cap|] eqn:Hc.
  - destruct (pi_caps _ _ _ _ Hi c cap Hc) as (data & HG & Hr). split; [|done].
    eapply (pipe_inv_set_capsule D held held G); [done|reflexivity|done| |apply Hr|].
    + by rewrite insert_id.
    + intros id. simpl. lia.
  - split; [|done]. by destruct p as [[? ?] ?].
Qed.

Lemma loop_spec D G policy enc data p :
  hash_injective_on D → chunks_ok D (compression policy) data → fits data p →
  pipe_inv D [] G p → (enc = true → is_Some (key_manager p)) →
  wp (foldM (write_chunk policy enc) (0, [], DedupStats_new) (chunks SEGMENT_SIZE data))
    (λ acc p', pipe_inv D acc.1.2 G p' ∧ ∃ outs,
       Forall2 (seg_reads p' (compression policy)) acc.1.2 outs ∧ concat outs = data)
    (λ _, pipe_inv D [] G) p.
Proof.
  intros Hinj Hok Hfits Hi Hkm.
  set (cs := chunks SEGMENT_SIZE data).
  eapply wp_mono.
  - apply (wp_foldM (λ acc rest q, ∃ outs, outs ++ rest = cs ∧
      writing D G policy enc acc.1.2 outs (lenZ (concat rest)) (lenZ rest) q)).
    + intros [[i ids] st] chunk rest q (outs & Hcs & Hw). cbn [fst snd] in *.
      assert (chunk ∈ cs) as Hin by (rewrite <- Hcs; apply elem_of_app; right; left).
      eapply wp_mono.
      * apply (write_chunk_spec D G policy enc i ids st outs chunk (lenZ (concat rest)) (lenZ rest));
          [done|by apply Hok| |apply lenZ_nonneg|apply lenZ_nonneg|].
        -- pose proof (chunks_bound SEGMENT_SIZE data ltac:(done)) as Hf.
           rewrite Forall_forall in Hf. specialize (Hf chunk Hin). unfold SEGMENT_SIZE in Hf. lia.
        -- cbn [concat] in Hw. by rewrite lenZ_app, lenZ_cons in Hw.
      * intros acc q' (id & st' & -> & Hw'). exists (outs ++ [chunk]). cbn [fst snd].
        split; [by rewrite <- app_assoc|done].
      * done.
    + exists []. split; [done|]. split; [done|]. split; [by constructor|]. split; [|done].
      unfold fits in Hfits. subst cs. by rewrite concat_chunks.
  - intros acc q (outs & Hcs & Hi' & Hr & _). split; [done|]. exists outs. split; [done|].
    rewrite app_nil_r in Hcs. subst outs cs. by apply concat_chunks.
  - done.
Qed.

Lemma write_spec D G c now data policy p :
  hash_injective_on D → chunks_ok D (compression policy) data → fits data p →
  pipe_inv D [] G p →
  wp (write_capsule_with_policy c now data policy)
    (λ c' p', c' = c ∧ G !! c = None ∧ pipe_inv D [] (<[c := data]> G) p')
    (λ _ p', pipe_inv D [] G p' ∨ G !! c = None ∧ pipe_inv D [] (<[c := data]> G) p') p.
Proof.
  intros Hinj Hok Hfits Hi. unfold write_capsule_with_policy.
  apply wp_bind. unfold wp at 1, gets at 1.
  apply wp_bind. eapply wp_mono.
  - apply (loop_spec D G); try done. intros [_ Hb]%andb_prop. by apply bool_decide_eq_true in Hb.
  - intros [[i ids] st] q (Hq & outs & Hr & Ho). cbn [fst snd] in *.
    apply wp_bind. eapply wp_mono.
    + assert (wp (if 0 <? bytes_saved st
          then map_err (map_registry_error "add_deduped_bytes")
                 (reg (add_deduped_bytes c (bytes_saved st)))
          else ret tt)
        (λ _ q', pipe_inv D ids G q' ∧ ∀ j x, content q j = Some x → content q' j = Some x)
        (λ _ _, False) q) as Hadd; [|exact Hadd].
      case_if; [|by unfold wp, ret]. apply wp_map_err. by apply pipe_inv_add_deduped.
    + intros [] q' [Hq' Hmono].
      assert (∀ t, capsule_reads q' (mkCapsule c (lenZ data) ids t policy 0) data) as Hcr.
      { intros t. split; [done|]. exists outs. split; [|done]. cbn [cap_segments cap_policy].
        eapply Forall2_impl; [done|]. intros j o. apply seg_reads_mono, Hmono. }
      apply (wp_bind (map_err _ _)), wp_map_err, wp_reg.
      pose proof (create_spec now c (lenZ data) ids policy (rg q')) as Hcs. unfold wp.
      destruct (create_capsule_with_segments _ _ _ _ _ _) as [[u|e| ] r']; [| |done].
      * destruct Hcs as (t & _ & Hc & _ & Hst). unfold ret. split; [done|].
        split; [by eapply pi_dom|].
        eapply (pipe_inv_set_capsule D ids [] G); [done|done|done|done|done|].
        intros id. simpl. rewrite countZ_nil. lia.
      * destruct Hcs as [Hst|(Hc & t & Hst)].
        -- left. eapply pipe_inv_drop.
           apply state_of_eq in Hst as (H1 & H2 & H3).
           apply (pipe_inv_change D ids ids G q'); vs; rewrite ?H1, ?H2, ?H3; try done;
             by apply Hq'.
        -- right. split; [by eapply pi_dom|].
           eapply (pipe_inv_set_capsule D ids [] G); [done|done|done|done|done|].
           intros id. simpl. rewrite countZ_nil. lia.
    + done.
  - intros e q Hq. by left.
Qed.
End capsule_lemmas.

(** ** Reading *)
Section read_lemmas.
Context {JR : JsonDoc RegistryState} {JN : JsonDoc SegmentMap} `{Crates}.
Implicit Types p : WritePipeline.

(** [p'] has the tables and files of [p] and derives the same keys; with no I/O
    failure scheduled in [p] there is none in [p']. *)
Definition read_only p p' : Prop :=
  rg p' = rg p ∧ log_view (lg p') = log_view (lg p) ∧
  nv_metadata (lg p') = nv_metadata (lg p) ∧ (nv_faults (lg p) = [] → nv_faults (lg p') = []).

#[export] Instance read_only_preorder : PreOrder read_only.
Proof.
  split; [done|]. intros p q r (R1 & R2 & R3 & R4) (S1 & S2 & S3 & S4).
  split_and!; [congruence..|tauto].
Qed.

Definition keys_ok p : Prop := ∀ m, key_manager p = Some m → cache_coherent m.

(** What a read leaves: [read_only], with the same keys. *)
Definition after_read p p' : Prop :=
  read_only p p' ∧ same_keys (key_manager p) (key_manager p') ∧ keys_ok p'.

Lemma after_read_refl p : keys_ok p → after_read p p.
Proof. by intros ?. Qed.

Lemma after_read_trans p q r : after_read p q → after_read q r → after_read p r.
Proof.
  intros (R1 & R2 & R3) (S1 & S2 & S3). split_and!; [by trans q| |done].
  destruct (key_manager p), (key_manager q), (key_manager r); try done.
  destruct R2, S2. split; congruence.
Qed.

Lemma after_read_content p p' j x : after_read p p' → content p j = Some x → content p' j = Some x.
Proof.
  intros ((_ & Hv & _) & Hk & _). apply content_same; [done|by apply segment_bytes_view|].
  injection Hv as _ -> _. intros s ?. by exists s.
Qed.

Lemma pipe_inv_after D held G p p' : pipe_inv D held G p → after_read p p' → pipe_inv D held G p'.
Proof.
  intros Hi Ha. pose proof Ha as ((Hr & Hv & _) & Hk & Hc). pose proof Hv as [= Hf Hm Hn].
  apply (pipe_inv_change D held held G p); rewrite ?Hr, ?Hm; try done; try by apply Hi.
  - eapply log_inv_view; [done|apply Hi].
  - intros j x _. by apply after_read_content.
  - intros j. unfold refs. rewrite Hm. apply Hi.
Qed.

Lemma read_quiet id l d :
  nv_faults l = [] → segment_bytes l id = Some d → read id l = (Ok d, l).
Proof.
  intros Hf Hb. destruct (segment_map l !! id) as [s|] eqn:Hs.
  - rewrite (read_ok l id s) by done. by rewrite Hb.
  - unfold segment_bytes in Hb. by rewrite Hs in Hb.
Qed.

Lemma decrypt_raw_run p s raw d :
  keys_ok p → unseal (key_manager p) s raw = Some d →
  wp (decrypt_raw s raw) (λ d' p', d' = d ∧ after_read p p') (λ _ _, False) p.
Proof.
  intros Hko. unfold unseal, decrypt_raw. destruct (seg_encrypted s).
  2:{ intros ?; simplify_eq. unfold wp, ret. by split_and!. }
  destruct (key_manager p) as [m|] eqn:Hm; [|done]. cbv [mbind option_bind].
  destruct (seg_key_version s) as [v|] eqn:Hv; [|done].
  destruct (derive_key m v) as [kp|e| ] eqn:Hk; [|done..]. intros Hd.
  apply wp_bind. unfold wp at 1, gets. apply wp_bind. unfold wp at 1, lift at 1. rewrite Hm. cbn [ok_or].
  apply wp_bind. unfold wp at 1, lift at 1. cbn [ok_or].
  apply wp_bind. apply (wp_on_km _ _ _ _ m Hm).
  pose proof (get_key_eq m v (Hko m Hm)) as Hg. unfold wp at 1.
  destruct (get_key v m) as [r m']. destruct Hg as (-> & Hco & Hmk & Hs & _). rewrite Hk.
  unfold wp, bind, lift. unfold stored_metadata in Hd. rewrite Hv in Hd.
  destruct (verify_mac _ _ _ _) as [[]|e| ]; [|done..]. cbn [res_map_err].
  destruct (decrypt_segment _ _ _) as [d'|e| ]; [|done..]. cbn [res_map_err].
  simplify_eq. split; [done|]. split; [done|]. cbn. rewrite Hm. split; [done|]. intros ? [= <-]. done.
Qed.

Lemma read_segment_run p pol id out :
  keys_ok p → seg_reads p pol id out →
  wp (read_segment pol id) (λ o p', o = out ∧ after_read p p')
    (λ _ p', after_read p p' ∧ nv_faults (lg p) ≠ []) p.
Proof.
  intros Hko (d & h & Hc & Ho). unfold content in Hc.
  destruct (segment_map (lg p) !! id) as [s|] eqn:Hs; [|done].
  destruct (segment_bytes (lg p) id) as [raw|] eqn:Hb; [|done]. cbn [mbind option_bind] in Hc.
  destruct (unseal (key_manager p) s raw) as [d'|] eqn:Hu; [|done]. simplify_eq/=.
  unfold read_segment. apply wp_bind, wp_nv.
  pose proof (read_effect id (lg p)) as He.
  assert (nv_faults (lg p) = [] → read id (lg p) = (Ok raw, lg p)) as Hq by (intros; by apply read_quiet).
  unfold wp at 1. destruct (read id (lg p)) as [[raw'|e| ] l'] eqn:Hr; [| |done].
  - destruct He as (Hraw & Hv & Hd). assert (raw' = raw) as -> by congruence.
    set (q := set_lg l' p).
    assert (after_read p q) as Hpq.
    { split; [|by split]. do 3 (split; [done|]). intros Hf. specialize (Hq Hf). simplify_eq. done. }
    assert (segment_map (lg q) !! id = Some s) as Hsq by (subst q; vs; by injection Hv as _ -> _).
    apply wp_bind, wp_nv. unfold wp at 1, get_segment_metadata, gets, bind, lift. rewrite Hsq.
    cbn [ok_or]. assert (set_lg (lg q) q = q) as -> by done.
    apply wp_bind. eapply wp_mono; [apply (decrypt_raw_run q s raw d); [apply Hpq|done]| |done].
    intros d'' q' (-> & Hq'). unfold wp, lift. rewrite Ho. split; [done|]. by eapply after_read_trans.
  - assert (nv_faults (lg p) ≠ []) as Hne by (intros Hf; specialize (Hq Hf); done).
    destruct He as [Hv Hd]. split; [|done]. split; [|by split]. split_and!; [done..|]. by intros.
Qed.

(** A capsule reads as its data, or not at all; without scheduled failures it reads. *)
Lemma read_run p c cap data :
  keys_ok p → capsules (rg p) !! c = Some cap → capsule_reads p cap data →
  wp (read_capsule c) (λ out p', out = data ∧ after_read p p')
    (λ _ p', after_read p p' ∧ nv_faults (lg p) ≠ []) p.
Proof.
  intros Hko Hc (_ & outs & Hreads & Hd). unfold read_capsule. apply wp_bind, wp_reg.
  unfold wp at 1, lookup, bind, gets, lift. rewrite Hc.
  cbn [ok_or]. assert (set_rg (rg p) p = p) as -> by (by destruct p as [[? ?] ?]).
  eapply wp_mono.
  - apply (wp_foldM (λ acc rest q, ∃ more, acc ++ concat more = data ∧ after_read p q ∧
      Forall2 (seg_reads q (compression (cap_policy cap))) rest more)
      (λ _ p', after_read p p' ∧ nv_faults (lg p) ≠ [])).
    + intros acc id rest q (more & Ha & Hq & Hr).
      inversion Hr as [|? out ? more' Hid Hrest]; subst.
      apply wp_bind. eapply wp_mono; [apply read_segment_run; [apply Hq|done]|..].
      * intros o q' (-> & Hq'). unfold wp, ret.
        exists more'. split; [by rewrite <- app_assoc|]. split; [by eapply after_read_trans|].
        eapply Forall2_impl; [done|]. intros j o. apply seg_reads_mono. intros x.
        by apply after_read_content.
      * intros e q' (Hq' & Hne). split; [by eapply after_read_trans|]. destruct Hq as ((_ & _ & _ & Hf) & _). tauto.
    + exists outs. split; [done|]. by split.
  - intros acc q (more & Ha & Hq & Hr). inversion Hr; subst more. cbn in Ha. rewrite app_nil_r in Ha. done.
  - done.
Qed.

Lemma read_spec D held G p c data :
  pipe_inv D held G p → G !! c = Some data →
  wp (read_capsule c)
    (λ out p', out = data ∧ pipe_inv D held G p' ∧ read_only p p')
    (λ _ p', pipe_inv D held G p' ∧ nv_faults (lg p) ≠ []) p.
Proof.
  intros Hi HG. destruct (capsules (rg p) !! c) as [cap|] eqn:Hc.
  2:{ by rewrite (pi_dom _ _ _ _ Hi c Hc) in HG. }
  destruct (pi_caps _ _ _ _ Hi c cap Hc) as (data' & HG' & Hr). simplify_eq.
  eapply wp_mono; [apply (read_run p c cap data); [exact (pi_key _ _ _ _ Hi)|done|done]|..].
  - intros out q [-> Hq]. split; [done|]. split; [by eapply pipe_inv_after|apply Hq].
  - intros e q [Hq ?]. split; [by eapply pipe_inv_after|done].
Qed.

(** A missing capsule is an error that changes nothing. *)
Lemma read_none D held G p c :
  pipe_inv D held G p → G !! c = None →
  wp (read_capsule c) (λ _ _, False) (λ _ p', p' = p) p.
Proof.
  intros Hi HG. unfold read_capsule. apply wp_bind, wp_reg.
  unfold wp, lookup, bind, gets, lift.
  destruct (capsules (rg p) !! c) as [cap|] eqn:Hc; [|by destruct p as [[? ?] ?]].
  destruct (pi_caps _ _ _ _ Hi c cap Hc) as (data' & HG' & _). congruence.
Qed.
End read_lemmas.

(** ** Deleting, collecting and reconciling *)
Section reclaim_lemmas.
Context {JR : JsonDoc RegistryState} {JN : JsonDoc SegmentMap} `{Crates}.
Implicit Types p : WritePipeline.

Lemma pipe_inv_dereg D held G p r' h :
  pipe_inv D held G p →
  state_of r' = state_of (set_content_store (delete h (content_store (rg p))) (rg p)) →
  pipe_inv D held G (set_rg r' p).
Proof.
  intros Hi (H1 & H2 & H3)%state_of_eq. simpl in *.
  apply (pipe_inv_change D held held G p); vs; rewrite ?H1, ?H2, ?H3; try done;
    try by apply Hi. apply delete_subseteq.
Qed.

Lemma pipe_inv_same_state D held G p r' :
  pipe_inv D held G p → state_of r' = state_of (rg p) → pipe_inv D held G (set_rg r' p).
Proof.
  intros Hi (H1 & H2 & H3)%state_of_eq.
  apply (pipe_inv_change D held held G p); vs; rewrite ?H1, ?H2, ?H3; try done; by apply Hi.
Qed.

(** Removing a segment nothing refers to. *)
Lemma pipe_inv_remove D held G p l' id :
  pipe_inv D held G p → occ (capsules (rg p)) id + countZ id held ≤ 0 →
  (∀ h, content_store (rg p) !! h ≠ Some id) →
  log_view l' = (nv_file (lg p), delete id (segment_map (lg p)), next_offset (lg p)) →
  pipe_inv D held G (set_lg l' p).
Proof.
  intros Hi Hz Hst Hv. pose proof Hv as [= Hf Hm Hn].
  pose proof (countZ_nonneg id held). pose proof (occ_nonneg (capsules (rg p)) id).
  apply (pipe_inv_change D held held G p); vs; try done; try by apply Hi.
  - eapply (log_inv_remove (lg p)); [apply Hi|done].
  - intros j s. rewrite Hm. intros [_ Hs]%lookup_delete_Some. by apply (pi_ids _ _ _ _ Hi).
  - intros j x Hj. assert (j ≠ id) as Hne.
    { intros ->. destruct Hj as [?|[h Hh]]; [lia|by apply (Hst h)]. }
    apply content_same; [done|..]; vs.
    + unfold segment_bytes. by rewrite Hm, Hf, lookup_delete_ne.
    + intros s Hs. exists s. by rewrite Hm, lookup_delete_ne.
  - intros j. pose proof (pi_refs _ _ _ _ Hi j) as Hr. unfold refs in *. vs. rewrite Hm.
    destruct (decide (j = id)) as [->|]; [rewrite lookup_delete_eq; lia|].
    by rewrite lookup_delete_ne.
Qed.

(** The content store names a segment only under its recorded hash. *)
Lemma store_hash D held G p h id s :
  pipe_inv D held G p → content_store (rg p) !! h = Some id →
  segment_map (lg p) !! id = Some s → seg_content_hash s = Some h.
Proof.
  intros Hi Hh Hs. destruct (pi_store _ _ _ _ Hi _ _ Hh) as (d & Hc & _).
  unfold content in Hc. rewrite Hs in Hc. cbv [mbind option_bind] in Hc.
  destruct (segment_bytes _ _); [|done]. destruct (unseal _ _ _); [|done]. by simplify_eq.
Qed.

(** Dropping the hash of an unreferenced segment makes it removable. *)
Lemma dereg_spec D held G p h id s :
  pipe_inv D held G p → segment_map (lg p) !! id = Some s → seg_content_hash s = Some h →
  wp (deregister_content h id)
    (λ _ r', pipe_inv D held G (set_rg r' p) ∧ capsules r' = capsules (rg p) ∧
       ∀ h', content_store r' !! h' ≠ Some id)
    (λ _ r', pipe_inv D held G (set_rg r' p)) (rg p).
Proof.
  intros Hi Hs Hh. pose proof (deregister_spec h id (rg p)) as Hd. unfold wp.
  destruct (deregister_content h id (rg p)) as [[b|e| ] r']; [| |done].
  - destruct Hd as (-> & _ & Hst). case_bool_decide as Hb.
    + split; [by eapply pipe_inv_dereg|]. apply state_of_eq in Hst as (-> & _ & Hst). simpl in Hst.
      split; [done|]. intros h'. rewrite Hst. intros [Hne Hh']%lookup_delete_Some.
      pose proof (store_hash _ _ _ _ _ _ _ Hi Hh' Hs). congruence.
    + split; [by apply pipe_inv_same_state|]. apply state_of_eq in Hst as (-> & _ & ->).
      split; [done|]. intros h' Hh'. pose proof (store_hash _ _ _ _ _ _ _ Hi Hh' Hs). congruence.
  - destruct Hd as [_ Hst]. by eapply pipe_inv_dereg.
Qed.

Lemma no_hash_unstored D held G p id s :
  pipe_inv D held G p → segment_map (lg p) !! id = Some s → seg_content_hash s = None →
  ∀ h, content_store (rg p) !! h ≠ Some id.
Proof. intros Hi Hs Hn h Hh. pose proof (store_hash _ _ _ _ _ _ _ Hi Hh Hs). congruence. Qed.

(** [remove_segment] on a pipeline. *)
Lemma remove_spec D held G p id :
  pipe_inv D held G p → occ (capsules (rg p)) id + countZ id held ≤ 0 →
  (∀ h, content_store (rg p) !! h ≠ Some id) →
  wp (remove_segment id)
    (λ o l', o = segment_map (lg p) !! id ∧ pipe_inv D held G (set_lg l' p) ∧
       segment_map l' = delete id (segment_map (lg p)))
    (λ _ l', pipe_inv D held G (set_lg l' p)) (lg p).
Proof.
  intros Hi Hz Hst. pose proof (remove_effect id (lg p)) as Hr. unfold wp.
  destruct (remove_segment id (lg p)) as [[o|e| ] l']; [| |done].
  - destruct Hr as [-> Hv]. split; [done|]. split; [by eapply pipe_inv_remove|].
    by injection Hv as _ ? _.
  - by eapply pipe_inv_remove.
Qed.

Lemma pipe_inv_delete_capsule D G p r' c cap :
  pipe_inv D [] G p → capsules (rg p) !! c = cap →
  state_of r' = state_of (set_capsules (delete c (capsules (rg p))) (rg p)) →
  pipe_inv D (match cap with Some x => cap_segments x | None => [] end) (delete c G) (set_rg r' p).
Proof.
  intros Hi Hcap (Hcaps & Hnext & Hst)%state_of_eq. simpl in *.
  destruct Hi. constructor; vs; rewrite ?Hcaps, ?Hnext, ?Hst; try done.
  - intros c0 cap0 [Hne Hc0]%lookup_delete_Some. rewrite lookup_delete_ne by done. by apply pi_caps0.
  - intros c0 [<-|Hc0]%lookup_delete_None; [apply lookup_delete_eq|].
    destruct (decide (c = c0)) as [->|]; [apply lookup_delete_eq|].
    rewrite lookup_delete_ne by done. by apply pi_dom0.
  - intros id. specialize (pi_refs0 id). change (refs (set_rg r' p) id) with (refs p id).
    rewrite countZ_nil in pi_refs0. destruct cap as [x|].
    + rewrite (occ_delete _ c x) in pi_refs0 by done. lia.
    + rewrite delete_id by done. by rewrite countZ_nil.
Qed.

(** Giving a held reference back. *)
Lemma pipe_inv_unref D rest G p l' id s :
  pipe_inv D (id :: rest) G p → segment_map (lg p) !! id = Some s →
  log_view l' = (nv_file (lg p), <[id := unref s]> (segment_map (lg p)), next_offset (lg p)) →
  pipe_inv D rest G (set_lg l' p) ∧
  occ (capsules (rg p)) id + countZ id rest ≤ seg_ref_count (unref s).
Proof.
  intros Hi Hs Hv.
  assert (occ (capsules (rg p)) id + countZ id rest ≤ seg_ref_count (unref s)) as Hcnt.
  { pose proof (pi_refs _ _ _ _ Hi id) as Hr.
    rewrite (refs_lookup _ _ _ Hs), countZ_cons, bool_decide_true in Hr by done. simpl. lia. }
  split; [|done]. pose proof (countZ_nonneg id rest). pose proof (occ_nonneg (capsules (rg p)) id).
  pose proof (proj2 (proj1 (pi_log _ _ _ _ Hi)) _ _ Hs) as Hwf.
  apply (pipe_inv_store D (id :: rest) rest G p l' id s (unref s)); try done.
  - apply seg_wf_set_refs; [done|]. destruct Hwf as (_ & _ & _ & _ & ? & _). simpl in Hcnt. lia.
  - intros j. pose proof (pi_refs _ _ _ _ Hi j) as Hr. rewrite countZ_cons in Hr.
    destruct (decide (j = id)) as [->|Hj]; [done|]. rewrite bool_decide_false in Hr by done. lia.
Qed.

(** One round of the deletion loop releases one held reference. *)
Lemma release_spec D G p id rest :
  pipe_inv D (id :: rest) G p →
  wp (let! segment := nv (decrement_refcount id) in
      if seg_ref_count segment =? 0 then
        (match seg_content_hash segment with
         | Some hash => reg (deregister_content hash id) ;;; ret tt
         | None => ret tt
         end) ;;;
        nv (remove_segment id) ;;; ret tt
      else ret tt)
    (λ _, pipe_inv D rest G) (λ _, pipe_inv D [] G) p.
Proof.
  intros Hi. apply wp_bind, wp_nv.
  destruct (pi_held_lookup D (id :: rest) G p id Hi) as (s & Hs & Hcnt).
  { rewrite countZ_cons, bool_decide_true by done.
    pose proof (countZ_nonneg id rest). pose proof (occ_nonneg (capsules (rg p)) id). lia. }
  pose proof (decrement_effect id (lg p)) as Hd. unfold wp at 1.
  destruct (decrement_refcount id (lg p)) as [[s'|e| ] l']; [| |done].
  2:{ destruct Hd as [Hv|(s0 & Hs0 & _ & Hv)].
      - eapply (pipe_inv_drop D (id :: rest)). by apply pipe_inv_log_view.
      - assert (s0 = s) as -> by congruence. eapply (pipe_inv_drop D rest). by eapply pipe_inv_unref. }
  destruct Hd as (s0 & Hs0 & _ & -> & Hv). assert (s0 = s) as -> by congruence.
  destruct (pipe_inv_unref D rest G p l' id s Hi Hs Hv) as [Hi' Hcnt']. clear Hcnt.
  pose proof Hv as [= Hf Hm Hn].
  set (q := set_lg l' p) in *. fold (set_lg l' p) in *.
  destruct (Z.eqb_spec (seg_ref_count (unref s)) 0) as [Hz|Hz]; [|by unfold wp, ret].
  assert (segment_map (lg q) !! id = Some (unref s)) as Hsq.
  { subst q. vs. by rewrite Hm, lookup_insert_eq. }
  assert (occ (capsules (rg q)) id + countZ id rest ≤ 0) as Hz'.
  { subst q. vs. lia. }
  assert (∀ q', pipe_inv D rest G q' → occ (capsules (rg q')) id + countZ id rest ≤ 0 →
     (∀ h, content_store (rg q') !! h ≠ Some id) →
     wp (nv (remove_segment id) ;;; ret tt) (λ _, pipe_inv D rest G) (λ _, pipe_inv D [] G) q') as Hrm.
  { intros q' Hq' Hzq Hst. apply wp_bind, wp_nv. eapply wp_mono; [by apply remove_spec|..].
    - by intros o l'' (_ & Hq'' & _).
    - intros e l'' Hq''. exact (pipe_inv_drop _ _ _ _ Hq''). }
  apply wp_bind. destruct (seg_content_hash (unref s)) as [h|] eqn:Hh.
  - apply wp_bind, wp_reg. eapply wp_mono; [by eapply dereg_spec|..].
    + intros b r' (Hq' & Hcaps & Hst). unfold wp at 1, ret. apply Hrm; [done| |done].
      vs. by rewrite Hcaps.
    + intros e r' Hq'. exact (pipe_inv_drop _ _ _ _ Hq').
  - unfold wp at 1, ret. apply Hrm; [done|done|]. by eapply no_hash_unstored.
Qed.

Lemma delete_capsule_spec D G p c :
  pipe_inv D [] G p →
  wp (WritePipeline.delete_capsule c)
    (λ _, pipe_inv D [] (delete c G)) (λ _, pipe_inv D [] (delete c G)) p.
Proof.
  intros Hi. unfold WritePipeline.delete_capsule. apply wp_bind, wp_reg.
  pose proof (delete_spec c (rg p)) as Hd. unfold wp at 1.
  destruct (Registry.delete_capsule c (rg p)) as [[cap|e| ] r']; [| |done].
  - destruct Hd as (Hc & _ & Hst).
    pose proof (pipe_inv_delete_capsule D G p r' c _ Hi Hc Hst) as Hi'. cbn in Hi'.
    eapply wp_mono.
    + apply (wp_foldM (λ (_ : unit) rest, pipe_inv D rest (delete c G))
               (λ _, pipe_inv D [] (delete c G))); [|done].
      intros _ id rest q Hq. by apply release_spec.
    + done.
    + done.
  - eapply pipe_inv_drop. by eapply pipe_inv_delete_capsule.
Qed.

(** *** The collector *)
Lemma reclaim_spec D G km s st :
  pipe_inv D [] G (mkWritePipeline st km) →
  segment_map (nvram st) !! seg_id s = Some s → seg_ref_count s = 0 →
  wp (reclaim_segment s)
    (λ _ st', pipe_inv D [] G (mkWritePipeline st' km) ∧
       capsules (registry st') = capsules (registry st) ∧
       segment_map (nvram st') = delete (seg_id s) (segment_map (nvram st)))
    (λ _ st', pipe_inv D [] G (mkWritePipeline st' km)) st.
Proof.
  intros Hi Hs Hz. unfold reclaim_segment.
  set (p := mkWritePipeline st km) in *.
  assert (occ (capsules (rg p)) (seg_id s) + countZ (seg_id s) [] ≤ 0) as Hocc.
  { pose proof (pi_refs _ _ _ _ Hi (seg_id s)) as Hr. rewrite (refs_lookup p _ s) in Hr by done. lia. }
  assert (∀ st', pipe_inv D [] G (mkWritePipeline st' km) → nvram st' = nvram st →
    capsules (registry st') = capsules (registry st) →
    (∀ h, content_store (registry st') !! h ≠ Some (seg_id s)) →
    wp (let! removed := on_nvram (remove_segment (seg_id s)) in
        match removed with
        | None => fail (MsgSegment "vanished during GC" (seg_id s))
        | Some _ => ret tt
        end)
      (λ _ st', pipe_inv D [] G (mkWritePipeline st' km) ∧
         capsules (registry st') = capsules (registry st) ∧
         segment_map (nvram st') = delete (seg_id s) (segment_map (nvram st)))
      (λ _ st', pipe_inv D [] G (mkWritePipeline st' km)) st') as Hrm.
  { intros st' Hi' Hnv Hcaps Hst. apply wp_bind, wp_zoom.
    eapply wp_mono; [apply (remove_spec D [] G (mkWritePipeline st' km)); try done|..].
    - unfold rg. cbn [store registry]. by rewrite Hcaps.
    - intros o l' (-> & Hi'' & Hm). unfold lg in *. cbn [store nvram] in *.
      rewrite Hnv in *. rewrite Hs. unfold wp, ret. by split_and!.
    - done. }
  apply wp_bind. destruct (seg_content_hash s) as [h|] eqn:Hh.
  - apply wp_bind, wp_zoom. eapply wp_mono; [apply (dereg_spec D [] G p h (seg_id s) s); done|..].
    + intros b r' (Hi' & Hcaps & Hst). unfold wp at 1, ret. by apply Hrm.
    + done.
  - unfold wp at 1, ret. apply Hrm; try done. by apply (no_hash_unstored D [] G p _ s).
Qed.

Context `{HashOrder}.

(** [list_segments]: the records of the map, each under its own id, once. *)
Lemma list_segments_spec D held G p :
  pipe_inv D held G p →
  let l := (hash_iter (segment_map (lg p))).*2 in
  NoDup (seg_id <$> l) ∧ (∀ s, s ∈ l ↔ segment_map (lg p) !! seg_id s = Some s).
Proof.
  intros Hi l. assert (∀ id s, segment_map (lg p) !! id = Some s → seg_id s = id) as Hid.
  { intros id s Hs. by apply (pi_ids _ _ _ _ Hi). }
  assert (seg_id <$> l = (hash_iter (segment_map (lg p))).*1) as ->.
  { subst l. rewrite <- list_fmap_compose. apply list_fmap_ext. intros i [id s] Hi'. simpl.
    apply Hid. apply hash_iter_elem. by eapply list_elem_of_lookup_2. }
  split; [apply hash_iter_NoDup|]. intros s. subst l. rewrite list_elem_of_fmap. split.
  - intros ([id s'] & -> & Hel). apply hash_iter_elem in Hel. simpl. by rewrite (Hid id s').
  - intros Hs. exists (seg_id s, s). split; [done|]. by apply hash_iter_elem.
Qed.

(** The sweep's loop: the segments of [m0] without references that have been visited
    are gone; [rest] is still to be visited. *)
Definition swept (m0 : SegmentMap) (rest : list Segment) (m : SegmentMap) : Prop :=
  ∀ id, m !! id =
    match m0 !! id with
    | Some s => if (seg_ref_count s =? 0) && negb (bool_decide (s ∈ rest)) then None else Some s
    | None => None
    end.

Lemma swept_step m0 s rest m :
  (∀ id s, m0 !! id = Some s → seg_id s = id) → m0 !! seg_id s = Some s →
  seg_id s ∉ seg_id <$> rest → swept m0 (s :: rest) m →
  m !! seg_id s = Some s ∧ swept m0 rest (if seg_ref_count s =? 0 then delete (seg_id s) m else m).
Proof.
  intros Hids Hs Hni Hm. pose proof (Hm (seg_id s)) as Hms. rewrite Hs in Hms.
  rewrite (bool_decide_true (s ∈ s :: rest)), andb_false_r in Hms by (by left). split; [done|].
  assert (s ∉ rest) as Hnin.
  { intros Hr. apply Hni. apply list_elem_of_fmap. by exists s. }
  assert (∀ id s', id ≠ seg_id s → m0 !! id = Some s' →
    bool_decide (s' ∈ s :: rest) = bool_decide (s' ∈ rest)) as Hbd.
  { intros id s' Hne Hs'. apply bool_decide_ext. rewrite elem_of_cons. split; [|by right].
    intros [->|?]; [|done]. by apply Hids in Hs'. }
  intros id. destruct (decide (id = seg_id s)) as [->|Hne].
  - rewrite Hs, (bool_decide_false (s ∈ rest)), andb_true_r by done.
    destruct (seg_ref_count s =? 0); [by rewrite lookup_delete_eq|done].
  - trans (m !! id); [destruct (seg_ref_count s =? 0); [by rewrite lookup_delete_ne|done]|].
    rewrite Hm. destruct (m0 !! id) as [s'|] eqn:Hs'; [|done]. by rewrite (Hbd id s').
Qed.

Lemma sweep_spec D G km st :
  pipe_inv D [] G (mkWritePipeline st km) →
  wp sweep
    (λ _ st', pipe_inv D [] G (mkWritePipeline st' km) ∧
       capsules (registry st') = capsules (registry st) ∧
       swept (segment_map (nvram st)) [] (segment_map (nvram st')))
    (λ _ st', pipe_inv D [] G (mkWritePipeline st' km)) st.
Proof.
  intros Hi. unfold sweep. apply wp_bind, wp_zoom. unfold wp at 1, list_segments, gets.
  destruct (list_segments_spec D [] G _ Hi) as [Hnd Hel]. unfold lg in Hnd, Hel. cbn [store] in *.
  set (l := (hash_iter (segment_map (nvram st))).*2) in *.
  assert (mkStore (registry st) (nvram st) = st) as -> by (by destruct st).
  set (m0 := segment_map (nvram st)) in *.
  assert (∀ id s, m0 !! id = Some s → seg_id s = id) as Hids by (intros id s; apply (pi_ids _ _ _ _ Hi)).
  eapply wp_mono.
  - apply (wp_foldM (λ (_ : Z) rest st', pipe_inv D [] G (mkWritePipeline st' km) ∧
      capsules (registry st') = capsules (registry st) ∧ NoDup (seg_id <$> rest) ∧
      (∀ s, s ∈ rest → m0 !! seg_id s = Some s) ∧ swept m0 rest (segment_map (nvram st')))
      (λ _ st', pipe_inv D [] G (mkWritePipeline st' km))).
    + intros n s rest st' (Hi' & Hcaps & [Hni Hnd']%NoDup_cons & Hin & Hm).
      assert (∀ s', s' ∈ rest → m0 !! seg_id s' = Some s') as Hin' by (intros s' ?; apply Hin; by right).
      destruct (swept_step m0 s rest _ Hids (Hin s ltac:(by left)) Hni Hm) as [Hms Hm'].
      destruct (Z.eqb_spec (seg_ref_count s) 0) as [Hz|Hz].
      * apply wp_bind. eapply wp_mono; [by apply (reclaim_spec D G km)| |done].
        intros [] st'' (Hi'' & Hcaps' & Hm''). unfold wp, ret. rewrite Hm''.
        split_and!; [done|congruence|done..].
      * unfold wp, ret. split_and!; done.
    + split_and!; try done; [intros s; apply Hel|]. intros id.
      destruct (m0 !! id) as [s|] eqn:Hs; [|done].
      rewrite bool_decide_true, andb_false_r; [done|]. apply Hel. by rewrite (Hids id s Hs).
  - intros n st' (Hi' & Hcaps & _ & _ & Hm). by split_and!.
  - done.
Qed.

(** After the sweep exactly the records with a positive count are left. *)
Lemma swept_all m0 m id :
  swept m0 [] m →
  m !! id = match m0 !! id with
            | Some s => if seg_ref_count s =? 0 then None else Some s
            | None => None
            end.
Proof.
  intros ->. destruct (m0 !! id) as [s|]; [|done].
  rewrite bool_decide_false by apply not_elem_of_nil. by rewrite andb_true_r.
Qed.

Lemma garbage_collect_spec D G p :
  pipe_inv D [] G p →
  wp garbage_collect (λ _, pipe_inv D [] G) (λ _, pipe_inv D [] G) p.
Proof.
  intros Hi. apply wp_zoom. assert (p = mkWritePipeline (store p) (key_manager p)) as Hp by (by destruct p).
  rewrite Hp in Hi. eapply wp_mono; [by apply (sweep_spec D G (key_manager p))|..]; naive_solver.
Qed.
End reclaim_lemmas.
