(* ===== verification/PipelineTheorems.v ===== *)
(** The properties of the write pipeline: stored data survives any sequence of
    client calls and I/O failures, reconciliation makes the counts exact, and what
    the pipeline does at the edges (range overflow, short encrypted chunks, dedup
    across policies, raw chunks that look compressed). *)
From S2P Require Import Prelude Errors Common Externals.
From S2P Require Nvram Compression KeyManager Encryption Dedup Registry Gc WritePipeline.
From S2P Require PipelineInvariant.
Import Nvram Compression KeyManager Encryption Registry Gc WritePipeline PipelineInvariant.

(** ** Reconciliation *)
Section reconcile_lemmas.
Context {JR : JsonDoc RegistryState} {JN : JsonDoc SegmentMap} `{Crates} `{HashOrder}.
Implicit Types p : WritePipeline.

(** The count of an id in a table of counts. *)
Definition count_of (counts : gmap SegmentId Z) (id : SegmentId) : Z := default 0 (counts !! id).

Lemma count_ref_of counts x id :
  (x = id → 0 ≤ count_of counts x < U32_MAX) →
  count_of (count_ref counts x) id = count_of counts id + (if bool_decide (x = id) then 1 else 0).
Proof.
  unfold count_of, count_ref. intros Hx. case_bool_decide as Hc.
  - subst id. specialize (Hx eq_refl). rewrite lookup_insert_eq. simpl.
    destruct (counts !! x) as [c|]; simpl in *; [|done].
    unfold u32_add, wrap, U32_MAX in *. apply Z.mod_small. lia.
  - rewrite lookup_insert_ne by done. lia.
Qed.

Lemma count_refs_segments segs counts id :
  0 ≤ count_of counts id → count_of counts id + countZ id segs ≤ U32_MAX →
  count_of (foldl count_ref counts segs) id = count_of counts id + countZ id segs.
Proof.
  revert counts. induction segs as [|x segs IH]; intros counts Hpos Hmax; simpl.
  { rewrite countZ_nil. lia. }
  rewrite countZ_cons in Hmax. pose proof (countZ_nonneg id segs).
  assert (count_of (count_ref counts x) id = count_of counts id + (if bool_decide (x = id) then 1 else 0)) as Hx.
  { apply count_ref_of. intros ->. rewrite bool_decide_true in Hmax by done. lia. }
  rewrite countZ_cons, IH; rewrite Hx; destruct (bool_decide (x = id)); lia.
Qed.

(** Counting over the capsules counts the references. *)
Lemma count_refs_spec r id :
  occ (capsules r) id ≤ U32_MAX → count_of (count_refs r) id = occ (capsules r) id.
Proof.
  intros Hmax. unfold count_refs.
  set (f := λ counts capsule_id, _).
  set (total := λ (kvs : list (CapsuleId * Capsule)),
                  sumZ ((λ kc, countZ id (cap_segments kc.2)) <$> kvs)).
  assert (total (hash_iter (capsules r)) = occ (capsules r) id) as Htot.
  { unfold total, occ. by rewrite hash_iter_perm. }
  assert (∀ kvs, 0 ≤ total kvs) as Hnn.
  { intros kvs. unfold total. induction kvs as [|kc kvs IH]; [done|].
    rewrite fmap_cons. unfold sumZ in *. simpl. pose proof (countZ_nonneg id (cap_segments kc.2)). lia. }
  assert (∀ kvs counts, (∀ c cap, (c, cap) ∈ kvs → capsules r !! c = Some cap) →
    0 ≤ count_of counts id → count_of counts id + total kvs ≤ U32_MAX →
    count_of (foldl f counts kvs.*1) id = count_of counts id + total kvs) as Hgen.
  { intros kvs. induction kvs as [|[c cap] kvs IH]; intros counts Hin Hpos Hm.
    { simpl. change (total []) with 0. lia. }
    assert (total ((c, cap) :: kvs) = countZ id (cap_segments cap) + total kvs) as Ht by done.
    cbn [fmap list_fmap foldl fst]. unfold f at 2. rewrite (Hin c cap) by (by left).
    pose proof (countZ_nonneg id (cap_segments cap)). specialize (Hnn kvs).
    assert (count_of (foldl count_ref counts (cap_segments cap)) id
            = count_of counts id + countZ id (cap_segments cap)) as Hc by (apply count_refs_segments; lia).
    rewrite IH; rewrite ?Hc, ?Ht; try lia. intros c' cap' ?. apply Hin. by right. }
  rewrite Hgen.
  - by rewrite Htot.
  - intros c cap. apply hash_iter_elem.
  - done.
  - by rewrite Htot.
Qed.

Lemma refs_u32 D held G p id : pipe_inv D held G p → 0 ≤ refs p id ≤ U32_MAX.
Proof.
  intros Hi. unfold refs. destruct (segment_map (lg p) !! id) as [s|] eqn:Hs; [|done].
  pose proof (proj2 (proj1 (pi_log _ _ _ _ Hi)) _ _ Hs) as (_ & _ & _ & _ & ? & _). done.
Qed.

Lemma occ_u32 D G p id : pipe_inv D [] G p → 0 ≤ occ (capsules (rg p)) id ≤ U32_MAX.
Proof.
  intros Hi. pose proof (pi_refs _ _ _ _ Hi id) as Hr. rewrite countZ_nil in Hr.
  pose proof (refs_u32 _ _ _ _ id Hi). pose proof (occ_nonneg (capsules (rg p)) id). lia.
Qed.

(** Every record counts exactly the references to it, and each is referenced. *)
Definition refs_exact p : Prop :=
  ∀ id, refs p id = occ (capsules (rg p)) id ∧
    (is_Some (segment_map (lg p) !! id) ↔ 0 < occ (capsules (rg p)) id).

Lemma set_count_spec D G p s n :
  pipe_inv D [] G p → segment_map (lg p) !! seg_id s = Some s →
  n = occ (capsules (rg p)) (seg_id s) →
  wp (nv (update_segment_metadata (seg_id s) (set_refs n (seg_access_count s) s)))
    (λ _ p', pipe_inv D [] G p' ∧ rg p' = rg p ∧
       segment_map (lg p') =
         <[seg_id s := set_refs n (seg_access_count s) s]> (segment_map (lg p)))
    (λ _, pipe_inv D [] G) p.
Proof.
  intros Hi Hs ->. apply wp_nv. set (s' := set_refs _ _ s).
  pose proof (update_effect (seg_id s) s' (lg p)) as Hu.
  assert (∀ l', log_view l' = (nv_file (lg p), <[seg_id s := s']> (segment_map (lg p)), next_offset (lg p)) →
    pipe_inv D [] G (set_lg l' p)) as Hi'.
  { intros l' Hv. apply (pipe_inv_store D [] [] G p l' (seg_id s) s s'); try done.
    - apply seg_wf_set_refs; [|by eapply occ_u32].
      apply (proj2 (proj1 (pi_log _ _ _ _ Hi)) _ _ Hs).
    - intros j. rewrite countZ_nil. destruct (decide (j = seg_id s)) as [->|]; [simpl; lia|].
      pose proof (pi_refs _ _ _ _ Hi j) as Hr. rewrite countZ_nil in Hr. lia. }
  unfold wp. destruct (update_segment_metadata _ _ _) as [[u|e| ] l']; [|by apply Hi'|done].
  split; [by apply Hi'|]. split; [done|]. vs. by injection Hu as _ ? _.
Qed.

(** The recount's loop from [p]: every record not in [rest] counts its references. *)
Definition recounting D G p (rest : list Segment) q : Prop :=
  pipe_inv D [] G q ∧ rg q = rg p ∧ NoDup (seg_id <$> rest) ∧
  (∀ s, s ∈ rest → segment_map (lg q) !! seg_id s = Some s) ∧
  ∀ id s, segment_map (lg q) !! id = Some s →
    id ∈ seg_id <$> rest ∨ seg_ref_count s = occ (capsules (rg p)) id.

Lemma recount_step D G p s rest q :
  recounting D G p (s :: rest) q →
  let n := occ (capsules (rg p)) (seg_id s) in
  wp (if negb (seg_ref_count s =? n)
      then nv (update_segment_metadata (seg_id s) (set_refs n (seg_access_count s) s)) else ret tt)
    (λ _, recounting D G p rest) (λ _, pipe_inv D [] G) q.
Proof.
  intros (Hq & Hrg & [Hni Hnd]%NoDup_cons & Hin & Hdone) n. pose proof (Hin s ltac:(by left)) as Hs.
  destruct (Z.eqb_spec (seg_ref_count s) n) as [Heq|Hne]; cbn [negb].
  - unfold wp, ret. split_and!; try done.
    + intros s' ?. apply Hin. by right.
    + intros id s' Hs'. destruct (Hdone id s' Hs') as [Hr|?]; [|by right].
      rewrite fmap_cons in Hr. apply elem_of_cons in Hr as [->|?]; [|by left].
      right. rewrite Hs in Hs'. injection Hs' as <-. exact Heq.
  - eapply wp_mono; [apply (set_count_spec D G q s); [done|done|by rewrite Hrg]| |done].
    intros [] q' (Hq' & Hrg' & Hm'). split_and!; [done|congruence|done|..].
    + intros s' Hs'. rewrite Hm', lookup_insert_ne; [apply Hin; by right|].
      intros Heq. apply Hni. apply list_elem_of_fmap. by exists s'.
    + intros id s'. rewrite Hm'. intros [[<- <-]|[Hid Hs']]%lookup_insert_Some; [by right|].
      destruct (Hdone id s' Hs') as [Hr|?]; [|by right].
      rewrite fmap_cons in Hr. apply elem_of_cons in Hr as [->|?]; [done|by left].
Qed.

(** Once every record counts its references, sweeping makes the counts exact. *)
Lemma exact_after_sweep D G p q q' :
  recounting D G p [] q → capsules (rg q') = capsules (rg q) →
  swept (segment_map (lg q)) [] (segment_map (lg q')) → refs_exact q'.
Proof.
  intros (Hq & Hrg & _ & _ & Hdone) Hcaps Hsw id. unfold refs. rewrite Hcaps, Hrg.
  rewrite (swept_all _ _ id Hsw). pose proof (occ_nonneg (capsules (rg p)) id).
  destruct (segment_map (lg q) !! id) as [s|] eqn:Hs.
  - destruct (Hdone id s Hs) as [Hnil|Hr]; [by apply elem_of_nil in Hnil|].
    destruct (Z.eqb_spec (seg_ref_count s) 0).
    + split; [lia|]. split; [by intros [? ?]|lia].
    + split; [done|]. split; [lia|by eexists].
  - pose proof (pi_refs _ _ _ _ Hq id) as Hr. rewrite countZ_nil in Hr. unfold refs in Hr.
    rewrite Hs, Hrg in Hr. split; [lia|]. split; [by intros [? ?]|lia].
Qed.

Lemma reconcile_spec D G p :
  pipe_inv D [] G p →
  wp reconcile_refcounts (λ _ p', pipe_inv D [] G p' ∧ refs_exact p') (λ _, pipe_inv D [] G) p.
Proof.
  intros Hi. unfold reconcile_refcounts. apply wp_bind. unfold wp at 1, gets at 1.
  apply wp_bind, wp_nv. unfold wp at 1, list_segments, gets.
  assert (set_lg (lg p) p = p) as -> by (by destruct p as [[? ?] ?]).
  destruct (list_segments_spec D [] G p Hi) as [Hnd Hel].
  set (l := (hash_iter (segment_map (lg p))).*2) in *.
  pose proof (λ id, count_refs_spec (rg p) id (proj2 (occ_u32 D G p id Hi))) as Hcount.
  fold (rg p). set (counts := count_refs (rg p)) in *.
  apply wp_bind. eapply wp_mono.
  - apply (wp_foldM (λ (_ : unit), recounting D G p) (λ _, pipe_inv D [] G)).
    + intros [] s rest q Hq. cbv zeta.
      assert (default 0 (counts !! seg_id s) = occ (capsules (rg p)) (seg_id s)) as -> by apply Hcount.
      by apply recount_step.
    + split_and!; try done; [intros s; apply Hel|]. intros id s Hs. left.
      destruct (pi_ids _ _ _ _ Hi id s Hs) as [Hid _]. apply list_elem_of_fmap. exists s.
      split; [done|]. apply Hel. by rewrite Hid.
  - intros [] q Hq. apply wp_bind, wp_zoom. pose proof (proj1 Hq) as Hq0.
    assert (q = mkWritePipeline (store q) (key_manager q)) as Hqe by (by destruct q).
    rewrite Hqe in Hq0. eapply wp_mono; [by apply (sweep_spec D G (key_manager q))| |done].
    intros n st' (Hq' & Hcaps & Hm). unfold wp, ret. split; [done|].
    by apply (exact_after_sweep D G p q).
  - done.
Qed.
End reconcile_lemmas.

(** ** One client call *)
Section step_lemmas.
Context {JR : JsonDoc RegistryState} {JN : JsonDoc SegmentMap} `{Crates} `{!XtsLaws} `{HashOrder}.
Implicit Types p : WritePipeline.

(** [read_range] leaves the state [read_capsule] leaves, or the state it found. *)
Lemma read_range_state c off len p r p' :
  read_range c off len p = (r, p') → p' = p ∨ ∃ r', read_capsule c p = (r', p').
Proof.
  unfold read_range. intros Hr. unfold reg, on_store, on_registry, zoom, lookup in Hr.
  cbv [bind gets lift fail] in Hr.
  destruct (capsules (registry (store p)) !! c) as [cap|] eqn:Hc; cbn [ok_or] in Hr.
  2:{ left. simplify_eq. by destruct p as [[? ?] ?]. }
  assert (mkWritePipeline (mkStore (registry (store p)) (nvram (store p))) (key_manager p) = p)
    as Hp by (by destruct p as [[? ?] ?]). rewrite Hp in Hr.
  destruct (cap_size cap <? u64_add off len); [left; by simplify_eq|]. right.
  destruct (read_capsule c p) as [[d|e| ] q]; simplify_eq; by eexists.
Qed.

Lemma pipe_inv_after_read D G p c r p' :
  pipe_inv D [] G p → read_capsule c p = (r, p') → pipe_inv D [] G p'.
Proof.
  intros Hi Hr. destruct (G !! c) as [data|] eqn:HG.
  - pose proof (wp_run _ _ _ _ _ _ (read_spec D [] G p c data Hi HG) Hr) as Hw.
    destruct r; [apply Hw|apply Hw|done].
  - pose proof (wp_run _ _ _ _ _ _ (read_none D [] G p c Hi HG) Hr) as Hw.
    destruct r; [done|by subst|done].
Qed.

(** Every call keeps the invariant, and the data of the kept capsule if it had any. *)
Lemma client_step_sound D keep G p p' :
  hash_injective_on D → pipe_inv D [] G p → client_step D keep p p' →
  ∃ G', pipe_inv D [] G' p' ∧ ∀ data, G !! keep = Some data → G' !! keep = Some data.
Proof.
  intros Hinj Hi Hstep. destruct Hstep as
    [id now d policy p r p' Hf Hok Hw|id p r p' Hr|id off len p r p' Hr|id p r p' Hne Hd
    |p r p' Hgc|p r p' Hrec|p m m' Hm Hkm].
  - pose proof (wp_run _ _ _ _ _ _ (write_spec D G id now d policy p Hinj Hok Hf Hi) Hw) as Hs.
    assert (G !! id = None → ∀ data, G !! keep = Some data → <[id := d]> G !! keep = Some data) as Hk.
    { intros Hn data HG. rewrite lookup_insert_ne; [done|]. intros ->. congruence. }
    destruct r as [c'|e| ]; [|destruct Hs as [Hs|[? Hs]]|done].
    + destruct Hs as (_ & ? & ?). eauto.
    + eauto.
    + eauto.
  - exists G. split; [|done]. by eapply pipe_inv_after_read.
  - exists G. split; [|done]. apply read_range_state in Hr as [->|[r' Hr]]; [done|].
    by eapply pipe_inv_after_read.
  - exists (delete id G). pose proof (wp_run _ _ _ _ _ _ (delete_capsule_spec D G p id Hi) Hd) as Hs.
    split; [by destruct r|]. intros data HG. by rewrite lookup_delete_ne.
  - exists G. pose proof (wp_run _ _ _ _ _ _ (garbage_collect_spec D G p Hi) Hgc) as Hs.
    split; [by destruct r|done].
  - exists G. pose proof (wp_run _ _ _ _ _ _ (reconcile_spec D G p Hi) Hrec) as Hs.
    split; [by destruct r as [| | ]; [apply Hs|apply Hs|]|done].
  - exists G. split; [|done].
    destruct (km_step_coherent m m' Hkm (pi_key _ _ _ _ Hi m Hm)) as (Hco & Hmk & Hs).
    by apply (pipe_inv_km D [] G p m m').
Qed.

Lemma client_step_inv D keep G p p' data :
  hash_injective_on D → pipe_inv D [] G p → G !! keep = Some data →
  client_step D keep p p' → ∃ G', pipe_inv D [] G' p' ∧ G' !! keep = Some data.
Proof.
  intros Hinj Hi HG Hstep.
  destruct (client_step_sound D keep G p p' Hinj Hi Hstep) as (G' & ? & ?). by eauto.
Qed.

(** The calls of a client that keeps no capsule in particular. *)
Definition any_step (D : bytes → Prop) p p' : Prop := ∃ keep, client_step D keep p p'.

Lemma any_steps_ok D p p' :
  hash_injective_on D → pipe_ok D p → rtc (any_step D) p p' → pipe_ok D p'.
Proof.
  intros Hinj Hok Hs. induction Hs as [p|p p1 p2 [keep Hstep] _ IH]; [done|].
  apply IH. destruct Hok as [G Hi].
  destruct (client_step_sound D keep G p p1 Hinj Hi Hstep) as (G' & ? & _). by exists G'.
Qed.

Lemma client_steps_inv D keep G p p' data :
  hash_injective_on D → pipe_inv D [] G p → G !! keep = Some data →
  rtc (client_step D keep) p p' → ∃ G', pipe_inv D [] G' p' ∧ G' !! keep = Some data.
Proof.
  intros Hinj Hi HG Hs. revert G Hi HG. induction Hs as [p|p p1 p2 Hstep _ IH]; intros G Hi HG.
  - by exists G.
  - destruct (client_step_inv D keep G p p1 data Hinj Hi HG Hstep) as (G1 & ? & ?). by eapply IH.
Qed.

(** A pipeline over an empty registry and log. *)
Lemma empty_pipeline_inv D rd nd rf nf km :
  (∀ m, km = Some m → cache_coherent m) →
  pipe_inv D [] ∅ (mkWritePipeline
    (mkStore (mkCapsuleRegistry ∅ 0 ∅ rd rf) (mkNvramLog [] ∅ 0 nd nf)) km).
Proof.
  intros Hk. constructor; try done.
Qed.
End step_lemmas.

(** ** Properties *)
Section pipeline_properties.
Context {JR : JsonDoc RegistryState} {JN : JsonDoc SegmentMap} `{Crates} `{!XtsLaws} `{HashOrder}.
Implicit Types p : WritePipeline.

(** A capsule, once written, survives.  After a successful write, any sequence of
    writes, reads, deletions of other capsules, garbage collections, reconciliations
    and key rotations, each of which may fail at any I/O call, leaves the capsule
    readable: a read returns exactly the written bytes, or an error, and an error
    only if one of its own log reads fails.  Assumed: the hash does not collide on
    the compressed chunks, no raw-stored chunk is itself a frame of the policy's
    codec, and the machine integers have room. *)
Theorem written_capsule_survives D p keep now data policy p1 p2 :
  hash_injective_on D → pipe_ok D p → fits data p → chunks_ok D (compression policy) data →
  write_capsule_with_policy keep now data policy p = (Ok keep, p1) →
  rtc (client_step D keep) p1 p2 →
  match read_capsule keep p2 with
  | (Ok out, _) => out = data
  | (Err _, _) => nv_faults (lg p2) ≠ []
  | (Panic, _) => False
  end.
Proof.
  intros Hinj [G Hi] Hf Hok Hw Hs.
  pose proof (wp_run _ _ _ _ _ _ (write_spec D G keep now data policy p Hinj Hok Hf Hi) Hw) as (_ & _ & Hi1).
  destruct (client_steps_inv D keep _ p1 p2 data Hinj Hi1 ltac:(by rewrite lookup_insert_eq) Hs)
    as (G2 & Hi2 & HG2).
  pose proof (read_spec D [] G2 p2 keep data Hi2 HG2) as Hr. unfold wp in Hr.
  destruct (read_capsule keep p2) as [[out|e| ] q]; tauto.
Qed.

(** C9: reconciliation at start-up repairs the counts.  Whatever counts earlier
    failures left behind, when it succeeds every segment's reference count is the
    number of its occurrences in live capsules, the unreferenced segments are gone,
    and no capsule loses its data; when it fails the pipeline is still sound. *)
Theorem reconcile_makes_exact D G p :
  pipe_inv D [] G p →
  match reconcile_refcounts p with
  | (Ok _, p') => refs_exact p' ∧ pipe_inv D [] G p'
  | (Err _, p') => pipe_inv D [] G p'
  | (Panic, _) => False
  end.
Proof.
  intros Hi. pose proof (reconcile_spec D G p Hi) as Hr. unfold wp in Hr.
  destruct (reconcile_refcounts p) as [[u|e| ] p']; tauto.
Qed.

(** A garbage collection that succeeds removes exactly the segments whose count is
    zero, and no live capsule loses its data, whether or not it succeeds. *)
Theorem collect_removes_unreferenced D G p :
  pipe_inv D [] G p →
  match garbage_collect p with
  | (Ok _, p') => pipe_inv D [] G p' ∧
      ∀ id, segment_map (lg p') !! id =
        match segment_map (lg p) !! id with
        | Some s => if seg_ref_count s =? 0 then None else Some s
        | None => None
        end
  | (Err _, p') => pipe_inv D [] G p'
  | (Panic, _) => False
  end.
Proof.
  intros Hi. assert (p = mkWritePipeline (store p) (key_manager p)) as Hp by (by destruct p).
  pose proof Hi as Hi0. rewrite Hp in Hi0.
  assert (wp garbage_collect
    (λ (_ : Z) p', pipe_inv D [] G p' ∧
      ∀ id, segment_map (lg p') !! id =
        match segment_map (lg p) !! id with
        | Some s => if seg_ref_count s =? 0 then None else Some s
        | None => None
        end)
    (λ _, pipe_inv D [] G) p) as Hw.
  { apply wp_zoom. eapply wp_mono; [by apply (sweep_spec D G (key_manager p))| |done].
    intros n st' (Hi' & _ & Hm). split; [done|]. intros id. by apply swept_all. }
  unfold wp in Hw. by destruct (garbage_collect p) as [[u|e| ] p'].
Qed.

(** C10: deleting a capsule, whatever fails on the way, removes that capsule from the
    live ones and leaves every other capsule's data intact: no segment another
    capsule still references is removed. *)
Theorem delete_keeps_others D G p c :
  pipe_inv D [] G p →
  let '(r, p') := WritePipeline.delete_capsule c p in
  r ≠ Panic ∧ capsules (rg p') !! c = None ∧
  ∀ c' data, c' ≠ c → G !! c' = Some data →
    match read_capsule c' p' with
    | (Ok out, _) => out = data
    | (Err _, _) => nv_faults (lg p') ≠ []
    | (Panic, _) => False
    end.
Proof.
  intros Hi. destruct (WritePipeline.delete_capsule c p) as [r p'] eqn:Hd.
  pose proof (wp_run _ _ _ _ _ _ (delete_capsule_spec D G p c Hi) Hd) as Hs.
  assert (r ≠ Panic ∧ pipe_inv D [] (delete c G) p') as [Hr Hi'] by (by destruct r).
  split; [done|]. split.
  - destruct (capsules (rg p') !! c) as [cap|] eqn:Hc; [|done].
    destruct (pi_caps _ _ _ _ Hi' c cap Hc) as (data & HG & _).
    by rewrite lookup_delete_eq in HG.
  - intros c' data Hne HG.
    assert (delete c G !! c' = Some data) as HG' by (by rewrite lookup_delete_ne).
    pose proof (read_spec D [] _ p' c' data Hi' HG') as Hrd. unfold wp in Hrd.
    destruct (read_capsule c' p') as [[out|e| ] q]; tauto.
Qed.

(** C29: reading a range of a capsule whose data is [data], with no I/O failure: the
    requested bytes when the range lies inside, an error when it does not, and a
    panic when [offset + len] overflows 64 bits to a sum inside the capsule. *)
Theorem read_range_spec D G p c data off len :
  pipe_inv D [] G p → G !! c = Some data → nv_faults (lg p) = [] → lenZ data < 2 ^ 64 →
  0 ≤ off < 2 ^ 64 → 0 ≤ len < 2 ^ 64 →
  fst (read_range c off len p) =
    if lenZ data <? (off + len) `mod` 2 ^ 64 then Err (Msg "Read beyond capsule boundary")
    else if off + len <? 2 ^ 64 then Ok (takeZ len (dropZ off data))
    else Panic.
Proof.
  intros Hi HG Hf Hd Ho Hl. unfold read_range, reg, on_store, on_registry, zoom, lookup.
  cbv [bind gets lift fail].
  destruct (capsules (registry (store p)) !! c) as [cap|] eqn:Hc; cbn [ok_or].
  2:{ by rewrite (pi_dom _ _ _ _ Hi c Hc) in HG. }
  destruct (pi_caps _ _ _ _ Hi c cap Hc) as (data' & HG' & Hsz & _). simplify_eq.
  rewrite Hsz. unfold u64_add, wrap.
  destruct (Z.ltb_spec (lenZ data) ((off + len) `mod` 2 ^ 64)) as [Hlt|Hge]; [done|].
  assert (mkWritePipeline (mkStore (registry (store p)) (nvram (store p))) (key_manager p) = p)
    as -> by (by destruct p as [[? ?] ?]).
  pose proof (read_spec D [] G p c data Hi HG) as Hr. unfold wp in Hr.
  destruct (read_capsule c p) as [[out|e| ] q]; [|by destruct Hr|done].
  destruct Hr as [-> _]. cbn [fst]. unfold slice.
  destruct (Z.ltb_spec (off + len) (2 ^ 64)) as [Hs|Hs].
  - rewrite Z.mod_small in * by lia.
    destruct (Z.leb_spec off (off + len)); [|lia]. destruct (Z.leb_spec (off + len) (lenZ data)); [|lia].
    simpl. by replace (off + len - off) with len by lia.
  - assert ((off + len) `mod` 2 ^ 64 = off + len - 2 ^ 64) as ->.
    { symmetry. apply Z.mod_unique with 1; lia. }
    destruct (Z.leb_spec off (off + len - 2 ^ 64)); [lia|done].
Qed.

(** The bytes saved by deduplication are never recorded: the counter is added to
    the capsule before the capsule exists, so every successful write leaves a new
    capsule whose [deduped_bytes] is zero, however many chunks were shared. *)
Theorem deduped_bytes_never_recorded p c now data policy c' p' :
  write_capsule_with_policy c now data policy p = (Ok c', p') →
  c' = c ∧ ∃ cap, capsules (rg p') !! c = Some cap ∧ cap_deduped_bytes cap = 0 ∧
    cap_size cap = lenZ data ∧ cap_policy cap = policy.
Proof.
  unfold write_capsule_with_policy. cbv [bind gets].
  destruct (foldM _ _ _ p) as [[[[i ids] st]|e| ] q]; [|done..].
  match goal with
  | |- context [(if ?b then ?x else ?y) q] => destruct ((if b then x else y) q) as [[[]|e| ] q1]
  end; [|done..].
  unfold map_err at 1, reg at 1, on_store, on_registry, zoom.
  pose proof (create_spec now c (lenZ data) ids policy (registry (store q1))) as Hcs.
  destruct (create_capsule_with_segments _ _ _ _ _ _) as [[u|e| ] r']; [|done..].
  destruct Hcs as (t & _ & _ & _ & (Hcaps & _)%state_of_eq). cbn. unfold ret.
  intros ?; simplify_eq. split; [done|]. unfold rg. cbn. rewrite Hcaps. simpl.
  rewrite lookup_insert_eq. by eexists.
Qed.

(** Encryption needs sixteen bytes of compressed data.  With a key manager, a
    non-empty input of fewer than sixteen bytes cannot be written under an
    encrypting policy: the write returns the length error and the registry and the
    log are as before. *)
Theorem encrypted_write_too_short `{!HmacLaws} p m c now data policy :
  key_manager p = Some m → cache_coherent m → is_enabled (encryption policy) = true →
  0 < lenZ data < 16 → (∃ x, compress_segment data (compression policy) = Ok x) →
  ∃ n p', write_capsule_with_policy c now data policy p =
    (Err (OfEncryption (InvalidCiphertextLength n)), p') ∧ n < 16 ∧ store p' = store p.
Proof.
  intros Hm Hco Hen Hlen [[view r] Hc]. unfold write_capsule_with_policy. cbv [bind gets].
  rewrite Hen, Hm. rewrite bool_decide_true by (by eexists). cbn [andb].
  assert (chunks SEGMENT_SIZE data = [data]) as ->.
  { destruct data as [|x data]; [by destruct Hlen as [Hl _]; cbv in Hl|]. unfold chunks. cbn [length chunks_fuel].
    rewrite (takeZ_ge SEGMENT_SIZE) by (unfold SEGMENT_SIZE; lia).
    assert (dropZ SEGMENT_SIZE (x :: data) = []) as ->.
    { rewrite dropZ_drop. apply drop_ge. unfold lenZ, SEGMENT_SIZE in *. lia. }
    by destruct (length data). }
  cbn [foldM]. cbv [bind]. unfold write_chunk at 1. cbv [bind lift]. rewrite Hc. cbn [res_map_err].
  assert (lenZ (as_ref view) < 16) as Hv.
  { apply adaptive_compress_cases in Hc as (_ & _ & [(-> & _)|(out & -> & _ & _ & Hl & _)]); simpl; lia. }
  unfold encrypt_chunk, on_km. cbv [bind gets ret lift]. rewrite Hm.
  pose proof (get_key_eq m (current_version m) Hco) as Hg.
  destruct (get_key (current_version m) m) as [k m']. destruct Hg as (-> & _).
  destruct (derive_key_ok m (current_version m)) as [kp ->]. cbn [res_map_err].
  unfold encrypt_segment. rewrite encrypt_cases. destruct (Z.ltb_spec (lenZ (as_ref view)) 16); [|lia].
  cbn [res_bind res_map_err]. by eexists _, _.
Qed.

(** A dedup hit ignores the encryption policy.  When the content store names a
    plaintext segment, storing the same chunk for an encrypted capsule returns that
    segment: the freshly sealed bytes are dropped, the data file is unchanged and
    the shared segment stays unencrypted. *)
Theorem dedup_hit_ignores_encryption p policy h sealed_data cr meta st id s :
  dedupe policy = true → content_store (rg p) !! h = Some id →
  segment_map (lg p) !! id = Some s → seg_encrypted s = false → nv_faults (lg p) = [] →
  ∃ st' p', place_segment policy h sealed_data cr (Some meta) st p = (Ok (id, st'), p') ∧
    nv_file (lg p') = nv_file (lg p) ∧ rg p' = rg p ∧
    ∃ s', segment_map (lg p') !! id = Some s' ∧ seg_encrypted s' = false ∧
      seg_ref_count s' = u32_saturating_add (seg_ref_count s) 1.
Proof.
  intros Hd Hst Hs He Hf. unfold place_segment. rewrite Hd.
  unfold reg, on_store, on_registry, zoom, lookup_content. cbv [bind gets].
  fold (rg p). rewrite Hst. unfold map_err, nv, on_store, on_nvram, zoom. cbn [store nvram].
  fold (lg p). rewrite (increment_refcount_ok _ id s) by done. cbn [res_map_err].
  eexists _, _. split; [reflexivity|]. split; [done|]. split; [done|].
  unfold lg. cbn [store nvram segment_map]. rewrite lookup_insert_eq. by eexists.
Qed.

(** Reading trusts the codec, not the segment.  A segment recorded as stored raw
    is still decompressed when its bytes happen to be a frame of the policy's
    codec: the read returns the decoded bytes in place of the stored ones. *)
Theorem raw_segment_is_decoded D held G p level id s d h out :
  pipe_inv D held G p → nv_faults (lg p) = [] →
  segment_map (lg p) !! id = Some s → seg_compressed s = false →
  content p id = Some (d, h) → decompress_lz4 d = Ok out →
  fst (read_segment (LZ4 level) id p) = Ok out.
Proof.
  intros Hi Hf Hs _ Hc Ho.
  assert (seg_reads p (LZ4 level) id out) as Hr.
  { exists d, h. split; [done|]. simpl. by rewrite Ho. }
  pose proof (read_segment_run p (LZ4 level) id out (pi_key _ _ _ _ Hi) Hr) as Hw. unfold wp in Hw.
  destruct (read_segment (LZ4 level) id p) as [[o|e| ] q]; [|tauto|done].
  simpl. by destruct Hw as [-> _].
Qed.
End pipeline_properties.

(** ** Witnesses: the model run on the toy crates *)
Section pipeline_witnesses.
#[local] Existing Instance toy_crates.
#[local] Existing Instance toy_XtsLaws.
#[local] Existing Instance toy_HmacLaws.
#[local] Existing Instance listed_order.
#[local] Existing Instance toy_state_doc.
#[local] Instance toy_map_doc : JsonDoc SegmentMap := plain_doc SegmentMap.

Definition empty_pipeline (km : option KeyManager) (lf : faults) : WritePipeline :=
  mkWritePipeline (mkStore (mkCapsuleRegistry ∅ 0 ∅ None []) (mkNvramLog [] ∅ 0 None lf)) km.

Definition cap_a : CapsuleId := mkCapsuleId (replicate 16 x0a).
Definition cap_b : CapsuleId := mkCapsuleId (replicate 16 x0b).
Definition text : bytes := run_of 40 x61.
Definition frame : bytes := [x04; x28; x61].
Definition only_frame (d : bytes) : Prop := d = frame.

Lemma only_frame_injective : hash_injective_on only_frame.
Proof. by intros a b -> ->. Qed.

Lemma text_chunks_ok : chunks_ok only_frame (LZ4 1) text.
Proof.
  intros chunk Hc view r Hcomp.
  assert (chunks SEGMENT_SIZE text = [text]) as Ht by (vm_compute; reflexivity).
  rewrite Ht in Hc. apply list_elem_of_singleton in Hc as ->.
  assert (compress_segment text (LZ4 1) =
    Ok (Owned frame, mkCompressionResult 40 40 true false "lz4:1" None)) as He
    by (vm_compute; reflexivity).
  rewrite He in Hcomp. simplify_eq. by split.
Qed.

Definition toy_km : KeyManager := KeyManager_new (replicate 32 x11).

(** One capsule written, and the same data written again while the second I/O call of
    the log fails, then garbage collected. *)
Definition run1 := write_capsule_with_policy cap_a (Some 1) text Policy_default
                     (empty_pipeline None []).
Definition run2 := write_capsule_with_policy cap_b (Some 2) text Policy_default (snd run1).
Definition run3 := WritePipeline.delete_capsule cap_b (snd run2).
Definition run4 := garbage_collect (snd run3).

Lemma empty_ok km lf :
  (∀ m, km = Some m → cache_coherent m) → pipe_inv only_frame [] ∅ (empty_pipeline km lf).
Proof. apply (empty_pipeline_inv only_frame None None [] lf). Qed.

Lemma text_fits km lf : fits text (empty_pipeline km lf).
Proof. split; [by vm_compute|]. split; [by vm_compute|]. intros id. by vm_compute. Qed.

Lemma fits_by (data : bytes) p :
  next_offset (lg p) + lenZ data < 2 ^ 64 →
  next_segment_id (rg p) + lenZ (chunks SEGMENT_SIZE data) < 2 ^ 64 →
  lenZ (chunks SEGMENT_SIZE data) ≤ 1000 →
  bool_decide (map_Forall (λ _ s, seg_ref_count s ≤ 1000) (segment_map (lg p))) = true →
  fits data p.
Proof.
  intros Ho Hn Hk Hr%bool_decide_eq_true. split; [done|]. split; [done|]. intros id.
  unfold refs, U32_MAX. destruct (segment_map (lg p) !! id) as [s|] eqn:Hs; [|lia].
  specialize (Hr id s Hs). simpl in Hr. lia.
Qed.

Lemma written_capsule_survives_witness :
  fst run1 = Ok cap_a ∧ fst run2 = Ok cap_b ∧ fst run3 = Ok tt ∧ fst run4 = Ok 0 ∧
  match read_capsule cap_a (snd run4) with
  | (Ok out, _) => out = text
  | (Err _, _) => nv_faults (lg (snd run4)) ≠ []
  | (Panic, _) => False
  end.
Proof.
  split; [vm_compute; reflexivity|]. split; [vm_compute; reflexivity|].
  split; [vm_compute; reflexivity|]. split; [vm_compute; reflexivity|].
  assert (run1 = (Ok cap_a, snd run1)) as Hw by (vm_compute; reflexivity).
  refine (written_capsule_survives only_frame (empty_pipeline None []) cap_a (Some 1) text
    Policy_default (snd run1) (snd run4) only_frame_injective _ (text_fits _ _) text_chunks_ok Hw _).
  - exists ∅. by apply empty_ok.
  - apply rtc_l with (snd run2); [|apply rtc_l with (snd run3); [|apply rtc_once]].
    + apply (step_write only_frame cap_a cap_b (Some 2) text Policy_default (snd run1) (fst run2));
        [|exact text_chunks_ok|apply surjective_pairing].
      apply fits_by; vm_compute; congruence.
    + apply (step_delete only_frame cap_a cap_b (snd run2) (fst run3));
        [vm_compute; discriminate|apply surjective_pairing].
    + apply (step_gc only_frame cap_a (snd run3) (fst run4)). apply surjective_pairing.
Defined.

Definition live_a : gmap CapsuleId bytes := <[cap_a := text]> ∅.

(** The state after one write, for the theorems that start from the invariant. *)
Lemma run1_inv : pipe_inv only_frame [] live_a (snd run1).
Proof.
  assert (run1 = (Ok cap_a, snd run1)) as Hw by (vm_compute; reflexivity).
  pose proof (wp_run _ _ _ _ _ _ (write_spec only_frame ∅ cap_a (Some 1) text Policy_default
    (empty_pipeline None []) only_frame_injective text_chunks_ok (text_fits _ _)
    (empty_ok None [] ltac:(done))) Hw) as (_ & _ & Hi). exact Hi.
Qed.

Lemma reconcile_makes_exact_witness :
  fst (reconcile_refcounts (snd run1)) = Ok tt ∧
  match reconcile_refcounts (snd run1) with
  | (Ok _, p') => refs_exact p' ∧ pipe_inv only_frame [] live_a p'
  | (Err _, p') => pipe_inv only_frame [] live_a p'
  | (Panic, _) => False
  end.
Proof.
  split; [vm_compute; reflexivity|].
  pose proof (reconcile_makes_exact only_frame live_a (snd run1) run1_inv) as Hx.
  exact Hx.
Defined.

Lemma collect_removes_unreferenced_witness :
  match garbage_collect (snd run1) with
  | (Ok _, p') => pipe_inv only_frame [] live_a p' ∧
      ∀ id, segment_map (lg p') !! id =
        match segment_map (lg (snd run1)) !! id with
        | Some s => if seg_ref_count s =? 0 then None else Some s
        | None => None
        end
  | (Err _, p') => pipe_inv only_frame [] live_a p'
  | (Panic, _) => False
  end.
Proof.
  pose proof (collect_removes_unreferenced only_frame live_a (snd run1) run1_inv) as Hx. exact Hx.
Defined.

Lemma delete_keeps_others_witness :
  let '(r, p') := WritePipeline.delete_capsule cap_b (snd run1) in
  r ≠ Panic ∧ capsules (rg p') !! cap_b = None ∧
  ∀ c' data, c' ≠ cap_b → live_a !! c' = Some data →
    match read_capsule c' p' with
    | (Ok out, _) => out = data
    | (Err _, _) => nv_faults (lg p') ≠ []
    | (Panic, _) => False
    end.
Proof.
  pose proof (delete_keeps_others only_frame live_a (snd run1) cap_b run1_inv) as Hx. exact Hx.
Defined.

(** A range inside, and one whose end overflows. *)
Lemma read_range_spec_witness :
  fst (read_range cap_a 3 5 (snd run1)) = Ok (replicate 5 x61) ∧
  fst (read_range cap_a (2 ^ 64 - 1) 6 (snd run1)) = Panic.
Proof.
  assert (live_a !! cap_a = Some text) as HG by (vm_compute; reflexivity).
  assert (nv_faults (lg (snd run1)) = []) as Hf by (vm_compute; reflexivity).
  assert (lenZ text < 2 ^ 64) as Hl by (by vm_compute).
  split.
  - rewrite (read_range_spec only_frame live_a (snd run1) cap_a text 3 5 run1_inv HG Hf Hl
      ltac:(lia) ltac:(lia)). vm_compute; reflexivity.
  - rewrite (read_range_spec only_frame live_a (snd run1) cap_a text (2 ^ 64 - 1) 6 run1_inv HG Hf Hl
      ltac:(lia) ltac:(lia)). vm_compute; reflexivity.
Defined.

Lemma deduped_bytes_never_recorded_witness :
  bytes_saved (record 3 true DedupStats_new) = 3 ∧
  ∃ cap, capsules (rg (snd run2)) !! cap_b = Some cap ∧ cap_deduped_bytes cap = 0.
Proof.
  split; [reflexivity|].
  assert (run2 = (Ok cap_b, snd run2)) as Hw by (vm_compute; reflexivity).
  destruct (deduped_bytes_never_recorded (snd run1) cap_b (Some 2) text Policy_default cap_b
    (snd run2) Hw) as (_ & cap & Hc & Hd & _). exists cap. exact (conj Hc Hd).
Defined.

Lemma encrypted_write_too_short_witness :
  ∃ n p', write_capsule_with_policy cap_a (Some 1) [x61; x62] encrypted
      (empty_pipeline (Some toy_km) []) =
    (Err (OfEncryption (InvalidCiphertextLength n)), p') ∧ n < 16 ∧
    store p' = store (empty_pipeline (Some toy_km) []).
Proof.
  apply (encrypted_write_too_short (empty_pipeline (Some toy_km) []) toy_km cap_a (Some 1)
    [x61; x62] encrypted eq_refl (KeyManager_new_coherent _) eq_refl).
  - by vm_compute.
  - eexists. vm_compute. reflexivity.
Defined.

Definition shared_segment : Segment :=
  match segment_map (lg (snd run1)) !! mkSegmentId 0 with
  | Some s => s
  | None => fresh_segment (mkSegmentId 0) 0 0
  end.

Lemma dedup_hit_ignores_encryption_witness :
  ∃ st' p', place_segment encrypted (Dedup.hash_content frame) [x00]
      (mkCompressionResult 40 40 true false "lz4:1" None) (Some (new_xts 1 [] 3)) DedupStats_new
      (snd run1) = (Ok (mkSegmentId 0, st'), p') ∧
    nv_file (lg p') = nv_file (lg (snd run1)) ∧ rg p' = rg (snd run1) ∧
    ∃ s', segment_map (lg p') !! mkSegmentId 0 = Some s' ∧ seg_encrypted s' = false ∧
      seg_ref_count s' = 2.
Proof.
  refine (dedup_hit_ignores_encryption (snd run1) encrypted (Dedup.hash_content frame) [x00]
    (mkCompressionResult 40 40 true false "lz4:1" None) (new_xts 1 [] 3) DedupStats_new
    (mkSegmentId 0) shared_segment eq_refl _ _ _ _); vm_compute; reflexivity.
Defined.

(** Raw data that is a frame of the toy codec. *)
Definition looks_framed : bytes := [x05; x61; x62].
Definition only_framed (d : bytes) : Prop := d = looks_framed.

Lemma looks_framed_ok : chunks_ok only_framed CompNone looks_framed.
Proof.
  intros chunk Hc view r Hcomp.
  assert (chunks SEGMENT_SIZE looks_framed = [looks_framed]) as Ht by (vm_compute; reflexivity).
  rewrite Ht in Hc. apply list_elem_of_singleton in Hc as ->.
  vm_compute in Hcomp. injection Hcomp as <- <-. by split.
Qed.

Definition run_raw := write_capsule_with_policy cap_a (Some 1) looks_framed precompressed
                        (empty_pipeline None []).

Lemma run_raw_inv : pipe_inv only_framed [] (<[cap_a := looks_framed]> ∅) (snd run_raw).
Proof.
  assert (run_raw = (Ok cap_a, snd run_raw)) as Hw by (vm_compute; reflexivity).
  assert (fits looks_framed (empty_pipeline None [])) as Hf.
  { split; [by vm_compute|]. split; [by vm_compute|]. intros id. by vm_compute. }
  pose proof (wp_run _ _ _ _ _ _ (write_spec only_framed ∅ cap_a (Some 1) looks_framed precompressed
    (empty_pipeline None []) (λ a b Ha Hb _, eq_trans Ha (eq_sym Hb)) looks_framed_ok Hf
    (empty_pipeline_inv only_framed None None [] [] None ltac:(done))) Hw) as (_ & _ & Hi).
  exact Hi.
Qed.

Definition raw_segment : Segment :=
  match segment_map (lg (snd run_raw)) !! mkSegmentId 0 with
  | Some s => s
  | None => fresh_segment (mkSegmentId 0) 0 0
  end.

Lemma raw_segment_is_decoded_witness :
  fst (read_segment (LZ4 1) (mkSegmentId 0) (snd run_raw)) = Ok [x61; x62] ∧
  segment_bytes (lg (snd run_raw)) (mkSegmentId 0) = Some looks_framed.
Proof.
  split; [|vm_compute; reflexivity].
  apply (raw_segment_is_decoded only_framed [] _ (snd run_raw) 1 (mkSegmentId 0) raw_segment
    looks_framed None [x61; x62] run_raw_inv); vm_compute; reflexivity.
Defined.
End pipeline_witnesses.
