(* ===== verification/PipelineProgress.v ===== *)
(** Progress of the write pipeline: while the file system works, every call whose
    arguments are in order completes.  A pipeline is quiet when neither the registry
    nor the log has a failure scheduled; each lemma shows that a call on a quiet
    pipeline that satisfies the invariant returns a value and leaves the pipeline
    quiet. *)
From S2P Require Import Prelude Errors Common Externals.
From S2P Require Nvram Compression KeyManager Encryption Dedup Registry Gc WritePipeline.
From S2P Require PipelineInvariant PipelineTheorems.
Import Nvram Compression KeyManager Encryption Registry Gc WritePipeline PipelineInvariant.
Import PipelineTheorems.

Section progress.
Context {JR : JsonDoc RegistryState} {JN : JsonDoc SegmentMap} `{Crates}.
Implicit Types p : WritePipeline.

Definition quiet p : Prop := nv_faults (lg p) = [] ∧ reg_faults (rg p) = [].

(** A call completes and keeps the pipeline quiet. *)
Definition completes {A : Type} (m : M WritePipeline Error A) p : Prop :=
  wp m (λ _, quiet) (λ _ _, False) p.

(** The compressor succeeds on every chunk, and with encryption leaves at least the
    sixteen bytes the cipher needs. *)
Definition storable (policy : Policy) (enc : bool) (data : bytes) : Prop :=
  ∀ chunk, chunk ∈ chunks SEGMENT_SIZE data →
  ∃ view r, compress_segment chunk (compression policy) = Ok (view, r) ∧
    (enc = true → 16 ≤ lenZ (as_ref view)).

(** *** The registry and the log *)
Lemma quiet_nv {A : Type} (m : M NvramLog Error A) p :
  quiet p → (∃ a l', m (lg p) = (Ok a, l') ∧ nv_faults l' = []) → completes (nv m) p.
Proof. intros [_ Hr] (a & l' & Hm & Hl). apply wp_nv. unfold wp. by rewrite Hm. Qed.

Lemma quiet_reg {A : Type} (m : M CapsuleRegistry Error A) p :
  quiet p → (∃ a r', m (rg p) = (Ok a, r') ∧ reg_faults r' = []) → completes (reg m) p.
Proof. intros [Hl _] (a & r' & Hm & Hr). apply wp_reg. unfold wp. by rewrite Hm. Qed.

Lemma completes_bind {A B : Type} (m : M WritePipeline Error A) (k : A → M WritePipeline Error B) p :
  completes m p → (∀ a q, quiet q → completes (k a) q) → completes (bind m k) p.
Proof. intros Hm Hk. apply wp_bind. eapply wp_mono; [exact Hm|apply Hk|done]. Qed.

Lemma completes_ret {A : Type} (a : A) p : quiet p → completes (ret a) p.
Proof. done. Qed.

Lemma completes_map_err {A : Type} f (m : M WritePipeline Error A) p :
  completes m p → completes (map_err f m) p.
Proof. intros Hm. apply wp_map_err. exact Hm. Qed.

Lemma append_quiet id data p : quiet p → completes (nv (append id data)) p.
Proof.
  intros Hq. apply quiet_nv; [done|]. rewrite append_ok by apply Hq. by eexists _, _.
Qed.

Lemma update_quiet id s p : quiet p → completes (nv (update_segment_metadata id s)) p.
Proof.
  intros Hq. apply quiet_nv; [done|]. rewrite update_segment_metadata_ok by apply Hq. by eexists _, _.
Qed.

Lemma remove_quiet id p : quiet p → completes (nv (remove_segment id)) p.
Proof.
  intros Hq. apply quiet_nv; [done|]. rewrite remove_segment_ok by apply Hq. eexists _, _.
  split; [reflexivity|]. destruct (segment_map (lg p) !! id); [done|apply Hq].
Qed.

Lemma increment_quiet id p :
  quiet p → is_Some (segment_map (lg p) !! id) → completes (nv (increment_refcount id)) p.
Proof.
  intros Hq [s Hs]. apply quiet_nv; [done|].
  rewrite (increment_refcount_ok _ id s) by (done || apply Hq). by eexists _, _.
Qed.

Lemma alloc_quiet p : quiet p → completes (reg alloc_segment) p.
Proof. intros Hq. apply quiet_reg; [done|]. eexists _, _. split; [reflexivity|apply Hq]. Qed.

Lemma save_quiet (r : CapsuleRegistry) :
  reg_faults r = [] → ∃ r', save r = (Ok tt, r') ∧ reg_faults r' = [].
Proof. intros Hr. rewrite save_ok by done. by eexists. Qed.

Lemma register_quiet h id p : quiet p → completes (reg (register_content h id)) p.
Proof.
  intros Hq. apply quiet_reg; [done|]. unfold register_content. cbv [bind modify].
  destruct (save_quiet (set_content_store (<[h:=id]> (content_store (rg p))) (rg p))) as (r' & -> & ?);
    [apply Hq|]. by eexists _, _.
Qed.

Lemma deregister_quiet h id p : quiet p → completes (reg (deregister_content h id)) p.
Proof.
  intros Hq. apply quiet_reg; [done|]. unfold deregister_content. cbv [bind gets modify ret].
  case_bool_decide; [|eexists _, _; split; [reflexivity|apply Hq]].
  destruct (save_quiet (set_content_store (delete h (content_store (rg p))) (rg p))) as (r' & -> & ?);
    [apply Hq|]. by eexists _, _.
Qed.

Lemma create_quiet t c size ids policy p :
  quiet p → capsules (rg p) !! c = None →
  completes (reg (create_capsule_with_segments (Some t) c size ids policy)) p.
Proof.
  intros Hq Hc. apply quiet_reg; [done|]. unfold create_capsule_with_segments.
  cbv [bind gets lift modify]. rewrite Hc. rewrite bool_decide_false by (by intros [? ?]).
  cbn [ok_or]. edestruct save_quiet as (r' & -> & ?); [|by eexists _, _]. apply Hq.
Qed.
End progress.

#[export] Hint Resolve completes_ret completes_map_err append_quiet update_quiet remove_quiet
  alloc_quiet register_quiet deregister_quiet : space.

(** ** Writing *)
Section write_progress.
Context {JR : JsonDoc RegistryState} {JN : JsonDoc SegmentMap} `{Crates} `{!XtsLaws} `{!HmacLaws}.
Implicit Types p : WritePipeline.

Lemma write_new_quiet data cr hash meta p :
  quiet p → completes (write_new_segment data cr hash meta) p.
Proof.
  intros Hq. unfold write_new_segment. apply completes_bind; [by apply alloc_quiet|].
  intros id q Hq1. apply (completes_bind (map_err _ _)); [by apply completes_map_err, append_quiet|].
  intros s q' Hq'. apply (completes_bind (map_err _ _)); [by apply completes_map_err, update_quiet|].
  intros _ q'' Hq''. by apply completes_ret.
Qed.

Lemma place_quiet D held G policy h final cr meta st p :
  pipe_inv D held G p → quiet p → completes (place_segment policy h final cr meta st) p.
Proof.
  intros Hi Hq. unfold place_segment. destruct (dedupe policy).
  2:{ apply completes_bind; [by apply write_new_quiet|]. intros id q Hq1. by apply completes_ret. }
  unfold completes. apply wp_bind, wp_reg. unfold wp at 1, lookup_content, gets.
  assert (set_rg (rg p) p = p) as -> by (by destruct p as [[? ?] ?]).
  destruct (content_store (rg p) !! h) as [id|] eqn:Hst.
  - apply (completes_bind (map_err _ _)); [|intros s q Hq1; by apply completes_ret].
    apply completes_map_err, increment_quiet; [done|].
    destruct (pi_store _ _ _ _ Hi _ _ Hst) as (d & Hc & _). unfold content in Hc.
    destruct (segment_map (lg p) !! id) as [s|]; [by eexists|done].
  - apply (completes_bind (write_new_segment _ _ _ _)); [by apply write_new_quiet|].
    intros id q Hq1. apply (completes_bind (map_err _ _)).
    + by apply completes_map_err, register_quiet.
    + intros _ q' Hq'. by apply completes_ret.
Qed.

Lemma encrypt_chunk_quiet p m hash d :
  key_manager p = Some m → cache_coherent m → 16 ≤ lenZ d → quiet p →
  completes (encrypt_chunk hash d) p.
Proof.
  intros Hm Hco Hlen Hq. unfold encrypt_chunk, completes. apply wp_bind, (wp_on_km _ _ _ _ m Hm).
  pose proof (get_key_eq m (current_version m) Hco) as Hg. unfold wp at 1. cbv [bind gets ret].
  destruct (get_key (current_version m) m) as [r m']. destruct Hg as (-> & _).
  destruct (derive_key_ok m (current_version m)) as [kp ->]. unfold wp, lift.
  unfold encrypt_segment. rewrite encrypt_cases. rewrite (proj2 (Z.ltb_ge _ _) Hlen).
  cbn [res_bind res_map_err]. rewrite compute_mac_ok. exact Hq.
Qed.

Lemma write_chunk_quiet D held G policy enc acc chunk p :
  pipe_inv D held G p → (enc = true → is_Some (key_manager p)) →
  (∃ view r, compress_segment chunk (compression policy) = Ok (view, r) ∧
    lenZ (as_ref view) < 2 ^ 32 ∧ (enc = true → 16 ≤ lenZ (as_ref view))) →
  quiet p → completes (write_chunk policy enc acc chunk) p.
Proof.
  intros Hi Hkm (view & r & Hc & Hlen & Hl) Hq. destruct acc as [[i ids] st]. unfold write_chunk.
  unfold completes. apply wp_bind. unfold wp at 1, lift. rewrite Hc. cbn [res_map_err].
  assert (∀ h final meta q, pipe_inv D held G q → quiet q →
    completes (bind (place_segment policy h final r meta st)
      (λ '(seg_id, dedup_stats), ret (i + 1, ids ++ [seg_id], dedup_stats))) q) as Hplace.
  { intros h final meta q Hiq Hqq. apply completes_bind; [by eapply place_quiet|].
    intros [id st'] q' Hq'. by apply completes_ret. }
  destruct enc.
  - destruct (Hkm eq_refl) as [m Hm]. pose proof (pi_key _ _ _ _ Hi m Hm) as Hco.
    apply (wp_bind (bind _ _)), wp_bind.
    eapply wp_mono; [apply wp_and; [apply (encrypt_chunk_spec D held G p m); done
                                  |by eapply (encrypt_chunk_quiet p m); eauto]|..].
    + intros [ct md] q ((m' & _ & Hiq & _) & Hqq). unfold wp at 1, ret at 1. by apply Hplace.
    + by intros e q [_ ?].
  - apply (wp_bind (ret _)). unfold wp at 1, ret at 1. by apply Hplace.
Qed.

Lemma chunk_small (data chunk : bytes) :
  chunk ∈ chunks SEGMENT_SIZE data → lenZ chunk < 2 ^ 32.
Proof.
  intros Hin. pose proof (chunks_bound SEGMENT_SIZE data ltac:(done)) as Hf.
  rewrite Forall_forall in Hf. specialize (Hf chunk Hin). unfold SEGMENT_SIZE in Hf. lia.
Qed.

(** The chunk loop completes. *)
Lemma loop_quiet D G policy enc data p :
  hash_injective_on D → chunks_ok D (compression policy) data → fits data p →
  pipe_inv D [] G p → (enc = true → is_Some (key_manager p)) → storable policy enc data →
  quiet p →
  completes (foldM (write_chunk policy enc) (0, [], DedupStats_new) (chunks SEGMENT_SIZE data)) p.
Proof.
  intros Hinj Hok Hfits Hi Hkm Hst Hq. set (cs := chunks SEGMENT_SIZE data). unfold completes.
  eapply wp_mono.
  - apply (wp_foldM (λ acc rest q, (∃ outs, outs ++ rest = cs ∧
      writing D G policy enc acc.1.2 outs (lenZ (concat rest)) (lenZ rest) q) ∧ quiet q)
      (λ _ _, False)).
    + intros [[i ids] st] chunk rest q [(outs & Hcs & Hw) Hqq]. cbn [fst snd] in *.
      assert (chunk ∈ cs) as Hin by (rewrite <- Hcs; apply elem_of_app; right; left).
      pose proof (chunk_small data chunk Hin) as Hsm.
      assert (wp (write_chunk policy enc (i, ids, st) chunk)
        (λ acc p', ∃ id st', acc = (i + 1, ids ++ [id], st') ∧
           writing D G policy enc (ids ++ [id]) (outs ++ [chunk]) (lenZ (concat rest)) (lenZ rest) p')
        (λ _, pipe_inv D [] G) q) as Hwc.
      { apply write_chunk_spec; [done|by apply Hok|done|apply lenZ_nonneg|apply lenZ_nonneg|].
        cbn [concat] in Hw. by rewrite lenZ_app, lenZ_cons in Hw. }
      destruct Hw as (Hiq & _ & _ & Hkq). destruct (Hst chunk Hin) as (view & r & Hc & Hl).
      eapply wp_mono; [apply wp_and; [exact Hwc|eapply (write_chunk_quiet D ids G); try done]|..].
      * exists view, r. split; [done|]. split; [|done].
        destruct (Hok chunk Hin view r Hc) as [_ Hraw].
        pose proof (proj1 (compress_reads _ _ _ _ Hc Hraw)). lia.
      * intros acc q' [(id & st' & -> & Hw') Hq']. split; [|done]. exists (outs ++ [chunk]).
        cbn [fst snd]. split; [by rewrite <- app_assoc|done].
      * by intros e q' [_ ?].
    + split; [|done]. exists []. split; [done|]. split; [done|]. split; [by constructor|].
      split; [|done]. unfold fits in Hfits. subst cs. by rewrite concat_chunks.
  - by intros acc q [_ ?].
  - done.
Qed.

Lemma write_quiet D G c t data policy p :
  hash_injective_on D → chunks_ok D (compression policy) data → fits data p →
  pipe_inv D [] G p → G !! c = None →
  storable policy (is_enabled (encryption policy) && bool_decide (is_Some (key_manager p))) data →
  quiet p → completes (write_capsule_with_policy c (Some t) data policy) p.
Proof.
  intros Hinj Hok Hfits Hi Hc Hst Hq. unfold write_capsule_with_policy, completes.
  apply wp_bind. unfold wp at 1, gets at 1. set (enc := _ && _) in *.
  assert (enc = true → is_Some (key_manager p)) as Hkm.
  { intros [_ Hb]%andb_prop. by apply bool_decide_eq_true in Hb. }
  apply wp_bind. eapply wp_mono; [apply wp_and;
    [by apply (loop_spec D G policy enc data p)|by apply (loop_quiet D G policy enc data p)]|..].
  2:{ by intros e q [_ ?]. }
  intros [[i ids] st] q ((Hiq & _) & Hqq). cbn [fst snd] in *.
  assert (wp (if 0 <? bytes_saved st
      then map_err (map_registry_error "add_deduped_bytes")
             (reg (add_deduped_bytes c (bytes_saved st)))
      else ret tt) (λ _ q', pipe_inv D ids G q' ∧ quiet q') (λ _ _, False) q) as Hadd.
  { case_if; [|done]. apply wp_map_err. eapply wp_mono;
      [apply wp_and; [by apply (pipe_inv_add_deduped D ids G q c)|]|..].
    - apply quiet_reg; [done|]. eexists _, _. split; [reflexivity|].
      destruct (capsules (rg q) !! c); apply Hqq.
    - by intros a q' ([? _] & ?).
    - by intros e q' [? _]. }
  apply wp_bind. eapply wp_mono; [exact Hadd| |done]. intros [] q' [Hiq' Hqq'].
  apply (completes_bind (map_err _ _)); [apply completes_map_err, create_quiet; [done|]
                                        |by intros; apply completes_ret].
  destruct (capsules (rg q') !! c) as [cap|] eqn:Hcap; [|done].
  destruct (pi_caps _ _ _ _ Hiq' c cap Hcap) as (data' & HG & _). congruence.
Qed.
End write_progress.

(** ** Reading, deleting, collecting *)
Section reclaim_progress.
Context {JR : JsonDoc RegistryState} {JN : JsonDoc SegmentMap} `{Crates}.
Implicit Types p : WritePipeline.

Lemma quiet_read_only p p' :
  quiet p → read_only p p' → quiet p'.
Proof. intros [Hl Hr] (Hrg & _ & _ & Hf). split; [by apply Hf|by rewrite Hrg]. Qed.

Lemma quiet_read_spec D G p c data :
  pipe_inv D [] G p → G !! c = Some data → quiet p → completes (read_capsule c) p.
Proof.
  intros Hi HG Hq. eapply wp_mono; [by eapply read_spec|..].
  - intros out q (_ & _ & Hro). by eapply quiet_read_only.
  - intros e q [_ Hf]. by apply Hf, Hq.
Qed.

Lemma decrement_quiet id p s :
  quiet p → segment_map (lg p) !! id = Some s → seg_ref_count s ≠ 0 →
  completes (nv (decrement_refcount id)) p.
Proof.
  intros Hq Hs Hr. apply quiet_nv; [done|].
  rewrite (decrement_refcount_ok _ id s) by (done || apply Hq). by eexists _, _.
Qed.

Lemma release_quiet D G p id rest :
  pipe_inv D (id :: rest) G p → quiet p →
  completes (let! segment := nv (decrement_refcount id) in
      if seg_ref_count segment =? 0 then
        (match seg_content_hash segment with
         | Some hash => reg (deregister_content hash id) ;;; ret tt
         | None => ret tt
         end) ;;;
        nv (remove_segment id) ;;; ret tt
      else ret tt) p.
Proof.
  intros Hi Hq. destruct (pi_held_lookup D (id :: rest) G p id Hi) as (s & Hs & Hcnt).
  { rewrite countZ_cons, bool_decide_true by done.
    pose proof (countZ_nonneg id rest). pose proof (occ_nonneg (capsules (rg p)) id). lia. }
  rewrite countZ_cons, bool_decide_true in Hcnt by done.
  pose proof (countZ_nonneg id rest). pose proof (occ_nonneg (capsules (rg p)) id).
  apply completes_bind; [apply (decrement_quiet id p s); [done|done|lia]|].
  intros s' q Hq1. case_if; [|by apply completes_ret].
  apply completes_bind.
  - destruct (seg_content_hash s'); [|by apply completes_ret].
    apply completes_bind; [by apply deregister_quiet|]. intros; by apply completes_ret.
  - intros _ q' Hq'. apply completes_bind; [by apply remove_quiet|]. intros; by apply completes_ret.
Qed.

Lemma delete_quiet D G p c data :
  pipe_inv D [] G p → G !! c = Some data → quiet p →
  completes (WritePipeline.delete_capsule c) p.
Proof.
  intros Hi HG Hq. unfold WritePipeline.delete_capsule, completes. apply wp_bind, wp_reg.
  pose proof (delete_spec c (rg p)) as Hd. unfold wp at 1.
  destruct (capsules (rg p) !! c) as [cap|] eqn:Hc.
  2:{ by rewrite (pi_dom _ _ _ _ Hi c Hc) in HG. }
  assert (∃ r', Registry.delete_capsule c (rg p) = (Ok cap, r') ∧ reg_faults r' = []) as (r' & Hr & Hf).
  { unfold Registry.delete_capsule. cbv [bind gets modify lift ret]. rewrite Hc. cbn [ok_or].
    edestruct save_quiet as (r' & -> & ?); [|by eexists]. apply Hq. }
  rewrite Hr in *. destruct Hd as (_ & _ & Hst).
  pose proof (pipe_inv_delete_capsule D G p r' c _ Hi Hc Hst) as Hi'. cbn in Hi'.
  eapply wp_mono; [apply (wp_foldM (λ (_ : unit) rest q, pipe_inv D rest (delete c G) q ∧ quiet q)
                           (λ _ _, False))|..].
  - intros _ id rest q [Hiq Hqq]. eapply wp_mono;
      [apply wp_and; [by apply (release_spec D (delete c G))|by eapply release_quiet]|done|].
    by intros e q' [_ ?].
  - split; [done|]. split; [apply Hq|done].
  - by intros _ q [_ ?].
  - done.
Qed.

(** *** The collector and the recount *)
Context `{HashOrder}.

Lemma reclaim_quiet s p :
  quiet p → segment_map (lg p) !! seg_id s = Some s →
  wp (on_store (reclaim_segment s))
    (λ _ p', quiet p' ∧ segment_map (lg p') = delete (seg_id s) (segment_map (lg p)))
    (λ _ _, False) p.
Proof.
  intros [Hl Hr] Hs. apply wp_zoom. unfold reclaim_segment.
  assert (∀ st, nvram st = lg p → reg_faults (registry st) = [] →
    wp (let! removed := on_nvram (remove_segment (seg_id s)) in
        match removed with
        | None => fail (MsgSegment "vanished during GC" (seg_id s))
        | Some _ => ret tt
        end)
      (λ (_ : unit) st', (nv_faults (nvram st') = [] ∧ reg_faults (registry st') = []) ∧
         segment_map (nvram st') = delete (seg_id s) (segment_map (lg p)))
      (λ (_ : Error) _, False) st) as Hrm.
  { intros st Hn Hf. apply wp_bind, wp_zoom. unfold wp at 1.
    rewrite remove_segment_ok by congruence. rewrite Hn, Hs. done. }
  apply wp_bind. destruct (seg_content_hash s) as [h|].
  2:{ unfold wp at 1, ret. apply Hrm; done. }
  apply wp_bind, wp_zoom. unfold deregister_content. cbv [bind gets modify ret]. unfold wp at 1.
  case_bool_decide; [|by apply Hrm].
  edestruct save_quiet as (r' & -> & ?); [|by apply Hrm]. apply Hr.
Qed.

Lemma sweep_quiet D G p : pipe_inv D [] G p → quiet p → completes (on_store sweep) p.
Proof.
  intros Hi Hq. destruct (list_segments_spec D [] G p Hi) as [Hnd Hel].
  unfold completes. apply wp_zoom. unfold sweep. apply wp_bind, wp_zoom.
  unfold wp at 1, list_segments, gets. fold (lg p). fold (rg p).
  set (l := (hash_iter (segment_map (lg p))).*2) in *.
  eapply wp_mono.
  - apply (wp_foldM (λ (_ : Z) rest st, quiet (mkWritePipeline st (key_manager p)) ∧
      NoDup (seg_id <$> rest) ∧
      ∀ s, s ∈ rest → segment_map (nvram st) !! seg_id s = Some s) (λ _ _, False)).
    + intros n s rest st (Hqs & [Hni Hnd']%NoDup_cons & Hin).
      assert (∀ s', s' ∈ rest → segment_map (nvram st) !! seg_id s' = Some s') as Hin'
        by (intros s' ?; apply Hin; by right).
      case_if; [|by unfold wp, ret].
      apply wp_bind. pose proof (reclaim_quiet s (mkWritePipeline st (key_manager p)) Hqs
        (Hin s ltac:(by left))) as Hw. unfold on_store, wp, zoom in Hw. cbn [store] in Hw. unfold wp at 1.
      destruct (reclaim_segment s st) as [[u|e| ] st']; [|done..]. destruct Hw as [Hqs' Hm].
      unfold wp, ret. split; [done|]. split; [done|]. intros s' Hs'. unfold lg in Hm.
      cbn [store nvram] in Hm. rewrite Hm, lookup_delete_ne; [by apply Hin'|].
      intros Heq. apply Hni. rewrite Heq. apply list_elem_of_fmap. by exists s'.
    + split; [destruct p as [[? ?] ?]; exact Hq|]. split; [done|]. intros s. apply Hel.
  - by intros n st (? & _).
  - done.
Qed.

Lemma reconcile_quiet D G p : pipe_inv D [] G p → quiet p → completes reconcile_refcounts p.
Proof.
  intros Hi Hq. unfold reconcile_refcounts, completes. apply wp_bind. unfold wp at 1, gets at 1.
  apply wp_bind, wp_nv. unfold wp at 1, list_segments, gets.
  assert (set_lg (lg p) p = p) as -> by (by destruct p as [[? ?] ?]).
  destruct (list_segments_spec D [] G p Hi) as [Hnd Hel].
  set (l := (hash_iter (segment_map (lg p))).*2) in *.
  pose proof (λ id, count_refs_spec (rg p) id (proj2 (occ_u32 D G p id Hi))) as Hcount.
  fold (rg p). set (counts := count_refs (rg p)) in *.
  apply wp_bind. eapply wp_mono.
  - apply (wp_foldM (λ (_ : unit) rest q, recounting D G p rest q ∧ quiet q) (λ _ _, False)).
    + intros [] s rest q [Hr Hqq]. cbv zeta.
      assert (default 0 (counts !! seg_id s) = occ (capsules (rg p)) (seg_id s)) as -> by apply Hcount.
      match goal with |- wp ?m _ _ _ => assert (completes m q) as Hc end.
      { case_if; [by apply update_quiet|by apply completes_ret]. }
      eapply wp_mono; [exact (wp_and _ _ _ _ _ _ (recount_step D G p s rest q Hr) Hc)|done|].
      by intros e q' [_ ?].
    + split; [|done]. split_and!; try done; [intros s; apply Hel|]. intros id s Hs. left.
      destruct (pi_ids _ _ _ _ Hi id s Hs) as [Hid _]. apply list_elem_of_fmap. exists s.
      split; [done|]. apply Hel. by rewrite Hid.
  - intros [] q [(Hiq & _) Hqq]. apply completes_bind; [by eapply sweep_quiet|].
    intros; by apply completes_ret.
  - done.
Qed.
End reclaim_progress.

(** ** The property *)
Section progress_property.
Context {JR : JsonDoc RegistryState} {JN : JsonDoc SegmentMap} `{Crates} `{!XtsLaws} `{!HmacLaws}
  `{HashOrder}.
Implicit Types p : WritePipeline.

(** The calls of a client that a pipeline holding [G] owes an answer. *)
Inductive request : Type :=
| RWrite (c : CapsuleId) (t : Z) (data : bytes) (policy : Policy)
| RRead (c : CapsuleId)
| RDelete (c : CapsuleId)
| RCollect
| RReconcile.

(** The call a request makes, with the bytes it returns. *)
Definition perform (r : request) : M WritePipeline Error bytes :=
  match r with
  | RWrite c t data policy => write_capsule_with_policy c (Some t) data policy ;;; ret []
  | RRead c => read_capsule c
  | RDelete c => WritePipeline.delete_capsule c ;;; ret []
  | RCollect => garbage_collect ;;; ret []
  | RReconcile => reconcile_refcounts ;;; ret []
  end.

(** The bytes it has to return. *)
Definition answer (G : gmap CapsuleId bytes) (r : request) : bytes :=
  match r with
  | RRead c => default [] (G !! c)
  | _ => []
  end.

(** A write of a fresh capsule whose data the machine integers, the compressor and
    the cipher can take; reads and deletions of live capsules. *)
Definition answerable (D : bytes → Prop) (G : gmap CapsuleId bytes) p (r : request) : Prop :=
  match r with
  | RWrite c _ data policy =>
      G !! c = None ∧ chunks_ok D (compression policy) data ∧ fits data p ∧
      storable policy (is_enabled (encryption policy) && bool_decide (is_Some (key_manager p))) data
  | RRead c | RDelete c => is_Some (G !! c)
  | RCollect | RReconcile => True
  end.

(** What the live capsules are afterwards. *)
Definition answered (G : gmap CapsuleId bytes) (r : request) : gmap CapsuleId bytes :=
  match r with
  | RWrite c _ data _ => <[c := data]> G
  | RDelete c => delete c G
  | _ => G
  end.

(** C15: no call starves.  From a sound pipeline a process makes calls one after the other,
    each of which may fail at any I/O call or succeed.  When no further failure is scheduled
    the pipeline is sound for some contents of the live capsules, and for those contents
    every proper request completes - a read with the bytes of its capsule, and writes,
    deletions, collections and the recount with a value - and leaves the pipeline quiet and
    sound for the contents the request asks for, so that the next one completes too.  The
    calls are the synchronous ones and the process is not restarted on the way: an
    asynchronous write that failed and a restart after a failure can leave an entry of
    the content store that fails every write of its chunk. *)
Theorem quiet_requests_complete D p0 p :
  hash_injective_on D → pipe_ok D p0 → rtc (any_step D) p0 p → quiet p →
  (∃ G, pipe_inv D [] G p) ∧
  ∀ G r, pipe_inv D [] G p → answerable D G p r →
    ∃ p', perform r p = (Ok (answer G r), p') ∧ quiet p' ∧ pipe_inv D [] (answered G r) p'.
Proof.
  intros Hinj Hok Hs Hq. split; [by eapply any_steps_ok|]. intros G r Hi Ha.
  assert (wp (perform r) (λ out p', out = answer G r ∧ quiet p' ∧ pipe_inv D [] (answered G r) p')
    (λ _ _, False) p) as Hw.
  { destruct r as [c t data policy|c|c| | ]; simpl in *; [apply wp_bind| |apply wp_bind..].
    - destruct Ha as (Hc & Hok' & Hf & Hst). eapply wp_mono; [apply wp_and;
        [by apply (write_spec D G)|by apply (write_quiet D G)]| |by intros e q [_ ?]].
      by intros c' q [(_ & _ & ?) ?].
    - destruct Ha as [data HG]. rewrite HG. eapply wp_mono; [apply wp_and;
        [by apply (read_spec D [] G p c data)|by apply (quiet_read_spec D G p c data)]| |by intros e q [_ ?]].
      by intros out q [(-> & ? & _) ?].
    - destruct Ha as [data HG]. eapply wp_mono; [apply wp_and;
        [by apply (delete_capsule_spec D G)|by apply (delete_quiet D G p c data)]| |by intros e q [_ ?]].
      by intros u q [? ?].
    - eapply wp_mono; [apply wp_and;
        [by apply (garbage_collect_spec D G)|by apply (sweep_quiet D G)]| |by intros e q [_ ?]].
      by intros n q [? ?].
    - eapply wp_mono; [apply wp_and;
        [by apply (reconcile_spec D G)|by apply (reconcile_quiet D G)]| |by intros e q [_ ?]].
      by intros u q [[? _] ?]. }
  apply wp_total in Hw as (out & p' & Hp & -> & Hw). by exists p'.
Qed.
End progress_property.

(** ** Witness: a write, on the toy crates, after a log call failed *)
Section progress_witness.
#[local] Existing Instance toy_crates.
#[local] Existing Instance toy_XtsLaws.
#[local] Existing Instance toy_HmacLaws.
#[local] Existing Instance listed_order.
#[local] Existing Instance toy_state_doc.
#[local] Instance toy_map_doc' : JsonDoc SegmentMap := plain_doc SegmentMap.

(** The log's first save fails: the write fails, and the schedule is empty again. *)
Definition before_failure := empty_pipeline None [None; None; None; Some 0].
Definition failed_write := write_capsule_with_policy cap_b (Some 1) text Policy_default before_failure.

Lemma before_failure_inv : pipe_inv only_frame [] ∅ before_failure.
Proof. exact (empty_ok None [None; None; None; Some 0] ltac:(done)). Qed.

Lemma failed_write_inv : pipe_inv only_frame [] ∅ (snd failed_write).
Proof.
  assert (∃ e, failed_write = (Err e, snd failed_write)) as [e Hw] by (eexists; vm_compute; reflexivity).
  pose proof (wp_run _ _ _ _ _ _ (write_spec only_frame ∅ cap_b (Some 1) text Policy_default
    before_failure only_frame_injective text_chunks_ok (text_fits _ _) before_failure_inv) Hw)
    as [Hi|[_ Hi]]; [exact Hi|].
  exfalso. pose proof (pi_dom _ _ _ _ Hi cap_b ltac:(vm_compute; reflexivity)) as Hn.
  by rewrite lookup_insert_eq in Hn.
Qed.

Lemma text_storable policy : compression policy = LZ4 1 → storable policy false text.
Proof.
  intros Hp chunk Hc. assert (chunks SEGMENT_SIZE text = [text]) as Ht by (vm_compute; reflexivity).
  rewrite Ht in Hc. apply list_elem_of_singleton in Hc as ->. rewrite Hp.
  eexists _, _. split; [vm_compute; reflexivity|done].
Qed.

Lemma quiet_requests_complete_witness :
  is_ok (fst failed_write) = false ∧
  ∃ p', perform (RWrite cap_a 2 text Policy_default) (snd failed_write) = (Ok [], p') ∧
    quiet p' ∧ pipe_inv only_frame [] (<[cap_a := text]> ∅) p'.
Proof.
  split; [vm_compute; reflexivity|].
  assert (pipe_ok only_frame before_failure) as Hok by (exists ∅; exact before_failure_inv).
  assert (rtc (any_step only_frame) before_failure (snd failed_write)) as Hsteps.
  { apply rtc_once. exists cap_a. eapply (step_write _ _ cap_b (Some 1) text Policy_default);
      [exact (text_fits _ _)|exact text_chunks_ok|unfold failed_write; apply surjective_pairing]. }
  assert (quiet (snd failed_write)) as Hq by (split; vm_compute; reflexivity).
  pose proof (quiet_requests_complete only_frame before_failure (snd failed_write)
    only_frame_injective Hok Hsteps Hq) as Hmain. destruct Hmain as [_ Hmain].
  apply (Hmain ∅ (RWrite cap_a 2 text Policy_default) failed_write_inv).
  split; [reflexivity|]. split; [exact text_chunks_ok|]. split.
  - apply fits_by; vm_compute; congruence.
  - exact (text_storable Policy_default eq_refl).
Defined.
End progress_witness.
