(* ===== verification/Recovery.v ===== *)
(** Crashes and restarts.  The program ends at any moment, with its last I/O calls
    failing, and starts again from the files on disk: the registry and the log are opened
    ([CapsuleRegistry::new], [NvramLog::open]) and a pipeline is built on them
    ([WritePipeline::new], which reconciles).

    The files are the fields [reg_metadata], [nv_metadata] and [nv_file] of the model; the
    schedules of failures of the two runs cover a crash at every point.  What is on disk
    lags behind the tables in memory, so survival is an invariant of its own ([kept]):
    the capsule is in every registry file that parses, its segments are in every segment
    map that parses with the seal they were written under, and their bytes stay where
    they are. *)
From S2P Require Import Prelude Errors Common Externals.
From S2P Require Nvram Compression KeyManager Encryption Dedup Registry Gc WritePipeline.
From S2P Require PipelineInvariant PipelineTheorems.
Import Nvram Compression KeyManager Encryption Registry Gc WritePipeline PipelineInvariant.
Import PipelineTheorems.

(** A JSON object cut off does not parse. *)
Class TornDoc (T : Type) `{JsonDoc T} : Prop := {
  torn_doc k (t : T) : of_doc (prefix_doc k (to_doc t)) = None ∨ of_doc (prefix_doc k (to_doc t)) = Some t;
}.

(** ** What the files hold *)
Section disk.
Context {JR : JsonDoc RegistryState} {JN : JsonDoc SegmentMap}.

(** [None]: the file does not parse. *)
Definition table_on_disk (r : CapsuleRegistry) : option RegistryState :=
  match reg_metadata r with
  | None => Some (mkRegistryState ∅ 0 ∅)
  | Some d => of_doc d
  end.

Definition map_on_disk (l : NvramLog) : option SegmentMap :=
  match nv_metadata l with
  | None => Some ∅
  | Some d => of_doc d
  end.

Lemma save_disk `{!TornDoc RegistryState} r :
  match save r with
  | (Ok _, r') => state_of r' = state_of r ∧ table_on_disk r' = Some (state_of r)
  | (Err _, r') => state_of r' = state_of r ∧
      (table_on_disk r' = table_on_disk r ∨ table_on_disk r' = None ∨ table_on_disk r' = Some (state_of r))
  | (Panic, _) => False
  end.
Proof.
  unfold save, table_on_disk. destruct (next_fault (reg_faults r)) as [[k|] fs]; simpl; (split; [done|]).
  - destruct (k <? 0); [by left|]. right. apply torn_doc.
  - apply of_to_doc.
Qed.

Lemma save_map_disk `{!TornDoc SegmentMap} l :
  match save_segment_map l with
  | (Ok _, l') => log_view l' = log_view l ∧ map_on_disk l' = Some (segment_map l)
  | (Err _, l') => log_view l' = log_view l ∧
      (map_on_disk l' = map_on_disk l ∨ map_on_disk l' = None ∨ map_on_disk l' = Some (segment_map l))
  | (Panic, _) => False
  end.
Proof.
  unfold save_segment_map, map_on_disk. destruct (next_fault (nv_faults l)) as [[k|] fs]; simpl; (split; [done|]).
  - destruct (k <? 0); [by left|]. right. apply torn_doc.
  - apply of_to_doc.
Qed.

Lemma reg_open_disk r fs r' :
  reg_open (reg_metadata r) fs = Ok r' → table_on_disk r = Some (state_of r') ∧ reg_metadata r' = reg_metadata r.
Proof.
  unfold reg_open, table_on_disk. destruct (reg_metadata r) as [d|]; [|by intros; simplify_eq].
  destruct (next_fault fs) as [[k|] fs']; [done|]. cbv [ok_or res_bind].
  destruct (of_doc d) as [st|]; [|done]. intros; simplify_eq/=. by destruct st.
Qed.

Lemma nv_open_disk l fs l' :
  nv_open (nv_file l) (nv_metadata l) fs = Ok l' →
  map_on_disk l = Some (segment_map l') ∧ nv_file l' = nv_file l ∧ next_offset l' = lenZ (nv_file l) ∧
  nv_metadata l' = nv_metadata l.
Proof.
  unfold nv_open, map_on_disk. destruct (next_fault fs) as [[k|] fs1]; [done|].
  destruct (next_fault fs1) as [[k|] fs2]; [done|].
  destruct (nv_metadata l) as [d|]; [|by intros; simplify_eq].
  destruct (next_fault fs2) as [[k|] fs3]; [done|]. cbv [ok_or res_bind].
  destruct (of_doc d) as [m|]; [|done]. by intros; simplify_eq/=.
Qed.
End disk.

(** ** The registry keeps a capsule *)
Section registry_keeps.
Context {JR : JsonDoc RegistryState} `{!TornDoc RegistryState}.
Implicit Types r : CapsuleRegistry.

(** Only the count of deduplicated bytes differs. *)
Definition same_capsule (a b : Capsule) : Prop :=
  cap_segments b = cap_segments a ∧ cap_size b = cap_size a ∧ cap_policy b = cap_policy a.

(** [c] is in the table as [cap], below the segment counter, and its segments are not
    listed more often than a 32-bit counter can say. *)
Record listed (c : CapsuleId) (cap : Capsule) (st : RegistryState) : Prop := {
  li_cap : ∃ cap', rs_capsules st !! c = Some cap' ∧ same_capsule cap cap';
  li_count : 0 ≤ rs_next_segment_id st;
  li_next id : id ∈ cap_segments cap → 0 ≤ seg_u64 id < rs_next_segment_id st;
  li_occ id : id ∈ cap_segments cap → occ (rs_capsules st) id ≤ U32_MAX;
}.

Definition reg_keeps (c : CapsuleId) (cap : Capsule) r : Prop :=
  listed c cap (state_of r) ∧ ∀ st, table_on_disk r = Some st → listed c cap st.

(** The table in memory changes, the file does not. *)
Lemma keeps_table c cap r r' :
  reg_keeps c cap r → reg_metadata r' = reg_metadata r → listed c cap (state_of r') → reg_keeps c cap r'.
Proof. intros [_ Hd] Hm Hc. split; [done|]. unfold table_on_disk. rewrite Hm. apply Hd. Qed.

(** What an operation leaves on disk: the old file, one that does not parse, or the table
    it leaves in memory. *)
Definition table_follows r r' : Prop :=
  table_on_disk r' = table_on_disk r ∨ table_on_disk r' = None ∨ table_on_disk r' = Some (state_of r').

Lemma save_follows r0 r : reg_metadata r = reg_metadata r0 → table_follows r0 (snd (save r)).
Proof.
  intros Hm. unfold table_follows. assert (table_on_disk r0 = table_on_disk r) as ->
    by (unfold table_on_disk; by rewrite Hm).
  pose proof (save_disk r) as Hs. destruct (save r) as [[u|e| ] r']; [| |done]; destruct Hs as [He Hs]; cbn [snd]; rewrite He; tauto.
Qed.

Lemma create_follows now id size segs policy r :
  table_follows r (snd (create_capsule_with_segments now id size segs policy r)).
Proof.
  unfold create_capsule_with_segments, bind, gets, fail, lift, modify.
  case_bool_decide; [by left|]. destruct now; cbn [ok_or]; [by apply save_follows|by left].
Qed.

Lemma register_follows h id r : table_follows r (snd (register_content h id r)).
Proof. unfold register_content, bind, modify. by apply save_follows. Qed.

Lemma deregister_follows h id r : table_follows r (snd (deregister_content h id r)).
Proof.
  unfold deregister_content, bind, gets, modify, ret. case_bool_decide; [|by left].
  set (r1 := set_content_store _ r). pose proof (save_follows r r1 eq_refl) as Hs.
  by destruct (save r1) as [[u|e| ] r'].
Qed.

Lemma delete_follows id r : table_follows r (snd (Registry.delete_capsule id r)).
Proof.
  unfold Registry.delete_capsule, bind, gets, modify, lift, ret.
  destruct (capsules r !! id) as [x|]; cbn [ok_or]; [|by left].
  set (r1 := set_capsules _ r). pose proof (save_follows r r1 eq_refl) as Hs.
  by destruct (save r1) as [[u|e| ] r'].
Qed.

Lemma keeps_follows c cap r r' :
  reg_keeps c cap r → table_follows r r' → listed c cap (state_of r') → reg_keeps c cap r'.
Proof.
  intros [_ Hd] Hf Hl. split; [done|]. intros st Hst.
  destruct Hf as [Hf|[Hf|Hf]]; rewrite Hf in Hst; [by apply Hd|done|by injection Hst as <-].
Qed.

(** A table as good as the one it replaces. *)
Lemma listed_weaken c cap st st' :
  listed c cap st → (∃ cap', rs_capsules st' !! c = Some cap' ∧ same_capsule cap cap') →
  rs_next_segment_id st ≤ rs_next_segment_id st' →
  (∀ id, id ∈ cap_segments cap → occ (rs_capsules st') id ≤ U32_MAX) → listed c cap st'.
Proof. intros [H0 H1 H2 H3] Hc Hn Ho. split; [done|lia| |done]. intros id Hid. specialize (H2 id Hid). lia. Qed.
End registry_keeps.

(** ** The log keeps the segments of a capsule *)
Section log_keeps.
Context {JN : JsonDoc SegmentMap} `{!TornDoc SegmentMap}.
Implicit Types (l : NvramLog) (K : gmap SegmentId (Segment * bytes)).

(** [K]: the segments in question, with a record and bytes.  Memory and disk have their
    records under the same seal and nowhere else, with a positive 32-bit count; the bytes
    are below the end of the log. *)
Record recorded K (m : SegmentMap) : Prop := {
  rec_seal id s0 raw : K !! id = Some (s0, raw) →
    ∃ s, m !! id = Some s ∧ same_seal s0 s ∧ seg_id s = id ∧ 0 < seg_ref_count s ≤ U32_MAX;
  rec_key k s : m !! k = Some s → is_Some (K !! seg_id s) → seg_id s = k;
}.

Definition in_file K l : Prop :=
  0 ≤ next_offset l ≤ lenZ (nv_file l) ∧
  ∀ id s0 raw, K !! id = Some (s0, raw) →
    0 ≤ seg_offset s0 ∧ 0 ≤ seg_len s0 ∧ seg_offset s0 + seg_len s0 ≤ next_offset l ∧
    read_at (nv_file l) (seg_offset s0) (seg_len s0) = Some raw.

Record log_keeps K l : Prop := {
  lk_map : recorded K (segment_map l);
  lk_disk : ∀ m, map_on_disk l = Some m → recorded K m;
  lk_file : in_file K l;
}.

Definition map_follows l l' : Prop :=
  map_on_disk l' = map_on_disk l ∨ map_on_disk l' = None ∨ map_on_disk l' = Some (segment_map l').

Lemma save_map_follows l0 l : nv_metadata l = nv_metadata l0 → map_follows l0 (snd (save_segment_map l)).
Proof.
  intros Hm. unfold map_follows. assert (map_on_disk l0 = map_on_disk l) as ->
    by (unfold map_on_disk; by rewrite Hm).
  pose proof (save_map_disk l) as Hs. destruct (save_segment_map l) as [[u|e| ] l']; [| |done];
    destruct Hs as [[= _ He _] Hs]; cbn [snd]; rewrite He; tauto.
Qed.

Lemma increment_follows id l : map_follows l (snd (increment_refcount id l)).
Proof.
  unfold increment_refcount, bind, gets, lift, modify, ret.
  destruct (segment_map l !! id) as [s|]; cbn [ok_or]; [|by left].
  set (l1 := set_segment_map _ l). pose proof (save_map_follows l l1 eq_refl) as Hs.
  by destruct (save_segment_map l1) as [[u|e| ] l'].
Qed.

Lemma decrement_follows id l : map_follows l (snd (decrement_refcount id l)).
Proof.
  unfold decrement_refcount, bind, gets, lift, modify, ret, fail.
  destruct (segment_map l !! id) as [s|]; cbn [ok_or]; [|by left].
  destruct (seg_ref_count s =? 0); [by left|].
  set (l1 := set_segment_map _ l). pose proof (save_map_follows l l1 eq_refl) as Hs.
  by destruct (save_segment_map l1) as [[u|e| ] l'].
Qed.

Lemma update_follows id s l : map_follows l (snd (update_segment_metadata id s l)).
Proof. unfold update_segment_metadata, bind, modify. by apply save_map_follows. Qed.

Lemma remove_follows id l : map_follows l (snd (remove_segment id l)).
Proof.
  unfold remove_segment, bind, gets, modify, ret. destruct (segment_map l !! id) as [s|]; [|by left].
  set (l1 := set_segment_map _ l). pose proof (save_map_follows l l1 eq_refl) as Hs.
  by destruct (save_segment_map l1) as [[u|e| ] l'].
Qed.

(** An operation that leaves the log file alone. *)
Lemma log_keeps_follows K l l' m :
  log_keeps K l → map_follows l l' → log_view l' = (nv_file l, m, next_offset l) → recorded K m →
  log_keeps K l'.
Proof.
  intros [_ Hd Hi] Hf [= Hff Hm Hn] Hr. split; [by rewrite Hm| |unfold in_file; by rewrite Hff, Hn].
  intros m' Hm'. destruct Hf as [Hf|[Hf|Hf]]; rewrite Hf in Hm'; [by apply Hd|done|]. congruence.
Qed.

Lemma recorded_insert K m id s :
  recorded K m → (is_Some (K !! id) ∨ is_Some (K !! seg_id s) → seg_id s = id) →
  (∀ s0 raw, K !! id = Some (s0, raw) → same_seal s0 s ∧ 0 < seg_ref_count s ≤ U32_MAX) →
  recorded K (<[id := s]> m).
Proof.
  intros [H1 H2] Hid Hs. split.
  - intros j s0 raw Hj. destruct (decide (j = id)) as [->|].
    + exists s. rewrite lookup_insert_eq. split; [done|]. destruct (Hs s0 raw Hj) as [? ?]. split; [done|].
      split; [|done]. apply Hid. left. by eexists.
    + rewrite lookup_insert_ne by done. by eapply H1.
  - intros k s' [[<- <-]|[_ Hk]]%lookup_insert_Some Hx; [|by apply H2]. apply Hid. by right.
Qed.

(** A record with another count. *)
Lemma recorded_refs K m id s n a :
  recorded K m → m !! id = Some s → (is_Some (K !! id) → 0 < n ≤ U32_MAX) →
  recorded K (<[id := set_refs n a s]> m).
Proof.
  intros Hm Hs Hn. apply recorded_insert; [done|..].
  - change (seg_id (set_refs n a s)) with (seg_id s). intros [[[s0 raw] Hk]|Hk]; [|by eapply rec_key].
    destruct (rec_seal K m Hm id s0 raw Hk) as (s' & Hs' & _ & Hid & _). congruence.
  - intros s0 raw Hk. destruct (rec_seal K m Hm id s0 raw Hk) as (s' & Hs' & Hss & _).
    assert (s' = s) as -> by congruence. split; [done|]. apply Hn. by eexists.
Qed.

Lemma recorded_delete K m id : recorded K m → K !! id = None → recorded K (delete id m).
Proof.
  intros [H1 H2] Hk. split.
  - intros j s0 raw Hj. rewrite lookup_delete_ne; [by eapply H1|]. intros ->. congruence.
  - intros k s [_ Hs]%lookup_delete_Some. by apply H2.
Qed.

(** *** Appending *)
Lemma in_file_write K l d :
  in_file K l → in_file K (set_nv_file (write_at (nv_file l) (next_offset l) d) l).
Proof.
  intros [Hn Hk]. pose proof (write_at_length_ge (nv_file l) (next_offset l) d).
  split; cbn [nv_file set_nv_file next_offset]; [lia|].
  intros id s0 raw Hid. destruct (Hk id s0 raw Hid) as (H1 & H2 & H3 & H4).
  split_and!; [done..|]. rewrite <- H4. apply read_write_disjoint; lia.
Qed.

Lemma in_file_next K l n :
  in_file K l → next_offset l ≤ n ≤ lenZ (nv_file l) → in_file K (set_next_offset n l).
Proof.
  intros [Hn Hk] Hle. split; cbn [nv_file next_offset set_next_offset]; [lia|].
  intros id s0 raw Hid. destruct (Hk id s0 raw Hid) as (? & ? & ? & ?). split_and!; [done..|lia|done].
Qed.

(** What an append leaves, whether or not it succeeds; a record under an id that is not in
    [K] at most. *)
Definition appended K id l l' : Prop :=
  log_keeps K l' ∧ (∀ j, j ≠ id → segment_map l' !! j = segment_map l !! j).

Lemma append_keeps K l id d :
  log_keeps K l → K !! id = None → next_offset l + lenZ d < 2 ^ 64 →
  match append id d l with
  | (Ok s, l') => appended K id l l' ∧ next_offset l' = next_offset l + lenZ d ∧
      seg_id s = id ∧ segment_map l' = <[id := s]> (segment_map l) ∧ seg_ref_count s = 1
  | (Err _, l') => appended K id l l'
  | (Panic, _) => False
  end.
Proof.
  intros [H1 H2 H3] Hid Hd. pose proof H3 as [Hn _]. pose proof (lenZ_nonneg d).
  unfold append. cbv [bind gets modify ret].
  unfold nv_io at 1. destruct (next_fault (nv_faults l)) as [[?|] fs1]; [by split|].
  unfold nv_write_all at 1. simpl (nv_faults _).
  destruct (next_fault fs1) as [[k|] fs2];
    [split; [split; [done|done|by apply (in_file_write K l)]|done]|].
  unfold nv_io at 1. simpl (nv_faults _).
  destruct (next_fault fs2) as [[?|] fs3];
    [split; [split; [done|done|by apply (in_file_write K l)]|done]|].
  set (s := fresh_segment id (next_offset l) (wrap 32 (lenZ d))).
  match goal with |- context [save_segment_map ?x] => set (l2 := x) end.
  assert (segment_map l2 = <[id := s]> (segment_map l)) as Hm2 by done.
  assert (next_offset l2 = next_offset l + lenZ d) as Hn2
    by (subst l2; cbn [next_offset set_segment_map set_next_offset]; apply u64_add_small; cbn; lia).
  assert (in_file K l2) as Hi2.
  { pose proof (in_file_next K _ (next_offset l + lenZ d) (in_file_write K l d H3)) as Hi.
    unfold in_file in *. rewrite Hn2. apply Hi. cbn [nv_file set_nv_file next_offset].
    destruct (decide (0 < lenZ d)).
    - pose proof (write_at_length_data (nv_file l) (next_offset l) d). lia.
    - pose proof (write_at_length_ge (nv_file l) (next_offset l) d). lia. }
  assert (recorded K (segment_map l2)) as Hr2.
  { rewrite Hm2. apply recorded_insert; [done|done|]. intros s0 raw Hk. congruence. }
  assert (∀ j, j ≠ id → segment_map l2 !! j = segment_map l !! j) as Hj2
    by (intros j Hj; by rewrite Hm2, lookup_insert_ne).
  assert (log_keeps K l2) as Hk2 by done.
  clearbody l2. pose proof (save_map_follows l2 l2 eq_refl) as Hf.
  pose proof (save_view l2) as Hv. destruct (save_segment_map l2) as [[u|e| ] l']; [| |done]; cbn [snd] in Hf.
  - assert (log_keeps K l') as Hk' by (by eapply log_keeps_follows).
    injection Hv as _ Hm Hn'. rewrite Hm, Hn'. split; [split; [done|by rewrite Hm]|done].
  - assert (log_keeps K l') as Hk' by (by eapply log_keeps_follows).
    injection Hv as _ Hm Hn'. split; [done|by rewrite Hm].
Qed.
End log_keeps.

(** ** Every outcome of a call *)
Section wpc.
Context {S E : Type}.

(** [Q] after a result, [I] after an error or a panic. *)
Definition wpc {A : Type} (m : M S E A) (Q : A → S → Prop) (I : S → Prop) (s : S) : Prop :=
  match m s with
  | (Ok a, s') => Q a s'
  | (_, s') => I s'
  end.

Lemma wpc_bind {A B : Type} (m : M S E A) (k : A → M S E B) Q I s :
  wpc m (λ a, wpc (k a) Q I) I s → wpc (bind m k) Q I s.
Proof. unfold wpc, bind. by destruct (m s) as [[a|e| ] s']. Qed.

Lemma wpc_mono {A : Type} (m : M S E A) (Q Q' : A → S → Prop) (I I' : S → Prop) s :
  wpc m Q I s → (∀ a s', Q a s' → Q' a s') → (∀ s', I s' → I' s') → wpc m Q' I' s.
Proof. unfold wpc. destruct (m s) as [[a|e| ] s']; eauto. Qed.

Lemma wpc_map_err {E' A : Type} (g : E' → E) (m : M S E' A) Q I s :
  match m s with (Ok a, s') => Q a s' | (_, s') => I s' end → wpc (map_err g m) Q I s.
Proof. unfold wpc, map_err. by destruct (m s) as [[a|e| ] s']. Qed.

Lemma wpc_foldM {A B : Type} (J : B → list A → S → Prop) (I : S → Prop) (f : B → A → M S E B) l b s :
  (∀ b x r s, x ∈ l → J b (x :: r) s → wpc (f b x) (λ b', J b' r) I s) →
  J b l s → wpc (foldM f b l) (λ b', J b' []) I s.
Proof.
  revert b s. induction l as [|x r IH]; intros b s Hf Hi; [done|].
  simpl. apply wpc_bind. eapply wpc_mono; [apply Hf; [by left|done]| |done]. intros b' s' Hi'.
  apply IH; [|done]. intros b1 y r1 s1 Hy. apply Hf. by right.
Qed.

Lemma wpc_state {A : Type} (m : M S E A) (I : S → Prop) s r s' :
  wpc m (λ _, I) I s → m s = (r, s') → I s'.
Proof. unfold wpc. intros Hw Hm. rewrite Hm in Hw. by destruct r. Qed.
End wpc.

(** ** The pipeline keeps a capsule *)
Section pipeline_keeps.
Context {JR : JsonDoc RegistryState} {JN : JsonDoc SegmentMap}.
Context `{!TornDoc RegistryState} `{!TornDoc SegmentMap} `{Crates}.
Context (K : gmap SegmentId (Segment * bytes)) (c : CapsuleId) (cap : Capsule) (km : option KeyManager).
Context (HK : ∀ id, is_Some (K !! id) ↔ id ∈ cap_segments cap).
Implicit Types p : WritePipeline.

(** What is on disk, with the keys in memory. *)
Record saved p : Prop := {
  sv_reg : reg_keeps c cap (rg p);
  sv_log : log_keeps K (lg p);
  sv_keys : same_keys km (key_manager p) ∧ keys_ok p;
}.

(** The counts cover the references, those an operation in progress holds included. *)
Definition counted (held : list SegmentId) p : Prop :=
  ∀ id, is_Some (K !! id) → occ (capsules (rg p)) id + countZ id held ≤ refs p id.

Definition kept (held : list SegmentId) p : Prop := saved p ∧ counted held p.

Lemma kept_drop held p : kept held p → kept [] p.
Proof.
  intros [Hs Hc]. split; [done|]. intros id Hid. specialize (Hc id Hid).
  pose proof (countZ_nonneg id held). rewrite countZ_nil. lia.
Qed.

Lemma saved_occ p id : saved p → is_Some (K !! id) → 0 < occ (capsules (rg p)) id ≤ U32_MAX.
Proof.
  intros [[[(cap' & Hc & Hs & _) _ _ Ho] _] _ _] Hid%HK. split; [|by apply Ho].
  apply (occ_elem _ c cap'); [done|]. by rewrite Hs.
Qed.

Lemma saved_rec p id s0 raw :
  saved p → K !! id = Some (s0, raw) →
  ∃ s, segment_map (lg p) !! id = Some s ∧ same_seal s0 s ∧ seg_id s = id ∧ 0 < seg_ref_count s ≤ U32_MAX.
Proof. intros Hp. apply rec_seal. apply (lk_map _ _ (sv_log _ Hp)). Qed.

(** A segment with another count. *)
Lemma saved_refs p l' id s n a :
  saved p → segment_map (lg p) !! id = Some s → map_follows (lg p) l' →
  log_view l' = (nv_file (lg p), <[id := set_refs n a s]> (segment_map (lg p)), next_offset (lg p)) →
  (is_Some (K !! id) → 0 < n ≤ U32_MAX) → saved (set_lg l' p).
Proof.
  intros [Hr Hl Hk] Hs Hf Hv Hn. split; [done| |done]. eapply log_keeps_follows; [done..|].
  apply recorded_refs; [apply Hl|done|done].
Qed.

Lemma kept_refs held held' p l' id s n a :
  kept held p → segment_map (lg p) !! id = Some s → map_follows (lg p) l' →
  log_view l' = (nv_file (lg p), <[id := set_refs n a s]> (segment_map (lg p)), next_offset (lg p)) →
  (is_Some (K !! id) → n ≤ U32_MAX ∧ occ (capsules (rg p)) id + countZ id held' ≤ n) →
  (∀ j, j ≠ id → countZ j held' ≤ countZ j held) → kept held' (set_lg l' p).
Proof.
  intros [Hp Hc] Hs Hf Hv Hn Hh. split.
  - eapply saved_refs; [done..|]. intros Hid. destruct (Hn Hid). pose proof (saved_occ p id Hp Hid).
    pose proof (countZ_nonneg id held'). lia.
  - intros j Hj. injection Hv as _ Hm _. unfold refs. vs. rewrite Hm. destruct (decide (j = id)) as [->|Hne].
    + rewrite lookup_insert_eq. by apply Hn.
    + rewrite lookup_insert_ne by done. specialize (Hc j Hj). specialize (Hh j Hne). unfold refs in Hc. lia.
Qed.

Lemma kept_view held p l' :
  kept held p → log_view l' = log_view (lg p) → map_follows (lg p) l' → kept held (set_lg l' p).
Proof.
  intros [[Hr Hl Hk] Hc] Hv Hf. pose proof Hv as [= _ Hm _]. split.
  - split; [done| |done]. eapply log_keeps_follows; [done..|apply Hl].
  - intros id Hid. specialize (Hc id Hid). unfold refs in *. vs. by rewrite Hm.
Qed.

Lemma counted_refs held p id : kept held p → is_Some (K !! id) → 0 < refs p id ≤ U32_MAX.
Proof.
  intros [Hp _] [[s0 raw] Hid]. destruct (saved_rec p id s0 raw Hp Hid) as (s & Hs & _ & _ & ?).
  by rewrite (refs_lookup _ _ _ Hs).
Qed.

(** The registry changes; [c] stays and the counts cover the references. *)
Lemma kept_reg held held' p r' :
  kept held p → table_follows (rg p) r' → next_segment_id (rg p) ≤ next_segment_id r' →
  (∃ cap', capsules r' !! c = Some cap' ∧ same_capsule cap cap') →
  (∀ id, is_Some (K !! id) → occ (capsules r') id + countZ id held' ≤ refs p id) →
  kept held' (set_rg r' p).
Proof.
  intros Hp Hf Hn Hcap Hocc. split; [|exact Hocc]. pose proof Hp as [[Hr Hl Hk] Hc].
  split; [|done..]. eapply keeps_follows; [done..|].
  apply (listed_weaken c cap (state_of (rg p))); [apply (proj1 Hr)|done..|].
  intros id Hid%HK. pose proof (counted_refs held p id Hp Hid). specialize (Hocc id Hid).
  pose proof (countZ_nonneg id held'). vs. simpl. lia.
Qed.

Lemma kept_cap held p : kept held p → ∃ cap', capsules (rg p) !! c = Some cap' ∧ same_capsule cap cap'.
Proof. intros [[[Hr _] _ _] _]. apply (li_cap _ _ _ Hr). Qed.

Lemma kept_reg_same held p r' :
  kept held p → table_follows (rg p) r' → next_segment_id r' = next_segment_id (rg p) →
  capsules r' = capsules (rg p) → kept held (set_rg r' p).
Proof.
  intros Hp Hf Hn Hcaps. eapply kept_reg; [done..| | |].
  - lia.
  - rewrite Hcaps. by eapply kept_cap.
  - rewrite Hcaps. apply Hp.
Qed.

(** Room for [b] bytes and [k] segments, as far as the kept segments need it. *)
Definition room (b k : Z) p : Prop :=
  next_offset (lg p) + b < 2 ^ 64 ∧ next_segment_id (rg p) + k < 2 ^ 64 ∧
  ∀ id, is_Some (K !! id) → refs p id + k ≤ U32_MAX.

Lemma fits_room data p : fits data p → room (lenZ data) (lenZ (chunks SEGMENT_SIZE data)) p.
Proof. intros (? & ? & Hr). by split_and!; [..|intros id _; apply Hr]. Qed.

(** *** Placing a segment *)
Lemma wpc_nv {A : Type} (m : M NvramLog Error A) Q I p :
  match m (lg p) with (Ok a, l) => Q a (set_lg l p) | (_, l) => I (set_lg l p) end → wpc (nv m) Q I p.
Proof. unfold wpc, nv, on_store, on_nvram, zoom. fold (lg p). by destruct (m (lg p)) as [[a|e| ] l]. Qed.

Lemma wpc_reg {A : Type} (m : M CapsuleRegistry Error A) Q I p :
  match m (rg p) with (Ok a, r) => Q a (set_rg r p) | (_, r) => I (set_rg r p) end → wpc (reg m) Q I p.
Proof. unfold wpc, reg, on_store, on_registry, zoom. fold (rg p). by destruct (m (rg p)) as [[a|e| ] r]. Qed.

Lemma increment_kept held p id b k :
  kept held p → room b (1 + k) p → 0 ≤ k →
  wpc (nv (increment_refcount id)) (λ _ q, kept (held ++ [id]) q ∧ room b k q) (kept []) p.
Proof.
  intros Hp (Bo & Bn & Br) Hk. apply wpc_nv.
  pose proof (increment_effect id (lg p)) as He. pose proof (increment_follows id (lg p)) as Hf.
  assert (∀ l' s, segment_map (lg p) !! id = Some s → map_follows (lg p) l' →
    log_view l' = (nv_file (lg p), <[id := bump s]> (segment_map (lg p)), next_offset (lg p)) →
    kept (held ++ [id]) (set_lg l' p)) as Hup.
  { intros l' s Hs Hf' Hv. eapply kept_refs; [done..| |].
    - intros Hid. pose proof (counted_refs held p id Hp Hid) as Hr. specialize (Br id Hid).
      pose proof (proj2 Hp id Hid) as Hc. rewrite (refs_lookup p id s Hs) in *.
      unfold u32_saturating_add. rewrite countZ_app, countZ_cons, countZ_nil, bool_decide_true by done. lia.
    - intros j Hj. rewrite countZ_app, countZ_cons, countZ_nil, bool_decide_false by done. lia. }
  destruct (increment_refcount id (lg p)) as [[s'|e| ] l']; cbn [snd] in Hf; [| |done].
  - destruct He as (s & Hs & -> & Hv). split; [by eapply Hup|]. injection Hv as _ Hm Hn.
    unfold room, refs. vs. rewrite Hm, Hn. split_and!; [lia|lia|]. intros j Hj. specialize (Br j Hj).
    unfold refs in Br. destruct (decide (j = id)) as [->|Hne].
    + rewrite lookup_insert_eq. rewrite Hs in Br. simpl. unfold u32_saturating_add. lia.
    + rewrite lookup_insert_ne by done. lia.
  - destruct He as [Hv|(s & Hs & Hv)].
    + apply (kept_drop held). by apply kept_view.
    + eapply kept_drop. by eapply Hup.
Qed.

(** The next id is not among the kept ones. *)
Lemma fresh_not_kept p : saved p → K !! mkSegmentId (next_segment_id (rg p)) = None.
Proof.
  intros [[Hr _] _ _]. destruct (K !! _) as [x|] eqn:Hx; [|done].
  pose proof (li_next _ _ _ Hr _ (proj1 (HK _) (mk_is_Some _ _ Hx))) as Hn. simpl in Hn. lia.
Qed.

(** A log that changed only under an id that is not kept. *)
Lemma kept_other held held' p l' id :
  kept held p → K !! id = None → appended K id (lg p) l' → (∀ j, j ≠ id → countZ j held' ≤ countZ j held) →
  kept held' (set_lg l' p).
Proof.
  intros [[Hr Hl Hk] Hc] Hid [Ha Hj] Hh. split; [by split|]. intros j Hjk.
  assert (j ≠ id) as Hne by (intros ->; rewrite Hid in Hjk; by destruct Hjk).
  specialize (Hc j Hjk). specialize (Hh j Hne). unfold refs in *. vs. rewrite Hj by done. lia.
Qed.

Lemma write_new_kept held p data cr hash meta b k :
  kept held p → room (lenZ data + b) (1 + k) p → 0 ≤ b → 0 ≤ k →
  wpc (write_new_segment data cr hash meta)
    (λ id q, kept (held ++ [id]) q ∧ room b k q) (kept []) p.
Proof.
  intros Hp (Bo & Bn & Br) Hb Hk. pose proof (lenZ_nonneg data).
  unfold write_new_segment. apply wpc_bind, wpc_reg. cbv [alloc_segment gets modify bind ret].
  set (id := mkSegmentId (next_segment_id (rg p))).
  pose proof (fresh_not_kept p (proj1 Hp)) as Hid. fold id in Hid.
  assert (0 ≤ next_segment_id (rg p)) as Hn0 by apply (li_count _ _ _ (proj1 (sv_reg _ (proj1 Hp)))).
  rewrite (u64_add_small (next_segment_id (rg p)) 1) by lia.
  set (r1 := set_next_segment_id (next_segment_id (rg p) + 1) (rg p)).
  assert (kept held (set_rg r1 p)) as Hp1.
  { apply (kept_reg held held p r1 Hp); [by left|simpl; lia|by eapply kept_cap|apply Hp]. }
  apply wpc_bind, wpc_map_err, wpc_nv. vs. change (lg (set_rg r1 p)) with (lg p).
  pose proof (append_keeps K (lg p) id data (sv_log _ (proj1 Hp)) Hid ltac:(lia)) as Ha.
  assert (∀ j, j ≠ id → countZ j (held ++ [id]) ≤ countZ j held) as Hh.
  { intros j Hj. rewrite countZ_app, countZ_cons, countZ_nil, bool_decide_false by done. lia. }
  assert (∀ l, appended K id (lg p) l → kept (held ++ [id]) (set_lg l (set_rg r1 p))) as Hk1.
  { intros l Hl. by apply (kept_other held (held ++ [id]) (set_rg r1 p) l id). }
  destruct (append id data (lg p)) as [[s|e| ] l1]; [|by eapply kept_drop, Hk1|done].
  destruct Ha as (Ha & Hn1 & Hs & Hm1 & Hc1).
  apply wpc_bind, wpc_map_err, wpc_nv. vs.
  set (s' := describe_segment cr hash meta s).
  assert (seg_id s' = id ∧ seg_ref_count s' = 1) as [Hs' Hr'] by (by destruct hash, meta).
  pose proof (update_effect id s' l1) as Hu. pose proof (update_follows id s' l1) as Hf.
  assert (∀ l2, map_follows l1 l2 →
    log_view l2 = (nv_file l1, <[id := s']> (segment_map l1), next_offset l1) → appended K id (lg p) l2) as Hk2.
  { intros l2 Hf2 Hv2. split.
    - eapply log_keeps_follows; [apply Ha|done|done|]. apply recorded_insert; [apply Ha|done|].
      intros s0 raw Hx. congruence.
    - injection Hv2 as _ Hm2 _. intros j Hj. rewrite Hm2, lookup_insert_ne by done. by apply Ha. }
  change (lg (set_lg l1 (set_rg r1 p))) with l1.
  destruct (update_segment_metadata id s' l1) as [[u|e| ] l2]; cbn [snd] in Hf; [| |done].
  2:{ eapply kept_drop. by apply Hk1, Hk2. }
  unfold wpc, ret. split; [by apply Hk1, Hk2|]. injection Hu as _ Hm2 Hn2.
  unfold room, refs. vs. rewrite Hn2, Hn1, Hm2, Hm1. split_and!; [lia|simpl; lia|].
  intros j Hj. specialize (Br j Hj). unfold refs in Br. rewrite insert_insert_eq, lookup_insert_ne; [lia|].
  intros ->. rewrite Hid in Hj. by destruct Hj.
Qed.

Lemma room_weaken b b' k p : b' ≤ b → room b k p → room b' k p.
Proof. intros ? (? & ? & ?). split_and!; [lia|done|done]. Qed.

Lemma place_kept held p policy h final cr meta st b k :
  kept held p → room (lenZ final + b) (1 + k) p → 0 ≤ b → 0 ≤ k →
  wpc (place_segment policy h final cr meta st)
    (λ ist q, kept (held ++ [ist.1]) q ∧ room b k q) (kept []) p.
Proof.
  intros Hp Hroom Hb Hk. unfold place_segment. pose proof (lenZ_nonneg final).
  destruct (dedupe policy); [|apply wpc_bind; eapply wpc_mono; [by apply write_new_kept|by intros|done]].
  apply wpc_bind, wpc_reg. cbv [lookup_content gets].
  assert (set_rg (rg p) p = p) as -> by (by destruct p as [[? ?] ?]).
  destruct (content_store (rg p) !! h) as [id|].
  - apply wpc_bind, wpc_map_err. eapply wpc_mono; [apply (increment_kept held p id b k Hp); [|done]|by intros|done].
    eapply room_weaken; [|done]. lia.
  - apply wpc_bind. eapply wpc_mono; [by apply write_new_kept| |done].
    intros id q [Hq Hrq]. apply wpc_bind, wpc_map_err, wpc_reg.
    pose proof (register_spec h id (rg q)) as Hs. pose proof (register_follows h id (rg q)) as Hf.
    assert (∀ r', table_follows (rg q) r' →
      state_of r' = state_of (set_content_store (<[h := id]> (content_store (rg q))) (rg q)) →
      kept (held ++ [id]) (set_rg r' q) ∧ room b k (set_rg r' q)) as Hr.
    { intros r' Hf' (Hcaps & Hn & _)%state_of_eq. simpl in Hcaps, Hn. split; [by apply kept_reg_same|].
      unfold room. vs. by rewrite Hn. }
    destruct (register_content h id (rg q)) as [[u|e| ] r']; cbn [snd] in Hf; [| |done].
    + destruct Hs as [_ Hs]. by apply Hr.
    + eapply kept_drop. by apply (Hr r' Hf Hs).
Qed.

(** *** Keys *)
Lemma kept_km held p m m' :
  kept held p → key_manager p = Some m → cache_coherent m' → master_key m' = master_key m →
  hkdf_salt m' = hkdf_salt m → kept held (set_km m' p).
Proof.
  intros [[Hr Hl [Hk _]] Hc] Hm Hco Hmk Hs. split; [|done]. split; [done|done|]. split.
  - simpl. rewrite Hm in Hk. destruct km as [m0|]; [|done]. destruct Hk. split; congruence.
  - intros ? [= <-]. done.
Qed.

(** A call on the key manager that keeps the secrets. *)
Lemma on_km_kept {A : Type} (mm : M KeyManager EncryptionError A) held p b k :
  (∀ m, cache_coherent m → let '(_, m') := mm m in
     cache_coherent m' ∧ master_key m' = master_key m ∧ hkdf_salt m' = hkdf_salt m) →
  kept held p → room b k p →
  wpc (on_km mm) (λ _ q, kept held q ∧ room b k q) (kept held) p.
Proof.
  intros Hmm Hp Hr. unfold wpc, on_km. destruct (key_manager p) as [m|] eqn:Hm; [|done].
  specialize (Hmm m (proj2 (sv_keys _ (proj1 Hp)) m Hm)). destruct (mm m) as [r m'].
  destruct Hmm as (Hco & Hmk & Hs).
  assert (kept held (set_km m' p)) by (by apply (kept_km held p m)). by destruct r.
Qed.

Lemma encrypt_kept `{!XtsLaws} held p h d b k :
  kept held p → room b k p →
  wpc (encrypt_chunk h d) (λ cm q, (kept held q ∧ room b k q) ∧ lenZ cm.1 = lenZ d) (kept held) p.
Proof.
  intros Hp Hr. unfold encrypt_chunk. apply wpc_bind. eapply wpc_mono; [apply (on_km_kept _ held p b k)|..].
  - intros m Hco. cbv [bind gets ret]. pose proof (get_key_eq m (current_version m) Hco) as Hg.
    destruct (get_key (current_version m) m) as [[kp|e| ] m']; tauto.
  - done.
  - done.
  - intros [v kp] q Hq. unfold wpc, bind, lift, ret, encrypt_segment. rewrite encrypt_cases.
    destruct (lenZ d <? 16); [apply Hq|]. cbn [res_bind res_map_err fst snd].
    destruct (compute_mac _ _ _ _) as [tag|e| ]; cbn [res_map_err]; [|apply Hq..].
    split; [done|]. apply lenZ_xts_encrypt.
  - done.
Qed.

(** *** Writing *)
Lemma write_chunk_kept `{!XtsLaws} policy enc i ids st chunk b k p :
  kept ids p → room (lenZ chunk + b) (1 + k) p → 0 ≤ b → 0 ≤ k →
  wpc (write_chunk policy enc (i, ids, st) chunk)
    (λ acc q, kept acc.1.2 q ∧ room b k q) (kept []) p.
Proof.
  intros Hp Hr Hb Hk. unfold write_chunk. unfold wpc at 1, bind at 1, lift at 1.
  destruct (compress_segment chunk (compression policy)) as [[view r]|e| ] eqn:Hc; cbn [res_map_err];
    [|by eapply kept_drop..].
  assert (lenZ (as_ref view) ≤ lenZ chunk) as Hle.
  { apply adaptive_compress_cases in Hc as (_ & _ & [(-> & _)|(out & -> & _ & _ & Hl & _)]); simpl; lia. }
  set (d := as_ref view) in *.
  assert (∀ final meta q, kept ids q → room (lenZ chunk + b) (1 + k) q → lenZ final = lenZ d →
    wpc (let! (seg_id, dedup_stats) :=
          place_segment policy (Dedup.hash_content d) final r meta st in
        ret (i + 1, ids ++ [seg_id], dedup_stats))
      (λ acc q, kept acc.1.2 q ∧ room b k q) (kept []) q) as Hplace.
  { intros final meta q Hq Hrq Hf. apply wpc_bind.
    eapply wpc_mono; [apply (place_kept ids q _ _ final _ _ _ b k Hq); [|done..]|by intros [] ?|done].
    eapply room_weaken; [|done]. lia. }
  destruct enc.
  - apply (wpc_bind (bind _ _)), wpc_bind. eapply wpc_mono; [by apply (encrypt_kept ids p _ d _ _ Hp Hr)|..].
    + intros [ct md] q [[Hq Hrq] Hct]. unfold wpc at 1, ret at 1. by apply Hplace.
    + intros q. apply kept_drop.
  - apply (wpc_bind (ret _)). unfold wpc at 1, ret at 1. by apply Hplace.
Qed.

Lemma add_deduped_kept held p id n :
  kept held p → wpc (reg (add_deduped_bytes id n)) (λ _, kept held) (kept []) p.
Proof.
  intros Hp. apply wpc_reg. unfold add_deduped_bytes, modify.
  destruct (capsules (rg p) !! id) as [x|] eqn:Hx; [|by assert (set_rg (rg p) p = p) as -> by (by destruct p as [[? ?] ?])].
  eapply kept_reg; [done|by left|simpl; lia|..]; cbn [capsules set_capsules].
  - destruct (kept_cap held p Hp) as (cap' & Hc & Hs).
    destruct (decide (id = c)) as [->|]; [|exists cap'; by rewrite lookup_insert_ne].
    eexists. rewrite lookup_insert_eq. split; [done|]. assert (x = cap') as -> by congruence. done.
  - intros j Hj. pose proof (proj2 Hp j Hj) as Ho. rewrite (occ_delete _ id x) in Ho by done.
    rewrite (occ_delete _ id _ j) by apply lookup_insert_eq. by rewrite delete_insert_eq.
Qed.

Lemma create_kept p now id size segs policy :
  kept segs p →
  wpc (reg (create_capsule_with_segments now id size segs policy)) (λ _, kept []) (kept []) p.
Proof.
  intros Hp. apply wpc_reg. pose proof (create_spec now id size segs policy (rg p)) as Hs.
  pose proof (create_follows now id size segs policy (rg p)) as Hf.
  assert (∀ r' t, table_follows (rg p) r' → capsules (rg p) !! id = None →
    state_of r' = state_of (set_capsules (<[id := mkCapsule id size segs t policy 0]> (capsules (rg p))) (rg p)) →
    kept [] (set_rg r' p)) as Hin.
  { intros r' t Hf' Hn (Hcaps & Hnx & _)%state_of_eq. simpl in Hcaps, Hnx.
    eapply kept_reg; [done..|lia| |]; rewrite Hcaps.
    - destruct (kept_cap _ p Hp) as (cap' & Hc & Hsc). exists cap'. split; [|done].
      rewrite lookup_insert_ne; [done|]. intros ->. congruence.
    - intros j Hj. pose proof (proj2 Hp j Hj) as Ho. rewrite occ_insert, countZ_nil by done. simpl. lia. }
  destruct (create_capsule_with_segments _ _ _ _ _ _) as [[u|e| ] r']; cbn [snd] in Hf; [| |done].
  - destruct Hs as (t & _ & Hn & _ & Hs). by eapply Hin.
  - destruct Hs as [(Hcaps & Hnx & _)%state_of_eq|(Hn & t & Hs)]; [|by eapply Hin].
    by apply (kept_drop segs), kept_reg_same.
Qed.

Lemma write_kept `{!XtsLaws} id now data policy p :
  fits data p → kept [] p →
  wpc (write_capsule_with_policy id now data policy) (λ _, kept []) (kept []) p.
Proof.
  intros Hfits%fits_room Hp. unfold write_capsule_with_policy.
  apply wpc_bind. unfold wpc at 1, gets at 1. apply wpc_bind. eapply wpc_mono.
  - apply (wpc_foldM (λ acc rest q, kept acc.1.2 q ∧ room (lenZ (concat rest)) (lenZ rest) q)).
    + intros [[i ids] st] chunk rest q _ [Hq Hr]. cbn [concat] in Hr. rewrite lenZ_app, lenZ_cons in Hr.
      apply write_chunk_kept; [done..|apply lenZ_nonneg|apply lenZ_nonneg].
    + split; [done|]. by rewrite concat_chunks.
  - intros [[i ids] st] q [Hq _]. cbn [fst snd] in *. apply wpc_bind. eapply wpc_mono.
    + assert (wpc (if 0 <? bytes_saved st
          then map_err (map_registry_error "add_deduped_bytes")
                 (reg (add_deduped_bytes id (bytes_saved st)))
          else ret tt) (λ _, kept ids) (kept []) q) as Hadd; [|exact Hadd].
      case_if; [|done]. by apply wpc_map_err, add_deduped_kept.
    + intros [] q' Hq'. apply wpc_bind, wpc_map_err. by apply create_kept.
    + done.
  - done.
Qed.

(** *** Deleting another capsule *)
Lemma remove_kept held p id :
  kept held p → K !! id = None → wpc (nv (remove_segment id) ;;; ret tt) (λ _, kept held) (kept []) p.
Proof.
  intros Hp Hn. apply wpc_bind, wpc_nv. pose proof (remove_effect id (lg p)) as He.
  pose proof (remove_follows id (lg p)) as Hf.
  assert (∀ l', map_follows (lg p) l' →
    log_view l' = (nv_file (lg p), delete id (segment_map (lg p)), next_offset (lg p)) →
    kept held (set_lg l' p)) as Hk.
  { intros l' Hf' Hv. apply (kept_other held held p l' id); [done..| |done]. split.
    - eapply log_keeps_follows; [apply Hp|done|done|]. by apply recorded_delete; [apply Hp|].
    - injection Hv as _ Hm _. intros j Hj. by rewrite Hm, lookup_delete_ne. }
  destruct (remove_segment id (lg p)) as [[o|e| ] l']; cbn [snd] in Hf; [| |done].
  - destruct He as [_ Hv]. by apply Hk.
  - by eapply kept_drop, Hk.
Qed.

Lemma deregister_kept held p h id :
  kept held p → wpc (reg (deregister_content h id) ;;; ret tt) (λ _, kept held) (kept []) p.
Proof.
  intros Hp. apply wpc_bind, wpc_reg. pose proof (deregister_spec h id (rg p)) as Hs.
  pose proof (deregister_follows h id (rg p)) as Hf.
  destruct (deregister_content h id (rg p)) as [[o|e| ] r']; cbn [snd] in Hf; [| |done].
  - destruct Hs as (_ & _ & (Hcaps & Hn & _)%state_of_eq).
    apply kept_reg_same; [done..|rewrite Hn; by destruct o|rewrite Hcaps; by destruct o].
  - destruct Hs as [_ (Hcaps & Hn & _)%state_of_eq]. by apply (kept_drop held), kept_reg_same.
Qed.

(** Removing the record with its hash. *)
Lemma drop_segment_kept held p id (h : option ContentHash) :
  kept held p → K !! id = None →
  wpc ((match h with
        | Some hash => reg (deregister_content hash id) ;;; ret tt
        | None => ret tt
        end) ;;; nv (remove_segment id) ;;; ret tt) (λ _, kept held) (kept []) p.
Proof.
  intros Hp Hn. apply wpc_bind. destruct h as [h|]; [|by apply remove_kept].
  eapply wpc_mono; [by apply (deregister_kept held)| |done]. intros [] q Hq. by apply remove_kept.
Qed.

Lemma release_kept p id rest :
  kept (id :: rest) p →
  wpc (let! segment := nv (decrement_refcount id) in
      if seg_ref_count segment =? 0 then
        (match seg_content_hash segment with
         | Some hash => reg (deregister_content hash id) ;;; ret tt
         | None => ret tt
         end) ;;;
        nv (remove_segment id) ;;; ret tt
      else ret tt)
    (λ _, kept rest) (kept []) p.
Proof.
  intros Hp. apply wpc_bind, wpc_nv. pose proof (decrement_effect id (lg p)) as He.
  pose proof (decrement_follows id (lg p)) as Hf.
  assert (∀ l' s, segment_map (lg p) !! id = Some s → map_follows (lg p) l' →
    log_view l' = (nv_file (lg p), <[id := unref s]> (segment_map (lg p)), next_offset (lg p)) →
    kept rest (set_lg l' p)) as Hdown.
  { intros l' s Hs Hf' Hv. eapply kept_refs; [done..| |].
    - intros Hid. pose proof (counted_refs _ p id Hp Hid) as Hr. pose proof (proj2 Hp id Hid) as Hc.
      rewrite (refs_lookup p id s Hs), ?countZ_cons, ?bool_decide_true in * by done. lia.
    - intros j Hj. rewrite countZ_cons, bool_decide_false by done. lia. }
  destruct (decrement_refcount id (lg p)) as [[s'|e| ] l']; cbn [snd] in Hf; [| |done].
  - destruct He as (s & Hs & _ & -> & Hv). pose proof (Hdown l' s Hs Hf Hv) as Hq.
    destruct (Z.eqb_spec (seg_ref_count (unref s)) 0) as [Hz|Hz]; [|done].
    apply drop_segment_kept; [done|]. destruct (K !! id) as [x|] eqn:Hx; [|done].
    pose proof (counted_refs rest _ id Hq (mk_is_Some _ _ Hx)) as Hr.
    unfold refs in Hr. injection Hv as _ Hm _. revert Hr. vs. rewrite Hm, lookup_insert_eq. lia.
  - destruct He as [Hv|(s & Hs & _ & Hv)].
    + by apply (kept_drop (id :: rest)), kept_view.
    + by eapply kept_drop, Hdown.
Qed.

Lemma delete_kept p id :
  id ≠ c → kept [] p → wpc (WritePipeline.delete_capsule id) (λ _, kept []) (kept []) p.
Proof.
  intros Hne Hp. unfold WritePipeline.delete_capsule. apply wpc_bind, wpc_reg.
  pose proof (delete_spec id (rg p)) as Hs. pose proof (delete_follows id (rg p)) as Hf.
  assert (∀ r', table_follows (rg p) r' →
    state_of r' = state_of (set_capsules (delete id (capsules (rg p))) (rg p)) →
    kept (match capsules (rg p) !! id with Some x => cap_segments x | None => [] end) (set_rg r' p)) as Hdel.
  { intros r' Hf' (Hcaps & Hn & _)%state_of_eq. simpl in Hcaps, Hn.
    eapply kept_reg; [done..|lia| |]; rewrite Hcaps.
    - destruct (kept_cap _ p Hp) as (cap' & Hc & Hsc). exists cap'. by rewrite lookup_delete_ne.
    - intros j Hj. pose proof (proj2 Hp j Hj) as Ho. rewrite countZ_nil in Ho.
      destruct (capsules (rg p) !! id) as [x|] eqn:Hx.
      + rewrite (occ_delete _ id x) in Ho by done. lia.
      + rewrite delete_id by done. by rewrite countZ_nil. }
  destruct (Registry.delete_capsule id (rg p)) as [[x|e| ] r']; cbn [snd] in Hf; [| |done].
  - destruct Hs as (Hx & _ & Hst). specialize (Hdel r' Hf Hst). rewrite Hx in Hdel.
    apply (wpc_foldM (λ (_ : unit), kept)); [|done]. intros [] j rest q _. apply release_kept.
  - by eapply kept_drop, Hdel.
Qed.

(** *** Collecting and reconciling *)
Context `{HashOrder}.

(** A call on the store of a pipeline. *)
Lemma wpc_on_store {A : Type} (m : M Store Error A) Q I p :
  wpc (on_store m) Q I p ↔
  wpc m (λ a st, Q a (mkWritePipeline st (key_manager p))) (λ st, I (mkWritePipeline st (key_manager p)))
    (store p).
Proof. unfold wpc, on_store, zoom. by destruct (m (store p)) as [[a|e| ] st]. Qed.

Lemma wpc_store_bind {A B : Type} (m : M Store Error A) (k : A → M Store Error B) Q I p :
  wpc (on_store m) (λ a, wpc (on_store (k a)) Q I) I p → wpc (on_store (bind m k)) Q I p.
Proof.
  rewrite !wpc_on_store. intros Hm. apply wpc_bind. eapply wpc_mono; [done| |done].
  intros a st. by rewrite wpc_on_store.
Qed.

Lemma reclaim_kept held p s :
  kept held p → K !! seg_id s = None → wpc (on_store (reclaim_segment s)) (λ _, kept held) (kept []) p.
Proof.
  intros Hp Hn. unfold reclaim_segment.
  assert (∀ q, kept held q →
    wpc (on_store (let! removed := on_nvram (remove_segment (seg_id s)) in
                   match removed with
                   | None => fail (MsgSegment "vanished during GC" (seg_id s))
                   | Some _ => ret tt
                   end)) (λ _, kept held) (kept []) q) as Hrm.
  { intros q Hq. apply wpc_store_bind. pose proof (remove_kept held q (seg_id s) Hq Hn) as Hr.
    unfold wpc, bind in Hr. change (on_store (on_nvram ?m)) with (nv m). unfold wpc at 1.
    destruct (nv (remove_segment (seg_id s)) q) as [[[x|]|e| ] q']; [| |done..];
      unfold wpc, on_store, zoom, ret, fail; destruct q' as [st' k']; [done|exact (kept_drop held _ Hr)]. }
  apply wpc_store_bind. destruct (seg_content_hash s) as [h|].
  - eapply (wpc_mono _ (λ _, kept held)); [|intros _ q Hq; by apply Hrm|done].
    apply wpc_store_bind. pose proof (deregister_kept held p h (seg_id s) Hp) as Hr.
    unfold wpc, bind in Hr. change (on_store (on_registry ?m)) with (reg m). unfold wpc at 1.
    by destruct (reg (deregister_content h (seg_id s)) p) as [[x|e| ] [st' k']].
  - assert (on_store (ret tt) p = (Ok tt, p)) as Hret by (by destruct p). unfold wpc at 1. rewrite Hret. by apply Hrm.
Qed.

(** Sweeping removes only segments that count no reference. *)
Lemma sweep_kept held p : kept held p → wpc garbage_collect (λ _, kept held) (kept []) p.
Proof.
  intros Hp. unfold garbage_collect, sweep. apply wpc_store_bind.
  change (on_store (on_nvram ?m)) with (nv m). apply wpc_nv. cbv [list_segments gets].
  assert (set_lg (lg p) p = p) as -> by (by destruct p as [[? ?] ?]).
  assert (∀ s, s ∈ (hash_iter (segment_map (lg p))).*2 → seg_ref_count s = 0 → K !! seg_id s = None) as Hl.
  { intros s ([k s'] & -> & Hel)%list_elem_of_fmap Hz. apply hash_iter_elem in Hel. simpl in *.
    destruct (K !! seg_id s') as [[s0 raw]|] eqn:Hx; [|done].
    pose proof (rec_key _ _ (lk_map _ _ (sv_log _ (proj1 Hp))) k s' Hel (mk_is_Some _ _ Hx)) as <-.
    destruct (saved_rec p _ s0 raw (proj1 Hp) Hx) as (s1 & Hs1 & _ & _ & ?).
    assert (s1 = s') as -> by congruence. lia. }
  apply wpc_on_store. destruct p as [st k]. cbn [store key_manager].
  apply (wpc_foldM (λ (_ : Z) _ st', kept held (mkWritePipeline st' k)) _); [|done].
  intros n s rest st' Hs Hq. destruct (Z.eqb_spec (seg_ref_count s) 0) as [He|He]; [|done].
  apply wpc_bind. pose proof (reclaim_kept held _ s Hq (Hl s Hs He)) as Hr. rewrite wpc_on_store in Hr.
  by eapply wpc_mono; [exact Hr|..].
Qed.

(** Recounting from [p]: the records visited cover the references. *)
Definition recount_kept p (rest : list Segment) q : Prop :=
  saved q ∧ rg q = rg p ∧ (counted [] p → counted [] q) ∧
  ∀ id s, is_Some (K !! id) → segment_map (lg q) !! id = Some s →
    occ (capsules (rg p)) id ≤ seg_ref_count s ∨ s ∈ rest.

Lemma recount_step_kept p n s rest q :
  (∀ s0 raw, K !! seg_id s = Some (s0, raw) → same_seal s0 s) →
  (is_Some (K !! seg_id s) → n = occ (capsules (rg p)) (seg_id s)) →
  recount_kept p (s :: rest) q →
  wpc (if negb (seg_ref_count s =? n)
       then nv (update_segment_metadata (seg_id s) (set_refs n (seg_access_count s) s)) else ret tt)
    (λ _, recount_kept p rest) (λ q', saved q' ∧ (counted [] p → counted [] q')) q.
Proof.
  intros Hseal Hn (Hq & Hrg & Hc & Hcnt).
  destruct (Z.eqb_spec (seg_ref_count s) n) as [He|He]; cbn [negb].
  - split_and!; try done. intros id s1 Hid Hs1. destruct (Hcnt id s1 Hid Hs1) as [?|[->|?]%elem_of_cons]; [by left| |by right].
    left. destruct Hid as [[s0 raw] Hk].
    destruct (saved_rec q id s0 raw Hq Hk) as (s1 & Hs1' & _ & Hsid & _).
    assert (s1 = s) as -> by congruence. rewrite Hsid in Hn. rewrite <- Hn by (by eexists). lia.
  - set (s' := set_refs _ _ s). apply wpc_nv.
    pose proof (update_effect (seg_id s) s' (lg q)) as Hu. pose proof (update_follows (seg_id s) s' (lg q)) as Hf.
    assert (∀ l', map_follows (lg q) l' →
      log_view l' = (nv_file (lg q), <[seg_id s := s']> (segment_map (lg q)), next_offset (lg q)) →
      recount_kept p rest (set_lg l' q)) as Hup.
    { intros l' Hf' Hv. pose proof Hv as [= _ Hm _].
      assert (is_Some (K !! seg_id s) → 0 < n ≤ U32_MAX) as Hpos.
      { intros Hid. rewrite (Hn Hid), <- Hrg. by apply saved_occ. }
      split_and!.
      - destruct Hq as [Hr Hl Hk]. split; [done| |done]. eapply log_keeps_follows; [done..|].
        apply recorded_insert; [apply Hl|done|]. intros s0 raw Hx. split; [by eapply Hseal|apply Hpos; by eexists].
      - done.
      - intros Hc0 id Hid. specialize (Hc Hc0 id Hid). unfold refs in *. vs. rewrite Hm.
        destruct (decide (id = seg_id s)) as [->|]; [|by rewrite lookup_insert_ne].
        rewrite lookup_insert_eq, countZ_nil, Hrg. simpl. rewrite (Hn Hid). lia.
      - intros id s1 Hid. vs. rewrite Hm. intros [[<- <-]|[Hne Hs1]]%lookup_insert_Some.
        + left. simpl. rewrite (Hn Hid). lia.
        + destruct (Hcnt id s1 Hid Hs1) as [?|[->|?]%elem_of_cons]; [by left| |by right].
          destruct Hid as [[s0 raw] Hk]. destruct (saved_rec q id s0 raw Hq Hk) as (s1 & Hs1' & _ & Hsid & _).
          congruence. }
    destruct (update_segment_metadata _ _ _) as [[u|e| ] l']; cbn [snd] in Hf; [by apply Hup| |done].
    by destruct (Hup l' Hf Hu) as (? & _ & ? & _).
Qed.

(** Reconciling makes the counts of the kept segments exact, whatever they were. *)
Lemma reconcile_kept p :
  saved p → wpc reconcile_refcounts (λ _, kept []) (λ q, saved q ∧ (counted [] p → counted [] q)) p.
Proof.
  intros Hp. unfold reconcile_refcounts. apply wpc_bind. unfold wpc at 1, gets at 1.
  apply wpc_bind, wpc_nv. cbv [list_segments gets].
  assert (set_lg (lg p) p = p) as -> by (by destruct p as [[? ?] ?]).
  fold (rg p). set (counts := count_refs (rg p)).
  assert (∀ s, is_Some (K !! seg_id s) →
    default 0 (counts !! seg_id s) = occ (capsules (rg p)) (seg_id s)) as Hcount.
  { intros s Hid. pose proof (saved_occ p _ Hp Hid). apply (count_refs_spec (rg p)). lia. }
  apply wpc_bind. eapply wpc_mono.
  - apply (wpc_foldM (λ (_ : unit), recount_kept p)).
    + intros [] s rest q Hs. cbv zeta. apply recount_step_kept; [|apply Hcount].
      intros s0 raw Hx. apply list_elem_of_fmap in Hs as ([k s'] & -> & Hel). apply hash_iter_elem in Hel. simpl in *.
      pose proof (rec_key _ _ (lk_map _ _ (sv_log _ Hp)) k s' Hel (mk_is_Some _ _ Hx)) as <-.
      destruct (saved_rec p _ s0 raw Hp Hx) as (s1 & Hs1 & Hss & _). congruence.
    + split; [done|]. split; [done|]. split; [done|]. intros id s Hid Hs. right.
      apply list_elem_of_fmap. exists (id, s). split; [done|]. by apply hash_iter_elem.
  - intros [] q (Hq & Hrg & _ & Hcnt). apply wpc_bind.
    assert (kept [] q) as Hk.
    { split; [done|]. intros id Hid. rewrite countZ_nil, Hrg. destruct Hid as [[s0 raw] Hx].
      destruct (saved_rec q id s0 raw Hq Hx) as (s & Hs & _). rewrite (refs_lookup _ _ _ Hs).
      destruct (Hcnt id s ltac:(by eexists) Hs) as [?|[]%elem_of_nil]. lia. }
    eapply wpc_mono; [by apply (sweep_kept [])|done|]. by intros q' [].
  - done.
Qed.

(** *** Reading *)
Lemma kept_after held p p' : kept held p → after_read p p' → kept held p'.
Proof.
  intros [[Hr Hl [Hk _]] Hc] ((Hrg & Hv & Hm & _) & Hk' & Hko).
  assert (map_follows (lg p) (lg p')) as Hf by (left; unfold map_on_disk; by rewrite Hm).
  pose proof Hv as [= _ Hmap _]. split.
  - split; [by rewrite Hrg| |].
    + eapply log_keeps_follows; [done..|apply Hl].
    + split; [|done]. destruct km, (key_manager p), (key_manager p'); try done.
      destruct Hk, Hk'. split; congruence.
  - intros id Hid. specialize (Hc id Hid). unfold refs in *. by rewrite Hrg, Hmap.
Qed.
End pipeline_keeps.

(** ** Reading leaves the tables alone, whatever is read *)
Section read_frame.
Context {JR : JsonDoc RegistryState} {JN : JsonDoc SegmentMap} `{Crates}.
Implicit Types p : WritePipeline.

Definition framed {A : Type} (m : M WritePipeline Error A) : Prop :=
  ∀ p, keys_ok p → wpc m (λ _, after_read p) (after_read p) p.

Lemma framed_bind {A B : Type} (m : M WritePipeline Error A) (k : A → M WritePipeline Error B) :
  framed m → (∀ a, framed (k a)) → framed (bind m k).
Proof.
  intros Hm Hk p Hp. apply wpc_bind. eapply wpc_mono; [by apply Hm| |done].
  intros a q Hq. simpl in Hq. eapply wpc_mono; [apply Hk, Hq|..]; simpl; [intros b r Hr|intros r Hr]; by apply (after_read_trans p q r).
Qed.

Lemma framed_pure {A : Type} (f : WritePipeline → Res Error A) : framed (λ p, (f p, p)).
Proof. intros p Hp. unfold wpc. destruct (f p); by apply after_read_refl. Qed.

Lemma framed_foldM {A B : Type} (f : B → A → M WritePipeline Error B) l :
  (∀ b x, framed (f b x)) → ∀ b, framed (foldM f b l).
Proof.
  intros Hf. induction l as [|x l IH]; intros b; [apply (framed_pure (λ _, Ok b))|].
  simpl. apply framed_bind; [apply Hf|apply IH].
Qed.

Lemma framed_reg {A : Type} (f : CapsuleRegistry → Res Error A) : framed (reg (λ r, (f r, r))).
Proof.
  intros p Hp. apply wpc_reg. assert (set_rg (rg p) p = p) as -> by (by destruct p as [[? ?] ?]).
  destruct (f (rg p)); by apply after_read_refl.
Qed.

Lemma framed_read id : framed (nv (read id)).
Proof.
  intros p Hp. apply wpc_nv.
  assert (∀ l', log_view l' = log_view (lg p) → nv_metadata l' = nv_metadata (lg p) →
    (nv_faults (lg p) = [] → nv_faults l' = []) → after_read p (set_lg l' p)) as Hl by (intros; by split).
  assert (nv_faults (lg p) = [] → nv_faults (snd (read id (lg p))) = []) as Hq.
  { intros Hf. unfold read, bind, gets, lift. destruct (segment_map (lg p) !! id) as [s|]; cbn [ok_or]; [|done].
    rewrite nv_io_ok by done. unfold nv_read_exact, bind. rewrite nv_io_ok by done. unfold gets, lift.
    by destruct (read_at _ _ _). }
  pose proof (read_effect id (lg p)) as He. destruct (read id (lg p)) as [[d|e| ] l']; [| |done].
  - destruct He as (_ & ? & ?). by apply Hl.
  - destruct He as [? ?]. by apply Hl.
Qed.

Lemma framed_get_key v : framed (on_km (get_key v)).
Proof.
  intros p Hp. unfold wpc, on_km. destruct (key_manager p) as [m|] eqn:Hm; [|by apply after_read_refl].
  pose proof (get_key_eq m v (Hp m Hm)) as Hg.
  destruct (get_key v m) as [r m']. destruct Hg as (_ & Hco & Hmk & Hs & _).
  assert (after_read p (set_km m' p)) as Ha.
  { split; [done|]. split; [by rewrite Hm|]. by intros ? [= <-]. }
  by destruct r.
Qed.

Lemma framed_decrypt s raw : framed (decrypt_raw s raw).
Proof.
  unfold decrypt_raw. destruct (seg_encrypted s); [|apply (framed_pure (λ _, Ok raw))].
  apply framed_bind; [apply (framed_pure (λ p, Ok (key_manager p)))|]. intros k.
  apply framed_bind; [apply (framed_pure (λ _, ok_or k _))|]. intros _.
  apply framed_bind; [apply (framed_pure (λ _, ok_or (seg_key_version s) _))|]. intros v.
  apply framed_bind; [apply framed_get_key|]. intros kp.
  apply framed_bind; [apply (framed_pure (λ _, res_map_err OfEncryption (verify_mac _ _ _ _)))|]. intros _.
  apply (framed_pure (λ _, res_map_err OfEncryption (decrypt_segment _ _ _))).
Qed.

Lemma framed_read_capsule id : framed (read_capsule id).
Proof.
  unfold read_capsule.
  apply framed_bind; [apply (framed_reg (λ r, ok_or (capsules r !! id) _))|]. intros x.
  apply framed_foldM. intros b j. apply framed_bind.
  - apply framed_bind; [apply framed_read|]. intros raw.
    apply framed_bind; [|intros s; apply framed_bind; [apply framed_decrypt|]].
    + intros p Hp. apply wpc_nv. unfold get_segment_metadata, bind, gets, lift.
      assert (set_lg (lg p) p = p) as -> by (by destruct p as [[? ?] ?]).
      destruct (segment_map (lg p) !! j); by apply after_read_refl.
    + intros d. apply (framed_pure (λ _, decompress_for _ _)).
  - intros d. apply (framed_pure (λ _, Ok (b ++ d))).
Qed.
End read_frame.

(** ** Starting again *)
Section restart.
Context {JR : JsonDoc RegistryState} {JN : JsonDoc SegmentMap}.
Context `{!TornDoc RegistryState} `{!TornDoc SegmentMap} `{Crates} `{HashOrder}.
Implicit Types p : WritePipeline.

(** The next process opens the files as [p] left them, with a key manager that derives the
    same keys, and builds its pipeline.  [new] reconciles and ignores the outcome [res]. *)
Definition restart (res : Res Error unit) p p' : Prop :=
  ∃ rfs nfs r l km,
    reg_open (reg_metadata (rg p)) rfs = Ok r ∧
    nv_open (nv_file (lg p)) (nv_metadata (lg p)) nfs = Ok l ∧
    same_keys (key_manager p) km ∧ (∀ m, km = Some m → cache_coherent m) ∧
    fst (reconcile_refcounts (mkWritePipeline (mkStore r l) km)) = res ∧
    WritePipeline_new r l km = (Ok tt, p').

(** One event in the life of a store: a client call, whatever it returns and whatever it
    writes, or the end of the process and a new start whose reconciliation succeeds.  Nobody
    deletes [keep]. *)
Inductive life_step (keep : CapsuleId) : WritePipeline → WritePipeline → Prop :=
| life_write id now data policy p r p' :
    fits data p → write_capsule_with_policy id now data policy p = (r, p') → life_step keep p p'
| life_read id p r p' : read_capsule id p = (r, p') → life_step keep p p'
| life_range id off len p r p' : read_range id off len p = (r, p') → life_step keep p p'
| life_delete id p r p' :
    id ≠ keep → WritePipeline.delete_capsule id p = (r, p') → life_step keep p p'
| life_gc p r p' : garbage_collect p = (r, p') → life_step keep p p'
| life_reconcile p r p' : reconcile_refcounts p = (r, p') → life_step keep p p'
| life_keys p m m' :
    key_manager p = Some m → km_step m m' → life_step keep p (mkWritePipeline (store p) (Some m'))
| life_restart p p' : restart (Ok tt) p p' → life_step keep p p'.

Section kept.
Context (K : gmap SegmentId (Segment * bytes)) (c : CapsuleId) (cap : Capsule) (km : option KeyManager).
Context (HK : ∀ id, is_Some (K !! id) ↔ id ∈ cap_segments cap).

Lemma saved_reopen p rfs nfs r l k :
  saved K c cap km p → reg_open (reg_metadata (rg p)) rfs = Ok r →
  nv_open (nv_file (lg p)) (nv_metadata (lg p)) nfs = Ok l →
  same_keys (key_manager p) k → (∀ m, k = Some m → cache_coherent m) →
  saved K c cap km (mkWritePipeline (mkStore r l) k).
Proof.
  intros [[Hr Hrd] [Hm Hd Hf] [Hk _]] (Ht & Hrm)%reg_open_disk (Hmd & Hnf & Hno & Hnm)%nv_open_disk Hk' Hco.
  split.
  - split; [by apply Hrd|]. unfold rg; cbn [store registry]. intros st. unfold table_on_disk. rewrite Hrm. apply Hrd.
  - split; unfold lg; cbn [store nvram].
    + by apply Hd.
    + intros m. unfold map_on_disk. rewrite Hnm. apply Hd.
    + unfold in_file. rewrite Hnf, Hno. destruct Hf as [Hn Hf]. split; [lia|].
      intros id s0 raw Hid. destruct (Hf id s0 raw Hid) as (? & ? & ? & ?). split_and!; [done..|lia|done].
  - split; [|exact Hco]. cbn [key_manager]. destruct km, (key_manager p), k; try done.
    destruct Hk, Hk'. split; congruence.
Qed.

Lemma restart_kept res p p' :
  saved K c cap km p → restart res p p' →
  saved K c cap km p' ∧ (res = Ok tt → kept K c cap km [] p').
Proof.
  intros Hp (rfs & nfs & r & l & k & Hro & Hno & Hk & Hco & Hres & Hnew).
  pose proof (saved_reopen p rfs nfs r l k Hp Hro Hno Hk Hco) as Hs.
  pose proof (reconcile_kept K c cap km HK _ Hs) as Hw. unfold wpc in Hw.
  unfold WritePipeline_new, bind, attempt, ret in Hnew.
  destruct (reconcile_refcounts _) as [[u|e| ] q]; cbn [fst] in Hres; [| |done]; injection Hnew as <-.
  - split; [apply Hw|done].
  - split; [apply Hw|]. by intros ->.
Qed.

Lemma restarts_saved p p' :
  saved K c cap km p → rtc (λ q q', ∃ res, restart res q q') p p' → saved K c cap km p'.
Proof.
  intros Hp Hs. induction Hs as [|p p1 p2 [res Hr] _ IH]; [done|]. apply IH. exact (proj1 (restart_kept res p p1 Hp Hr)).
Qed.

Lemma life_step_kept `{!XtsLaws} p p' :
  kept K c cap km [] p → life_step c p p' → kept K c cap km [] p'.
Proof.
  intros Hp Hstep. destruct Hstep as
    [id now d policy p r p' Hf Hw|id p r p' Hr|id off len p r p' Hr|id p r p' Hne Hd
    |p r p' Hgc|p r p' Hrec|p m m' Hm Hkm|p p' Hre].
  - eapply wpc_state; [by apply (write_kept K c cap km HK)|done].
  - eapply kept_after; [done|]. eapply wpc_state; [|done]. apply framed_read_capsule, Hp.
  - apply read_range_state in Hr as [->|[r' Hr]]; [done|].
    eapply kept_after; [done|]. eapply wpc_state; [|done]. apply framed_read_capsule, Hp.
  - eapply wpc_state; [by apply (delete_kept K c cap km HK)|done].
  - eapply wpc_state; [by apply (sweep_kept K c cap km HK)|done].
  - pose proof (reconcile_kept K c cap km HK p (proj1 Hp)) as Hw. unfold wpc in Hw. rewrite Hrec in Hw.
    destruct r; [done|..]; destruct Hw as [Hs Hc]; split; [done|by apply Hc, Hp|done|by apply Hc, Hp].
  - destruct (km_step_coherent m m' Hkm (proj2 (sv_keys _ _ _ _ _ (proj1 Hp)) m Hm)) as (Hco & Hmk & Hs).
    by apply (kept_km K c cap km [] p m m').
  - by apply (restart_kept (Ok tt) p p' (proj1 Hp)).
Qed.

Lemma life_kept `{!XtsLaws} p p' :
  kept K c cap km [] p → rtc (life_step c) p p' → kept K c cap km [] p'.
Proof. intros Hp Hs. induction Hs as [|p p1 p2 Hstep _ IH]; [done|]. apply IH. by eapply life_step_kept. Qed.

(** The kept segments unseal, with these keys, to a capsule that reads as [data]. *)
Definition seals_as (data : bytes) : Prop :=
  cap_size cap = lenZ data ∧ ∃ outs, concat outs = data ∧
    Forall2 (λ id out, ∃ s0 raw d, K !! id = Some (s0, raw) ∧ unseal km s0 raw = Some d ∧
      decompress_for (compression (cap_policy cap)) d = Ok out) (cap_segments cap) outs.

Lemma saved_reads p data : saved K c cap km p → seals_as data → capsule_reads p cap data.
Proof.
  intros Hp (Hsz & outs & Hd & Ho). split; [done|]. exists outs. split; [|done].
  eapply Forall2_impl; [done|]. intros id out (s0 & raw & d & Hid & Hu & Hdec).
  destruct (saved_rec K c cap km p id s0 raw Hp Hid) as (s & Hs & Hss & _).
  exists d, (seg_content_hash s). split; [|done]. unfold content. rewrite Hs. cbn [mbind option_bind].
  rewrite (segment_bytes_lookup _ _ s Hs). destruct Hss as (He & Hv & Hk & Ht & Hi & Hh & Hof & Hle).
  destruct (proj2 (lk_file _ _ (sv_log _ _ _ _ _ Hp)) id s0 raw Hid) as (_ & _ & _ & Hraw).
  rewrite Hof, Hle, Hraw. cbn [mbind option_bind].
  rewrite (unseal_keys km (key_manager p) s raw) by apply (sv_keys _ _ _ _ _ Hp).
  by rewrite (unseal_same km s0 s raw), Hu.
Qed.

Lemma saved_read p data :
  saved K c cap km p → seals_as data →
  wp (read_capsule c) (λ out _, out = data) (λ _ _, nv_faults (lg p) ≠ []) p.
Proof.
  intros Hp Hd. pose proof Hp as [[Hl _] _ [_ Hko]]. destruct (li_cap _ _ _ Hl) as (cap' & Hc & Hs & Hz & Hpol).
  eapply wp_mono; [apply (read_run p c cap' data Hko Hc)|..].
  - destruct (saved_reads p data Hp Hd) as [Hsz Ho]. unfold capsule_reads. by rewrite Hs, Hz, Hpol.
  - by intros out q [-> _].
  - by intros e q [_ ?].
Qed.
End kept.

(** *** From the state a write leaves *)
Definition kept_of p (cap : Capsule) : gmap SegmentId (Segment * bytes) :=
  map_imap (λ id s, if bool_decide (id ∈ cap_segments cap) then pair s <$> segment_bytes (lg p) id else None)
    (segment_map (lg p)).

Lemma kept_of_Some p cap id s0 raw :
  kept_of p cap !! id = Some (s0, raw) ↔
  id ∈ cap_segments cap ∧ segment_map (lg p) !! id = Some s0 ∧ segment_bytes (lg p) id = Some raw.
Proof.
  unfold kept_of. rewrite map_lookup_imap.
  destruct (segment_map (lg p) !! id) as [s|]; cbn; [|split; [done|by intros (_ & ? & _)]].
  case_bool_decide; [|split; [done|by intros [? _]]].
  destruct (segment_bytes (lg p) id); cbn; [|split; [done|by intros (_ & _ & ?)]].
  split; [by intros [= <- <-]|by intros (_ & [= <-] & [= <-])].
Qed.

Lemma kept_start D G p c cap data :
  pipe_inv D [] G p → capsules (rg p) !! c = Some cap → capsule_reads p cap data →
  reg_synced (rg p) → cap_segments cap = [] ∨ synced (lg p) →
  (∀ id, is_Some (kept_of p cap !! id) ↔ id ∈ cap_segments cap) ∧
  kept (kept_of p cap) c cap (key_manager p) [] p ∧ seals_as (kept_of p cap) cap (key_manager p) data.
Proof.
  intros Hi Hc (Hsz & outs & Ho & Hd) Hrs Hns. set (K := kept_of p cap).
  assert (∀ id, id ∈ cap_segments cap → ∃ s0 raw, K !! id = Some (s0, raw)) as Hin.
  { intros id [i Hid]%list_elem_of_lookup. destruct (Forall2_lookup_l _ _ _ _ _ Ho Hid) as (out & _ & d & h & Hcon & _).
    unfold content in Hcon. destruct (segment_map (lg p) !! id) as [s|] eqn:Hs; [|done].
    destruct (segment_bytes (lg p) id) as [raw|] eqn:Hb; [|done]. exists s, raw. apply kept_of_Some.
    split; [by eapply list_elem_of_lookup_2|done]. }
  assert (∀ id, is_Some (K !! id) ↔ id ∈ cap_segments cap) as HK.
  { intros id. split; [intros [[s0 raw] Hk]; by apply kept_of_Some in Hk as [? _]|].
    intros Hid. destruct (Hin id Hid) as (s0 & raw & ->). by eexists. }
  assert (recorded K (segment_map (lg p))) as Hrec.
  { split.
    - intros id s0 raw (Hid & Hs & _)%kept_of_Some. exists s0. split; [done|]. split; [done|].
      destruct (pi_ids _ _ _ _ Hi id s0 Hs) as [Hsid _]. split; [done|].
      pose proof (pi_refs _ _ _ _ Hi id) as Hr. pose proof (refs_u32 _ _ _ _ id Hi).
      rewrite (refs_lookup p id s0 Hs) in *. pose proof (occ_elem _ c cap id Hc Hid). rewrite countZ_nil in Hr. lia.
    - intros k s Hs _. by apply (pi_ids _ _ _ _ Hi). }
  assert (listed c cap (state_of (rg p))) as Hli.
  { split; [by exists cap|by apply Hi| |].
    - intros id (s0 & raw & (_ & Hs & _)%kept_of_Some)%Hin. by apply (pi_ids _ _ _ _ Hi id s0).
    - intros id _. by apply (occ_u32 D G). }
  split; [done|]. split; [split; [split|]|].
  - split; [done|]. unfold table_on_disk. rewrite Hrs, of_to_doc. by intros st [= <-].
  - split; [done| |].
    + unfold map_on_disk. destruct Hns as [Hnil|Hns].
      * intros m _. assert (∀ id, K !! id = None) as Hnone.
        { intros id. apply eq_None_not_Some. rewrite HK, Hnil. apply not_elem_of_nil. }
        split; [intros id s0 raw|intros k s _]; rewrite Hnone; [done|by intros []%is_Some_None].
      * rewrite Hns, of_to_doc. by intros m [= <-].
    + destruct (pi_log _ _ _ _ Hi) as [[Hn Hwf] Hle]. split; [done|].
      intros id s0 raw (_ & Hs & Hb)%kept_of_Some. rewrite (segment_bytes_lookup _ _ s0 Hs) in Hb.
      destruct (Hwf id s0 Hs) as (? & ? & ? & _). done.
  - split; [done|]. exact (pi_key _ _ _ _ Hi).
  - intros id _. apply Hi.
  - split; [done|]. exists outs. split; [done|]. apply Forall2_same_length_lookup.
    apply Forall2_same_length_lookup in Ho as [Hlen Ho]. split; [done|]. intros i id out Hid Hout.
    destruct (Ho i id out Hid Hout) as (d & h & Hcon & Hdec).
    destruct (Hin id (list_elem_of_lookup_2 _ _ _ Hid)) as (s0 & raw & Hk). exists s0, raw, d.
    split; [done|]. split; [|done]. apply kept_of_Some in Hk as (_ & Hs & Hb).
    unfold content in Hcon. rewrite Hs, Hb in Hcon. cbn [mbind option_bind] in Hcon.
    destruct (unseal (key_manager p) s0 raw); [|done]. by injection Hcon as ->.
Qed.

(** *** A successful write has saved both files *)
Lemma map_err_nv_synced {A : Type} (m : M NvramLog Error A) (g : Error → Error) p a q :
  (∀ l x l', m l = (Ok x, l') → synced l') → map_err g (nv m) p = (Ok a, q) → synced (lg q).
Proof.
  intros Hm. unfold map_err, nv, on_store, on_nvram, zoom. fold (lg p).
  destruct (m (lg p)) as [[x|e| ] l'] eqn:Hr; [|done..]. intros [= _ <-]. by eapply Hm.
Qed.

Lemma save_map_synced l u l' : save_segment_map l = (Ok u, l') → synced l'.
Proof. unfold save_segment_map. destruct (next_fault (nv_faults l)) as [[k|] fs]; [done|]. by intros [= _ <-]. Qed.

Lemma write_new_synced data cr hash meta p id q :
  write_new_segment data cr hash meta p = (Ok id, q) → synced (lg q).
Proof.
  unfold write_new_segment. intros (i & p1 & _ & (s & p2 & _ & (u & p3 & Hu & [= _ <-])%bind_Ok)%bind_Ok)%bind_Ok.
  eapply map_err_nv_synced; [|exact Hu]. intros l x l'. unfold update_segment_metadata, bind, modify.
  apply save_map_synced.
Qed.

Lemma place_synced policy h final cr meta st p x q :
  place_segment policy h final cr meta st p = (Ok x, q) → synced (lg q).
Proof.
  unfold place_segment. destruct (dedupe policy).
  2:{ intros (i & p1 & Hw & [= _ <-])%bind_Ok. by eapply write_new_synced. }
  intros (o & p1 & _ & Hk)%bind_Ok. destruct o as [id|].
  - apply bind_Ok in Hk as (s & p2 & Hi & [= _ <-]). eapply map_err_nv_synced; [|exact Hi].
    intros l y l'. unfold increment_refcount, bind, gets, lift, modify, ret.
    destruct (segment_map l !! id); cbn [ok_or]; [|done].
    destruct (save_segment_map _) as [[u|e| ] l1] eqn:Hs; [|done..]. intros [= _ <-]. by eapply save_map_synced.
  - apply bind_Ok in Hk as (i & p2 & Hw & (u & p3 & Hr & [= _ <-])%bind_Ok).
    apply write_new_synced in Hw. revert Hr. unfold map_err, reg, on_store, on_registry, zoom.
    destruct (register_content _ _ _) as [[v|e| ] r']; [|done..]. by intros [= _ <-].
Qed.

Lemma write_chunk_synced policy enc i ids st chunk p acc q :
  write_chunk policy enc (i, ids, st) chunk p = (Ok acc, q) → synced (lg q).
Proof.
  unfold write_chunk. intros ([v r] & p1 & _ & ([f m] & p2 & _ & ([id st'] & p3 & Hp & [= _ <-])%bind_Ok)%bind_Ok)%bind_Ok.
  by eapply place_synced.
Qed.

Lemma loop_synced policy enc cs acc p acc' q :
  foldM (write_chunk policy enc) acc cs p = (Ok acc', q) →
  acc.1.2 = [] ∨ synced (lg p) → acc'.1.2 = [] ∨ synced (lg q).
Proof.
  revert acc p. induction cs as [|x cs IH]; intros acc p; simpl; [by intros [= <- <-]|].
  intros (acc1 & p1 & Hw & Hrest)%bind_Ok _. eapply IH; [exact Hrest|]. right.
  destruct acc as [[i ids] st]. by eapply write_chunk_synced.
Qed.

Lemma write_synced c now data policy p c' q :
  write_capsule_with_policy c now data policy p = (Ok c', q) →
  ∃ cap, capsules (rg q) !! c = Some cap ∧ reg_synced (rg q) ∧
    (cap_segments cap = [] ∨ synced (lg q)).
Proof.
  unfold write_capsule_with_policy.
  intros (k & p1 & [= <- <-] & ([[i ids] st] & p2 & Hloop & (u & p3 & Hadd & (v & p4 & Hc & [= _ <-])%bind_Ok)%bind_Ok)%bind_Ok)%bind_Ok.
  apply loop_synced in Hloop; [|by left]. cbn [fst snd] in Hloop.
  assert (lg p3 = lg p2) as Hl.
  { destruct (0 <? bytes_saved st); [|by injection Hadd as _ <-]. revert Hadd.
    unfold map_err, reg, on_store, on_registry, zoom, add_deduped_bytes, modify. by intros [= _ <-]. }
  revert Hc. unfold map_err, reg, on_store, on_registry, zoom.
  pose proof (create_spec now c (lenZ data) ids policy (registry (store p3))) as Hs.
  destruct (create_capsule_with_segments _ _ _ _ _ _) as [[w|e| ] r']; [|done..].
  destruct Hs as (t & _ & _ & Hsync & (Hcaps & _)%state_of_eq). simpl in Hcaps. intros [= _ <-].
  exists (mkCapsule c (lenZ data) ids t policy 0). split; [|split; [done|]].
  - unfold rg. cbn [store registry]. by rewrite Hcaps, lookup_insert_eq.
  - cbn [cap_segments]. unfold lg. cbn [store nvram]. fold (lg p3). by rewrite Hl.
Qed.
End restart.
