(* ===== verification/RecoveryTheorems.v ===== *)
(** What survives a crash, on the invariants of Recovery.v, and what does not. *)
From S2P Require Import Prelude Errors Common Externals.
From S2P Require Nvram Compression KeyManager Encryption Dedup Registry Gc WritePipeline.
From S2P Require PipelineInvariant PipelineTheorems Recovery.
Import Nvram Compression KeyManager Encryption Registry Gc WritePipeline PipelineInvariant.
Import PipelineTheorems Recovery.

Section recovery_properties.
Context {JR : JsonDoc RegistryState} {JN : JsonDoc SegmentMap}.
Context `{!TornDoc RegistryState} `{!TornDoc SegmentMap} `{Crates} `{!XtsLaws} `{HashOrder}.
Implicit Types p : WritePipeline.

End recovery_properties.

(** ** Witness and counterexamples on the toy crates *)
Section recovery_witnesses.
#[local] Existing Instance toy_crates.
#[local] Existing Instance toy_XtsLaws.
#[local] Existing Instance listed_order.
#[local] Existing Instance toy_state_doc.
#[local] Existing Instance toy_map_doc.

Lemma toy_torn (T : Type) : @TornDoc T (plain_doc T).
Proof. split. intros k t. by left. Qed.
#[local] Instance toy_torn_state : TornDoc RegistryState := toy_torn RegistryState.
#[local] Instance toy_torn_map : TornDoc SegmentMap := toy_torn SegmentMap.

(** The next process over the files of [p], without keys, with the result of its
    reconciliation. *)
Definition start_again (rfs nfs : faults) (p : WritePipeline) : Res Error (Res Error unit * WritePipeline) :=
  let? r := reg_open (reg_metadata (rg p)) rfs in
  let? l := nv_open (nv_file (lg p)) (nv_metadata (lg p)) nfs in
  match WritePipeline_new r l None with
  | (Ok _, q) => Ok (fst (reconcile_refcounts (mkWritePipeline (mkStore r l) None)), q)
  | _ => Panic
  end.

Definition started (rfs nfs : faults) (p : WritePipeline) : WritePipeline :=
  match start_again rfs nfs p with
  | Ok (_, q) => q
  | _ => p
  end.

Definition starts (rfs nfs : faults) (p : WritePipeline) : bool :=
  bool_decide (is_Some (key_manager p)) || negb (is_ok (start_again rfs nfs p)).

Definition start_result (rfs nfs : faults) (p : WritePipeline) : bool :=
  match start_again rfs nfs p with
  | Ok (res, _) => is_ok res
  | _ => false
  end.

Lemma started_restart rfs nfs p :
  starts rfs nfs p = false →
  ∃ res, is_ok res = start_result rfs nfs p ∧ restart res p (started rfs nfs p).
Proof.
  unfold starts, started, start_result, start_again. intros [Hk Hok]%orb_false_elim.
  apply bool_decide_eq_false, eq_None_not_Some in Hk.
  destruct (reg_open _ rfs) as [r|e| ] eqn:Hr; [|done..]. cbn [res_bind] in *.
  destruct (nv_open _ _ nfs) as [l|e| ] eqn:Hl; [|done..]. cbn [res_bind] in *.
  destruct (WritePipeline_new r l None) as [[[]|e| ] q] eqn:Hn; [|done..].
  exists (fst (reconcile_refcounts (mkWritePipeline (mkStore r l) None))).
  split; [done|]. exists rfs, nfs, r, l, None. by rewrite Hk.
Qed.

Lemma started_life keep rfs nfs p :
  starts rfs nfs p = false → start_result rfs nfs p = true → life_step keep p (started rfs nfs p).
Proof.
  intros Hs Hr. destruct (started_restart rfs nfs p Hs) as (res & Hres & Hst). rewrite Hr in Hres.
  destruct res as [[]|e| ]; [|done..]. by apply life_restart.
Qed.

Lemma started_any rfs nfs p :
  starts rfs nfs p = false → rtc (λ q q', ∃ res, restart res q q') p (started rfs nfs p).
Proof. intros (res & _ & Hst)%started_restart. apply rtc_once. by exists res. Qed.

(** A first write, then a second one during which the process dies while it writes its
    bytes; everything it tries afterwards fails.  The next process reconciles; the one
    after it does not get that far. *)
Definition crash_pipeline : WritePipeline :=
  empty_pipeline None (replicate 5 None ++ [None; Some 2] ++ replicate 9 (Some (-1))).
Definition crash1 := write_capsule_with_policy cap_a (Some 1) text Policy_default crash_pipeline.
Definition crash2 := write_capsule_with_policy cap_b (Some 2) text precompressed (snd crash1).
Definition crash3 := started [] [] (snd crash2).
Definition crash4 := started [] [None; None; None; Some (-1)] crash3.


(** The registry file is written in place.  A process that dies while it writes the file
    leaves one that does not parse, and the next process cannot open the registry: a capsule
    stored long before is out of reach with the rest ([CapsuleRegistry::new] panics). *)
Definition torn_pipeline : WritePipeline :=
  mkWritePipeline (mkStore (mkCapsuleRegistry ∅ 0 ∅ None [None; None; Some 10]) (mkNvramLog [] ∅ 0 None []))
    None.
Definition torn1 := write_capsule_with_policy cap_a (Some 1) text Policy_default torn_pipeline.
Definition torn2 := write_capsule_with_policy cap_b (Some 2) text Policy_default (snd torn1).

Example torn_registry_stops_the_store :
  fst torn1 = Ok cap_a ∧ is_ok (fst torn2) = false ∧ start_again [] [] (snd torn2) = Err JsonFailed.
Proof. split; [|split]; vm_compute; reflexivity. Qed.

(** A deletion takes the content hash out of the table before the save that fails; the
    segment stays without references and the next collection removes it without touching
    the registry file, which still has the hash.  After a restart every write of that
    content finds the hash and fails: the segment it names is gone. *)
Definition stale_pipeline : WritePipeline :=
  mkWritePipeline
    (mkStore (mkCapsuleRegistry ∅ 0 ∅ None [None; None; None; Some (-1)]) (mkNvramLog [] ∅ 0 None [])) None.
Definition stale1 := write_capsule_with_policy cap_a (Some 1) text Policy_default stale_pipeline.
Definition stale2 := WritePipeline.delete_capsule cap_a (snd stale1).
Definition stale3 := garbage_collect (snd stale2).
Definition stale4 := started [] [] (snd stale3).

Example stale_hash_poisons_the_content :
  fst stale1 = Ok cap_a ∧ is_ok (fst stale2) = false ∧ fst stale3 = Ok 1 ∧
  starts [] [] (snd stale3) = false ∧ start_result [] [] (snd stale3) = true ∧ refs_exact stale4 ∧
  fst (write_capsule_with_policy cap_b (Some 2) text Policy_default stale4) =
    Err (OfPipeline (PeNvram "increment_refcount" (MsgSegment "Segment not found" (mkSegmentId 0)))).
Proof.
  do 5 (split; [vm_compute; reflexivity|]). split; [|vm_compute; reflexivity].
  intros id. vm_compute. split; [done|]. split; [by intros [? ?]|done].
Qed.
End recovery_witnesses.
