(* ===== verification/AsyncPipeline.v ===== *)
(** Crate [capsule-registry], crates/capsule-registry/src/pipeline.rs: the write path of
    the builds with the [pipeline_async] feature (without [modular_pipeline],
    [advanced-security] and [podms]).

    One task per chunk compresses and encrypts its chunk on the blocking pool and sends
    the result over a channel; a coordinator, the call itself, receives the results in
    any order, puts them back in order and stages them in a transaction of the log.
    What the scheduler may do next is an [Event]; [async_step] performs it where it is
    possible.  A task touches shared state once, while it holds the lock of the key
    manager; the coordinator alone touches the registry, the log and the transaction.
    The durations and byte totals that are only logged are left out.  Another call on the
    same pipeline in the middle of a write is not among the events; the theorem on
    overlapping writes composes the pieces by hand. *)
From S2P Require Import Prelude Errors Common Externals.
From S2P Require Nvram Compression KeyManager Encryption Dedup Registry Gc WritePipeline.
Import Nvram Compression KeyManager Encryption Registry Gc WritePipeline.

Section async_pipeline.
Context {JR : JsonDoc RegistryState} {JN : JsonDoc SegmentMap} `{Crates}.

Record PipelineConfig := mkPipelineConfig {
  max_concurrency : Z;
  memory_limit_per_task : Z;
  use_transactions : bool;
}.

(** [impl Default], on a machine with that many processors. *)
Definition PipelineConfig_default (num_cpus : Z) : PipelineConfig :=
  mkPipelineConfig (Z.max 1 (num_cpus / 2)) (2 ^ 30) false.

Record SegmentPrepared := mkSegmentPrepared {
  sp_index : nat;
  sp_content_hash : ContentHash;
  sp_final_data : bytes;
  sp_comp_result : CompressionResult;
  sp_encryption_meta : option EncryptionMetadata;
}.

Inductive WriteDisposition := NewSegment | ReusedPersistent | ReusedStaged.

(** *** A task *)

(** The error of [compress_segment], seen from a task. *)
Definition task_compression_error (index : nat) (err : Error) : PipelineError :=
  match downcast_compression err with
  | Some comp_err => PeCompression (Z.of_nat index) comp_err
  | None => PeRegistry "compress_segment" err
  end.

(** The block that holds the key manager's lock. *)
Definition encrypt_locked (content_hash : ContentHash) (compressed_data : bytes) :
    M KeyManager PipelineError (bytes * EncryptionMetadata) :=
  let! key_version := gets current_version in
  let! key_pair := map_err (λ e, PeRegistry "get_key" (OfEncryption e)) (get_key key_version) in
  let tweak := derive_tweak_from_hash (string_bytes (as_str content_hash)) in
  let! (ciphertext, enc_meta) := lift (res_map_err PeEncryption
    (encrypt_segment compressed_data key_pair key_version tweak)) in
  let! mac_tag := lift (res_map_err PeEncryption
    (compute_mac ciphertext enc_meta (key1 key_pair) (key2 key_pair))) in
  ret (ciphertext, set_integrity_tag mac_tag enc_meta).

Definition prepare_segment (index : nat) (chunk : bytes) (policy : Policy) :
    M (option KeyManager) PipelineError SegmentPrepared :=
  let! (view, comp_result) := lift (res_map_err (task_compression_error index)
    (compress_segment chunk (compression policy))) in
  let content_hash := Dedup.hash_content (as_ref view) in
  let! key_manager := gets (λ km, km) in
  let encryption_enabled := is_enabled (encryption policy) && bool_decide (is_Some key_manager) in
  if encryption_enabled then
    let! km := lift (ok_or key_manager
      (PeRegistry "key_manager" (Msg "Key manager unavailable for encryption"))) in
    let! (ciphertext, m) :=
      zoom (λ _, km) (λ km' _, Some km') (encrypt_locked content_hash (as_ref view)) in
    ret (mkSegmentPrepared index content_hash ciphertext comp_result (Some m))
  else
    let final_data := match view with Borrowed _ => chunk | Owned vec => vec end in
    ret (mkSegmentPrepared index content_hash final_data comp_result None).

(** *** Staging one prepared segment *)

(** What the coordinator works on: registry and log, its transaction, and the table of
    hashes it staged. *)
Record Stage := mkStage {
  sg_store : Store;
  sg_txn : NvramTransaction;
  staged_content : gmap ContentHash SegmentId;
}.

Definition sg_on_store {A : Type} (m : M Store Error A) : M Stage Error A :=
  zoom sg_store (λ s g, mkStage s (sg_txn g) (staged_content g)) m.
Definition sg_reg {A : Type} (m : M CapsuleRegistry Error A) : M Stage Error A :=
  sg_on_store (on_registry m).
Definition sg_nv {A : Type} (m : M NvramLog Error A) : M Stage Error A :=
  sg_on_store (on_nvram m).

(** The transaction and the log it shares. *)
Definition on_transaction {A : Type} (m : M TxnState Error A) : M Stage Error A :=
  zoom (λ g, mkTxnState (sg_txn g) (nvram (sg_store g)))
    (λ s g, mkStage (mkStore (registry (sg_store g)) (txn_log s)) (txn s) (staged_content g)) m.

(** The update of a staged segment that is used once more. *)
Definition reference_staged (segment : Segment) : Segment :=
  set_refs (u32_saturating_add (seg_ref_count segment) 1) (seg_access_count segment) segment.

(** The metadata of a segment staged anew. *)
Definition describe_staged (comp_result : CompressionResult) (hash : option ContentHash)
    (encryption_meta : option EncryptionMetadata) (segment : Segment) : Segment :=
  let segment := set_compression (cr_compressed comp_result) (cr_algorithm comp_result) segment in
  let segment := set_refs 1 (seg_access_count segment) segment in
  let segment := set_content_hash hash segment in
  match encryption_meta with
  | Some m => apply_encryption_meta m segment
  | None => segment
  end.

(** The part of [commit_segment] after the dedup lookups. *)
Definition stage_new (policy : Policy) (prepared : SegmentPrepared) :
    M Stage Error (SegmentId * WriteDisposition * Z * option ContentHash) :=
  let! seg_id := sg_reg alloc_segment in
  let! segment := on_transaction (append_segment seg_id (sp_final_data prepared)) in
  let hash := if dedupe policy then Some (sp_content_hash prepared) else None in
  (match hash with
   | Some h => modify (λ g, mkStage (sg_store g) (sg_txn g) (<[h := seg_id]> (staged_content g)))
   | None => ret tt
   end) ;;;
  on_transaction (set_segment_metadata seg_id
    (describe_staged (sp_comp_result prepared) hash (sp_encryption_meta prepared) segment)) ;;;
  ret (seg_id, NewSegment, lenZ (sp_final_data prepared), hash).

Definition commit_segment (policy : Policy) (prepared : SegmentPrepared) :
    M Stage Error (SegmentId * WriteDisposition * Z * option ContentHash) :=
  if dedupe policy then
    let! staged := gets staged_content in
    match staged !! sp_content_hash prepared with
    | Some staged_seg_id =>
        let! transaction := gets sg_txn in
        let! segment := lift (ok_or (pending_segment staged_seg_id transaction)
          (MsgSegment "pending segment not found" staged_seg_id)) in
        on_transaction (with_segment_mut staged_seg_id reference_staged) ;;;
        ret (staged_seg_id, ReusedStaged, seg_len segment, None)
    | None =>
        let! existing := sg_reg (lookup_content (sp_content_hash prepared)) in
        match existing with
        | Some existing_seg_id =>
            let! segment := sg_nv (increment_refcount existing_seg_id) in
            ret (existing_seg_id, ReusedPersistent, seg_len segment, None)
        | None => stage_new policy prepared
        end
    end
  else stage_new policy prepared.

(** *** The coordinator's loop *)

(** How far the receiving loop is: running, left by [break 'outer] with an error, or
    unwinding from a panic. *)
Inductive Progress := Going | Broken (err : Error) | Unwound.

Record Coordinator := mkCoordinator {
  stage : Stage;
  dedupe_increments : list SegmentId;
  pending_registrations : list (ContentHash * SegmentId);
  segment_ids : list SegmentId;
  dedup_stats : DedupStats;
  next_index : nat;
  progress : Progress;
}.

Definition going (c : Coordinator) : bool :=
  match progress c with Going => true | _ => false end.

Definition set_progress (p : Progress) (c : Coordinator) : Coordinator :=
  mkCoordinator (stage c) (dedupe_increments c) (pending_registrations c) (segment_ids c)
    (dedup_stats c) (next_index c) p.

(** The body of the inner loop, for the segment whose turn it is. *)
Definition coordinate (policy : Policy) (prepared : SegmentPrepared) (c : Coordinator) : Coordinator :=
  match commit_segment policy prepared (stage c) with
  | (Ok (seg_id, disposition, bytes_tracked, registered_hash), g) =>
      mkCoordinator g
        (match disposition with
         | ReusedPersistent => dedupe_increments c ++ [seg_id]
         | _ => dedupe_increments c
         end)
        (match disposition, registered_hash with
         | NewSegment, Some hash => pending_registrations c ++ [(hash, seg_id)]
         | _, _ => pending_registrations c
         end)
        (segment_ids c ++ [seg_id])
        (Common.add_segment bytes_tracked
           (match disposition with NewSegment => false | _ => true end) (dedup_stats c))
        (S (next_index c)) Going
  | (Err err, g) =>
      mkCoordinator g (dedupe_increments c) (pending_registrations c) (segment_ids c)
        (dedup_stats c) (next_index c) (Broken err)
  | (Panic, g) =>
      mkCoordinator g (dedupe_increments c) (pending_registrations c) (segment_ids c)
        (dedup_stats c) (next_index c) Unwound
  end.

(** The inner loop: take segments from their slots while the next one is there. *)
Fixpoint drain (policy : Policy) (fuel : nat) (ordered : list (option SegmentPrepared))
    (c : Coordinator) : list (option SegmentPrepared) * Coordinator :=
  match fuel with
  | O => (ordered, c)
  | S fuel =>
      match ordered !! next_index c with
      | Some (Some prepared) =>
          let ordered := <[next_index c := None]> ordered in
          let c' := coordinate policy prepared c in
          if going c' then drain policy fuel ordered c' else (ordered, c')
      | _ => (ordered, c)
      end
  end.

(** *** Tasks, channel and scheduler *)

(** A task computes, then sends, then has ended with or without an error. *)
Inductive Task := Preparing | Sending (prepared : SegmentPrepared) | Finished (failure : option Error).

(** The call between its start and its conclusion.  [bailed] is the error the spawning
    loop gave up with; [rx_open] holds until the coordinator drops its receiver. *)
Record WriteState := mkWriteState {
  shared_keys : option KeyManager;
  tasks : list Task;
  channel : list SegmentPrepared;
  rx_open : bool;
  bailed : option Error;
  ordered : list (option SegmentPrepared);
  coordinator : Coordinator;
}.

(** What the scheduler runs next: the spawning loop, a task's computation, a task's
    [send], or the coordinator's [recv]. *)
Inductive Event := Spawn | Prepare (i : nat) | Send (i : nat) | Receive.

Definition task_ended (t : Task) : bool :=
  match t with Finished _ => true | _ => false end.

(** The permits in use: a task holds its permit until it ends. *)
Definition permits_taken (s : WriteState) : Z :=
  lenZ (filter (λ t, task_ended t = false) (tasks s)).

Definition set_task (i : nat) (t : Task) (s : WriteState) : WriteState :=
  mkWriteState (shared_keys s) (<[i := t]> (tasks s)) (channel s) (rx_open s) (bailed s)
    (ordered s) (coordinator s).

(** One round of the spawning loop, once a permit is there. *)
Definition spawn (config : PipelineConfig) (chunk : bytes) (s : WriteState) : WriteState :=
  if memory_limit_per_task config <? lenZ chunk then
    mkWriteState (shared_keys s) (tasks s) (channel s) false
      (Some (Msg "Segment exceeds configured per-task memory limit"))
      (ordered s) (coordinator s)
  else
    mkWriteState (shared_keys s) (tasks s ++ [Preparing]) (channel s) (rx_open s) (bailed s)
      (ordered s) (coordinator s).

(** [spawn_blocking(..).await??]: a panic of the closure comes back as a join error. *)
Definition prepare (policy : Policy) (i : nat) (chunk : bytes) (s : WriteState) : WriteState :=
  let '(r, keys) := prepare_segment i chunk policy (shared_keys s) in
  let t := match r with
           | Ok prepared => Sending prepared
           | Err e => Finished (Some (OfPipeline e))
           | Panic => Finished (Some (Msg "task panicked"))
           end in
  mkWriteState keys (<[i := t]> (tasks s)) (channel s) (rx_open s) (bailed s) (ordered s)
    (coordinator s).

(** The channel has room for every segment, so [send] never waits. *)
Definition send (i : nat) (prepared : SegmentPrepared) (s : WriteState) : WriteState :=
  if rx_open s then
    mkWriteState (shared_keys s) (<[i := Finished None]> (tasks s)) (channel s ++ [prepared])
      (rx_open s) (bailed s) (ordered s) (coordinator s)
  else set_task i (Finished (Some (Msg "failed to enqueue segment"))) s.

(** One message: put it in its slot and run the inner loop. *)
Definition receive (policy : Policy) (prepared : SegmentPrepared) (rest : list SegmentPrepared)
    (s : WriteState) : WriteState :=
  let total_segments := length (ordered s) in
  if bool_decide (sp_index prepared < total_segments)%nat then
    let '(ordered, c) := drain policy (total_segments - next_index (coordinator s))
      (<[sp_index prepared := Some prepared]> (ordered s)) (coordinator s) in
    mkWriteState (shared_keys s) (tasks s) rest (going c) (bailed s) ordered c
  else
    mkWriteState (shared_keys s) (tasks s) rest false (bailed s) (ordered s)
      (set_progress Unwound (coordinator s)).

Definition close (s : WriteState) : WriteState :=
  mkWriteState (shared_keys s) (tasks s) (channel s) false (bailed s) (ordered s) (coordinator s).

(** An event where it is possible.  The loop that receives starts after the last spawn;
    [recv] answers [None] when every sender is gone and the channel is empty. *)
Definition async_step (policy : Policy) (config : PipelineConfig) (data : list bytes)
    (event : Event) (s : WriteState) : option WriteState :=
  match event with
  | Spawn =>
      match bailed s, data !! length (tasks s) with
      | None, Some chunk =>
          if permits_taken s <? Z.max 1 (max_concurrency config)
          then Some (spawn config chunk s) else None
      | _, _ => None
      end
  | Prepare i =>
      match tasks s !! i, data !! i with
      | Some Preparing, Some chunk => Some (prepare policy i chunk s)
      | _, _ => None
      end
  | Send i =>
      match tasks s !! i with
      | Some (Sending prepared) => Some (send i prepared s)
      | _ => None
      end
  | Receive =>
      if rx_open s && bool_decide (length (tasks s) = length data) then
        match channel s with
        | prepared :: rest => Some (receive policy prepared rest s)
        | [] => if forallb task_ended (tasks s) then Some (close s) else None
        end
      else None
  end.

(** The loop is over and [join_all] has every task's result; or the call gave up while
    spawning, or panicked, and leaves the tasks to themselves. *)
Definition async_done (data : list bytes) (s : WriteState) : bool :=
  bool_decide (is_Some (bailed s)) ||
  match progress (coordinator s) with Unwound => true | _ => false end ||
  (negb (rx_open s) && bool_decide (length (tasks s) = length data) && forallb task_ended (tasks s)).

(** *** The end of the call *)

(** [let _ = decrement_refcount(..)?] for the references taken, the last one first. *)
Definition undo_increments (increments : list SegmentId) : M Stage Error unit :=
  foldM (λ _ seg_id, sg_nv (decrement_refcount seg_id) ;;; ret tt) tt (reverse increments).

(** The body of the registration loop; a failure undoes the registrations before it and
    gives everything back. *)
Definition register_one (increments : list SegmentId)
    (pending_registrations registered : list (ContentHash * SegmentId))
    (entry : ContentHash * SegmentId) : M Stage Error (list (ContentHash * SegmentId)) :=
  let '(hash, seg_id) := entry in
  let! result := attempt (sg_reg (register_content hash seg_id)) in
  match result with
  | inl _ => ret (registered ++ [(hash, seg_id)])
  | inr err =>
      foldM (λ _ '(hash, seg_id), sg_reg (deregister_content hash seg_id) ;;; ret tt) tt registered ;;;
      foldM (λ _ '(_, seg_id), sg_nv (remove_segment seg_id) ;;; ret tt) tt pending_registrations ;;;
      undo_increments increments ;;;
      fail err
  end.

Definition register_all (increments : list SegmentId)
    (pending_registrations : list (ContentHash * SegmentId)) : M Stage Error unit :=
  foldM (register_one increments pending_registrations) [] pending_registrations ;;;
  ret tt.

(** The first error [join_all] returns, unless the loop already has one. *)
Fixpoint join_error (results : list (option Error)) : option Error :=
  match results with
  | [] => None
  | Some e :: _ => Some e
  | None :: r => join_error r
  end.

Definition commit_failure (total_segments : nat) (c : Coordinator) (results : list (option Error)) :
    option Error :=
  match progress c with
  | Broken err => Some err
  | _ =>
      match join_error results with
      | Some err => Some err
      | None =>
          if bool_decide (next_index c = total_segments) then None
          else Some (Msg "async pipeline exited early")
      end
  end.

(** Creating the capsule, once its segments are registered: on failure the new segments
    and the references taken are given back. *)
Definition create_or_undo (capsule_id : CapsuleId) (now : option Z) (size : Z) (policy : Policy)
    (c : Coordinator) : M Stage Error unit :=
  let! created := attempt (map_err (map_registry_error "create_capsule_with_segments")
    (sg_reg (create_capsule_with_segments now capsule_id size (segment_ids c) policy))) in
  match created with
  | inr err =>
      foldM (λ _ '(hash, seg_id),
        sg_reg (deregister_content hash seg_id) ;;;
        sg_nv (remove_segment seg_id) ;;; ret tt) tt (pending_registrations c) ;;;
      undo_increments (dedupe_increments c) ;;;
      fail err
  | inl _ => ret tt
  end.

(** What follows a successful commit. *)
Definition publish (capsule_id : CapsuleId) (now : option Z) (size : Z) (policy : Policy)
    (c : Coordinator) : M Stage Error CapsuleId :=
  register_all (dedupe_increments c) (pending_registrations c) ;;;
  create_or_undo capsule_id now size policy c ;;;
  (if 0 <? bytes_saved (dedup_stats c)
   then map_err (map_registry_error "add_deduped_bytes")
          (sg_reg (add_deduped_bytes capsule_id (bytes_saved (dedup_stats c))))
   else ret tt) ;;;
  ret capsule_id.

(** Everything after [join_all]. *)
Definition conclude (capsule_id : CapsuleId) (now : option Z) (size : Z) (policy : Policy)
    (total_segments : nat) (c : Coordinator) (results : list (option Error)) :
    M Stage Error CapsuleId :=
  match commit_failure total_segments c results with
  | Some err =>
      on_transaction rollback ;;;
      undo_increments (dedupe_increments c) ;;;
      fail err
  | None =>
      let! committed := attempt (on_transaction commit) in
      match committed with
      | inr err => undo_increments (dedupe_increments c) ;;; fail err
      | inl _ => publish capsule_id now size policy c
      end
  end.

Definition task_results (ts : list Task) : list (option Error) :=
  (λ t, match t with Finished r => r | _ => None end) <$> ts.

(** Leaving the call drops the transaction. *)
Definition leave {A : Type} (keys : option KeyManager) (body : M Stage Error A) (g : Stage) :
    Res Error A * WritePipeline :=
  let '(r, g) := body g in
  let '(_, g) := on_transaction txn_drop g in
  (r, mkWritePipeline (sg_store g) keys).

Definition async_finish (capsule_id : CapsuleId) (now : option Z) (size : Z) (policy : Policy)
    (total_segments : nat) (s : WriteState) : Res Error CapsuleId * WritePipeline :=
  let c := coordinator s in
  leave (shared_keys s)
    (match bailed s, progress c with
     | Some err, _ => fail err
     | None, Unwound => panic
     | None, _ => conclude capsule_id now size policy total_segments c (task_results (tasks s))
     end) (stage c).

(** The state in which the spawning loop starts. *)
Definition coordinator_start (p : WritePipeline) : Coordinator :=
  mkCoordinator (mkStage (store p) (begin_transaction (nvram (store p))) ∅)
    [] [] [] DedupStats_new 0 Going.

Definition async_start (total_segments : nat) (p : WritePipeline) : WriteState :=
  mkWriteState (key_manager p) [] [] true None (replicate total_segments None) (coordinator_start p).

(** A write of no bytes opens no transaction. *)
Definition write_empty (capsule_id : CapsuleId) (now : option Z) (policy : Policy) :
    M WritePipeline Error CapsuleId :=
  map_err (map_registry_error "create_capsule_with_segments")
    (reg (create_capsule_with_segments now capsule_id 0 [] policy)) ;;;
  ret capsule_id.

(** Some event happens. *)
Definition async_steps_to (policy : Policy) (config : PipelineConfig) (data : list bytes) :
    relation WriteState :=
  λ s s', ∃ event, async_step policy config data event s = Some s'.

(** [write_capsule_with_policy_async] may return [r] and leave [p']. *)
Definition write_capsule_with_policy_async (config : PipelineConfig) (capsule_id : CapsuleId)
    (now : option Z) (data : bytes) (policy : Policy) (p : WritePipeline)
    (r : Res Error CapsuleId) (p' : WritePipeline) : Prop :=
  let data_chunks := chunks SEGMENT_SIZE data in
  match data_chunks with
  | [] => write_empty capsule_id now policy p = (r, p')
  | _ =>
      ∃ s, rtc (async_steps_to policy config data_chunks) (async_start (length data_chunks) p) s ∧
        async_done data_chunks s = true ∧
        async_finish capsule_id now (lenZ data) policy (length data_chunks) s = (r, p')
  end.

(** ** The sequential reference: prepare the chunks in order, then coordinate them in order,
    as far as both succeed. *)
Fixpoint prepare_all (policy : Policy) (index : nat) (data : list bytes) :
    option KeyManager → list (Res PipelineError SegmentPrepared) * option KeyManager :=
  λ keys,
  match data with
  | [] => ([], keys)
  | chunk :: rest =>
      let '(r, keys) := prepare_segment index chunk policy keys in
      let '(rs, keys) := prepare_all policy (S index) rest keys in
      (r :: rs, keys)
  end.

Fixpoint coordinate_all (policy : Policy) (results : list (Res PipelineError SegmentPrepared))
    (c : Coordinator) : Coordinator :=
  match results with
  | Ok prepared :: rest =>
      let c' := coordinate policy prepared c in
      if going c' then coordinate_all policy rest c' else c'
  | _ => c
  end.

Definition result_error (r : Res PipelineError SegmentPrepared) : option Error :=
  match r with
  | Ok _ => None
  | Err e => Some (OfPipeline e)
  | Panic => Some (Msg "task panicked")
  end.

Definition write_in_order (config : PipelineConfig) (capsule_id : CapsuleId) (now : option Z)
    (data : bytes) (policy : Policy) (p : WritePipeline) : Res Error CapsuleId * WritePipeline :=
  match chunks SEGMENT_SIZE data with
  | [] => write_empty capsule_id now policy p
  | (chunk :: _) as data_chunks =>
      let c0 := coordinator_start p in
      if memory_limit_per_task config <? lenZ chunk then
        leave (key_manager p) (fail (Msg "Segment exceeds configured per-task memory limit")) (stage c0)
      else
        let '(results, keys) := prepare_all policy 0 data_chunks (key_manager p) in
        let c := coordinate_all policy results c0 in
        leave keys
          (match progress c with
           | Unwound => panic
           | _ => conclude capsule_id now (lenZ data) policy (length data_chunks) c
                    (result_error <$> results)
           end) (stage c)
  end.

(** A schedule given as a list of events; [None] where one of them is not possible. *)
Fixpoint run_events (policy : Policy) (config : PipelineConfig) (data : list bytes)
    (events : list Event) (s : WriteState) : option WriteState :=
  match events with
  | [] => Some s
  | event :: rest =>
      match async_step policy config data event s with
      | Some s' => run_events policy config data rest s'
      | None => None
      end
  end.
End async_pipeline.
