(* ===== verification/AsyncSchedule.v ===== *)
(** The asynchronous write and its scheduler: whatever the scheduler does, the call
    ends, and it ends as if the chunks had been prepared and staged one after the other. *)
From S2P Require Import Prelude Errors Common Externals.
From S2P Require Nvram Compression KeyManager Encryption Dedup Registry Gc WritePipeline.
From S2P Require PipelineInvariant AsyncPipeline.
Import Nvram Compression KeyManager Encryption Registry Gc WritePipeline AsyncPipeline.

(** ** Preparing does not depend on what the other tasks did *)
Section preparing.
Context {JR : JsonDoc RegistryState} {JN : JsonDoc SegmentMap} `{Crates}.
Variable policy : Policy.

(** The key manager once some task has asked for the current key. *)
Definition touched (keys : option KeyManager) : option KeyManager :=
  match keys with
  | Some m => Some (snd (get_key (current_version m) m))
  | None => None
  end.

Lemma get_key_again m v :
  let '(r, m') := get_key v m in
  get_key v m' = (r, m') ∧ current_version m' = current_version m.
Proof.
  unfold get_key. cbv [bind gets ret lift modify].
  destruct (key_cache m !! v) as [kp|] eqn:Hc.
  { rewrite bool_decide_true by eauto. simpl. rewrite Hc. simpl.
    rewrite Hc. done. }
  rewrite bool_decide_false by (by intros [? ?]).
  destruct (derive_key m v) as [kp|e| ] eqn:Hd.
  - simpl. rewrite lookup_insert_eq. simpl. by rewrite lookup_insert_eq.
  - rewrite Hc, bool_decide_false by (by intros [? ?]). by rewrite Hd.
  - rewrite Hc, bool_decide_false by (by intros [? ?]). by rewrite Hd.
Qed.

(** Whether the task for this chunk gets to the key manager. *)
Definition needs_key (keys : option KeyManager) (chunk : bytes) : bool :=
  is_ok (compress_segment chunk (compression policy)) &&
  (is_enabled (encryption policy) && bool_decide (is_Some keys)).

Definition prepared_alone (keys : option KeyManager) (i : nat) (chunk : bytes) :
    Res PipelineError SegmentPrepared :=
  fst (prepare_segment i chunk policy keys).

Lemma encrypt_locked_again m hash d :
  let m' := snd (get_key (current_version m) m) in
  encrypt_locked hash d m = (fst (encrypt_locked hash d m), m') ∧
  encrypt_locked hash d m' = (fst (encrypt_locked hash d m), m').
Proof.
  cbv zeta. pose proof (get_key_again m (current_version m)) as Hg. unfold encrypt_locked.
  cbv [bind gets map_err lift ret]. destruct (get_key (current_version m) m) as [r m'] eqn:Hr.
  destruct Hg as [Hg Hv]. simpl snd. rewrite Hv, Hg.
  destruct r as [kp|e| ]; cbn [res_map_err]; [|done|done].
  destruct (encrypt_segment _ _ _ _) as [[ct md]|e| ]; cbn [res_map_err]; [|done|done].
  by destruct (compute_mac ct md (key1 kp) (key2 kp)).
Qed.

(** The result of a task and its effect on the key manager, in whichever order the
    tasks get the lock. *)
Lemma prepare_eq keys keys0 i chunk :
  keys = keys0 ∨ keys = touched keys0 →
  prepare_segment i chunk policy keys =
    (prepared_alone keys0 i chunk, if needs_key keys0 chunk then touched keys0 else keys).
Proof.
  intros Hk. unfold prepared_alone, needs_key, prepare_segment.
  assert (is_Some keys ↔ is_Some keys0) as Hs.
  { destruct Hk as [->| ->]; [done|]. destruct keys0; split; intros [? ?]; by eexists. }
  cbv [bind gets lift ret zoom fail].
  destruct (compress_segment chunk (compression policy)) as [[view r]|e| ]; simpl; [|done|done].
  rewrite (bool_decide_ext _ _ Hs).
  destruct (is_enabled (encryption policy)); simpl; [|done].
  case_bool_decide as Hsome; simpl; [|done].
  destruct Hsome as [m ->]. simpl.
  destruct (encrypt_locked_again m (Dedup.hash_content (as_ref view)) (as_ref view)) as [E1 E2].
  destruct Hk as [->| ->]; simpl.
  - rewrite E1. destruct (fst (encrypt_locked _ _ m)) as [[ct md]|e| ]; simpl; done.
  - rewrite E2, E1. destruct (fst (encrypt_locked _ _ m)) as [[ct md]|e| ]; simpl; done.
Qed.

Lemma prepared_index keys i chunk sp : prepared_alone keys i chunk = Ok sp → sp_index sp = i.
Proof.
  unfold prepared_alone, prepare_segment. cbv [bind gets lift ret zoom fail].
  destruct (compress_segment _ _) as [[view r]|e| ]; simpl; [|done|done].
  destruct (is_enabled _ && _); [|intros; by simplify_eq/=].
  destruct keys as [m|]; simpl; [|done].
  destruct (encrypt_locked _ _ m) as [[[ct md]|e| ] m']; intros; by simplify_eq/=.
Qed.

(** The results of all the tasks. *)
Definition results_of (keys : option KeyManager) (data : list bytes) :
    list (Res PipelineError SegmentPrepared) :=
  imap (prepared_alone keys) data.

Definition keys_after (keys : option KeyManager) (data : list bytes) : option KeyManager :=
  if existsb (needs_key keys) data then touched keys else keys.

Lemma prepare_all_eq keys0 data :
  ∀ keys i, keys = keys0 ∨ keys = touched keys0 →
  prepare_all policy i data keys =
    (imap (λ j, prepared_alone keys0 (i + j)%nat) data,
     if existsb (needs_key keys0) data then touched keys0 else keys).
Proof.
  induction data as [|chunk data IH]; intros keys i Hk; simpl; [done|].
  rewrite (prepare_eq keys keys0) by done. rewrite IH by (destruct (needs_key _ _); tauto).
  rewrite Nat.add_0_r. f_equal.
  - f_equal. apply imap_ext. intros j x _. simpl. f_equal. lia.
  - by destruct (needs_key keys0 chunk), (existsb _ data).
Qed.

Lemma prepare_all_results keys data :
  prepare_all policy 0 data keys = (results_of keys data, keys_after keys data).
Proof. by rewrite (prepare_all_eq keys) by tauto. Qed.
End preparing.

(** ** Staging never panics *)
Section no_panic.
Context {JR : JsonDoc RegistryState} {JN : JsonDoc SegmentMap} `{Crates}.

Create HintDb safe.

Definition safe {S E A : Type} (m : M S E A) : Prop :=
  ∀ s, wp m (λ _ _, True) (λ _ _, True) s.

Lemma safe_bind {S E A B : Type} (m : M S E A) (k : A → M S E B) :
  safe m → (∀ a, safe (k a)) → safe (bind m k).
Proof.
  intros Hm Hk s. apply wp_bind. eapply wp_mono; [apply Hm| |done]. intros a s' _. apply Hk.
Qed.
Lemma safe_zoom {S1 S2 E A : Type} (get : S2 → S1) put (m : M S1 E A) : safe m → safe (zoom get put m).
Proof. intros Hm s. apply wp_zoom. eapply wp_mono; [apply Hm|done..]. Qed.
Lemma safe_ret {S E A : Type} (a : A) : safe (@ret S E A a).
Proof. done. Qed.
Lemma safe_gets {S E A : Type} (f : S → A) : safe (@gets S E A f).
Proof. done. Qed.
Lemma safe_modify {S E : Type} (f : S → S) : safe (@modify S E f).
Proof. done. Qed.
Lemma safe_ok_or {S E A : Type} (o : option A) (e : E) : safe (@lift S E A (ok_or o e)).
Proof. by destruct o. Qed.
Lemma safe_increment id : safe (increment_refcount id).
Proof.
  intros l. pose proof (increment_effect id l) as Hi. unfold wp.
  by destruct (increment_refcount id l) as [[s|e| ] l'].
Qed.
Lemma safe_ensure_active : safe ensure_active.
Proof. intros s. unfold wp, ensure_active. by destruct (finalized (txn s)). Qed.
Hint Resolve safe_bind safe_zoom safe_ret safe_gets safe_modify safe_ok_or safe_increment
  safe_ensure_active : safe.

Lemma commit_segment_safe policy prepared : safe (commit_segment policy prepared).
Proof.
  assert (safe (stage_new policy prepared)) as Hnew.
  { unfold stage_new, sg_reg, sg_on_store, on_registry, on_transaction, append_segment,
      set_segment_metadata, alloc_segment, on_txn, on_log.
    repeat (apply safe_bind; [|intros ?]); repeat case_match; eauto 9 with safe. }
  unfold commit_segment. destruct (dedupe policy); [|done].
  apply safe_bind; [apply safe_gets|intros staged]. destruct (staged !! _) as [id|].
  - unfold on_transaction, with_segment_mut, on_txn. eauto 14 with safe.
  - apply safe_bind; [unfold sg_reg, sg_on_store, on_registry, lookup_content; auto with safe|].
    intros [id|]; [|done]. unfold sg_nv, sg_on_store, on_nvram. eauto 8 with safe.
Qed.

(** One step of the loop moves on by one, or stops with an error. *)
Lemma coordinate_progress policy prepared c :
  (progress (coordinate policy prepared c) = Going ∧
     next_index (coordinate policy prepared c) = S (next_index c)) ∨
  (∃ e, progress (coordinate policy prepared c) = Broken e).
Proof.
  unfold coordinate. pose proof (commit_segment_safe policy prepared (stage c)) as Hs. unfold wp in Hs.
  destruct (commit_segment policy prepared (stage c)) as [[[[[id d] b] h]|e| ] g]; [by left|right|done].
  by exists e.
Qed.
End no_panic.

(** ** Chunks: none is longer than the first *)
Lemma chunks_head_longest (n : Z) (data : bytes) chunk rest :
  0 < n → chunks n data = chunk :: rest → Forall (λ c, lenZ c ≤ lenZ chunk) (chunk :: rest).
Proof.
  intros Hn Hc. pose proof (chunks_bound n data Hn) as Hb. rewrite Hc in Hb.
  unfold chunks in Hc. destruct data as [|x data]; [done|]. simpl length in Hc. cbn [chunks_fuel] in Hc.
  injection Hc as Hh Ht. change (takeZ n (x :: data) = chunk) in Hh.
  change (chunks_fuel (length data) n (dropZ n (x :: data)) = rest) in Ht. constructor; [done|].
  destruct (Z.le_gt_cases n (lenZ (x :: data))) as [Hle|Hgt].
  - assert (lenZ chunk = n) as -> by (rewrite <- Hh, lenZ_takeZ; lia).
    apply Forall_cons_1 in Hb as [_ Hb]. eapply Forall_impl; [exact Hb|]. simpl. lia.
  - assert (dropZ n (x :: data) = []) as Hd.
    { apply length_zero_iff_nil. pose proof (lenZ_dropZ n (x :: data)). unfold lenZ in *. lia. }
    rewrite Hd in Ht. destruct (length data); simpl in Ht; by subst rest.
Qed.

(** ** What every schedule maintains *)
Section scheduler.
Context {JR : JsonDoc RegistryState} {JN : JsonDoc SegmentMap} `{Crates}.
Variables (policy : Policy) (config : PipelineConfig) (data : list bytes) (p : WritePipeline).
Hypothesis within_limit : Forall (λ chunk, lenZ chunk ≤ memory_limit_per_task config) data.

Let keys0 := key_manager p.
Let results := results_of policy keys0 data.
Let c0 := coordinator_start p.
Let goal := coordinate_all policy results c0.

(** The coordinator is on its way to the outcome of the sequential reference. *)
Definition on_course (c : Coordinator) : Prop :=
  going c = true ∧ (next_index c ≤ length data)%nat ∧
  goal = coordinate_all policy (drop (next_index c) results) c.

Definition task_ok (c : Coordinator) (i : nat) (t : Task) : Prop :=
  match t with
  | Preparing => True
  | Sending sp => results !! i = Some (Ok sp)
  | Finished None => ∃ sp, results !! i = Some (Ok sp)
  | Finished (Some e) => (∃ r, results !! i = Some r ∧ result_error r = Some e) ∨ going c = false
  end.

(** Some task that needs the key manager has had it. *)
Definition keys_used (s : WriteState) : Prop :=
  ∃ i t chunk, tasks s !! i = Some t ∧ t ≠ Preparing ∧ data !! i = Some chunk ∧
    needs_key policy keys0 chunk = true.

(** Where a segment whose task has sent it is: received earlier, in its slot, or still
    in the channel. *)
Definition slot (s : WriteState) (i : nat) (sp : SegmentPrepared) : Prop :=
  results !! i = Some (Ok sp) ∧ tasks s !! i = Some (Finished None) ∧
  (next_index (coordinator s) ≤ i)%nat.

Record receiving (s : WriteState) : Prop := {
  rv_course : on_course (coordinator s);
  rv_next : ∀ sp, ordered s !! next_index (coordinator s) ≠ Some (Some sp);
  rv_slots : ∀ i sp, ordered s !! i = Some (Some sp) → slot s i sp;
  rv_channel : Forall (λ sp, slot s (sp_index sp) sp ∧ ordered s !! sp_index sp = Some None) (channel s);
  rv_passed : ∀ i, (i < next_index (coordinator s))%nat → tasks s !! i = Some (Finished None);
  rv_distinct : NoDup (sp_index <$> channel s);
  rv_sent : ∀ i, tasks s !! i = Some (Finished None) →
    (i < next_index (coordinator s))%nat ∨ (∃ sp, ordered s !! i = Some (Some sp)) ∨
    i ∈ sp_index <$> channel s;
}.

Record schedule_inv (s : WriteState) : Prop := {
  sv_bailed : bailed s = None;
  sv_tasks_length : (length (tasks s) ≤ length data)%nat;
  sv_ordered_length : length (ordered s) = length data;
  sv_tasks : ∀ i t, tasks s !! i = Some t → task_ok (coordinator s) i t;
  sv_keys : keys_used s ∧ shared_keys s = touched keys0 ∨ ¬ keys_used s ∧ shared_keys s = keys0;
  sv_open : rx_open s = true → receiving s;
  sv_closed : rx_open s = false → coordinator s = goal ∧
    (going goal = true → length (tasks s) = length data ∧ forallb task_ended (tasks s) = true);
}.

Lemma slot_tasks s s' i sp :
  coordinator s' = coordinator s →
  (tasks s !! i = Some (Finished None) → tasks s' !! i = Some (Finished None)) →
  slot s i sp → slot s' i sp.
Proof. unfold slot. intros ->. tauto. Qed.

Lemma results_lookup i chunk :
  data !! i = Some chunk → results !! i = Some (prepared_alone policy keys0 i chunk).
Proof. intros Hd. unfold results, results_of. by rewrite list_lookup_imap, Hd. Qed.

Lemma results_index i sp : results !! i = Some (Ok sp) → sp_index sp = i.
Proof.
  unfold results, results_of. rewrite list_lookup_imap. intros (chunk & _ & Hr)%fmap_Some.
  symmetry in Hr. by eapply prepared_index.
Qed.

Lemma results_length : length results = length data.
Proof. apply length_imap. Qed.

Lemma coordinate_all_progress rs c :
  going c = true → going (coordinate_all policy rs c) = true ∨
    ∃ e, progress (coordinate_all policy rs c) = Broken e.
Proof.
  revert c. induction rs as [|[sp|e| ] rs IH]; intros c Hc; simpl; [by left| |by left|by left].
  destruct (coordinate_progress policy sp c) as [[Hp _]|[e Hp]].
  - assert (going (coordinate policy sp c) = true) as Hg by (unfold going; by rewrite Hp).
    rewrite Hg. by apply IH.
  - assert (going (coordinate policy sp c) = false) as Hg by (unfold going; by rewrite Hp).
    rewrite Hg. right. by exists e.
Qed.

Lemma on_course_step c sp :
  on_course c → results !! next_index c = Some (Ok sp) →
  let c' := coordinate policy sp c in
  on_course c' ∧ next_index c' = S (next_index c) ∨ going c' = false ∧ c' = goal.
Proof.
  intros (Hg & Hn & Hgoal) Hr c'. pose proof (lookup_lt_Some _ _ _ Hr) as Hlt.
  rewrite results_length in Hlt. rewrite (drop_S _ _ _ Hr) in Hgoal. simpl in Hgoal.
  fold c' in Hgoal. destruct (coordinate_progress policy sp c) as [[Hp Hi]|[e Hp]]; fold c' in Hp.
  - left. fold c' in Hi. assert (going c' = true) as Hg' by (unfold going; by rewrite Hp).
    rewrite Hg' in Hgoal. split; [|done]. split; [done|]. rewrite Hi. split; [lia|done].
  - right. assert (going c' = false) as Hg' by (unfold going; by rewrite Hp).
    by rewrite Hg' in Hgoal.
Qed.

(** The inner loop takes a run of slots and stops at an empty one, or stops with the
    reference's error. *)
Lemma drain_spec fuel slots c :
  (length data ≤ next_index c + fuel)%nat → on_course c → length slots = length data →
  (∀ i sp, slots !! i = Some (Some sp) → results !! i = Some (Ok sp)) →
  let '(slots', c') := drain policy fuel slots c in
  length slots' = length data ∧
  ((on_course c' ∧ (next_index c ≤ next_index c')%nat ∧
    (∀ sp, slots' !! next_index c' ≠ Some (Some sp)) ∧
    (∀ i, (next_index c ≤ i < next_index c')%nat →
       slots' !! i = Some None ∧ ∃ sp, slots !! i = Some (Some sp)) ∧
    (∀ i, (i < next_index c ∨ next_index c' ≤ i)%nat → slots' !! i = slots !! i)) ∨
   (going c' = false ∧ c' = goal)).
Proof.
  revert slots c. induction fuel as [|fuel IH]; intros slots c Hf Hc Hl Hs; simpl.
  { split; [done|]. left. split_and!; try done; [|lia]. intros sp Hsp.
    apply lookup_lt_Some in Hsp. lia. }
  destruct (slots !! next_index c) as [[sp|]|] eqn:Hn;
    [|split; [done|]; left; split_and!; try done; [by rewrite Hn|lia]..].
  pose proof (lookup_lt_Some _ _ _ Hn) as Hlt.
  destruct (on_course_step c sp Hc (Hs _ _ Hn)) as [[Hc' Hi]|[Hg Hgoal]].
  2:{ rewrite Hg. rewrite length_insert. split; [done|]. by right. }
  pose proof Hc' as (-> & _). specialize (IH (<[next_index c := None]> slots) _
    ltac:(rewrite Hi; lia) Hc').
  rewrite length_insert in IH. specialize (IH Hl).
  destruct (drain policy fuel _ _) as [slots' c'] eqn:Hd.
  destruct IH as [Hl' IH].
  { intros i sp' Hi'. apply list_lookup_insert_Some in Hi' as [(_ & ? & _)|[_ ?]]; [done|by apply Hs]. }
  split; [done|]. destruct IH as [(H1 & H2 & H3 & H4 & H5)|?]; [left|by right].
  rewrite Hi in *. split_and!; [done|lia|done|..].
  - intros i Hi'. destruct (decide (i = next_index c)) as [->|Hne].
    + rewrite H5 by lia. split; [apply list_lookup_insert_eq; lia|by eexists].
    + destruct (H4 i ltac:(lia)) as [? [q Hq]]. split; [done|]. exists q.
      rewrite list_lookup_insert_ne in Hq by lia. done.
  - intros i Hi'. rewrite H5 by lia. apply list_lookup_insert_ne. lia.
Qed.

Lemma start_inv : schedule_inv (async_start (length data) p).
Proof.
  constructor; simpl; try done; [lia|by rewrite length_replicate| |].
  { right. split; [|done]. intros (i & t & chunk & Hi & _). done. }
  intros _. constructor; simpl; try done.
  - split; [done|]. split; [simpl; lia|done].
  - intros sp Hsp. apply lookup_replicate in Hsp as [? _]. done.
  - intros i sp Hsp. apply lookup_replicate in Hsp as [? _]. done.
  - lia.
  - apply NoDup_nil_2.
Qed.

(** A task that was not done with sending moves on. *)
Lemma receiving_task s keys i t0 t :
  receiving s → tasks s !! i = Some t0 → t0 ≠ Finished None → t ≠ Finished None →
  receiving (mkWriteState keys (<[i := t]> (tasks s)) (channel s) (rx_open s) (bailed s)
    (ordered s) (coordinator s)).
Proof.
  intros [] Ht0 Hne Hnt.
  assert (∀ j sp, slot s j sp → slot (mkWriteState keys (<[i := t]> (tasks s)) (channel s) (rx_open s)
    (bailed s) (ordered s) (coordinator s)) j sp) as Hslot.
  { intros j sp. apply slot_tasks; [done|]. simpl. intros Hj. rewrite list_lookup_insert_ne; congruence. }
  constructor; simpl; try done; [by eauto| | |].
  - eapply Forall_impl; [done|]. intros sp [? ?]. eauto.
  - intros j Hj. rewrite list_lookup_insert_ne; [by apply rv_passed0|].
    intros <-. rewrite rv_passed0 in Ht0 by done. congruence.
  - intros j [(_ & ? & _)|[_ Hj]]%list_lookup_insert_Some; [done|]. by apply rv_sent0.
Qed.

Lemma keys_used_insert s keys i t0 t ch rx b o c chunk :
  tasks s !! i = Some t0 → data !! i = Some chunk → t ≠ Preparing →
  keys_used (mkWriteState keys (<[i := t]> (tasks s)) ch rx b o c) ↔
  keys_used s ∨ needs_key policy keys0 chunk = true.
Proof.
  intros Ht0 Hd Ht. unfold keys_used; simpl. pose proof (lookup_lt_Some _ _ _ Ht0). split.
  - intros (j & u & ch' & [(<- & -> & _)|[Hne Hj]]%list_lookup_insert_Some & Hu & Hd' & Hk).
    + right. congruence.
    + left. by exists j, u, ch'.
  - intros [(j & u & ch' & Hj & Hu & Hd' & Hk)|Hk].
    + destruct (decide (i = j)) as [<-|Hne].
      * exists i, t, ch'. rewrite list_lookup_insert_eq by done. done.
      * exists j, u, ch'. by rewrite list_lookup_insert_ne.
    + exists i, t, chunk. by rewrite list_lookup_insert_eq.
Qed.

Lemma tasks_update s i t :
  (∀ j u, tasks s !! j = Some u → task_ok (coordinator s) j u) →
  task_ok (coordinator s) i t →
  ∀ j u, <[i := t]> (tasks s) !! j = Some u → task_ok (coordinator s) j u.
Proof.
  intros Hs Ht j u.
  intros [(<- & -> & _)|[Hne Hj]]%list_lookup_insert_Some; [done|by apply Hs].
Qed.

(** Where the channel is closed and nothing went wrong, no task is left to move. *)
Lemma closed_ended s i t :
  schedule_inv s → rx_open s = false → tasks s !! i = Some t → task_ended t = false →
  going (coordinator s) = false.
Proof.
  intros Hs Hrx Ht Hend. destruct (sv_closed s Hs Hrx) as [-> Hcl].
  destruct (going goal) eqn:Hg; [|done]. destruct (Hcl eq_refl) as [_ Hall].
  rewrite forallb_forall in Hall. rewrite (Hall t) in Hend; [done|].
  apply list_elem_of_In. by eapply list_elem_of_lookup_2.
Qed.

Lemma spawn_inv s chunk :
  schedule_inv s → data !! length (tasks s) = Some chunk → schedule_inv (spawn config chunk s).
Proof.
  intros Hs Hd. unfold spawn. rewrite Forall_lookup in within_limit.
  pose proof (within_limit _ _ Hd) as Hlim. pose proof (lookup_lt_Some _ _ _ Hd) as Hlt.
  rewrite (proj2 (Z.ltb_ge _ _)) by lia. destruct Hs as [].
  assert (∀ j t, (tasks s ++ [Preparing]) !! j = Some t → t = Preparing ∨ tasks s !! j = Some t) as Hl.
  { intros j t [?|[_ Hj]]%lookup_app_Some; [by right|left]. by apply list_lookup_singleton_Some in Hj as [_ <-]. }
  constructor; simpl; try done.
  - rewrite length_app; simpl. lia.
  - intros j t [->|Hj]%Hl; [done|by apply sv_tasks0].
  - assert (keys_used (mkWriteState (shared_keys s) (tasks s ++ [Preparing]) (channel s) (rx_open s)
      (bailed s) (ordered s) (coordinator s)) ↔ keys_used s) as ->; [|done].
    unfold keys_used; simpl. split; intros (i & t & ch & Hi & Ht & Hrest); exists i, t, ch.
    + apply Hl in Hi as [?|?]; [done|tauto].
    + split; [by apply lookup_app_l_Some|done].
  - intros Hrx. destruct (sv_open0 Hrx).
    assert (∀ i t, tasks s !! i = Some t → (tasks s ++ [Preparing]) !! i = Some t) as Hold
      by (intros; by apply lookup_app_l_Some).
    constructor; simpl; try done.
    + intros i sp Hi. eapply slot_tasks, rv_slots0, Hi; simpl; auto.
    + eapply Forall_impl; [done|]. intros sp [? ?]. split; [|done]. by eapply slot_tasks; simpl; auto.
    + auto.
    + intros i [?|Hi]%Hl; [done|auto].
  - intros Hrx. destruct (sv_closed0 Hrx) as [Hc Hg]. split; [done|].
    intros Hgo. destruct (Hg Hgo). lia.
Qed.

Lemma prepare_inv s i chunk :
  schedule_inv s → tasks s !! i = Some Preparing → data !! i = Some chunk →
  schedule_inv (prepare policy i chunk s).
Proof.
  intros Hs Ht Hd. pose proof Hs as []. unfold prepare.
  assert (shared_keys s = keys0 ∨ shared_keys s = touched keys0) as Hk by tauto.
  rewrite (prepare_eq policy _ keys0) by done. pose proof (results_lookup i chunk Hd) as Hr.
  set (r := prepared_alone policy keys0 i chunk) in *.
  set (t := match r with Ok prepared => Sending prepared | Err e => _ | Panic => _ end).
  assert (t ≠ Preparing ∧ t ≠ Finished None ∧ task_ok (coordinator s) i t) as (Hn1 & Hn2 & Hok).
  { subst t. destruct r as [sp|e| ]; simpl; split_and!; try done; left; by eexists. }
  constructor; simpl; rewrite ?length_insert; try done.
  - by apply tasks_update.
  - rewrite (keys_used_insert s _ i Preparing t _ _ _ _ _ chunk Ht Hd Hn1).
    destruct (needs_key policy keys0 chunk); [left; split; [by right|done]|].
    destruct sv_keys0 as [[? ?]|[? ?]]; [left|right]; (split; [|done]); [by left|by intros [?|?]].
  - intros Hrx. by eapply (receiving_task s _ i Preparing); auto.
  - intros Hrx. destruct (sv_closed0 Hrx) as [Hc _]. split; [done|]. intros Hg.
    pose proof (closed_ended s i _ Hs Hrx Ht eq_refl). congruence.
Qed.

Lemma send_inv s i sp :
  schedule_inv s → tasks s !! i = Some (Sending sp) → schedule_inv (send i sp s).
Proof.
  intros Hs Ht. pose proof Hs as []. unfold send, set_task.
  pose proof (sv_tasks0 i _ Ht) as Hr. simpl in Hr.
  pose proof (lookup_lt_Some _ _ _ Ht) as Hlt.
  destruct (lookup_lt_is_Some_2 data i ltac:(lia)) as [chunk Hd].
  assert (∀ keys ts ch rx b o c, ts ≠ Preparing → (keys_used s ∧ keys = touched keys0 ∨ ¬ keys_used s ∧ keys = keys0) →
    keys_used (mkWriteState keys (<[i := ts]> (tasks s)) ch rx b o c) ∧ keys = touched keys0 ∨
    ¬ keys_used (mkWriteState keys (<[i := ts]> (tasks s)) ch rx b o c) ∧ keys = keys0) as Hkeys.
  { intros keys ts ch rx b o c Hts Hk. rewrite (keys_used_insert s _ i _ ts _ _ _ _ _ chunk Ht Hd Hts).
    assert (needs_key policy keys0 chunk = true → keys_used s).
    { intros ?. by exists i, (Sending sp), chunk. }
    tauto. }
  destruct (rx_open s) eqn:Hrx.
  - destruct (sv_open0 eq_refl). pose proof (results_index _ _ Hr) as Hidx.
    constructor; simpl; rewrite ?length_insert; try done.
    + apply tasks_update; [done|by exists sp].
    + by apply Hkeys.
    + intros _.
      set (s' := mkWriteState _ _ _ _ _ _ _).
      assert (∀ j q, slot s j q → slot s' j q) as Hold.
      { intros j q. apply slot_tasks; [done|]. simpl. intros Hj.
        rewrite list_lookup_insert_ne; congruence. }
      assert (next_index (coordinator s) ≤ i)%nat as Hnext.
      { destruct (decide (i < next_index (coordinator s))%nat) as [Hlt'|]; [|lia].
        rewrite rv_passed0 in Ht by done. done. }
      assert (ordered s !! i = Some None) as Hnone.
      { destruct (lookup_lt_is_Some_2 (ordered s) i ltac:(lia)) as [[q|] Hq]; [|done].
        destruct (rv_slots0 i q Hq) as (_ & ? & _). congruence. }
      constructor; simpl; try done.
      * intros j q Hq. by apply Hold, rv_slots0.
      * apply Forall_app. split.
        -- eapply Forall_impl; [done|]. intros q [Hsl Hq]. split; [by apply Hold|done].
        -- constructor; [|done]. rewrite Hidx. split; [|done].
           split_and!; [done|by apply list_lookup_insert_eq|done].
      * intros j Hj. rewrite list_lookup_insert_ne; [auto|lia].
      * rewrite fmap_app. apply NoDup_app. split_and!; [done| |apply NoDup_singleton].
        intros j Hj. simpl. rewrite list_elem_of_singleton, Hidx. intros ->.
        apply list_elem_of_fmap in Hj as (q & Hq & Hin). rewrite Forall_forall in rv_channel0.
        destruct (rv_channel0 q Hin) as [(_ & ? & _) _]. congruence.
      * intros j Hj. rewrite fmap_app, elem_of_app. simpl. rewrite list_elem_of_singleton, Hidx.
        apply list_lookup_insert_Some in Hj as [(-> & _)|[_ Hj]]; [tauto|].
        destruct (rv_sent0 j Hj) as [?|[?|?]]; tauto.
  - pose proof (closed_ended s i _ Hs Hrx Ht eq_refl) as Hg.
    destruct (sv_closed0 eq_refl) as [Hc _].
    constructor; simpl; rewrite ?length_insert; try done.
    + apply tasks_update; [done|by right].
    + by apply Hkeys.
    + intros _. split; [done|]. congruence.
Qed.

Lemma receive_inv s sp rest :
  schedule_inv s → rx_open s = true → channel s = sp :: rest → length (tasks s) = length data →
  schedule_inv (receive policy sp rest s).
Proof.
  intros Hs Hrx Hch Hlen. destruct Hs as []. destruct (sv_open0 Hrx). rewrite Hch in *.
  apply Forall_cons_1 in rv_channel0 as [[(Hr & Ht & Hle) Hnone] Hrest].
  rewrite fmap_cons in rv_distinct0. apply NoDup_cons in rv_distinct0 as [Hnew Hdist].
  pose proof (lookup_lt_Some _ _ _ Hnone) as Hlt.
  unfold receive. rewrite bool_decide_true by done. set (slots := <[_ := _]> (ordered s)).
  assert (∀ i q, slots !! i = Some (Some q) → slot s i q) as Hslots.
  { intros i q [(<- & [= <-] & _)|[_ Hq]]%list_lookup_insert_Some; [done|by apply rv_slots0]. }
  pose proof (drain_spec (length (ordered s) - next_index (coordinator s)) slots (coordinator s)
    ltac:(lia) rv_course0 ltac:(unfold slots; by rewrite length_insert)
    (λ i q Hq, proj1 (Hslots i q Hq))) as Hdr.
  destruct (drain _ _ _ _) as [slots' c'].
  destruct Hdr as [Hl' [(Hc' & Hmono & Hstop & Hpassed & Hsame)|[Hg Hgoal]]].
  - pose proof Hc' as (Hg & _). constructor; simpl; try done; [| |congruence].
    { intros i t Hi. pose proof (sv_tasks0 i t Hi) as Hok. destruct t as [| |[e|]]; try done.
      simpl in *. destruct Hok as [?|Hok]; [by left|]. destruct rv_course0 as [? _]. congruence. }
    intros _. constructor; simpl; try done.
    + intros i q Hq.
      assert (i < next_index (coordinator s) ∨ next_index c' ≤ i)%nat as Hi.
      { destruct (decide (next_index (coordinator s) ≤ i < next_index c')%nat) as [Hin|]; [|lia].
        destruct (Hpassed i Hin) as [? _]. congruence. }
      rewrite Hsame in Hq by done. destruct (Hslots i q Hq) as (? & ? & ?).
      split_and!; try done. simpl. lia.
    + rewrite Forall_forall in Hrest |- *. intros q Hq. destruct (Hrest q Hq) as [(Hq1 & Hq2 & Hq3) Hq4].
      assert (slots !! sp_index q = Some None) as Hq5.
      { unfold slots. rewrite list_lookup_insert_ne; [done|]. intros Heq. apply Hnew.
        rewrite Heq. apply list_elem_of_fmap. by exists q. }
      assert (next_index c' ≤ sp_index q)%nat as Hnq.
      { destruct (decide (sp_index q < next_index c')%nat) as [Hin|]; [|lia].
        destruct (Hpassed (sp_index q) ltac:(lia)) as [_ [q' ?]]. congruence. }
      split; [split_and!; done|]. by rewrite Hsame by lia.
    + intros i Hi. destruct (decide (i < next_index (coordinator s))%nat); [by apply rv_passed0|].
      destruct (Hpassed i ltac:(lia)) as [_ [q Hq]]. by destruct (Hslots i q Hq) as (_ & ? & _).
    + intros i Hi. destruct (rv_sent0 i Hi) as [?|[[q Hq]|Hin]]; [left; lia| |].
      * destruct (decide (i < next_index c')%nat); [by left|right; left]. exists q.
        rewrite Hsame by lia. unfold slots. rewrite list_lookup_insert_ne; [done|].
        intros <-. congruence.
      * rewrite fmap_cons in Hin. apply elem_of_cons in Hin as [->|Hin]; [|by right; right].
        destruct (decide (sp_index sp < next_index c')%nat); [by left|right; left]. exists sp.
        rewrite Hsame by lia. by apply list_lookup_insert_eq.
  - constructor; simpl; try done; [|congruence|].
    { intros i t Hi. pose proof (sv_tasks0 i t Hi) as Hok. destruct t as [| |[e|]]; try done.
      by right. }
    intros _. split; [done|]. congruence.
Qed.

Lemma forallb_lookup (ts : list Task) i t :
  forallb task_ended ts = true → ts !! i = Some t → task_ended t = true.
Proof.
  rewrite forallb_forall. intros Ha Hi. apply Ha, list_elem_of_In. by eapply list_elem_of_lookup_2.
Qed.

Lemma close_inv s :
  schedule_inv s → rx_open s = true → channel s = [] → length (tasks s) = length data →
  forallb task_ended (tasks s) = true → schedule_inv (close s).
Proof.
  intros [] Hrx Hch Hlen Hall. destruct (sv_open0 Hrx). constructor; simpl; try done.
  intros _. split; [|done]. destruct rv_course0 as (Hg & Hn & ->).
  set (n := next_index (coordinator s)) in *.
  destruct (decide (n = length data)) as [Hend|].
  { by rewrite drop_ge by (rewrite results_length; lia). }
  destruct (lookup_lt_is_Some_2 (tasks s) n ltac:(lia)) as [t Ht].
  pose proof (forallb_lookup _ _ _ Hall Ht) as He. pose proof (sv_tasks0 n t Ht) as Hok.
  destruct t as [| |[e|]]; try done; simpl in Hok.
  - destruct Hok as [(r & Hr & Hre)|?]; [|congruence].
    rewrite (drop_S _ _ _ Hr). by destruct r.
  - destruct (rv_sent0 n Ht) as [?|[[sp Hsp]|Hin]]; [lia|by apply rv_next0 in Hsp|].
    rewrite Hch in Hin. by apply elem_of_nil in Hin.
Qed.

Lemma step_inv s s' :
  schedule_inv s → async_steps_to policy config data s s' → schedule_inv s'.
Proof.
  intros Hs [[|i|i|] Hst]; unfold async_step in Hst.
  - destruct (bailed s); [done|]. destruct (data !! length (tasks s)) eqn:Hd; [|done].
    destruct (_ <? _); [|done]. simplify_eq. by apply spawn_inv.
  - destruct (tasks s !! i) as [[| |]|] eqn:Ht; try done. destruct (data !! i) eqn:Hd; [|done].
    simplify_eq. by apply prepare_inv.
  - destruct (tasks s !! i) as [[| |]|] eqn:Ht; try done. simplify_eq. by apply send_inv.
  - destruct (rx_open s) eqn:Hrx; [|done]. case_bool_decide as Hl; [|done]. simpl in Hst.
    destruct (channel s) as [|sp rest] eqn:Hch.
    + destruct (forallb _ _) eqn:Ha; [|done]. simplify_eq. by apply close_inv.
    + simplify_eq. by apply receive_inv.
Qed.

Lemma reachable_inv s :
  rtc (async_steps_to policy config data) (async_start (length data) p) s → schedule_inv s.
Proof.
  intros Hs. assert (schedule_inv (async_start (length data) p)) as Hi by apply start_inv.
  revert Hi. induction Hs as [|s1 s2 s3 Hst _ IH]; [done|]. intros Hi. by eapply IH, step_inv.
Qed.

(** When every task has ended, the tasks that need the key manager have had it and each
    one's error is that of its result. *)
Lemma ended_keys s :
  schedule_inv s → length (tasks s) = length data → forallb task_ended (tasks s) = true →
  shared_keys s = keys_after policy keys0 data.
Proof.
  intros [] Hlen Hall. unfold keys_after. destruct (existsb _ data) eqn:Hex.
  - destruct sv_keys0 as [[_ ->]|[Hn _]]; [done|]. destruct Hn.
    apply existsb_exists in Hex as (chunk & Hin & Hk).
    apply list_elem_of_In, list_elem_of_lookup in Hin as [i Hd].
    destruct (lookup_lt_is_Some_2 (tasks s) i) as [t Ht]; [rewrite Hlen; by eapply lookup_lt_Some|].
    exists i, t, chunk. split_and!; try done. intros ->. by pose proof (forallb_lookup _ _ _ Hall Ht).
  - destruct sv_keys0 as [[(i & t & chunk & _ & _ & Hd & Hk) _]|[_ ->]]; [|done].
    assert (existsb (needs_key policy keys0) data = true) as Ht; [|congruence].
    apply existsb_exists. exists chunk. split; [|done].
    apply list_elem_of_In. by eapply list_elem_of_lookup_2.
Qed.

Lemma ended_results s :
  schedule_inv s → length (tasks s) = length data → forallb task_ended (tasks s) = true →
  going (coordinator s) = true → task_results (tasks s) = result_error <$> results.
Proof.
  intros [] Hlen Hall Hg. apply list_eq. intros i. unfold task_results. rewrite !list_lookup_fmap.
  destruct (tasks s !! i) as [t|] eqn:Ht.
  - pose proof (forallb_lookup _ _ _ Hall Ht). pose proof (sv_tasks0 i t Ht) as Hok.
    destruct t as [| |[e|]]; try done; simpl in Hok |- *.
    + destruct Hok as [(r & -> & Hr)|?]; [simpl; by rewrite Hr|congruence].
    + by destruct Hok as (sp & ->).
  - assert (results !! i = None) as ->; [|done].
    apply lookup_ge_None_2. apply lookup_ge_None_1 in Ht. rewrite results_length. lia.
Qed.

Lemma goal_progress : progress goal ≠ Unwound.
Proof.
  unfold goal. destruct (coordinate_all_progress results c0 eq_refl) as [Hg|[e ->]]; [|done].
  unfold going in Hg. by destruct (progress _).
Qed.

(** A run that is over has the reference's coordinator, keys and errors. *)
Lemma done_outcome s :
  schedule_inv s → async_done data s = true →
  coordinator s = goal ∧ shared_keys s = keys_after policy keys0 data ∧
  (going goal = true → task_results (tasks s) = result_error <$> results).
Proof.
  intros Hs Hdone. pose proof Hs as [].
  assert (progress (coordinator s) ≠ Unwound) as Hnu.
  { destruct (rx_open s); [|destruct (sv_closed0 eq_refl) as [-> _]; apply goal_progress].
    destruct (sv_open0 eq_refl). destruct rv_course0 as [Hg _]. unfold going in Hg.
    by destruct (progress _). }
  unfold async_done in Hdone. rewrite sv_bailed0 in Hdone. simpl in Hdone.
  assert (negb (rx_open s) && bool_decide (length (tasks s) = length data) &&
    forallb task_ended (tasks s) = true) as [[Hrx Hlen]%andb_prop Hall]%andb_prop
    by (by destruct (progress (coordinator s))).
  apply bool_decide_eq_true in Hlen. apply negb_true_iff in Hrx.
  destruct (sv_closed0 Hrx) as [Hc _]. split; [done|]. split; [by apply ended_keys|].
  intros Hg. apply ended_results; congruence.
Qed.

(** No reachable state is stuck before the end. *)
Lemma can_step s :
  schedule_inv s → async_done data s = true ∨ red (async_steps_to policy config data) s.
Proof.
  intros Hs. pose proof Hs as [].
  assert (∀ i t, tasks s !! i = Some t → task_ended t = false →
    red (async_steps_to policy config data) s) as Htask.
  { intros i t Ht He. pose proof (lookup_lt_Some _ _ _ Ht).
    destruct (lookup_lt_is_Some_2 data i ltac:(lia)) as [chunk Hd].
    destruct t as [|sp|]; [| |done].
    - exists (prepare policy i chunk s), (Prepare i). simpl. by rewrite Ht, Hd.
    - exists (send i sp s), (Send i). simpl. by rewrite Ht. }
  destruct (forallb task_ended (tasks s)) eqn:Hall.
  2:{ right. assert (∃ t, t ∈ tasks s ∧ task_ended t = false) as (t & Hin & He).
      { clear -Hall. induction (tasks s) as [|t ts IH]; [done|]. simpl in Hall.
        destruct (task_ended t) eqn:Ht; [|exists t; split; [by left|done]].
        destruct (IH Hall) as (u & ? & ?). exists u. split; [by right|done]. }
      apply list_elem_of_lookup in Hin as [i Hi]. by eapply Htask. }
  destruct (decide (length (tasks s) = length data)) as [Hlen|Hlen].
  - destruct (rx_open s) eqn:Hrx.
    + right. destruct (channel s) as [|sp rest] eqn:Hch; eexists; exists Receive; simpl;
        rewrite Hrx, bool_decide_true, Hch by done; simpl; rewrite ?Hall; reflexivity.
    + left. unfold async_done. rewrite Hrx, Hall, bool_decide_true with (P := _ = _) by done.
      by rewrite orb_true_r.
  - right. destruct (lookup_lt_is_Some_2 data (length (tasks s)) ltac:(lia)) as [chunk Hd].
    eexists. exists Spawn. simpl. rewrite sv_bailed0, Hd.
    assert (permits_taken s = 0) as ->.
    { unfold permits_taken, lenZ. assert (filter (λ t, task_ended t = false) (tasks s) = []) as ->; [|done].
      clear -Hall. induction (tasks s) as [|t ts IH]; [done|]. simpl in Hall.
      apply andb_prop in Hall as [Ht Hts]. rewrite filter_cons_False by congruence. by apply IH. }
    rewrite (proj2 (Z.ltb_lt _ _)) by lia. reflexivity.
Qed.
End scheduler.

(** ** Every run ends *)
Section termination.
Context {JR : JsonDoc RegistryState} {JN : JsonDoc SegmentMap} `{Crates}.
Variables (policy : Policy) (config : PipelineConfig) (data : list bytes).

Definition task_weight (t : Task) : nat :=
  match t with Preparing => 3 | Sending _ => 2 | Finished _ => 0 end.

(** What is left to do: chunks to spawn, work of the tasks, messages, closing. *)
Definition work_left (s : WriteState) : nat :=
  4 * (length data - length (tasks s)) + sum_list_with task_weight (tasks s) +
  length (channel s) + (if rx_open s then 1 else 0) + (if bailed s is Some _ then 0 else 1).

Lemma weight_insert ts i t t' :
  ts !! i = Some t →
  (sum_list_with task_weight (<[i := t']> ts) + task_weight t =
   sum_list_with task_weight ts + task_weight t')%nat.
Proof.
  revert i. induction ts as [|u ts IH]; intros [|i]; [done|done|..]; simpl.
  - intros [= ->]. lia.
  - intros Hi. specialize (IH i Hi). change (list_insert i t' ts) with (<[i := t']> ts). lia.
Qed.

Lemma step_decreases s s' :
  async_steps_to policy config data s s' → (work_left s' < work_left s)%nat.
Proof.
  intros [[|i|i|] Hst]; unfold async_step in Hst.
  - destruct (bailed s) eqn:Hb; [done|]. destruct (data !! length (tasks s)) as [chunk|] eqn:Hd; [|done].
    destruct (_ <? _); [|done]. simplify_eq. pose proof (lookup_lt_Some _ _ _ Hd).
    unfold spawn. destruct (_ <? _); unfold work_left; simpl; rewrite Hb.
    + destruct (rx_open s); lia.
    + rewrite length_app, sum_list_with_app. simpl. lia.
  - destruct (tasks s !! i) as [[| |]|] eqn:Ht; try done. destruct (data !! i) as [chunk|]; [|done].
    simplify_eq. unfold prepare. destruct (prepare_segment _ _ _ _) as [r keys].
    unfold work_left; simpl. rewrite length_insert.
    match goal with |- context [<[i := ?t]> (tasks s)] => pose proof (weight_insert _ _ _ t Ht) end.
    simpl in *. destruct r; simpl in *; lia.
  - destruct (tasks s !! i) as [[|sp|]|] eqn:Ht; try done. simplify_eq.
    unfold send, set_task. destruct (rx_open s) eqn:Hrx; unfold work_left; simpl; rewrite Hrx, length_insert.
    + pose proof (weight_insert _ _ _ (Finished None) Ht). simpl in *. rewrite length_app; simpl. lia.
    + pose proof (weight_insert _ _ _ (Finished (Some (Msg "failed to enqueue segment"))) Ht). simpl in *. lia.
  - destruct (rx_open s) eqn:Hrx; [|done]. case_bool_decide; [|done]. simpl in Hst.
    destruct (channel s) as [|sp rest] eqn:Hch.
    + destruct (forallb _ _); [|done]. simplify_eq. unfold work_left; simpl. rewrite Hrx. lia.
    + simplify_eq. unfold receive. case_bool_decide.
      * destruct (drain _ _ _ _) as [o c]. unfold work_left; simpl. rewrite Hrx, Hch. simpl.
        destruct (going c); lia.
      * unfold work_left; simpl. rewrite Hrx, Hch. simpl. lia.
Qed.

Lemma steps_sn s : sn (async_steps_to policy config data) s.
Proof.
  remember (work_left s) as n eqn:Hn. revert s Hn.
  induction (lt_wf n) as [n _ IH]. intros s ->. constructor. intros s' Hst.
  eapply IH; [|reflexivity]. by apply step_decreases.
Qed.

(** From a state whose descendants are done or can go on, some run reaches the end. *)
Lemma run_to_end s :
  (∀ s', rtc (async_steps_to policy config data) s s' →
     async_done data s' = true ∨ red (async_steps_to policy config data) s') →
  ∃ s', rtc (async_steps_to policy config data) s s' ∧ async_done data s' = true.
Proof.
  induction (steps_sn s) as [s _ IH]. intros Hgo.
  destruct (Hgo s (rtc_refl _ _)) as [Hd|[s1 Hst]]; [by exists s|].
  destruct (IH s1 Hst) as (s' & Hr & Hd); [intros s' Hr; by apply Hgo; eapply rtc_l|].
  exists s'. split; [by eapply rtc_l|done].
Qed.
End termination.

(** ** A first chunk over the memory limit *)
Section bailing.
Context {JR : JsonDoc RegistryState} {JN : JsonDoc SegmentMap} `{Crates}.
Variables (policy : Policy) (config : PipelineConfig) (chunk : bytes) (rest : list bytes).
Variable p : WritePipeline.
Hypothesis over_limit : memory_limit_per_task config < lenZ chunk.

(** The call gives up before it spawns any task. *)
Lemma bail_reachable s :
  rtc (async_steps_to policy config (chunk :: rest)) (async_start (S (length rest)) p) s →
  s = async_start (S (length rest)) p ∨ s = spawn config chunk (async_start (S (length rest)) p).
Proof.
  set (s0 := async_start (S (length rest)) p). intros Hs.
  assert (∀ s1 s2, (s1 = s0 ∨ s1 = spawn config chunk s0) → rtc (async_steps_to policy config (chunk :: rest)) s1 s2 →
    s2 = s0 ∨ s2 = spawn config chunk s0) as Hgen; [|by apply (Hgen s0); [left|]].
  intros s1 s2 H1 Hr. induction Hr as [|s1 s2 s3 [ev Hst] _ IH]; [done|]. apply IH. clear IH.
  destruct H1 as [->| ->].
  - destruct ev as [|i|i|]; simpl in Hst; try done.
    destruct (_ <? _); [|done]. right. by simplify_eq.
  - unfold spawn in Hst. rewrite (proj2 (Z.ltb_lt _ _) over_limit) in Hst.
    destruct ev as [|i|i|]; by simpl in Hst.
Qed.
End bailing.

(** ** One schedule at a time *)
Section schedules.
Context {JR : JsonDoc RegistryState} {JN : JsonDoc SegmentMap} `{Crates}.

Lemma run_events_steps policy config data events s s' :
  run_events policy config data events s = Some s' → rtc (async_steps_to policy config data) s s'.
Proof.
  revert s. induction events as [|event events IH]; intros s; simpl.
  { by intros [= ->]. }
  destruct (async_step policy config data event s) as [s1|] eqn:Hs; [|done].
  intros Hr. eapply rtc_l; [by exists event|by apply IH].
Qed.

End schedules.

(** ** Properties *)
Section schedule_properties.
Context {JR : JsonDoc RegistryState} {JN : JsonDoc SegmentMap} `{Crates}.

(** The two ways the first chunk decides: over the limit, or all chunks are within it. *)
Lemma limit_cases config (data : bytes) chunk rest :
  chunks SEGMENT_SIZE data = chunk :: rest →
  (memory_limit_per_task config < lenZ chunk) ∨
  (memory_limit_per_task config <? lenZ chunk) = false ∧
  Forall (λ c, lenZ c ≤ memory_limit_per_task config) (chunk :: rest).
Proof.
  intros Hc. destruct (Z.ltb_spec (memory_limit_per_task config) (lenZ chunk)); [by left|right].
  split; [done|]. eapply Forall_impl; [by apply (chunks_head_longest SEGMENT_SIZE data)|]. simpl. lia.
Qed.

(** Every reachable state of a write is over or can go on. *)
Lemma async_progress config policy p data s :
  let data_chunks := chunks SEGMENT_SIZE data in
  rtc (async_steps_to policy config data_chunks) (async_start (length data_chunks) p) s →
  async_done data_chunks s = true ∨ red (async_steps_to policy config data_chunks) s.
Proof.
  cbv zeta. destruct (chunks SEGMENT_SIZE data) as [|chunk rest] eqn:Hc.
  { intros Hs. apply (can_step policy config [] p).
    by apply (reachable_inv policy config [] p (Forall_nil_2 _)). }
  destruct (limit_cases config data chunk rest Hc) as [Hover|[_ Hlim]]; intros Hs.
  - apply (bail_reachable policy config chunk rest p Hover) in Hs as [->| ->].
    + right. eexists. exists Spawn. simpl. unfold permits_taken. simpl.
      rewrite (proj2 (Z.ltb_lt _ _)) by (unfold lenZ; simpl; lia). reflexivity.
    + left. unfold spawn. rewrite (proj2 (Z.ltb_lt _ _) Hover). done.
  - apply (can_step policy config (chunk :: rest) p). by apply (reachable_inv policy config _ p Hlim).
Qed.

(** A run that is over returns what the sequential reference returns. *)
Lemma outcome_in_order config c now data policy p s :
  chunks SEGMENT_SIZE data ≠ [] →
  let data_chunks := chunks SEGMENT_SIZE data in
  rtc (async_steps_to policy config data_chunks) (async_start (length data_chunks) p) s →
  async_done data_chunks s = true →
  async_finish c now (lenZ data) policy (length data_chunks) s =
    write_in_order config c now data policy p.
Proof.
  cbv zeta. unfold write_in_order. destruct (chunks SEGMENT_SIZE data) as [|chunk rest] eqn:Hc; [done|].
  intros _ Hs Hd. destruct (limit_cases config data chunk rest Hc) as [Hover|[Hb Hlim]].
  - rewrite (proj2 (Z.ltb_lt _ _) Hover).
    apply (bail_reachable policy config chunk rest p Hover) in Hs as [->| ->].
    + unfold async_done in Hd. simpl in Hd. done.
    + unfold spawn. rewrite (proj2 (Z.ltb_lt _ _) Hover). done.
  - rewrite Hb. pose proof (reachable_inv policy config (chunk :: rest) p Hlim s Hs) as Hinv.
    destruct (done_outcome policy (chunk :: rest) p s Hinv Hd) as (Hco & Hk & Hres).
    rewrite (prepare_all_results policy). unfold async_finish.
    rewrite (sv_bailed _ _ _ _ Hinv), Hk, Hco.
    pose proof (goal_progress policy (chunk :: rest) p) as Hnu.
    destruct (progress (coordinate_all _ _ _)) eqn:Hp; [| |done].
    + rewrite Hres; [done|]. unfold going. by rewrite Hp.
    + unfold conclude, commit_failure. by rewrite Hp.
Qed.

(** C5: the scheduler does not matter.  Whatever order the tasks run, finish and are
    received in, the asynchronous write returns the result and leaves the state of the
    sequential reference, which prepares the chunks in order and then stages them in
    order; and some schedule does get there, so the two agree exactly. *)
Theorem async_write_is_sequential config c now data policy p r p' :
  write_capsule_with_policy_async config c now data policy p r p' ↔
  write_in_order config c now data policy p = (r, p').
Proof.
  unfold write_capsule_with_policy_async.
  destruct (chunks SEGMENT_SIZE data) as [|chunk rest] eqn:Hc.
  { unfold write_in_order. by rewrite Hc. }
  assert (chunks SEGMENT_SIZE data ≠ []) as Hne by (by rewrite Hc).
  rewrite <- Hc. split.
  - intros (s & Hs & Hd & <-). symmetry. by apply outcome_in_order.
  - intros Hw. destruct (run_to_end policy config (chunks SEGMENT_SIZE data)
      (async_start (length (chunks SEGMENT_SIZE data)) p)) as (s & Hs & Hd).
    { apply async_progress. }
    exists s. split_and!; [done|done|]. rewrite <- Hw. by apply outcome_in_order.
Qed.

(** C14: an asynchronous write ends under every scheduler.  No run of its tasks and its
    coordinator is infinite, and no reachable state before the end is stuck: the
    semaphore, the channel and the join never deadlock, whatever the concurrency limit
    and whatever fails. *)
Theorem async_write_terminates config policy p data :
  let data_chunks := chunks SEGMENT_SIZE data in
  let start := async_start (length data_chunks) p in
  sn (async_steps_to policy config data_chunks) start ∧
  ∀ s, rtc (async_steps_to policy config data_chunks) start s →
    async_done data_chunks s = true ∨ red (async_steps_to policy config data_chunks) s.
Proof. intros data_chunks start. split; [apply steps_sn|]. apply async_progress. Qed.
End schedule_properties.
