(* ===== verification/AsyncInvariant.v ===== *)
(** What an asynchronous write maintains while it stages its segments.

    Two pipelines are read off a write in progress: the one that a rollback leaves
    ([base_view]) and the one that a successful commit leaves ([virtual_view]).  Both
    satisfy the invariant of the pipeline, the first holding the references taken on
    stored segments, the second every reference taken so far; staging a segment is one
    step of each. *)
From S2P Require Import Prelude Errors Common Externals.
From S2P Require Nvram Compression KeyManager Encryption Dedup Registry Gc WritePipeline.
From S2P Require PipelineInvariant AsyncPipeline AsyncSchedule.
Import Nvram Compression KeyManager Encryption Registry Gc WritePipeline PipelineInvariant.
Import AsyncPipeline AsyncSchedule.

(** ** The log a commit would leave *)
Section virtual_log.
Context {JN : JsonDoc SegmentMap}.
Implicit Types (t : NvramTransaction) (l : NvramLog).

Definition pending_ids (ps : list PendingSegment) : list SegmentId :=
  (λ e, seg_id (pend_segment e)) <$> ps.

Definition virtual_log t l : NvramLog :=
  mkNvramLog (written (nv_file l) (pending t)) (install_pending (pending t) (segment_map l))
    (current_offset t) (nv_metadata l) (nv_faults l).

(** A transaction in the middle of staging, alone on the log. *)
Record staging_txn t l : Prop := {
  sx_open : finalized t = false;
  sx_contig : contig (base_offset t) (pending t) (current_offset t);
  sx_next : next_offset l = current_offset t;
  sx_fresh : ∀ id, id ∈ pending_ids (pending t) → segment_map l !! id = None;
  sx_distinct : NoDup (pending_ids (pending t));
}.

Lemma written_snoc f ps e :
  written f (ps ++ [e]) = write_at (written f ps) (seg_offset (pend_segment e)) (pend_data e).
Proof. unfold written. by rewrite foldl_app. Qed.

Lemma install_snoc ps e m :
  install_pending (ps ++ [e]) m = <[seg_id (pend_segment e) := pend_segment e]> (install_pending ps m).
Proof. unfold install_pending. by rewrite foldl_app. Qed.

Lemma pending_ids_snoc ps e : pending_ids (ps ++ [e]) = pending_ids ps ++ [seg_id (pend_segment e)].
Proof. unfold pending_ids. by rewrite fmap_app. Qed.

(** A record outside the pending list goes in before or after them. *)
Lemma install_insert ps id s m :
  id ∉ pending_ids ps → install_pending ps (<[id := s]> m) = <[id := s]> (install_pending ps m).
Proof.
  unfold install_pending, pending_ids. revert m.
  induction ps as [|e r IH]; intros m; simpl; [done|]. intros [Hne Hn]%not_elem_of_cons.
  rewrite insert_insert_ne by congruence. by apply IH.
Qed.

Lemma update_pending_last id f ps e :
  id ∉ pending_ids ps → seg_id (pend_segment e) = id →
  update_pending id f (ps ++ [e]) = Some (ps ++ [mkPendingSegment (f (pend_segment e)) (pend_data e)]).
Proof.
  unfold pending_ids. intros Hn He. induction ps as [|x r IH]; simpl.
  { by rewrite decide_True. }
  apply not_elem_of_cons in Hn as [Hne Hn]. rewrite decide_False by congruence.
  by rewrite IH.
Qed.

(** Updating one staged record updates the installed map there and nothing else. *)
Lemma update_pending_some id f ps :
  (∀ x, seg_id (f x) = seg_id x ∧ seg_offset (f x) = seg_offset x ∧ seg_len (f x) = seg_len x) →
  NoDup (pending_ids ps) → id ∈ pending_ids ps →
  ∃ ps' s, update_pending id f ps = Some ps' ∧ pending_ids ps' = pending_ids ps ∧
    pend_segment <$> List.find (λ e, bool_decide (seg_id (pend_segment e) = id)) ps = Some s ∧
    (∀ m, install_pending ps m !! id = Some s ∧
       install_pending ps' m = <[id := f s]> (install_pending ps m)) ∧
    (∀ g, written g ps' = written g ps) ∧
    ∀ o c, contig o ps c → 0 ≤ seg_ref_count (f s) ≤ U32_MAX →
      seg_deduplicated (f s) = (1 <? seg_ref_count (f s)) → contig o ps' c.
Proof.
  intros Hf. induction ps as [|e r IH]; intros Hnd Hin; [by apply elem_of_nil in Hin|].
  unfold pending_ids in Hnd, Hin. rewrite fmap_cons in Hnd, Hin. apply NoDup_cons in Hnd as [Hni Hnd].
  destruct (Hf (pend_segment e)) as (Hi & Ho & Hl). simpl update_pending. simpl List.find.
  destruct (decide (seg_id (pend_segment e) = id)) as [He|He].
  - rewrite bool_decide_true by done. eexists _, _. split; [done|]. split; [unfold pending_ids; simpl; congruence|].
    split; [done|]. split; [|split].
    + intros m. unfold install_pending; simpl. fold (install_pending r (<[seg_id (pend_segment e) := pend_segment e]> m)).
      fold (install_pending r (<[seg_id (f (pend_segment e)) := f (pend_segment e)]> m)).
      rewrite Hi, !install_insert by done. rewrite He, lookup_insert_eq, insert_insert_eq. done.
    + intros g. simpl. by rewrite Ho.
    + intros o c (? & ? & _ & _ & ?) Hr Hd. simpl. by rewrite Ho, Hl.
  - rewrite bool_decide_false by done.
    apply elem_of_cons in Hin as [Hin|Hin]; [congruence|].
    destruct (IH Hnd Hin) as (ps' & s & -> & Hids & Hfind & Hinst & Hw & Hc).
    eexists _, s. split; [done|]. split; [unfold pending_ids in *; rewrite !fmap_cons; by rewrite Hids|].
    split; [done|]. split; [|split].
    + intros m. apply (Hinst (<[seg_id (pend_segment e) := pend_segment e]> m)).
    + intros g. simpl. apply Hw.
    + intros o c (? & ? & ? & ? & ?) Hr Hd. simpl. by eauto 9.
Qed.
End virtual_log.

(** ** The two views, and what holds between two segments *)
Section staging.
Context {JR : JsonDoc RegistryState} {JN : JsonDoc SegmentMap} `{Crates}.
Implicit Types g : Stage.

(** The schedule of the registry's file: staging does not save the registry. *)
Variable rf : faults.

Definition sg_log g : NvramLog := nvram (sg_store g).
Definition sg_registry g : CapsuleRegistry := registry (sg_store g).

Definition base_view (km : option KeyManager) g : WritePipeline :=
  mkWritePipeline (mkStore (sg_registry g) (set_next_offset (base_offset (sg_txn g)) (sg_log g))) km.

Definition virtual_view (km : option KeyManager) g : WritePipeline :=
  mkWritePipeline (mkStore (sg_registry g) (virtual_log (sg_txn g) (sg_log g))) km.

(** A staged segment that stands for [d] under the hash [h]. *)
Definition staged_as (D : bytes → Prop) km g (h : ContentHash) (id : SegmentId) : Prop :=
  id ∈ pending_ids (pending (sg_txn g)) ∧
  ∃ d, content (virtual_view km g) id = Some (d, Some h) ∧ D d ∧ Dedup.hash_content d = h.

(** What a task hands to the coordinator for [chunk]. *)
Definition prepared_for (D : bytes → Prop) (policy : Policy) km (chunk : bytes)
    (sp : SegmentPrepared) : Prop :=
  ∃ d, D d ∧ sp_content_hash sp = Dedup.hash_content d ∧
    (∀ h, seals km (sp_comp_result sp) h (sp_encryption_meta sp) (sp_final_data sp) d) ∧
    lenZ (sp_final_data sp) ≤ lenZ chunk ∧ decompress_for (compression policy) d = Ok chunk.

Record staging D G km policy incs regs ids outs (b k : Z) g : Prop := {
  st_base : pipe_inv D incs G (base_view km g);
  st_virtual : pipe_inv D ids G (virtual_view km g);
  st_txn : staging_txn (sg_txn g) (sg_log g);
  st_staged : ∀ h id, staged_content g !! h = Some id → staged_as D km g h id;
  st_regs : Forall (λ hi, staged_as D km g hi.1 hi.2) regs;
  st_regs_distinct : NoDup regs.*2;
  st_incs : ∀ id, countZ id incs ≤ countZ id ids;
  st_reads : Forall2 (seg_reads (virtual_view km g) (compression policy)) ids outs;
  st_budget : budget b k (virtual_view km g);
  st_quiet : reg_faults (sg_registry g) = rf;
}.

(** Enough of it to give up: the log that a rollback leaves is sound. *)
Definition abortable D G km incs g : Prop :=
  finalized (sg_txn g) = false ∧ pipe_inv D incs G (base_view km g) ∧
  reg_faults (sg_registry g) = rf.

Lemma staged_as_mono D km g g' h id :
  (id ∈ pending_ids (pending (sg_txn g)) → id ∈ pending_ids (pending (sg_txn g'))) →
  (∀ j x, content (virtual_view km g) j = Some x → content (virtual_view km g') j = Some x) →
  staged_as D km g h id → staged_as D km g' h id.
Proof. intros Hp Hc (Hid & d & ? & ? & ?). split; [auto|]. exists d. auto. Qed.

Lemma describe_staged_eq cr h m id off len :
  describe_staged cr h m (fresh_segment id off len) = describe_segment cr h m (fresh_segment id off len).
Proof. by destruct h, m. Qed.

Lemma describe_staged_fresh cr h m id off len :
  let s := describe_staged cr h m (fresh_segment id off len) in
  seg_id s = id ∧ seg_offset s = off ∧ seg_len s = len ∧ seg_ref_count s = 1 ∧
  seg_deduplicated s = false ∧ seg_content_hash s = h.
Proof. by destruct h, m. Qed.

(** *** Staging a new segment *)
Definition stage_new_result policy (sp : SegmentPrepared) g : Stage :=
  let id := mkSegmentId (next_segment_id (sg_registry g)) in
  let t := sg_txn g in
  let data := sp_final_data sp in
  let hash := if dedupe policy then Some (sp_content_hash sp) else None in
  let seg := describe_staged (sp_comp_result sp) hash (sp_encryption_meta sp)
               (fresh_segment id (current_offset t) (wrap 32 (lenZ data))) in
  let cur := u64_add (current_offset t) (lenZ data) in
  mkStage
    (mkStore (set_next_segment_id (u64_add (next_segment_id (sg_registry g)) 1) (sg_registry g))
       (set_next_offset cur (sg_log g)))
    (mkNvramTransaction (pending t ++ [mkPendingSegment seg data]) (base_offset t) cur false)
    (match hash with Some h => <[h := id]> (staged_content g) | None => staged_content g end).

Lemma stage_new_eq policy sp g :
  finalized (sg_txn g) = false →
  mkSegmentId (next_segment_id (sg_registry g)) ∉ pending_ids (pending (sg_txn g)) →
  stage_new policy sp g =
    (Ok (mkSegmentId (next_segment_id (sg_registry g)), NewSegment, lenZ (sp_final_data sp),
         if dedupe policy then Some (sp_content_hash sp) else None), stage_new_result policy sp g).
Proof.
  intros Hfin Hid. unfold stage_new, stage_new_result, sg_reg, sg_on_store, on_registry, alloc_segment,
    on_transaction. cbv [bind gets modify ret zoom]. cbn [sg_txn sg_store nvram registry].
  rewrite append_segment_eq by done. cbv zeta. cbn [txn txn_log].
  set (id := mkSegmentId _) in *. unfold set_segment_metadata, ensure_active.
  unfold sg_log, sg_registry in *. cbv [bind gets lift on_txn modify].
  destruct (dedupe policy); cbn [txn finalized sg_txn sg_store staged_content nvram registry txn_log pending];
    rewrite Hfin; cbn [txn pending]; rewrite update_pending_last by done; simpl; done.
Qed.

(** The virtual log gains the described record, as an append that cannot fail. *)
Lemma virtual_described t l id s data :
  log_inv (virtual_log t l) → staging_txn t l → current_offset t + lenZ data < 2 ^ 64 →
  lenZ data < 2 ^ 32 → id ∉ pending_ids (pending t) →
  seg_id s = id → seg_offset s = current_offset t → seg_len s = wrap 32 (lenZ data) →
  seg_ref_count s = 1 → seg_deduplicated s = false →
  let cur := u64_add (current_offset t) (lenZ data) in
  described (virtual_log t l) id s data
    (virtual_log (mkNvramTransaction (pending t ++ [mkPendingSegment s data]) (base_offset t) cur false)
       (set_next_offset cur l)).
Proof.
  intros Hi [] Hlt Hlen Hid Hs1 Hs2 Hs3 Hs4 Hs5 cur.
  set (L := set_nv_faults [] (virtual_log t l)).
  assert (log_inv L) as HL by (by apply (log_inv_view (virtual_log t l))).
  pose proof (append_spec L id data HL Hlt) as Ha. rewrite append_ok in Ha by done. cbv zeta in Ha.
  destruct Ha as (Hl1 & _ & _ & Hm1 & Hn1 & Hb1 & Hj1).
  eapply (described_view (virtual_log t l)); [exact Hl1|exact Hm1|exact Hn1|exact Hb1| |done|..]; simpl; try done.
  unfold log_view, virtual_log; simpl. rewrite written_snoc, install_snoc. simpl.
  rewrite Hs1, Hs2. f_equal. f_equal. by rewrite insert_insert_eq.
Qed.

Lemma pending_installed ps m id :
  NoDup (pending_ids ps) → id ∈ pending_ids ps →
  ∃ e, e ∈ ps ∧ seg_id (pend_segment e) = id ∧ install_pending ps m !! id = Some (pend_segment e).
Proof.
  intros Hnd (e & -> & He)%list_elem_of_fmap. exists e. split_and!; try done.
  by apply install_pending_lookup.
Qed.

(** Segments that are not staged are the same in both views. *)
Lemma view_lookup km g id :
  id ∉ pending_ids (pending (sg_txn g)) →
  segment_map (lg (virtual_view km g)) !! id = segment_map (sg_log g) !! id.
Proof. intros Hid. by apply install_pending_lookup_other. Qed.

Lemma next_not_pending D G km policy incs regs ids outs b k g :
  staging D G km policy incs regs ids outs b k g →
  (mkSegmentId (next_segment_id (sg_registry g)) ∉ pending_ids (pending (sg_txn g))) ∧
  segment_map (sg_log g) !! mkSegmentId (next_segment_id (sg_registry g)) = None ∧
  segment_map (lg (virtual_view km g)) !! mkSegmentId (next_segment_id (sg_registry g)) = None.
Proof.
  intros []. destruct st_txn0. set (id := mkSegmentId _).
  assert (∀ D' held q, pipe_inv D' held G q → next_segment_id (rg q) = next_segment_id (sg_registry g) →
    segment_map (lg q) !! id = None) as Hnone.
  { intros D' held q Hq Hn. destruct (segment_map (lg q) !! id) as [s|] eqn:Hs; [|done].
    destruct (pi_ids _ _ _ _ Hq _ _ Hs) as [_ Hlt]. simpl in Hlt. lia. }
  assert (segment_map (lg (virtual_view km g)) !! id = None) as Hv by (by eapply Hnone).
  split_and!; [|by apply (Hnone _ _ _ st_base0)|done].
  intros Hin. destruct (pending_installed _ (segment_map (sg_log g)) id sx_distinct0 Hin) as (e & _ & _ & He).
  assert (install_pending (pending (sg_txn g)) (segment_map (sg_log g)) !! id = None) by exact Hv.
  congruence.
Qed.

(** The references of the next segment all come from this write. *)
Lemma reads_snoc km g g' pol ids outs id d h out :
  (∀ j x, content (virtual_view km g) j = Some x → content (virtual_view km g') j = Some x) →
  Forall2 (seg_reads (virtual_view km g) pol) ids outs →
  content (virtual_view km g') id = Some (d, h) → decompress_for pol d = Ok out →
  Forall2 (seg_reads (virtual_view km g') pol) (ids ++ [id]) (outs ++ [out]).
Proof.
  intros Hm Hr Hc Hd. apply Forall2_app.
  - eapply Forall2_impl; [done|]. intros j o. apply seg_reads_mono, Hm.
  - constructor; [|done]. by exists d, h.
Qed.

Lemma stage_new_virtual D G km policy incs regs ids outs chunk b k sp g :
  staging D G km policy incs regs ids outs (lenZ chunk + b) (1 + k) g →
  prepared_for D policy km chunk sp → lenZ chunk < 2 ^ 32 → 0 ≤ b → 0 ≤ k →
  let g' := stage_new_result policy sp g in
  let id := mkSegmentId (next_segment_id (sg_registry g)) in
  let hash := if dedupe policy then Some (sp_content_hash sp) else None in
  pipe_inv D (ids ++ [id]) G (virtual_view km g') ∧
  (∀ j x, content (virtual_view km g) j = Some x → content (virtual_view km g') j = Some x) ∧
  budget b k (virtual_view km g') ∧
  ∃ d, content (virtual_view km g') id = Some (d, hash) ∧ D d ∧
    Dedup.hash_content d = sp_content_hash sp ∧ decompress_for (compression policy) d = Ok chunk.
Proof.
  intros Hst (d & HD & Hh & Hseal & Hlen & Hdec) Hlt Hb Hk g' id hash.
  destruct (next_not_pending _ _ _ _ _ _ _ _ _ _ _ Hst) as (Hid & _ & Hnone). fold id in Hid, Hnone.
  destruct Hst. destruct st_budget0 as (Bo & Bn & Br). set (data := sp_final_data sp) in *.
  pose proof (lenZ_nonneg data). pose proof (pi_next _ _ _ _ st_virtual0) as Hn0.
  change (next_offset (lg (virtual_view km g))) with (current_offset (sg_txn g)) in Bo.
  change (next_segment_id (rg (virtual_view km g))) with (next_segment_id (sg_registry g)) in Bn, Hn0.
  set (s := describe_staged (sp_comp_result sp) hash (sp_encryption_meta sp)
              (fresh_segment id (current_offset (sg_txn g)) (wrap 32 (lenZ data)))).
  pose proof (describe_staged_fresh (sp_comp_result sp) hash (sp_encryption_meta sp) id
    (current_offset (sg_txn g)) (wrap 32 (lenZ data))) as Hdesc. cbv zeta in Hdesc. fold s in Hdesc.
  destruct Hdesc as (Hs1 & Hs2 & Hs3 & Hs4 & Hs5 & Hs6).
  pose proof (virtual_described (sg_txn g) (sg_log g) id s data (pi_log _ _ _ _ st_virtual0) st_txn0
    ltac:(lia) ltac:(lia) Hid Hs1 Hs2 Hs3 Hs4 Hs5) as (Hl & Hm & Hbytes & Hnext & Hother).
  destruct (pipe_inv_fresh D ids (ids ++ [id]) G (virtual_view km g) (virtual_view km g') id s) as [Hi' Hc'];
    try done.
  { simpl. by rewrite u64_add_small by lia. }
  { right. split; [exact Hm|]. intros j. rewrite countZ_app, countZ_cons, countZ_nil, Hs4.
    case_bool_decide; lia. }
  split; [done|]. split; [done|]. split.
  - split; [|split].
    + change (next_offset (lg (virtual_view km g'))) with (u64_add (current_offset (sg_txn g)) (lenZ data)).
      rewrite u64_add_small; [lia| |lia|lia]. destruct (pi_log _ _ _ _ st_virtual0) as [[? _] _]. done.
    + simpl. rewrite u64_add_small by lia. lia.
    + intros j. unfold refs in *.
      change (segment_map (lg (virtual_view km g'))) with
        (install_pending (pending (sg_txn g) ++ [mkPendingSegment s data]) (segment_map (sg_log g))).
      specialize (Br j). rewrite install_snoc. simpl. rewrite Hs1.
      destruct (decide (j = id)) as [->|].
      * rewrite lookup_insert_eq, Hs4. rewrite Hnone in Br. lia.
      * rewrite lookup_insert_ne by done. simpl in Br. lia.
  - exists d. split; [|done]. unfold content.
    change (segment_map (lg (virtual_view km g'))) with
      (install_pending (pending (sg_txn g) ++ [mkPendingSegment s data]) (segment_map (sg_log g))).
    rewrite install_snoc. simpl. rewrite Hs1, lookup_insert_eq. cbv [mbind option_bind].
    assert (segment_bytes (lg (virtual_view km g')) id = Some data) as Hby by exact Hbytes.
    rewrite Hby. rewrite Hs6. subst s. rewrite describe_staged_eq. by rewrite Hseal.
Qed.

Lemma stage_new_spec D G km policy incs regs ids outs chunk b k sp g :
  staging D G km policy incs regs ids outs (lenZ chunk + b) (1 + k) g →
  prepared_for D policy km chunk sp → lenZ chunk < 2 ^ 32 → 0 ≤ b → 0 ≤ k →
  let id := mkSegmentId (next_segment_id (sg_registry g)) in
  staging D G km policy incs
    (if dedupe policy then regs ++ [(sp_content_hash sp, id)] else regs) (ids ++ [id])
    (outs ++ [chunk]) b k (stage_new_result policy sp g).
Proof.
  intros Hst Hp Hlt Hb Hk id.
  destruct (next_not_pending _ _ _ _ _ _ _ _ _ _ _ Hst) as (Hid & Hnone & _). fold id in Hid, Hnone.
  destruct (stage_new_virtual _ _ _ _ _ _ _ _ _ _ _ _ _ Hst Hp Hlt Hb Hk)
    as (Hv & Hmono & Hbud & d & Hc & HD & Hh & Hdec). fold id in Hv, Hc.
  destruct Hp as (_ & _ & _ & _ & Hlen & _).
  set (g' := stage_new_result policy sp g) in *. pose proof Hst as []. pose proof st_txn0 as [].
  destruct st_budget0 as (Bo & Bn & _).
  change (next_offset (lg (virtual_view km g))) with (current_offset (sg_txn g)) in Bo.
  change (next_segment_id (rg (virtual_view km g))) with (next_segment_id (sg_registry g)) in Bn.
  pose proof (pi_next _ _ _ _ st_base0) as Hn0.
  change (next_segment_id (rg (base_view km g))) with (next_segment_id (sg_registry g)) in Hn0.
  pose proof (lenZ_nonneg (sp_final_data sp)).
  assert (pending_ids (pending (sg_txn g')) = pending_ids (pending (sg_txn g)) ++ [id]) as Hpids.
  { unfold g', stage_new_result. cbn [sg_txn pending]. rewrite pending_ids_snoc. cbn [pend_segment].
    f_equal. f_equal. apply describe_staged_fresh. }
  assert (∀ h j, staged_as D km g h j → staged_as D km g' h j) as Hsa.
  { intros h j. apply staged_as_mono; [|done]. rewrite Hpids, elem_of_app. tauto. }
  assert (dedupe policy = true → staged_as D km g' (sp_content_hash sp) id) as Hnew.
  { intros Hded. split; [rewrite Hpids; apply elem_of_app; right; by left|].
    rewrite Hded in Hc. by exists d. }
  constructor; try done.
  - refine (proj1 (pipe_inv_fresh D incs incs G (base_view km g) (base_view km g') id (fresh_segment id 0 0)
      st_base0 Hnone eq_refl eq_refl _ eq_refl eq_refl (pi_log _ _ _ _ st_base0) eq_refl
      (or_introl (conj eq_refl eq_refl)) (λ _ _, eq_refl))).
    simpl. by rewrite u64_add_small by lia.
  - destruct (describe_staged_fresh (sp_comp_result sp)
      (if dedupe policy then Some (sp_content_hash sp) else None) (sp_encryption_meta sp) id
      (current_offset (sg_txn g)) (wrap 32 (lenZ (sp_final_data sp)))) as (E1 & E2 & E3 & E4 & E5 & _).
    constructor; try done.
    + unfold g', stage_new_result. cbn [sg_txn pending base_offset current_offset].
      rewrite u64_add_small; [|by destruct (pi_log _ _ _ _ st_virtual0) as [[? _] _]|lia|lia].
      apply (contig_snoc _ _ _ (mkPendingSegment _ _)); cbn [pend_segment pend_data]; try done;
        fold id; [rewrite E4; unfold U32_MAX; lia|by rewrite E4, E5].
    + intros j. rewrite Hpids, elem_of_app, list_elem_of_singleton. intros [Hj| ->]; [by apply sx_fresh0|done].
    + rewrite Hpids. apply NoDup_app. split_and!; [done| |apply NoDup_singleton].
      intros j Hj. rewrite list_elem_of_singleton. by intros ->.
  - intros h j Hj.
    assert (dedupe policy = true ∧ h = sp_content_hash sp ∧ j = id ∨ staged_content g !! h = Some j)
      as [(Hded & -> & ->)|Hl]; [|by apply Hnew|by apply Hsa, st_staged0].
    revert Hj. unfold g', stage_new_result; simpl. destruct (dedupe policy); [|by right].
    intros [[<- <-]|[_ Hl]]%lookup_insert_Some; [by left|by right].
  - assert (Forall (λ hi, staged_as D km g' hi.1 hi.2) regs) as Hold
      by (eapply Forall_impl; [done|]; intros [h j]; apply Hsa).
    destruct (dedupe policy) eqn:Hded; [|done]. apply Forall_app. split; [done|].
    constructor; [by apply Hnew|done].
  - destruct (dedupe policy); [|done]. rewrite fmap_app. apply NoDup_app.
    split_and!; [done| |apply NoDup_singleton]. intros j Hj. simpl. rewrite list_elem_of_singleton. intros ->.
    apply list_elem_of_fmap in Hj as ([h j] & -> & Hj). rewrite Forall_forall in st_regs0.
    destruct (st_regs0 _ Hj) as [Hin _]. done.
  - intros j. rewrite countZ_app, countZ_cons, countZ_nil. specialize (st_incs0 j). case_bool_decide; lia.
  - by eapply reads_snoc.
Qed.

(** *** Using a staged segment again *)
Lemma reuse_staged_spec D G km policy incs regs ids outs b k g h id d chunk :
  staging D G km policy incs regs ids outs b (1 + k) g → staged_content g !! h = Some id →
  content (virtual_view km g) id = Some (d, Some h) → 0 ≤ k →
  decompress_for (compression policy) d = Ok chunk →
  ∃ s g', pending_segment id (sg_txn g) = Some s ∧
    on_transaction (with_segment_mut id reference_staged) g = (Ok tt, g') ∧
    staging D G km policy incs regs (ids ++ [id]) (outs ++ [chunk]) b k g'.
Proof.
  intros Hst Hh Hc Hk Hdec. pose proof Hst as []. pose proof st_txn0 as [].
  destruct (st_staged0 _ _ Hh) as [Hid _].
  destruct (update_pending_some id reference_staged (pending (sg_txn g)) ltac:(done) sx_distinct0 Hid)
    as (ps' & s & Hup & Hids & Hfind & Hinst & Hw & Hcontig).
  destruct (Hinst (segment_map (sg_log g))) as [Hs Hs'].
  set (g' := mkStage (sg_store g) (set_pending ps' (sg_txn g)) (staged_content g)).
  exists s, g'. split; [exact Hfind|]. split.
  { unfold on_transaction, with_segment_mut, ensure_active, on_txn. cbv [bind gets lift modify zoom].
    cbn [txn]. rewrite sx_open0. cbn [txn]. rewrite Hup. cbn. by destruct g as [[? ?] ? ?]. }
  destruct (pipe_inv_take D ids G (virtual_view km g) (virtual_log (sg_txn g') (sg_log g)) id s
    (seg_access_count s) b k st_virtual0 st_budget0 Hs Hk) as (Hv & Hbud & Hmono).
  { exact (f_equal2 (λ f m, (f, m, current_offset (sg_txn g))) (Hw _) Hs'). }
  change (set_lg _ (virtual_view km g)) with (virtual_view km g') in Hv, Hbud, Hmono.
  assert (∀ h j, staged_as D km g h j → staged_as D km g' h j) as Hsa.
  { intros h' j. apply staged_as_mono; [|done]. simpl. by rewrite Hids. }
  pose proof (proj2 (proj1 (pi_log _ _ _ _ st_virtual0)) id s Hs) as (_ & _ & _ & _ & Hr & _).
  constructor; try done.
  - constructor; simpl; rewrite ?Hids; try done. apply Hcontig; [done|simpl|done].
    unfold u32_saturating_add, U32_MAX in *. lia.
  - intros h' j Hj. by apply Hsa, st_staged0.
  - eapply Forall_impl; [done|]. intros [h' j]. apply Hsa.
  - intros j. rewrite countZ_app. specialize (st_incs0 j). pose proof (countZ_nonneg j [id]). lia.
  - by eapply reads_snoc; [done| |apply Hmono|].
Qed.

(** *** Using a stored segment again *)
Lemma pipe_inv_held D held held' G p :
  pipe_inv D held G p → (∀ j, countZ j held' ≤ countZ j held) → pipe_inv D held' G p.
Proof.
  intros [Hl Hk Hn Hi Hc Hd Hr Hs] Hh. constructor; try done.
  intros id. specialize (Hr id). specialize (Hh id). lia.
Qed.

(** A record of the log itself is bumped: one step of each view. *)
Lemma bump_views D G km policy incs regs ids outs b k g id s l' :
  staging D G km policy incs regs ids outs b (1 + k) g → segment_map (sg_log g) !! id = Some s → 0 ≤ k →
  log_view l' = (nv_file (sg_log g), <[id := bump s]> (segment_map (sg_log g)), next_offset (sg_log g)) →
  let g' := mkStage (mkStore (sg_registry g) l') (sg_txn g) (staged_content g) in
  pipe_inv D (incs ++ [id]) G (base_view km g') ∧ pipe_inv D (ids ++ [id]) G (virtual_view km g') ∧
  budget b k (virtual_view km g') ∧
  (∀ j x, content (virtual_view km g) j = Some x → content (virtual_view km g') j = Some x) ∧
  staging_txn (sg_txn g') (sg_log g').
Proof.
  intros [] Hs Hk Hv g'. pose proof st_txn0 as []. pose proof Hv as [= Hf Hm Hn].
  assert (id ∉ pending_ids (pending (sg_txn g))) as Hid.
  { intros Hin. by rewrite sx_fresh0 in Hs. }
  pose proof st_budget0 as (Bo & Bn & Br).
  destruct (pipe_inv_take D ids G (virtual_view km g) (virtual_log (sg_txn g) l') id s
    (u32_saturating_add (seg_access_count s) 1) b k st_virtual0 st_budget0) as (Hiv & Hbud & Hmono).
  { by rewrite view_lookup. }
  { done. }
  { unfold log_view, virtual_log, virtual_view, lg.
    cbn [nv_file segment_map next_offset nvram store]. by rewrite Hf, Hm, install_insert. }
  assert (budget b (1 + k) (base_view km g)) as Hbb.
  { split; [|split; [done|]].
    - pose proof (contig_le _ _ _ sx_contig0). simpl in *. lia.
    - intros j. specialize (Br j). unfold refs in *. simpl in *.
      destruct (decide (j ∈ pending_ids (pending (sg_txn g)))) as [Hj|Hj].
      + rewrite (sx_fresh0 j Hj). pose proof (pi_refs _ _ _ _ st_virtual0 j) as Hr.
        pose proof (occ_nonneg (capsules (rg (virtual_view km g))) j). pose proof (countZ_nonneg j ids).
        unfold refs in Hr. simpl in Hr. lia.
      + by rewrite install_pending_lookup_other in Br by done. }
  destruct (pipe_inv_take D incs G (base_view km g) (set_next_offset (base_offset (sg_txn g)) l') id s
    (u32_saturating_add (seg_access_count s) 1) b k st_base0 Hbb Hs Hk) as (Hib & _).
  { unfold log_view. cbn. by rewrite Hf, Hm. }
  split_and!; [exact Hib|exact Hiv|exact Hbud|exact Hmono|].
  constructor; cbn; rewrite ?Hn; try done. intros j Hj. rewrite Hm, lookup_insert_ne; [by apply sx_fresh0|].
  by intros ->.
Qed.

Lemma reuse_stored_spec D G km policy incs regs ids outs b k g h id d chunk :
  staging D G km policy incs regs ids outs b (1 + k) g → content_store (sg_registry g) !! h = Some id →
  content (virtual_view km g) id = Some (d, Some h) → 0 ≤ k →
  decompress_for (compression policy) d = Ok chunk →
  wp (sg_nv (increment_refcount id))
    (λ _ g', staging D G km policy (incs ++ [id]) regs (ids ++ [id]) (outs ++ [chunk]) b k g')
    (λ _, abortable D G km incs) g.
Proof.
  intros Hst Hh Hc Hk Hdec. pose proof Hst as [].
  destruct (pi_store _ _ _ _ st_base0 _ _ Hh) as (d' & Hd' & _).
  unfold content in Hd'. change (segment_map (lg (base_view km g))) with (segment_map (sg_log g)) in Hd'.
  destruct (segment_map (sg_log g) !! id) as [s|] eqn:Hs; [clear Hd'|done].
  apply wp_zoom, wp_zoom. pose proof (increment_effect id (sg_log g)) as Hi. unfold wp.
  fold (sg_log g). destruct (increment_refcount id (sg_log g)) as [[s'|e| ] l']; [| |done].
  - destruct Hi as (s0 & Hs0 & -> & Hv). assert (s0 = s) as -> by congruence.
    destruct (bump_views _ _ _ _ _ _ _ _ _ _ _ _ _ _ Hst Hs Hk Hv) as (Hib & Hiv & Hbud & Hmono & Htx).
    assert (∀ h j, staged_as D km g h j →
      staged_as D km (mkStage (mkStore (sg_registry g) l') (sg_txn g) (staged_content g)) h j) as Hsa.
    { intros h' j. by apply staged_as_mono. }
    constructor; try done.
    + intros h' j Hj. by apply Hsa, st_staged0.
    + eapply Forall_impl; [done|]. intros [h' j]. apply Hsa.
    + intros j. rewrite !countZ_app. specialize (st_incs0 j). lia.
    + by eapply reads_snoc; [done| |apply Hmono|].
  - split; [apply st_txn0|]. split; [|done]. destruct Hi as [Hv|(s0 & Hs0 & Hv)].
    + unfold log_view in Hv. injection Hv as Hf Hm Hn.
      refine (proj1 (pipe_inv_log_view D incs G (base_view km g)
        (set_next_offset (base_offset (sg_txn g)) l') st_base0 _)).
      unfold log_view. simpl. by rewrite Hf, Hm.
    + assert (s0 = s) as -> by congruence.
      destruct (bump_views _ _ _ _ _ _ _ _ _ _ _ _ _ _ Hst Hs Hk Hv) as (Hib & _).
      eapply pipe_inv_held; [exact Hib|]. intros j. rewrite countZ_app.
      pose proof (countZ_nonneg j [id]). lia.
Qed.

(** *** One segment, whichever way it is staged *)
Lemma staging_weaken D G km policy incs regs ids outs b b' k g :
  b' ≤ b → staging D G km policy incs regs ids outs b k g →
  staging D G km policy incs regs ids outs b' k g.
Proof. intros Hb []. constructor; try done. by eapply budget_weaken. Qed.

Lemma staging_abortable D G km policy incs regs ids outs b k g :
  staging D G km policy incs regs ids outs b k g → abortable D G km incs g.
Proof. intros []. split; [apply st_txn0|done]. Qed.

Lemma commit_segment_spec D G km policy incs regs ids outs chunk b k sp g :
  hash_injective_on D → prepared_for D policy km chunk sp → lenZ chunk < 2 ^ 32 → 0 ≤ b → 0 ≤ k →
  staging D G km policy incs regs ids outs (lenZ chunk + b) (1 + k) g →
  match commit_segment policy sp g with
  | (Ok (id, disposition, _, hash), g') =>
      staging D G km policy
        (match disposition with ReusedPersistent => incs ++ [id] | _ => incs end)
        (match disposition, hash with NewSegment, Some h => regs ++ [(h, id)] | _, _ => regs end)
        (ids ++ [id]) (outs ++ [chunk]) b k g'
  | (Err _, g') => abortable D G km incs g'
  | (Panic, _) => False
  end.
Proof.
  intros Hinj Hp Hlt Hb Hk Hst. pose proof (lenZ_nonneg chunk).
  assert (stage_new policy sp g = (Ok (mkSegmentId (next_segment_id (sg_registry g)), NewSegment,
    lenZ (sp_final_data sp), if dedupe policy then Some (sp_content_hash sp) else None),
    stage_new_result policy sp g)) as Hnew.
  { apply stage_new_eq; [apply Hst|]. by eapply next_not_pending. }
  pose proof (stage_new_spec _ _ _ _ _ _ _ _ _ _ _ _ _ Hst Hp Hlt Hb Hk) as Hns. cbv zeta in Hns.
  unfold commit_segment. destruct (dedupe policy) eqn:Hded; [|by rewrite Hnew].
  assert (staging D G km policy incs regs ids outs b (1 + k) g) as Hst'
    by (eapply staging_weaken; [|done]; lia).
  destruct Hp as (d & HD & Hh & _ & _ & Hdec).
  cbv [bind gets lift]. destruct (staged_content g !! sp_content_hash sp) as [id|] eqn:Hs.
  - destruct (st_staged _ _ _ _ _ _ _ _ _ _ _ Hst _ _ Hs) as (_ & d' & Hc & HD' & Hh').
    assert (d' = d) as -> by (apply Hinj; congruence).
    destruct (reuse_staged_spec _ _ _ _ _ _ _ _ _ _ _ _ _ _ _ Hst' Hs Hc Hk Hdec)
      as (s & g' & -> & Hw & Hg'). cbn [ok_or]. rewrite Hw. exact Hg'.
  - unfold sg_reg, sg_on_store, on_registry, zoom, lookup_content, gets.
    assert (mkStage (mkStore (registry (sg_store g)) (nvram (sg_store g))) (sg_txn g) (staged_content g) = g)
      as Hg by (by destruct g as [[? ?] ? ?]).
    cbn [store registry nvram]. rewrite Hg. fold (sg_registry g).
    destruct (content_store (sg_registry g) !! sp_content_hash sp) as [id|] eqn:Hcs; [|by rewrite Hnew].
    destruct (pi_store _ _ _ _ (st_virtual _ _ _ _ _ _ _ _ _ _ _ Hst) _ _ Hcs) as (d' & Hc & HD' & Hh').
    assert (d' = d) as -> by (apply Hinj; congruence).
    pose proof (reuse_stored_spec _ _ _ _ _ _ _ _ _ _ _ _ _ _ _ Hst' Hcs Hc Hk Hdec) as Hw.
    unfold wp in Hw. by destruct (sg_nv (increment_refcount id) g) as [[s|e| ] g'].
Qed.

(** ** The coordinator's run *)
Definition coordinating D G km policy outs b k (c : Coordinator) : Prop :=
  staging D G km policy (dedupe_increments c) (pending_registrations c) (segment_ids c) outs b k
    (stage c).

Lemma coordinate_spec D G km policy outs chunk b k sp c :
  hash_injective_on D → prepared_for D policy km chunk sp → lenZ chunk < 2 ^ 32 → 0 ≤ b → 0 ≤ k →
  coordinating D G km policy outs (lenZ chunk + b) (1 + k) c →
  let c' := coordinate policy sp c in
  abortable D G km (dedupe_increments c') (stage c') ∧
  (going c' = true → coordinating D G km policy (outs ++ [chunk]) b k c').
Proof.
  intros Hinj Hp Hlt Hb Hk Hc. cbv zeta. unfold coordinate, coordinating in *.
  pose proof (commit_segment_spec _ _ _ _ _ _ _ _ _ _ _ _ _ Hinj Hp Hlt Hb Hk Hc) as Hs.
  destruct (commit_segment policy sp (stage c)) as [[[[[id disp] n] hash]|e| ] g']; simpl; [|by split|done].
  split; [|done]. by eapply staging_abortable.
Qed.

Lemma coordinate_all_spec D G km policy cs : ∀ results outs c,
  hash_injective_on D →
  Forall2 (λ r chunk, ∀ sp, r = Ok sp → prepared_for D policy km chunk sp) results cs →
  Forall (λ chunk, lenZ chunk < 2 ^ 32) cs → going c = true →
  coordinating D G km policy outs (lenZ (concat cs)) (lenZ cs) c →
  let c' := coordinate_all policy results c in
  abortable D G km (dedupe_increments c') (stage c') ∧
  (going c' = true → Forall (λ r, is_ok r = true) results →
     coordinating D G km policy (outs ++ cs) 0 0 c').
Proof.
  induction cs as [|chunk cs IH]; intros results outs c Hinj Hres Hlen Hg Hc; cbv zeta.
  { apply Forall2_nil_inv_r in Hres as ->. simpl. rewrite app_nil_r.
    split; [by eapply staging_abortable|done]. }
  apply Forall2_cons_inv_r in Hres as (r & rs & Hr & Hrs & ->).
  apply Forall_cons_1 in Hlen as [Hlt Hlen].
  assert (coordinating D G km policy outs (lenZ chunk + lenZ (concat cs)) (1 + lenZ cs) c) as Hc'
    by (simpl in Hc; by rewrite lenZ_app, lenZ_cons in Hc).
  destruct r as [sp|e| ]; simpl coordinate_all.
  2,3: split; [by eapply staging_abortable|intros _ Hf; by apply Forall_cons_1 in Hf as [? _]].
  destruct (coordinate_spec _ _ _ _ _ _ _ _ _ _ Hinj (Hr sp eq_refl) Hlt (lenZ_nonneg _) (lenZ_nonneg _) Hc')
    as [Hab Hgo].
  destruct (going (coordinate policy sp c)) eqn:Hg'; [|split; [done|congruence]].
  destruct (IH rs (outs ++ [chunk]) _ Hinj Hrs Hlen Hg' (Hgo eq_refl)) as [Ha Hf].
  split; [done|]. intros ? Hok. apply Forall_cons_1 in Hok as [_ Hok].
  rewrite <- app_assoc in Hf. by apply Hf.
Qed.
End staging.

(** ** What the tasks hand over *)
Section prepared.
Context {JR : JsonDoc RegistryState} {JN : JsonDoc SegmentMap} `{Crates} `{!XtsLaws}.
Implicit Types p : WritePipeline.

Lemma seals_keys km km' cr h m data d : same_keys km km' → seals km cr h m data d → seals km' cr h m data d.
Proof. intros Hk Hs s He. rewrite (unseal_keys _ _ _ _ Hk). by apply Hs. Qed.

Lemma touched_keys km :
  (∀ m, km = Some m → cache_coherent m) →
  same_keys km (touched km) ∧ (∀ m, touched km = Some m → cache_coherent m) ∧
  (is_Some (touched km) ↔ is_Some km).
Proof.
  intros Hco. destruct km as [m|]; simpl; [|split_and!; [done|by intros ? [=]|done]].
  pose proof (get_key_eq m (current_version m) (Hco m eq_refl)) as Hg.
  destruct (get_key (current_version m) m) as [r m']. destruct Hg as (_ & Hc & Hmk & Hs & _).
  simpl. split; [done|]. split; [by intros ? [= <-]|]. by split; eexists.
Qed.

Lemma keys_after_keys policy km data :
  (∀ m, km = Some m → cache_coherent m) →
  same_keys km (keys_after policy km data) ∧
  (∀ m, keys_after policy km data = Some m → cache_coherent m).
Proof.
  intros Hco. unfold keys_after. destruct (touched_keys km Hco) as (? & ? & _).
  by destruct (existsb _ data).
Qed.

(** The same encryption as the synchronous path's. *)
Lemma encrypt_locked_chunk p m hash d cm m' :
  key_manager p = Some m → encrypt_locked hash d m = (Ok cm, m') →
  ∃ p', encrypt_chunk hash d p = (Ok cm, p') ∧ key_manager p' = Some m'.
Proof.
  intros Hm He. unfold encrypt_locked in He. unfold encrypt_chunk, on_km.
  cbv [bind gets map_err lift ret] in *. rewrite Hm.
  destruct (get_key (current_version m) m) as [[kp|e| ] m1]; cbn [res_map_err] in *; try done.
  destruct (encrypt_segment _ _ _ _) as [[ct md]|e| ]; cbn [res_map_err] in *; try done.
  destruct (compute_mac ct md (key1 kp) (key2 kp)) as [tag|e| ]; cbn [res_map_err] in *; try done.
  simplify_eq. by eexists.
Qed.

Lemma prepare_prepared D G p policy data i chunk sp :
  pipe_inv D [] G p → chunks_ok D (compression policy) data → chunk ∈ chunks SEGMENT_SIZE data →
  prepared_alone policy (key_manager p) i chunk = Ok sp →
  prepared_for D policy (key_manager p) chunk sp.
Proof.
  intros Hi Hok Hin. unfold prepared_alone, prepare_segment. cbv [bind gets lift ret zoom].
  destruct (compress_segment chunk (compression policy)) as [[view r]|e| ] eqn:Hc; simpl; [|done|done].
  destruct (Hok chunk Hin view r Hc) as [HD Hraw].
  destruct (compress_reads _ _ _ _ Hc Hraw) as [Hle Hdec].
  assert (lenZ chunk ≤ SEGMENT_SIZE) as Hlt.
  { pose proof (chunks_bound SEGMENT_SIZE data ltac:(done)) as Hf. rewrite Forall_forall in Hf.
    by destruct (Hf chunk Hin). }
  unfold SEGMENT_SIZE in Hlt. unfold prepared_for.
  destruct (is_enabled (encryption policy) && _) eqn:He.
  - destruct (key_manager p) as [m|] eqn:Hm; [|by rewrite andb_false_r in He]. simpl.
    destruct (encrypt_locked _ _ m) as [[[ct md]|e| ] m'] eqn:Henc; intros; simplify_eq/=.
    destruct (encrypt_locked_chunk p m _ _ _ _ Hm Henc) as (p' & Hrun & Hp').
    pose proof (wp_run _ _ _ _ _ _ (encrypt_chunk_spec D [] G p m (Dedup.hash_content (as_ref view))
      (as_ref view) Hi Hm ltac:(lia)) Hrun) as (m1 & -> & _ & _ & Hlen & Hseal).
    simpl in Hp', Hlen, Hseal. simplify_eq. exists (as_ref view).
    split_and!; [done|done| |lia|done]. intros h. eapply seals_keys; [|apply Hseal].
    destruct (encrypt_locked_again m (Dedup.hash_content (as_ref view)) (as_ref view)) as [Hag _].
    rewrite Henc in Hag. injection Hag as ->.
    destruct (touched_keys (Some m)) as (Hsame & _); [intros ? [= <-]; by apply (pi_key _ _ _ _ Hi)|].
    simpl in Hsame. by destruct Hsame.
  - intros; simplify_eq/=. exists (as_ref view).
    assert (match view with Borrowed _ => chunk | Owned vec => vec end = as_ref view) as ->.
    { apply adaptive_compress_cases in Hc as (_ & _ & [(-> & _)|(out & -> & _)]); done. }
    split_and!; [done|done| |done|done]. intros h s Hs. unfold unseal, describe_segment.
    destruct h; simpl; by rewrite Hs.
Qed.
End prepared.
