(* ===== verification/AsyncTheorems.v ===== *)
(** The properties of the asynchronous write path: what it writes survives, what a
    failed write leaves behind, and the failures after which its clean-up does harm. *)
From S2P Require Import Prelude Errors Common Externals.
From S2P Require Nvram Compression KeyManager Encryption Dedup Registry Gc WritePipeline.
From S2P Require PipelineInvariant PipelineTheorems AsyncPipeline AsyncSchedule AsyncInvariant.
Import Nvram Compression KeyManager Encryption Registry Gc WritePipeline PipelineInvariant.
Import PipelineTheorems AsyncPipeline AsyncSchedule AsyncInvariant.

(** ** Committing *)
Section committing.
Context {JN : JsonDoc SegmentMap}.
Implicit Types (t : NvramTransaction) (l : NvramLog).

(** A commit reaches the virtual log, or fails before the map changes, or fails at the
    very end with the virtual log in place and the transaction still open. *)
Lemma commit_views t l :
  staging_txn t l → 0 ≤ base_offset t →
  match commit (mkTxnState t l) with
  | (Ok _, s) => finalized (txn s) = true ∧ log_view (txn_log s) = log_view (virtual_log t l)
  | (Err _, s) =>
      (finalized (txn s) = true ∧ next_offset (txn_log s) = base_offset t ∧
         segment_map (txn_log s) = segment_map l ∧
         above (base_offset t) (nv_file l) (nv_file (txn_log s))) ∨
      (finalized (txn s) = false ∧ base_offset (txn s) = base_offset t ∧
         log_view (txn_log s) = log_view (virtual_log t l))
  | (Panic, _) => False
  end.
Proof.
  intros [] H0. unfold commit. cbv [bind gets]. simpl. rewrite sx_open.
  case_bool_decide as Hp.
  { simpl. split; [done|]. unfold log_view, virtual_log. simpl. by rewrite Hp, sx_next. }
  pose proof (write_pending_spec (base_offset t) _ _ (core l) _ (nv_file l) H0 (Z.le_refl _) sx_contig l
    ltac:(done)) as Hw.
  cbv [attempt zoom on_log modify on_txn fail]. simpl.
  destruct (write_pending (pending t) l) as [[u|e| ] l1]; [| |done].
  - destruct Hw as [[= Hm Hn _] Hf]. simpl.
    match goal with |- context [save_segment_map ?x] => set (l2 := x) end.
    assert (log_view l2 = log_view (virtual_log t l)) as Hv2.
    { unfold log_view, virtual_log, l2. cbn. by rewrite Hf, Hm. }
    pose proof (save_view l2) as Hs.
    destruct (save_segment_map l2) as [[[]|e| ] l3]; simpl; [|right|done].
    + split; [done|congruence].
    + split_and!; try done. congruence.
  - destruct Hw as [[= Hm Hn _] Ha]. simpl. left. by split_and!.
Qed.
End committing.

(** ** A pipeline without some of its records *)
Section hiding.
Context {JR : JsonDoc RegistryState} {JN : JsonDoc SegmentMap} `{Crates}.
Implicit Types p q : WritePipeline.

(** The records a failed write may leave in the map although nothing refers to them. *)
Definition forget (orphans : list SegmentId) p : WritePipeline :=
  set_lg (set_segment_map (filter (λ kv, kv.1 ∉ orphans) (segment_map (lg p))) (lg p)) p.

Definition hidden (orphans : list SegmentId) (base : Z) p : WritePipeline :=
  forget orphans (set_lg (set_next_offset base (lg p)) p).

Lemma hidden_forget orphans base p : next_offset (lg p) = base → hidden orphans base p = forget orphans p.
Proof. intros <-. by destruct p as [[? []] ?]. Qed.

Lemma forget_nil p : forget [] p = p.
Proof.
  assert (filter (λ kv : SegmentId * Segment, kv.1 ∉ []) (segment_map (lg p)) = segment_map (lg p)) as Hf.
  { apply map_filter_id. intros i s _. apply not_elem_of_nil. }
  unfold forget. rewrite Hf. by destruct p as [[? []] ?].
Qed.

(** What reads without the records reads with them. *)
Lemma forget_content orphans p id x : content (forget orphans p) id = Some x → content p id = Some x.
Proof.
  set (m := filter (λ kv : SegmentId * Segment, kv.1 ∉ orphans) (segment_map (lg p))).
  assert (∀ s, m !! id = Some s → segment_map (lg p) !! id = Some s) as Hm
    by (intros s [? _]%map_lookup_filter_Some; done).
  unfold content, segment_bytes, forget. vs. simpl. fold m. destruct (m !! id) as [s|]; [|done].
  by rewrite (Hm s eq_refl).
Qed.

Lemma forget_reads orphans p cap data : capsule_reads (forget orphans p) cap data → capsule_reads p cap data.
Proof. apply capsule_reads_mono. intros id x _. apply forget_content. Qed.

(** Every capsule of [G] is in the table and stands for its data. *)
Definition keeps_capsules (G : gmap CapsuleId bytes) p : Prop :=
  ∀ c data, G !! c = Some data →
    ∃ cap, capsules (rg p) !! c = Some cap ∧ capsule_reads p cap data.

Lemma forgotten_keeps D held G orphans p :
  pipe_inv D held G (forget orphans p) → keeps_capsules G p.
Proof.
  intros Hi c data HG. destruct (capsules (rg p) !! c) as [cap|] eqn:Hc.
  - destruct (pi_caps _ _ _ _ Hi c cap Hc) as (data' & HG' & Hr). exists cap. split; [done|].
    assert (data' = data) as <- by congruence. by eapply forget_reads.
  - pose proof (pi_dom _ _ _ _ Hi c Hc). congruence.
Qed.
End hiding.

(** ** Giving back the references taken *)
Section undoing.
Context {JR : JsonDoc RegistryState} {JN : JsonDoc SegmentMap} `{Crates}.
Implicit Types g : Stage.

(** The pipeline as it is in the middle of the call. *)
Definition live (km : option KeyManager) g : WritePipeline := mkWritePipeline (sg_store g) km.

(** What the clean-up leaves alone. *)
Definition same_frame g g' : Prop :=
  sg_txn g' = sg_txn g ∧ next_offset (sg_log g') = next_offset (sg_log g).

Lemma countZ_reverse {A : Type} `{EqDecision A} (x : A) l : countZ x (reverse l) = countZ x l.
Proof. unfold countZ. by rewrite reverse_Permutation. Qed.

Lemma hidden_view orphans base km g l' :
  hidden orphans base (live km (mkStage (mkStore (sg_registry g) l') (sg_txn g) (staged_content g))) =
  set_lg (set_segment_map (filter (λ kv, kv.1 ∉ orphans) (segment_map l')) (set_next_offset base l'))
    (live km g).
Proof. done. Qed.

Lemma undo_one D rest G orphans base km g id :
  pipe_inv D (id :: rest) G (hidden orphans base (live km g)) →
  wp (sg_nv (decrement_refcount id) ;;; ret tt)
    (λ _ g', pipe_inv D rest G (hidden orphans base (live km g')) ∧ same_frame g g')
    (λ _ g', pipe_inv D [] G (hidden orphans base (live km g')) ∧ same_frame g g') g.
Proof.
  intros Hi. apply wp_bind, wp_zoom, wp_zoom.
  destruct (pi_held_lookup D (id :: rest) G _ id Hi) as (s & Hs & _).
  { rewrite countZ_cons, bool_decide_true by done. pose proof (countZ_nonneg id rest).
    match goal with |- context [occ ?c id] => pose proof (occ_nonneg c id) end. lia. }
  apply map_lookup_filter_Some in Hs as Hs'. destruct Hs' as [Hsl Hnot].
  change (segment_map (sg_log g) !! id = Some s) in Hsl. cbn [fst] in Hnot. fold (sg_log g).
  assert (∀ l', log_view l' = (nv_file (sg_log g), <[id := unref s]> (segment_map (sg_log g)), next_offset (sg_log g)) →
    pipe_inv D rest G (hidden orphans base (live km (mkStage (mkStore (sg_registry g) l') (sg_txn g) (staged_content g)))))
    as Hstep.
  { intros l' Hv. injection Hv as Hf Hm Hn. rewrite hidden_view.
    refine (proj1 (pipe_inv_unref D rest G _ _ id s Hi Hs _)).
    unfold log_view. cbn. rewrite Hf, Hm. f_equal. f_equal. by rewrite map_filter_insert_True. }
  assert (∀ l', log_view l' = log_view (sg_log g) →
    pipe_inv D (id :: rest) G (hidden orphans base (live km (mkStage (mkStore (sg_registry g) l') (sg_txn g) (staged_content g)))))
    as Hsame.
  { intros l' Hv. injection Hv as Hf Hm Hn. rewrite hidden_view.
    refine (proj1 (pipe_inv_log_view D (id :: rest) G _ _ Hi _)). unfold log_view. cbn. by rewrite Hf, Hm. }
  pose proof (decrement_effect id (sg_log g)) as Hd. unfold wp at 1.
  destruct (decrement_refcount id (sg_log g)) as [[s'|e| ] l']; [| |done].
  - destruct Hd as (s0 & Hs0 & _ & -> & Hv). assert (s0 = s) as -> by congruence.
    unfold wp, ret. split; [by apply Hstep|]. split; [done|]. by injection Hv.
  - destruct Hd as [Hv|(s0 & Hs0 & _ & Hv)].
    + split; [by eapply pipe_inv_drop, Hsame|]. split; [done|]. by injection Hv.
    + assert (s0 = s) as -> by congruence.
      split; [by eapply pipe_inv_drop, Hstep|]. split; [done|]. by injection Hv.
Qed.

Lemma undo_spec D G orphans base km g incs :
  pipe_inv D incs G (hidden orphans base (live km g)) →
  wp (undo_increments incs)
    (λ _ g', pipe_inv D [] G (hidden orphans base (live km g')) ∧ same_frame g g')
    (λ _ g', pipe_inv D [] G (hidden orphans base (live km g')) ∧ same_frame g g') g.
Proof.
  intros Hi. unfold undo_increments.
  apply (wp_foldM (λ (_ : unit) rest q,
    pipe_inv D rest G (hidden orphans base (live km q)) ∧ same_frame g q)
    (λ _ q, pipe_inv D [] G (hidden orphans base (live km q)) ∧ same_frame g q)).
  - intros [] id rest q [Hq [Ht Hn]]. eapply wp_mono; [by apply undo_one|..].
    + intros _ q' [? [? ?]]. split; [done|]. split; congruence.
    + intros _ q' [? [? ?]]. split; [done|]. split; congruence.
  - split; [|done]. eapply pipe_inv_held; [done|]. intros j. by rewrite countZ_reverse.
Qed.

(** Leaving: an open transaction moves the next offset back to its base. *)
Definition ready_to_leave D G orphans km g : Prop :=
  ∃ base, pipe_inv D [] G (hidden orphans base (live km g)) ∧
    (finalized (sg_txn g) = true ∧ next_offset (sg_log g) = base ∨
     finalized (sg_txn g) = false ∧ base_offset (sg_txn g) = base).

Lemma drop_open D G orphans km g :
  ready_to_leave D G orphans km g →
  pipe_inv D [] G (forget orphans (live km (snd (on_transaction txn_drop g)))).
Proof.
  intros (base & Hi & Hbase). unfold on_transaction, zoom, txn_drop, attempt, rollback.
  cbv [bind gets ret on_log on_txn modify zoom]. cbn [txn txn_log].
  destruct Hbase as [[Hf Hn]|[Hf Hb]]; rewrite Hf; cbn; rewrite ?Hf; cbn.
  - rewrite <- (hidden_forget orphans base); [by destruct g as [[? ?] ? ?]|done].
  - rewrite <- (hidden_forget orphans base) by exact Hb. exact Hi.
Qed.
End undoing.

(** ** The end of a write, step by step *)
Section concluding.
Context {JR : JsonDoc RegistryState} {JN : JsonDoc SegmentMap} `{Crates}.
Variables (rf : faults) (D : bytes → Prop) (G : gmap CapsuleId bytes) (km : option KeyManager).
Implicit Types g : Stage.

(** *** Giving up before the commit *)
Lemma abort_spec incs g err :
  abortable rf D G km incs g →
  wp (on_transaction rollback ;;; undo_increments incs ;;; @fail _ _ CapsuleId err)
    (λ _ _, False) (λ _ g', ready_to_leave D G [] km g') g.
Proof.
  intros (Hfin & Hi & _). apply wp_bind.
  unfold wp at 1, on_transaction, zoom, rollback. cbv [bind gets on_log on_txn modify zoom].
  cbn [txn]. rewrite Hfin. cbn [txn txn_log].
  match goal with |- wp _ _ _ ?x => set (g1 := x) end.
  assert (hidden [] (base_offset (sg_txn g)) (live km g1) = base_view km g) as Hh.
  { unfold hidden. rewrite forget_nil. done. }
  rewrite <- Hh in Hi. apply (undo_spec D G [] _ km g1) in Hi.
  assert (∀ g', pipe_inv D [] G (hidden [] (base_offset (sg_txn g)) (live km g')) ∧ same_frame g1 g' →
    ready_to_leave D G [] km g') as Hend.
  { intros g' [Hg' [Ht Hn]]. eexists. split; [exact Hg'|]. left. by rewrite Ht, Hn. }
  apply wp_bind. eapply wp_mono; [exact Hi|..].
  - intros u g' Hg'. unfold wp, fail. by apply Hend.
  - intros e g' Hg'. by apply Hend.
Qed.

(** *** The commit *)
Lemma filter_install ps (m : SegmentMap) :
  (∀ id, id ∈ pending_ids ps → m !! id = None) →
  filter (λ kv, kv.1 ∉ pending_ids ps) (install_pending ps m) = m.
Proof.
  intros Hf. apply map_eq. intros id. destruct (decide (id ∈ pending_ids ps)) as [Hin|Hni].
  - rewrite Hf by done. apply map_lookup_filter_None. right. intros s _. simpl. tauto.
  - rewrite <- (install_pending_lookup_other ps m id Hni).
    destruct (install_pending ps m !! id) as [s|] eqn:Hs.
    + by apply map_lookup_filter_Some.
    + apply map_lookup_filter_None. by left.
Qed.

(** A failed commit leaves the base log under a file that grew above it. *)
Lemma hidden_above incs g orphans l' :
  let base := base_offset (sg_txn g) in
  pipe_inv D incs G (base_view km g) →
  filter (λ kv, kv.1 ∉ orphans) (segment_map l') = segment_map (sg_log g) →
  above base (nv_file (sg_log g)) (nv_file l') →
  ∀ t sc, pipe_inv D incs G (hidden orphans base (live km (mkStage (mkStore (sg_registry g) l') t sc))).
Proof.
  intros base Hi Hm Ha t sc. set (q := hidden _ _ _).
  assert (segment_map (lg q) = segment_map (lg (base_view km g))) as Hmq by exact Hm.
  assert (above base (nv_file (lg (base_view km g))) (nv_file (lg q))) as Haq by exact Ha.
  pose proof (pi_log _ _ _ _ Hi) as [Hwf Hle].
  apply (pipe_inv_change D incs incs G (base_view km g)); try done; try by apply Hi.
  - change (base ≤ lenZ (nv_file (sg_log g))) in Hle.
    split; [|change (base ≤ lenZ (nv_file l')); destruct Ha as [Hlen _]; lia].
    apply (wf_below_next base); [done|].
    eapply (wf_below_above base (lg (base_view km g))); [|done|done].
    by apply wf_below_next.
  - rewrite Hmq. apply Hi.
  - intros j x _. apply content_same; [done|..].
    + eapply segment_bytes_above; [by apply (wf_below_next base)|by rewrite Hmq|done].
    + intros s Hs. exists s. by rewrite Hmq.
  - intros j. unfold refs. rewrite Hmq. apply (pi_refs _ _ _ _ Hi).
Qed.

Lemma committed_spec policy incs regs ids outs b k g :
  staging rf D G km policy incs regs ids outs b k g →
  wp (on_transaction commit)
    (λ _ g', finalized (sg_txn g') = true ∧ sg_registry g' = sg_registry g ∧
       pipe_inv D ids G (live km g') ∧
       ∀ j, content (live km g') j = content (virtual_view km g) j)
    (λ _ g', ∃ base, pipe_inv D incs G (hidden (pending_ids (pending (sg_txn g))) base (live km g')) ∧
       (finalized (sg_txn g') = true ∧ next_offset (sg_log g') = base ∨
        finalized (sg_txn g') = false ∧ base_offset (sg_txn g') = base)) g.
Proof.
  intros []. apply wp_zoom. pose proof (pi_log _ _ _ _ st_base) as [[H0 _] _]. simpl in H0.
  pose proof (commit_views (sg_txn g) (sg_log g) st_txn H0) as Hc. pose proof st_txn as [].
  unfold wp. fold (sg_log g). destruct (commit _) as [[u|e| ] s]; [| |done].
  - destruct Hc as [Hf Hv]. split; [done|]. split; [done|].
    destruct (pipe_inv_log_view D ids G (virtual_view km g) (txn_log s) st_virtual Hv) as (? & ? & _).
    by split.
  - exists (base_offset (sg_txn g)). destruct Hc as [(Hf & Hn & Hm & Ha)|(Hf & Hb & Hv)].
    + split; [|by left]. apply hidden_above; [done| |done]. rewrite Hm.
      apply map_filter_id. intros i x Hi Hin. simpl in Hin. rewrite (sx_fresh i Hin) in Hi. done.
    + split; [|by right]. injection Hv as Hfile Hm _. apply hidden_above; [done| |].
      * rewrite Hm. by apply filter_install.
      * rewrite Hfile. by eapply written_above.
Qed.
End concluding.

(** ** The capsules survive the clean-up, whatever fails in it *)
Section sparing.
Context {JR : JsonDoc RegistryState} {JN : JsonDoc SegmentMap} `{Crates}.
Variables (G : gmap CapsuleId bytes) (km : option KeyManager) (orphans : list SegmentId).
Implicit Types g : Stage.

(** The capsules of [G] keep their data and have no segment among the orphans. *)
Definition spared g : Prop :=
  finalized (sg_txn g) = true ∧
  ∀ c data, G !! c = Some data →
    ∃ cap, capsules (sg_registry g) !! c = Some cap ∧ capsule_reads (live km g) cap data ∧
      ∀ id, id ∈ cap_segments cap → id ∉ orphans.

Definition sparing {A : Type} (m : M Stage Error A) : Prop :=
  triple spared m (λ _, spared) (λ _, spared).

(** Changing the log without touching the records of the capsules. *)
Lemma spared_log g l' :
  spared g →
  (∀ id x, id ∉ orphans → content (live km g) id = Some x →
     content (set_lg l' (live km g)) id = Some x) →
  spared (mkStage (mkStore (sg_registry g) l') (sg_txn g) (staged_content g)).
Proof.
  intros [Hf Hs] Hc. split; [done|]. intros c data HG. destruct (Hs c data HG) as (cap & Hcap & Hr & Ho).
  exists cap. split; [done|]. split; [|done]. eapply (capsule_reads_mono (live km g)); [|done].
  intros id x Hid. apply Hc. auto.
Qed.

(** Changing the registry without losing a capsule of [G]. *)
Lemma spared_registry g r' :
  spared g →
  (∀ c cap, is_Some (G !! c) → capsules (sg_registry g) !! c = Some cap →
     ∃ cap', capsules r' !! c = Some cap' ∧ cap_segments cap' = cap_segments cap ∧
       cap_size cap' = cap_size cap ∧ cap_policy cap' = cap_policy cap) →
  spared (mkStage (mkStore r' (sg_log g)) (sg_txn g) (staged_content g)).
Proof.
  intros [Hf Hs] Hc. split; [done|]. intros c data HG. destruct (Hs c data HG) as (cap & Hcap & Hr & Ho).
  destruct (Hc c cap (ex_intro _ _ HG) Hcap) as (cap' & Hcap' & H1 & H2 & H3).
  exists cap'. split; [done|]. rewrite H1. split; [|done].
  destruct Hr as [Hl (outs & Hr & Ho')]. unfold capsule_reads. rewrite H1, H2, H3.
  split; [done|]. by exists outs.
Qed.

Lemma spared_same_capsules g r' :
  spared g → capsules r' = capsules (sg_registry g) →
  spared (mkStage (mkStore r' (sg_log g)) (sg_txn g) (staged_content g)).
Proof. intros Hs Hc. apply spared_registry; [done|]. intros c cap _ ?. exists cap. by rewrite Hc. Qed.

Lemma sparing_register h id : sparing (sg_reg (register_content h id)).
Proof.
  intros g Hg. apply wp_zoom, wp_zoom. pose proof (register_spec h id (sg_registry g)) as Hr.
  unfold wp. fold (sg_registry g).
  destruct (register_content h id (sg_registry g)) as [[u|e| ] r']; [destruct Hr as [_ Hr]| |done];
    apply state_of_eq in Hr as (Hc & _); by apply spared_same_capsules.
Qed.

Lemma sparing_deregister h id : sparing (sg_reg (deregister_content h id)).
Proof.
  intros g Hg. apply wp_zoom, wp_zoom. pose proof (deregister_spec h id (sg_registry g)) as Hr.
  unfold wp. fold (sg_registry g).
  destruct (deregister_content h id (sg_registry g)) as [[b|e| ] r'];
    [destruct Hr as (_ & _ & Hr); destruct b|destruct Hr as [_ Hr]|done];
    apply state_of_eq in Hr as (Hc & _); by apply spared_same_capsules.
Qed.

Lemma sparing_decrement id : sparing (sg_nv (decrement_refcount id)).
Proof.
  intros g Hg. apply wp_zoom, wp_zoom. pose proof (decrement_effect id (sg_log g)) as Hd.
  unfold wp. fold (sg_log g).
  assert (∀ l' s, segment_map (sg_log g) !! id = Some s →
    log_view l' = (nv_file (sg_log g), <[id := unref s]> (segment_map (sg_log g)), next_offset (sg_log g)) →
    spared (mkStage (mkStore (sg_registry g) l') (sg_txn g) (staged_content g))) as Hstep.
  { intros l' s Hs Hv. apply spared_log; [done|]. intros j x _.
    by apply (content_log_store (live km g) l' id s (unref s)). }
  destruct (decrement_refcount id (sg_log g)) as [[s'|e| ] l']; [| |done].
  - destruct Hd as (s & Hs & _ & _ & Hv). by eapply Hstep.
  - destruct Hd as [Hv|(s & Hs & _ & Hv)]; [|by eapply Hstep].
    apply spared_log; [done|]. intros j x _ Hx. unfold content in *. vs.
    rewrite (segment_bytes_view (sg_log g)) by done. injection Hv as _ Hm _. by rewrite Hm.
Qed.

Lemma sparing_remove id : id ∈ orphans → sparing (sg_nv (remove_segment id)).
Proof.
  intros Hid g Hg. apply wp_zoom, wp_zoom. pose proof (remove_effect id (sg_log g)) as Hd.
  unfold wp. fold (sg_log g).
  assert (∀ l', log_view l' = (nv_file (sg_log g), delete id (segment_map (sg_log g)), next_offset (sg_log g)) →
    spared (mkStage (mkStore (sg_registry g) l') (sg_txn g) (staged_content g))) as Hstep.
  { intros l' [= Hf Hm _]. apply spared_log; [done|]. intros j x Hj.
    assert (j ≠ id) by (by intros ->). unfold content, segment_bytes. vs.
    by rewrite Hf, Hm, !lookup_delete_ne by done. }
  destruct (remove_segment id (sg_log g)) as [[o|e| ] l']; [destruct Hd as [_ Hd]| |done]; by apply Hstep.
Qed.

Lemma sparing_create now c size ids policy : sparing (sg_reg (create_capsule_with_segments now c size ids policy)).
Proof.
  intros g Hg. apply wp_zoom, wp_zoom.
  pose proof (create_spec now c size ids policy (sg_registry g)) as Hr. unfold wp. fold (sg_registry g).
  assert (∀ r' cap, capsules (sg_registry g) !! c = None →
    state_of r' = state_of (set_capsules (<[c := cap]> (capsules (sg_registry g))) (sg_registry g)) →
    spared (mkStage (mkStore r' (sg_log g)) (sg_txn g) (staged_content g))) as Hstep.
  { intros r' cap Hn Hst. apply state_of_eq in Hst as (Hc & _). apply spared_registry; [done|].
    intros c' cap' _ Hc'. exists cap'. simpl in Hc. rewrite Hc, lookup_insert_ne; [done|]. intros ->. congruence. }
  destruct (create_capsule_with_segments _ _ _ _ _ _) as [[u|e| ] r']; [| |done].
  - destruct Hr as (t & _ & Hn & _ & Hst). by eapply Hstep.
  - destruct Hr as [Hst|(Hn & t & Hst)]; [|by eapply Hstep].
    apply state_of_eq in Hst as (Hc & _). by apply spared_same_capsules.
Qed.

Lemma sparing_add_deduped c b : sparing (sg_reg (add_deduped_bytes c b)).
Proof.
  intros g Hg. apply wp_zoom, wp_zoom. unfold wp, add_deduped_bytes, modify. fold (sg_registry g).
  apply spared_registry; [done|]. intros c' cap' _ Hc'.
  destruct (capsules (sg_registry g) !! c) as [cap|] eqn:Hc; [|by exists cap'].
  simpl. destruct (decide (c' = c)) as [->|].
  - rewrite lookup_insert_eq. eexists. split; [done|]. by simplify_eq.
  - rewrite lookup_insert_ne by done. by exists cap'.
Qed.

Lemma sparing_ret {A : Type} (a : A) : sparing (@ret Stage Error A a).
Proof. by intros g Hg. Qed.
Lemma sparing_fail {A : Type} (e : Error) : sparing (@fail Stage Error A e).
Proof. by intros g Hg. Qed.
Lemma sparing_bind {A B : Type} (m : M Stage Error A) (k : A → M Stage Error B) :
  sparing m → (∀ a, sparing (k a)) → sparing (bind m k).
Proof. intros Hm Hk. by eapply triple_bind. Qed.
Lemma sparing_attempt {A : Type} (m : M Stage Error A) : sparing m → sparing (@attempt _ _ Error _ m).
Proof.
  intros Hm g Hg. specialize (Hm g Hg). unfold attempt. by destruct (m g) as [[a|e| ] g'].
Qed.
Lemma sparing_map_err {A : Type} f (m : M Stage Error A) : sparing m → sparing (map_err f m).
Proof. intros Hm g Hg. specialize (Hm g Hg). unfold map_err. by destruct (m g) as [[a|e| ] g']. Qed.
Lemma sparing_foldM {A B : Type} (f : B → A → M Stage Error B) b l :
  (∀ b x, x ∈ l → sparing (f b x)) → sparing (foldM f b l).
Proof.
  revert b. induction l as [|x l IH]; intros b Hf; simpl; [apply sparing_ret|].
  apply sparing_bind; [apply Hf; by left|]. intros b'. apply IH. intros b'' y Hy. apply Hf. by right.
Qed.
Create HintDb sparing.
Hint Resolve sparing_register sparing_deregister sparing_decrement sparing_remove sparing_create
  sparing_add_deduped sparing_ret sparing_fail sparing_bind sparing_attempt sparing_map_err : sparing.

Lemma sparing_undo incs : sparing (undo_increments incs).
Proof. apply sparing_foldM. intros [] id _. eauto with sparing. Qed.
Hint Resolve sparing_undo : sparing.

(** Everything after the commit keeps the capsules, whatever fails. *)
Lemma publish_spares c0 now size policy c :
  Forall (λ hi, hi.2 ∈ orphans) (pending_registrations c) →
  sparing (publish c0 now size policy c).
Proof.
  intros Hin. rewrite Forall_forall in Hin. unfold publish. apply sparing_bind; [|intros _; apply sparing_bind].
  - unfold register_all. apply sparing_bind; [|auto with sparing].
    apply sparing_foldM. intros done [h id] _. apply sparing_bind; [auto with sparing|].
    intros [u|e]; [auto with sparing|].
    apply sparing_bind; [|intros _; apply sparing_bind; [|auto with sparing]].
    + apply sparing_foldM. intros [] [h' id'] _. auto with sparing.
    + apply sparing_foldM. intros [] [h' id'] Hx. specialize (Hin _ Hx). auto with sparing.
  - unfold create_or_undo. apply sparing_bind; [auto with sparing|]. intros [u|e]; [auto with sparing|].
    apply sparing_bind; [|auto with sparing].
    apply sparing_foldM. intros [] [h' id'] Hx. specialize (Hin _ Hx). auto with sparing.
  - intros _. case_match; auto with sparing.
Qed.
End sparing.

(** ** What a commit leads to *)
Section publishing.
Context {JR : JsonDoc RegistryState} {JN : JsonDoc SegmentMap} `{Crates}.
Variables (D : bytes → Prop) (G : gmap CapsuleId bytes) (km : option KeyManager).
Implicit Types g : Stage.

(** A call on the registry. *)
Lemma sg_reg_run {A : Type} (m : M CapsuleRegistry Error A) g :
  sg_reg m g = (let '(r, r') := m (sg_registry g) in
                (r, mkStage (mkStore r' (sg_log g)) (sg_txn g) (staged_content g))).
Proof.
  unfold sg_reg, sg_on_store, on_registry, zoom. fold (sg_registry g). by destruct (m (sg_registry g)).
Qed.

(** A stored segment that stands for some data under the hash [hi.1]. *)
Definition stands g (hi : ContentHash * SegmentId) : Prop :=
  ∃ d, content (live km g) hi.2 = Some (d, Some hi.1) ∧ D d ∧ Dedup.hash_content d = hi.1.

(** Only the registry's content store and file may differ. *)
Definition only_store g g' : Prop :=
  sg_log g' = sg_log g ∧ sg_txn g' = sg_txn g ∧ capsules (sg_registry g') = capsules (sg_registry g).

Lemma stands_only_store g g' hi : only_store g g' → stands g hi → stands g' hi.
Proof.
  intros (Hl & _ & _) (d & Hc & Hd). exists d. split; [|done]. rewrite <- Hc.
  unfold content, live, lg. simpl. unfold sg_log in Hl. by rewrite Hl.
Qed.

Lemma register_one_ok held g hi u g' :
  pipe_inv D held G (live km g) → stands g hi →
  sg_reg (register_content hi.1 hi.2) g = (Ok u, g') →
  pipe_inv D held G (live km g') ∧ only_store g g'.
Proof.
  intros Hi (d & Hc & HD & Hh). rewrite sg_reg_run.
  pose proof (register_spec hi.1 hi.2 (sg_registry g)) as Hr.
  destruct (register_content _ _ _) as [[v|e| ] r']; intros; simplify_eq/=.
  destruct Hr as [_ Hst]. split.
  - exact (pipe_inv_register D held G (live km g) r' hi.1 hi.2 d Hi Hc HD Hh Hst).
  - by apply state_of_eq in Hst as (? & _).
Qed.

Lemma then_fail_not_ok {A B : Type} (m : M Stage Error A) e g (b : B) g' : (m ;;; fail e) g ≠ (Ok b, g').
Proof. unfold bind, fail. by destruct (m g) as [[a|x| ] s]. Qed.

(** The body of the registration loop, when it goes on. *)
Lemma register_body_ok incs regs acc hi g acc' g' :
  register_one incs regs acc hi g = (Ok acc', g') →
  sg_reg (register_content hi.1 hi.2) g = (Ok tt, g').
Proof.
  destruct hi as [h id]. intros ([u|e] & g1 & Ha & Hk)%bind_Ok.
  - unfold attempt in Ha. cbn [fst snd]. destruct (sg_reg (register_content h id) g) as [[[]|x| ] g2]; simplify_eq.
    unfold ret in Hk. by simplify_eq.
  - exfalso. unfold bind in Hk. repeat (case_match; simplify_eq).
Qed.

Lemma register_all_ok held incs regs g u g' :
  pipe_inv D held G (live km g) → Forall (stands g) regs →
  register_all incs regs g = (Ok u, g') →
  pipe_inv D held G (live km g') ∧ only_store g g'.
Proof.
  intros Hi Hs. unfold register_all. intros (acc & g1 & Hf & Hret)%bind_Ok.
  unfold ret in Hret. injection Hret as _ <-. revert Hf.
  assert (∀ l a q, pipe_inv D held G (live km q) → only_store g q → Forall (stands g) l →
    foldM (register_one incs regs) a l q = (Ok acc, g1) → pipe_inv D held G (live km g1) ∧ only_store g g1) as Hgen;
    [|by apply Hgen].
  induction l as [|hi l IH]; intros a q Hq Hoq Hl.
  { unfold foldM, ret. by intros [= _ <-]. }
  apply Forall_cons_1 in Hl as [Hhi Hl]. intros (a' & q' & Hb & Hrest)%bind_Ok.
  apply register_body_ok in Hb.
  destruct (register_one_ok held q hi tt q' Hq (stands_only_store _ _ _ Hoq Hhi) Hb) as [Hq' (E1 & E2 & E3)].
  apply (IH a' q'); try done. destruct Hoq as (F1 & F2 & F3). split_and!; congruence.
Qed.

(** With no failure pending, every registration goes through. *)
Lemma register_all_quiet incs regs g :
  reg_faults (sg_registry g) = [] →
  ∃ g', register_all incs regs g = (Ok tt, g') ∧ reg_faults (sg_registry g') = [].
Proof.
  intros Hq. unfold register_all.
  assert (∀ l a q, reg_faults (sg_registry q) = [] →
    ∃ a' q', foldM (register_one incs regs) a l q = (Ok a', q') ∧ reg_faults (sg_registry q') = []) as Hgen.
  { induction l as [|[h id] l IH]; intros a q Hq'; [by exists a, q|].
    cbn [foldM]. unfold bind at 1, register_one at 1, bind at 1, attempt.
    rewrite sg_reg_run. unfold register_content, bind, modify.
    rewrite save_ok by done. apply IH. done. }
  destruct (Hgen regs [] g Hq) as (a' & g' & Hf & Hq'). exists g'.
  unfold bind. by rewrite Hf.
Qed.

(** Creating the capsule: it holds the references of the write. *)
Lemma create_ok now c data policy ids outs g u g' :
  pipe_inv D ids G (live km g) → Forall2 (seg_reads (live km g) (compression policy)) ids outs →
  concat outs = data →
  sg_reg (create_capsule_with_segments now c (lenZ data) ids policy) g = (Ok u, g') →
  G !! c = None ∧ pipe_inv D [] (<[c := data]> G) (live km g') ∧ sg_txn g' = sg_txn g.
Proof.
  intros Hi Hr Ho. rewrite sg_reg_run.
  pose proof (create_spec now c (lenZ data) ids policy (sg_registry g)) as Hc.
  destruct (create_capsule_with_segments _ _ _ _ _ _) as [[v|e| ] r']; intros; simplify_eq/=.
  destruct Hc as (t & _ & Hn & _ & Hst). split; [by eapply (pi_dom _ _ _ _ Hi)|]. split; [|done].
  refine (pipe_inv_set_capsule D ids [] G _ (live km g) r' c None _ (concat outs) Hi Hst Hn eq_refl _ _).
  - split; [done|]. by exists outs.
  - intros id. simpl. rewrite countZ_nil. lia.
Qed.

Lemma staged_create_quiet now c size ids policy g e g' :
  reg_faults (sg_registry g) = [] →
  sg_reg (create_capsule_with_segments now c size ids policy) g = (Err e, g') → g' = g.
Proof.
  intros Hq. rewrite sg_reg_run. unfold create_capsule_with_segments, bind, gets, lift, modify.
  case_bool_decide; [|destruct now as [t|]; cbn [ok_or]].
  - unfold fail. intros [= <- <-]. by destruct g as [[? ?] ? ?].
  - by rewrite save_ok.
  - intros [= <- <-]. by destruct g as [[? ?] ? ?].
Qed.

(** The new segments are unreferenced and recorded under their hashes. *)
Definition disposable incs g (hi : ContentHash * SegmentId) : Prop :=
  occ (capsules (sg_registry g)) hi.2 + countZ hi.2 incs ≤ 0 ∧
  ∃ s, segment_map (sg_log g) !! hi.2 = Some s ∧ seg_content_hash s = Some hi.1.

Lemma stands_recorded g hi :
  stands g hi → ∃ s, segment_map (sg_log g) !! hi.2 = Some s ∧ seg_content_hash s = Some hi.1.
Proof.
  intros (d & Hc & _). unfold content in Hc.
  change (segment_map (lg (live km g))) with (segment_map (sg_log g)) in Hc.
  destruct (segment_map (sg_log g) !! hi.2) as [s|]; [|done]. exists s. split; [done|].
  cbv [mbind option_bind] in Hc. destruct (segment_bytes _ _); [|done]. destruct (unseal _ _ _); [|done].
  by simplify_eq.
Qed.

(** Giving up one new segment. *)
Lemma discard_one incs g h id :
  pipe_inv D incs G (live km g) → disposable incs g (h, id) →
  wp (sg_reg (deregister_content h id) ;;; sg_nv (remove_segment id) ;;; ret tt)
    (λ _ g', pipe_inv D incs G (live km g') ∧ sg_txn g' = sg_txn g ∧
       capsules (sg_registry g') = capsules (sg_registry g) ∧
       segment_map (sg_log g') = delete id (segment_map (sg_log g)))
    (λ _ g', pipe_inv D [] G (live km g') ∧ sg_txn g' = sg_txn g) g.
Proof.
  intros Hi (Hocc & s & Hs & Hh). apply wp_bind, wp_zoom, wp_zoom.
  eapply wp_mono; [apply (dereg_spec D incs G (live km g) h id s Hi Hs Hh)|..].
  - intros b r' (Hi' & Hcaps & Hno). apply wp_bind, wp_zoom, wp_zoom.
    eapply wp_mono; [apply (remove_spec D incs G (set_rg r' (live km g)) id Hi')|..].
    + change (occ (capsules r') id + countZ id incs ≤ 0). rewrite Hcaps. done.
    + exact Hno.
    + intros o l' (_ & Hi'' & Hm). unfold wp, ret. by split_and!.
    + intros e l' Hi''. split; [|done]. exact (pipe_inv_drop _ _ _ _ Hi'').
  - intros e r' Hi'. split; [|done]. exact (pipe_inv_drop _ _ _ _ Hi').
Qed.

Lemma discard_all incs regs g :
  pipe_inv D incs G (live km g) → Forall (disposable incs g) regs → NoDup regs.*2 →
  wp (foldM (λ _ '(hash, seg_id),
        sg_reg (deregister_content hash seg_id) ;;; sg_nv (remove_segment seg_id) ;;; ret tt) tt regs)
    (λ _ g', pipe_inv D incs G (live km g') ∧ sg_txn g' = sg_txn g)
    (λ _ g', pipe_inv D [] G (live km g') ∧ sg_txn g' = sg_txn g) g.
Proof.
  intros Hi Hf Hnd. eapply wp_mono.
  - apply (wp_foldM (λ (_ : unit) rest q, pipe_inv D incs G (live km q) ∧ sg_txn q = sg_txn g ∧
      Forall (disposable incs q) rest ∧ NoDup rest.*2)
      (λ _ q, pipe_inv D [] G (live km q) ∧ sg_txn q = sg_txn g)); [|done].
    intros [] [h id] rest q (Hq & Ht & Hd & Hn). apply Forall_cons_1 in Hd as [Hd Hrest].
    rewrite fmap_cons in Hn. apply NoDup_cons in Hn as [Hni Hn].
    eapply wp_mono; [by apply discard_one|..].
    + intros _ q' (Hq' & Ht' & Hcaps & Hm). split; [done|]. split; [congruence|]. split; [|done].
      rewrite Forall_forall in Hrest |- *. intros [h' id'] Hin. destruct (Hrest _ Hin) as (Ho & s & Hs & Hh).
      split; [by rewrite Hcaps|]. exists s. rewrite Hm, lookup_delete_ne; [done|].
      simpl. intros <-. apply Hni. apply list_elem_of_fmap. by exists (h', id).
    + intros e q' (Hq' & Ht'). split; [done|congruence].
  - by intros [] q (? & ? & _).
  - done.
Qed.

Lemma live_ready g : pipe_inv D [] G (live km g) → finalized (sg_txn g) = true → ready_to_leave D G [] km g.
Proof.
  intros Hi Hf. exists (next_offset (sg_log g)). split; [|by left].
  by rewrite hidden_forget, forget_nil by done.
Qed.

(** Without failures of the registry's file, a write that cannot create its capsule
    leaves a sound pipeline. *)
Lemma create_or_undo_fails c now size policy c0 g e g' :
  reg_faults (sg_registry g) = [] → finalized (sg_txn g) = true →
  pipe_inv D (dedupe_increments c0) G (live km g) →
  Forall (disposable (dedupe_increments c0) g) (pending_registrations c0) →
  NoDup (pending_registrations c0).*2 →
  create_or_undo c now size policy c0 g = (Err e, g') →
  ready_to_leave D G [] km g'.
Proof.
  intros Hq Hfin Hi Hd Hnd. unfold create_or_undo, bind at 1, attempt, map_err.
  destruct (sg_reg (create_capsule_with_segments _ _ _ _ _) g) as [[u|x| ] g1] eqn:Hc; cbn [res_map_err];
    [by unfold ret|apply staged_create_quiet in Hc as ->; [|done]|done].
  assert (wp (foldM (λ _ '(hash, seg_id),
      sg_reg (deregister_content hash seg_id) ;;; sg_nv (remove_segment seg_id) ;;; ret tt) tt
      (pending_registrations c0) ;;; undo_increments (dedupe_increments c0) ;;;
      @fail _ _ unit (map_registry_error "create_capsule_with_segments" x))
    (λ _ _, False) (λ _ q, ready_to_leave D G [] km q) g) as Hw.
  { apply wp_bind. eapply wp_mono; [by apply discard_all|..].
    - intros [] q [Hq' Ht]. apply wp_bind. eapply wp_mono.
      + apply (undo_spec D G [] (next_offset (sg_log q)) km q).
        by rewrite hidden_forget, forget_nil by done.
      + intros u q' [Hq2 [Ht2 Hn2]]. unfold wp, fail. exists (next_offset (sg_log q)).
        split; [done|]. left. split; [congruence|done].
      + intros u q' [Hq2 [Ht2 Hn2]]. exists (next_offset (sg_log q)).
        split; [done|]. left. split; [congruence|done].
    - intros u q [Hq' Ht]. apply live_ready; [done|congruence]. }
  intros Hrun. exact (wp_run _ _ _ _ _ _ Hw Hrun).
Qed.

Lemma create_or_undo_ok c now size policy c0 g u g' :
  create_or_undo c now size policy c0 g = (Ok u, g') →
  sg_reg (create_capsule_with_segments now c size (segment_ids c0) policy) g = (Ok u, g').
Proof.
  unfold create_or_undo. intros ([v|e] & g1 & Ha & Hk)%bind_Ok.
  - unfold attempt, map_err in Ha.
    destruct (sg_reg (create_capsule_with_segments _ _ _ _ _) g) as [[[]|x| ] g2]; simplify_eq/=.
    unfold ret in Hk. destruct u. by simplify_eq.
  - exfalso. unfold bind in Hk. repeat (case_match; simplify_eq).
Qed.
End publishing.

(** ** The whole call *)
Section concluding_all.
Context {JR : JsonDoc RegistryState} {JN : JsonDoc SegmentMap} `{Crates}.
Variables (D : bytes → Prop) (G : gmap CapsuleId bytes) (km : option KeyManager).
Implicit Types g : Stage.

(** Recording the saved bytes keeps the data. *)
Lemma add_deduped_spec c b G' g :
  pipe_inv D [] G' (live km g) →
  ∃ g', sg_reg (add_deduped_bytes c b) g = (Ok tt, g') ∧ pipe_inv D [] G' (live km g') ∧
    sg_txn g' = sg_txn g.
Proof.
  intros Hi. pose proof (pipe_inv_add_deduped D [] G' (live km g) c b Hi) as Hw.
  rewrite sg_reg_run. eexists. split; [reflexivity|]. split; [|done].
  by destruct Hw as [Hw _].
Qed.

(** A write whose commit succeeded. *)
Record committed policy data (c : Coordinator) g : Prop := {
  cm_final : finalized (sg_txn g) = true;
  cm_inv : pipe_inv D (segment_ids c) G (live km g);
  cm_stands : Forall (stands D km g) (pending_registrations c);
  cm_distinct : NoDup (pending_registrations c).*2;
  cm_incs : ∀ id, countZ id (dedupe_increments c) ≤ countZ id (segment_ids c);
  cm_new : Forall (λ hi, occ (capsules (sg_registry g)) hi.2 + countZ hi.2 (dedupe_increments c) ≤ 0)
    (pending_registrations c);
  cm_reads : ∃ outs, Forall2 (seg_reads (live km g) (compression policy)) (segment_ids c) outs ∧
    concat outs = data;
}.

Lemma reads_only_store g g' pol ids outs :
  only_store g g' → Forall2 (seg_reads (live km g) pol) ids outs →
  Forall2 (seg_reads (live km g') pol) ids outs.
Proof.
  intros (Hl & _ & _) Hr. eapply Forall2_impl; [done|]. intros id out. apply seg_reads_mono.
  intros x. unfold content, live, lg. simpl. unfold sg_log in Hl. by rewrite Hl.
Qed.

Lemma publish_ok c0 now policy data c g r g' :
  committed policy data c g → publish c0 now (lenZ data) policy c g = (Ok r, g') →
  r = c0 ∧ G !! c0 = None ∧ pipe_inv D [] (<[c0 := data]> G) (live km g') ∧
  finalized (sg_txn g') = true.
Proof.
  intros [] . unfold publish. intros (u1 & g1 & Hreg & Hk)%bind_Ok.
  destruct (register_all_ok D G km _ _ _ g u1 g1 cm_inv0 cm_stands0 Hreg) as [Hi1 Hos].
  apply bind_Ok in Hk as (u2 & g2 & Hcr & Hk). apply create_or_undo_ok in Hcr.
  destruct cm_reads0 as (outs & Hr & Ho).
  destruct (create_ok D G km now c0 data policy _ outs g1 u2 g2 Hi1 (reads_only_store _ _ _ _ _ Hos Hr) Ho Hcr)
    as (Hn & Hi2 & Ht2).
  assert (finalized (sg_txn g2) = true) as Hf2 by (destruct Hos as (_ & Ht1 & _); congruence).
  apply bind_Ok in Hk as (u3 & g3 & Hadd & [= <- <-]).
  split; [done|]. split; [done|]. destruct (0 <? bytes_saved (dedup_stats c)).
  - destruct (add_deduped_spec c0 (bytes_saved (dedup_stats c)) _ g2 Hi2) as (g4 & Ha & Hi4 & Ht4).
    unfold map_err in Hadd. rewrite Ha in Hadd. injection Hadd as _ <-. split; [done|congruence].
  - injection Hadd as _ <-. done.
Qed.

Lemma publish_fails c0 now policy data c g e g' :
  committed policy data c g → reg_faults (sg_registry g) = [] →
  publish c0 now (lenZ data) policy c g = (Err e, g') → ready_to_leave D G [] km g'.
Proof.
  intros [] Hq. unfold publish.
  destruct (register_all_quiet (dedupe_increments c) (pending_registrations c) g Hq) as (g1 & Hreg & Hq1).
  destruct (register_all_ok D G km _ _ _ g tt g1 cm_inv0 cm_stands0 Hreg) as [Hi1 Hos].
  unfold bind at 1. rewrite Hreg. unfold bind at 1.
  destruct (create_or_undo c0 now (lenZ data) policy c g1) as [[u|x| ] g2] eqn:Hcr; [| |done].
  - intros Hk. exfalso. apply create_or_undo_ok in Hcr. destruct cm_reads0 as (outs & Hr & Ho).
    destruct (create_ok D G km now c0 data policy _ outs g1 u g2 Hi1 (reads_only_store _ _ _ _ _ Hos Hr) Ho Hcr)
      as (Hn & Hi2 & Ht2).
    revert Hk. unfold bind. destruct (0 <? bytes_saved (dedup_stats c)); [|done].
    destruct (add_deduped_spec c0 (bytes_saved (dedup_stats c)) _ g2 Hi2) as (g4 & Ha & _).
    unfold map_err. by rewrite Ha.
  - intros [= _ <-]. pose proof Hos as (Hl1 & Ht1 & Hc1).
    eapply (create_or_undo_fails D G km c0 now (lenZ data) policy c g1 x g2); try done.
    + by rewrite Ht1.
    + by eapply pipe_inv_held.
    + rewrite Forall_forall in cm_new0, cm_stands0 |- *. intros hi Hin.
      split; [rewrite Hc1; by apply cm_new0|].
      apply (stands_recorded D km), (stands_only_store D km g); [done|]. by apply cm_stands0.
Qed.
End concluding_all.

Section whole_call.
Context {JR : JsonDoc RegistryState} {JN : JsonDoc SegmentMap} `{Crates}.
Variables (rf : faults) (D : bytes → Prop) (G : gmap CapsuleId bytes) (km : option KeyManager).
Implicit Types g : Stage.

(** No capsule has a segment that is only staged. *)
Lemma capsules_not_pending policy incs regs ids outs b k g c cap id :
  staging rf D G km policy incs regs ids outs b k g →
  capsules (sg_registry g) !! c = Some cap → id ∈ cap_segments cap →
  id ∉ pending_ids (pending (sg_txn g)).
Proof.
  intros [] Hc Hid Hin. destruct st_txn. pose proof (pi_refs _ _ _ _ st_base id) as Hr.
  unfold refs in Hr. change (segment_map (lg (base_view km g))) with (segment_map (sg_log g)) in Hr.
  rewrite (sx_fresh id Hin) in Hr. pose proof (countZ_nonneg id incs).
  pose proof (occ_elem (capsules (sg_registry g)) c cap id Hc Hid) as Ho.
  change (capsules (rg (base_view km g))) with (capsules (sg_registry g)) in Hr. lia.
Qed.

(** The commit of a fully staged write leads to a committed one. *)
Lemma staged_committed policy outs (c : Coordinator) b k g' :
  let g := stage c in
  coordinating rf D G km policy outs b k c →
  finalized (sg_txn g') = true → sg_registry g' = sg_registry g →
  pipe_inv D (segment_ids c) G (live km g') →
  (∀ j, content (live km g') j = content (virtual_view km g) j) →
  committed D G km policy (concat outs) c g' ∧
  spared G km (pending_ids (pending (sg_txn g))) g' ∧
  Forall (λ hi, hi.2 ∈ pending_ids (pending (sg_txn g))) (pending_registrations c) ∧
  reg_faults (sg_registry g') = rf.
Proof.
  intros g Hst Hf Hreg Hi Hc. pose proof Hst as []. fold g in st_base, st_virtual, st_txn, st_regs, st_quiet.
  assert (∀ id, id ∈ pending_ids (pending (sg_txn g)) →
    occ (capsules (sg_registry g)) id + countZ id (dedupe_increments c) ≤ 0) as Hnew.
  { intros id Hin. pose proof (pi_refs _ _ _ _ st_base id) as Hr. unfold refs in Hr.
    change (segment_map (lg (base_view km g))) with (segment_map (sg_log g)) in Hr.
    by rewrite (sx_fresh _ _ st_txn id Hin) in Hr. }
  rewrite Forall_forall in st_regs. split; [|split; [|split]].
  - constructor; try done.
    + apply Forall_forall. intros hi Hin. destruct (st_regs hi Hin) as [_ (d & Hd & HD & Hh)].
      exists d. by rewrite Hc.
    + apply Forall_forall. intros hi Hin. rewrite Hreg. apply Hnew. by apply (st_regs hi Hin).
    + exists outs. split; [|done]. eapply Forall2_impl; [exact st_reads|]. intros id o.
      apply seg_reads_mono. intros x. by rewrite Hc.
  - split; [done|]. intros k' data HG.
    destruct (forgotten_keeps D (segment_ids c) G [] (live km g') ltac:(by rewrite forget_nil) k' data HG)
      as (cap & Hcap & Hr).
    exists cap. split; [done|]. split; [done|]. intros id. eapply capsules_not_pending; [exact Hst|].
    fold g. rewrite <- Hreg. exact Hcap.
  - apply Forall_forall. intros hi Hin. by apply (st_regs hi Hin).
  - by rewrite Hreg.
Qed.

(** How the call may stand just before it leaves. *)
Definition outcome c0 data (r : Res Error CapsuleId) g : Prop :=
  match r with
  | Ok c => c = c0 ∧ G !! c0 = None ∧ pipe_inv D [] (<[c0 := data]> G) (live km g) ∧
      finalized (sg_txn g) = true
  | Err _ => (∃ orphans, ready_to_leave D G orphans km g) ∨
      (rf ≠ [] ∧ finalized (sg_txn g) = true ∧ keeps_capsules G (live km g))
  | Panic => False
  end.

Lemma conclude_spec policy c0 now data total c results outs :
  abortable rf D G km (dedupe_increments c) (stage c) →
  (commit_failure total c results = None →
     coordinating rf D G km policy outs 0 0 c ∧ concat outs = data) →
  let '(r, g') := conclude c0 now (lenZ data) policy total c results (stage c) in
  outcome c0 data r g'.
Proof.
  intros Hab Hgo. unfold conclude. destruct (commit_failure total c results) as [err|].
  { pose proof (abort_spec rf D G km (dedupe_increments c) (stage c) err Hab) as Hw. unfold wp in Hw.
    destruct (bind _ _ (stage c)) as [[x|e| ] g']; [done|left; by exists []|done]. }
  destruct (Hgo eq_refl) as [Hst Hdata]. clear Hab Hgo. subst data.
  pose proof (committed_spec rf D G km policy _ _ _ _ _ _ _ Hst) as Hc. unfold wp in Hc.
  unfold bind at 1, attempt. destruct (on_transaction commit (stage c)) as [[u|e| ] g1]; [| |done].
  - destruct Hc as (Hf & Hreg & Hi & Hcont).
    destruct (staged_committed policy outs c 0 0 g1 Hst Hf Hreg Hi Hcont) as (Hcm & Hsp & Hregs & Hq).
    pose proof (publish_spares G km _ c0 now (lenZ (concat outs)) policy c Hregs g1 Hsp) as Hspare.
    destruct (publish c0 now (lenZ (concat outs)) policy c g1) as [[r|e| ] g2] eqn:Hp; [| |done].
    + by apply (publish_ok D G km) with (1 := Hcm) in Hp.
    + destruct (decide (rf = [])) as [Hrf|Hrf].
      * left. exists []. eapply (publish_fails D G km); [exact Hcm|congruence|exact Hp].
      * right. destruct Hspare as [Hf2 Hk]. split_and!; [done|done|].
        intros k data HG. destruct (Hk k data HG) as (cap & ? & ? & _). by exists cap.
  - destruct Hc as (base & Hi & Hbase).
    assert (wp (undo_increments (dedupe_increments c) ;;; @fail _ _ CapsuleId e) (λ _ _, False)
      (λ _ g', ready_to_leave D G (pending_ids (pending (sg_txn (stage c)))) km g') g1) as Hw.
    { apply (undo_spec D G _ base km g1) in Hi. apply wp_bind. eapply wp_mono; [exact Hi|..].
      - intros v g' (Hg' & Ht & Hn). unfold wp, fail. exists base. split; [done|]. by rewrite Ht, Hn.
      - intros v g' (Hg' & Ht & Hn). exists base. split; [done|]. by rewrite Ht, Hn. }
    unfold wp in Hw. destruct (bind _ _ g1) as [[x|x| ] g']; [done|left; by eexists|done].
Qed.

(** Leaving the call with that outcome. *)
Lemma leave_spec c0 data (body : M Stage Error CapsuleId) g :
  (let '(r, g') := body g in outcome c0 data r g') →
  let '(r, p') := leave km body g in
  match r with
  | Ok c => c = c0 ∧ G !! c0 = None ∧ pipe_inv D [] (<[c0 := data]> G) p'
  | Err _ => keeps_capsules G p' ∧ (rf = [] → ∃ orphans, pipe_inv D [] G (forget orphans p'))
  | Panic => False
  end.
Proof.
  unfold leave. destruct (body g) as [r g1]. intros Ho.
  assert (finalized (sg_txn g1) = true → on_transaction txn_drop g1 = (Ok tt, g1)) as Hfin.
  { intros Hf. unfold on_transaction, zoom, txn_drop. cbv [bind gets ret]. cbn [txn]. rewrite Hf.
    by destruct g1 as [[? ?] ? ?]. }
  destruct (on_transaction txn_drop g1) as [x g2] eqn:Hd.
  destruct r as [c|e| ]; [| |done].
  - destruct Ho as (-> & Hn & Hi & Hf). specialize (Hfin Hf). by simplify_eq.
  - destruct Ho as [(orphans & Hr)|(Hrf & Hf & Hk)].
    + apply drop_open in Hr. rewrite Hd in Hr. split; [by eapply forgotten_keeps|]. by exists orphans.
    + specialize (Hfin Hf). simplify_eq. by split.
Qed.
End whole_call.

(** ** The sequential reference, and with it every schedule *)
Section in_order.
Context {JR : JsonDoc RegistryState} {JN : JsonDoc SegmentMap} `{Crates} `{!XtsLaws}.
Implicit Types p : WritePipeline.

Lemma pipe_inv_keys D held G p km :
  pipe_inv D held G p → same_keys (key_manager p) km → (∀ m, km = Some m → cache_coherent m) →
  pipe_inv D held G (mkWritePipeline (store p) km).
Proof.
  intros Hi Hk Hco. apply (pipe_inv_change D held held G p); try done; try by apply Hi.
  intros j x _. apply content_same; [done|done|]. intros s Hs. by exists s.
Qed.

(** Nothing is staged at the start: both views are the pipeline itself. *)
Lemma start_coordinating D G policy p km b k :
  pipe_inv D [] G (mkWritePipeline (store p) km) → budget b k p →
  coordinating (reg_faults (rg p)) D G km policy [] b k (coordinator_start p).
Proof.
  intros Hi Hb. pose proof Hi as Hi2. destruct p as [[r [f m n d fs]] km0].
  constructor; simpl; try done; try exact Hi; try exact Hb.
  - constructor; simpl; try done; [intros id Hid; by apply elem_of_nil in Hid|apply NoDup_nil_2].
  - apply NoDup_nil_2.
Qed.

Lemma join_error_none results :
  join_error (result_error <$> results) = None → Forall (λ r, is_ok r = true) results.
Proof. induction results as [|[sp|e| ] rs IH]; simpl; intros; try done; constructor; auto. Qed.

Lemma write_empty_spec D G c now policy p :
  pipe_inv D [] G p →
  let '(r, p') := write_empty c now policy p in
  match r with
  | Ok c' => c' = c ∧ G !! c = None ∧ pipe_inv D [] (<[c := []]> G) p'
  | Err _ => keeps_capsules G p' ∧ (reg_faults (rg p) = [] → ∃ orphans, pipe_inv D [] G (forget orphans p'))
  | Panic => False
  end.
Proof.
  intros Hi. set (g := mkStage (store p) (begin_transaction (lg p)) ∅).
  assert (live (key_manager p) g = p) as Hp by (by destruct p).
  assert (∀ q, write_empty c now policy q =
    (let '(r, r') := create_capsule_with_segments now c 0 [] policy (rg q) in
     (match r with Ok _ => Ok c | Err e => Err (map_registry_error "create_capsule_with_segments" e) | Panic => Panic end,
      set_rg r' q))) as Heq.
  { intros q. unfold write_empty, reg, on_store, on_registry, map_err, zoom, bind, ret.
    fold (rg q). by destruct (create_capsule_with_segments now c 0 [] policy (rg q)) as [[u|e| ] r']. }
  rewrite Heq. pose proof (create_spec now c 0 [] policy (rg p)) as Hc.
  pose proof (staged_create_quiet now c 0 [] policy g) as Hq. rewrite sg_reg_run in Hq.
  change (sg_registry g) with (rg p) in Hq.
  assert (∀ r' t, capsules (rg p) !! c = None →
    state_of r' = state_of (set_capsules (<[c := mkCapsule c 0 [] t policy 0]> (capsules (rg p))) (rg p)) →
    G !! c = None ∧ pipe_inv D [] (<[c := []]> G) (set_rg r' p)) as Hins.
  { intros r' t Hn Hst. split; [by eapply (pi_dom _ _ _ _ Hi)|].
    refine (pipe_inv_set_capsule D [] [] G _ p r' c None _ [] Hi Hst Hn eq_refl _ _).
    - split; [done|]. exists []. by split.
    - intros id. simpl. rewrite !countZ_nil. lia. }
  destruct (create_capsule_with_segments now c 0 [] policy (rg p)) as [[u|e| ] r']; [| |done].
  - destruct Hc as (t & _ & Hn & _ & Hst). destruct (Hins r' t Hn Hst). done.
  - split.
    + destruct Hc as [Hst|(Hn & t & Hst)].
      * eapply (forgotten_keeps D [] G []). rewrite forget_nil. by apply pipe_inv_same_state.
      * destruct (Hins r' t Hn Hst) as [HG Hi']. intros c' data Hc'.
        eapply (forgotten_keeps D [] (<[c := []]> G) []); [by rewrite forget_nil|].
        rewrite lookup_insert_ne; [done|]. intros ->. congruence.
    + intros Hrf. exists []. rewrite forget_nil. specialize (Hq e _ Hrf eq_refl).
      injection Hq as Hr. destruct p as [[r0 l0] km]. simpl in Hr. injection Hr as Hr.
      unfold set_rg. simpl. by rewrite Hr.
Qed.

Lemma write_in_order_spec D G config c now data policy p :
  hash_injective_on D → chunks_ok D (compression policy) data → fits data p → pipe_inv D [] G p →
  let '(r, p') := write_in_order config c now data policy p in
  match r with
  | Ok c' => c' = c ∧ G !! c = None ∧ pipe_inv D [] (<[c := data]> G) p'
  | Err _ => keeps_capsules G p' ∧ (reg_faults (rg p) = [] → ∃ orphans, pipe_inv D [] G (forget orphans p'))
  | Panic => False
  end.
Proof.
  intros Hinj Hok Hfits Hi. unfold write_in_order.
  destruct (chunks SEGMENT_SIZE data) as [|chunk rest] eqn:Hcs.
  { assert (data = []) as -> by (rewrite <- (concat_chunks SEGMENT_SIZE data) by done; by rewrite Hcs).
    by apply write_empty_spec. }
  destruct (memory_limit_per_task config <? lenZ chunk).
  { apply (leave_spec (reg_faults (rg p)) D G (key_manager p) c data). simpl. left. exists [], (next_offset (lg p)).
    split; [|by right]. rewrite hidden_forget, forget_nil by done. by destruct p. }
  rewrite <- Hcs. set (cs := chunks SEGMENT_SIZE data) in *.
  rewrite (prepare_all_results policy). set (keys := keys_after policy (key_manager p) cs).
  set (results := results_of policy (key_manager p) cs).
  destruct (keys_after_keys policy (key_manager p) cs (pi_key _ _ _ _ Hi)) as [Hsame Hco].
  fold keys in Hsame, Hco.
  assert (coordinating (reg_faults (rg p)) D G keys policy [] (lenZ (concat cs)) (lenZ cs) (coordinator_start p))
    as Hstart.
  { apply start_coordinating; [by apply pipe_inv_keys|]. subst cs. by rewrite concat_chunks. }
  assert (Forall2 (λ r chunk, ∀ sp, r = Ok sp → prepared_for D policy keys chunk sp) results cs) as Hprep.
  { apply Forall2_same_length_lookup. split; [by apply length_imap|]. intros i r ch Hr Hch sp ->.
    unfold results, results_of in Hr. rewrite list_lookup_imap, Hch in Hr. injection Hr as Hr.
    assert (prepared_for D policy (key_manager p) ch sp) as (d & ? & ? & Hs & ? & ?).
    { eapply prepare_prepared; [done|done| |done]. by eapply list_elem_of_lookup_2. }
    exists d. split_and!; try done. intros h. by eapply seals_keys. }
  assert (Forall (λ ch : bytes, lenZ ch < 2 ^ 32) cs) as Hlens.
  { eapply Forall_impl; [by apply (chunks_bound SEGMENT_SIZE data)|]. unfold SEGMENT_SIZE. simpl. lia. }
  destruct (coordinate_all_spec _ D G keys policy cs results []
    (coordinator_start p) Hinj Hprep Hlens eq_refl Hstart) as [Hab Hgo].
  pose proof (coordinate_all_progress policy results (coordinator_start p) eq_refl) as Hpr.
  set (co := coordinate_all policy results (coordinator_start p)) in *.
  apply (leave_spec (reg_faults (rg p)) D G keys c data).
  assert (commit_failure (length cs) co (result_error <$> results) = None →
    coordinating (reg_faults (rg p)) D G keys policy cs 0 0 co ∧ concat cs = data) as Hnone.
  { intros Hn. split; [|by apply concat_chunks]. unfold commit_failure in Hn.
    destruct Hpr as [Hg|[e He]]; [|by rewrite He in Hn]. apply (Hgo Hg), join_error_none.
    unfold going in Hg. destruct (progress co); try done. by destruct (join_error _). }
  pose proof (conclude_spec (reg_faults (rg p)) D G keys policy c now data (length cs) co
    (result_error <$> results) cs Hab Hnone) as Hc.
  destruct (progress co) eqn:Hp; [exact Hc|exact Hc|].
  destruct Hpr as [Hg|[e He]]; [unfold going in Hg; by rewrite Hp in Hg|congruence].
Qed.
End in_order.

(** ** Properties *)
Section async_properties.
Context {JR : JsonDoc RegistryState} {JN : JsonDoc SegmentMap} `{Crates} `{!XtsLaws} `{HashOrder}.
Implicit Types p : WritePipeline.

(** The calls of a client of an asynchronous build: the calls of [client_step], and
    asynchronous writes that succeed. *)
Inductive async_client_step (D : bytes → Prop) (config : PipelineConfig) (keep : CapsuleId) :
    WritePipeline → WritePipeline → Prop :=
| step_call p p' : client_step D keep p p' → async_client_step D config keep p p'
| step_async_write id now data policy p p' :
    fits data p → chunks_ok D (compression policy) data →
    write_capsule_with_policy_async config id now data policy p (Ok id) p' →
    async_client_step D config keep p p'.

Lemma async_write_spec D G config c now data policy p r p' :
  hash_injective_on D → chunks_ok D (compression policy) data → fits data p → pipe_inv D [] G p →
  write_capsule_with_policy_async config c now data policy p r p' →
  match r with
  | Ok c' => c' = c ∧ G !! c = None ∧ pipe_inv D [] (<[c := data]> G) p'
  | Err _ => keeps_capsules G p' ∧ (reg_faults (rg p) = [] → ∃ orphans, pipe_inv D [] G (forget orphans p'))
  | Panic => False
  end.
Proof.
  intros Hinj Hok Hf Hi Hw.
  assert (write_in_order config c now data policy p = (r, p')) as Ho.
  { unfold write_capsule_with_policy_async in Hw. destruct (chunks SEGMENT_SIZE data) as [|chunk rest] eqn:Hc.
    - unfold write_in_order. by rewrite Hc.
    - destruct Hw as (s & Hs & Hd & <-). rewrite <- Hc in Hs, Hd |- *.
      symmetry. apply outcome_in_order; [by rewrite Hc|done|done]. }
  pose proof (write_in_order_spec D G config c now data policy p Hinj Hok Hf Hi) as Hspec.
  by rewrite Ho in Hspec.
Qed.

Lemma async_client_steps_inv D config keep G p p' data :
  hash_injective_on D → pipe_inv D [] G p → G !! keep = Some data →
  rtc (async_client_step D config keep) p p' → ∃ G', pipe_inv D [] G' p' ∧ G' !! keep = Some data.
Proof.
  intros Hinj Hi HG Hs. revert G Hi HG. induction Hs as [p|p p1 p2 Hstep _ IH]; intros G Hi HG.
  { by exists G. }
  destruct Hstep as [p p1 Hstep|id now d policy p p1 Hf Hok Hw].
  - destruct (client_step_inv D keep G p p1 data Hinj Hi HG Hstep) as (G1 & ? & ?). by eapply IH.
  - destruct (async_write_spec D G config id now d policy p _ p1 Hinj Hok Hf Hi Hw) as (_ & Hn & Hi1).
    apply (IH _ Hi1). rewrite lookup_insert_ne; [done|]. intros ->. congruence.
Qed.

(** C6: a capsule written asynchronously survives.  Under every schedule of its tasks, a
    write that succeeds stores a capsule that any sequence of calls, asynchronous writes
    included, leaves readable with exactly the written bytes, or with an error only if
    one of the read's own log reads fails. *)
Theorem async_capsule_survives D config p keep now data policy p1 p2 :
  hash_injective_on D → pipe_ok D p → fits data p → chunks_ok D (compression policy) data →
  write_capsule_with_policy_async config keep now data policy p (Ok keep) p1 →
  rtc (async_client_step D config keep) p1 p2 →
  match read_capsule keep p2 with
  | (Ok out, _) => out = data
  | (Err _, _) => nv_faults (lg p2) ≠ []
  | (Panic, _) => False
  end.
Proof.
  intros Hinj [G Hi] Hf Hok Hw Hs.
  destruct (async_write_spec D G config keep now data policy p _ p1 Hinj Hok Hf Hi Hw) as (_ & _ & Hi1).
  destruct (async_client_steps_inv D config keep _ p1 p2 data Hinj Hi1 ltac:(by rewrite lookup_insert_eq) Hs)
    as (G2 & Hi2 & HG2).
  pose proof (read_spec D [] G2 p2 keep data Hi2 HG2) as Hr. unfold wp in Hr.
  destruct (read_capsule keep p2) as [[out|e| ] q]; tauto.
Qed.

(** C13: a failed asynchronous write loses no data.  Whatever task, I/O call or commit
    failed, and under every schedule, every capsule that was there is still in the table
    and stands for its data; the call never panics.  If no failure of the registry's
    file is pending, the pipeline is moreover sound again, but for segment records that
    nothing refers to. *)
Theorem async_failure_keeps_capsules D G config c now data policy p r p' :
  hash_injective_on D → chunks_ok D (compression policy) data → fits data p → pipe_inv D [] G p →
  write_capsule_with_policy_async config c now data policy p r p' →
  match r with
  | Ok _ => True
  | Err _ =>
      (∀ k d, G !! k = Some d → ∃ cap, capsules (rg p') !! k = Some cap ∧ capsule_reads p' cap d) ∧
      (reg_faults (rg p) = [] → ∃ orphans, pipe_inv D [] G (forget orphans p'))
  | Panic => False
  end.
Proof.
  intros Hinj Hok Hf Hi Hw.
  pose proof (async_write_spec D G config c now data policy p r p' Hinj Hok Hf Hi Hw) as Hs.
  by destruct r.
Qed.
End async_properties.

(** ** Witnesses, and clean-ups and overlaps that do harm *)
Section async_witnesses.
#[local] Existing Instance toy_crates.
#[local] Existing Instance toy_XtsLaws.
#[local] Existing Instance listed_order.
#[local] Existing Instance toy_state_doc.
#[local] Instance async_map_doc : JsonDoc SegmentMap := plain_doc SegmentMap.

Definition two_cpus : PipelineConfig := PipelineConfig_default 4.

(** The one task of a short write, in the one order it allows; the last [Receive] closes
    the channel, unless the coordinator gave up before. *)
Definition one_task (p : WritePipeline) : option WriteState :=
  match run_events Policy_default two_cpus (chunks SEGMENT_SIZE text) [Spawn; Prepare 0; Send 0; Receive]
          (async_start 1 p) with
  | Some s => if rx_open s then async_step Policy_default two_cpus (chunks SEGMENT_SIZE text) Receive s
              else Some s
  | None => None
  end.

(** [text] written under some id, by that schedule. *)
Definition short_write (c : CapsuleId) (p : WritePipeline) : Res Error CapsuleId * WritePipeline :=
  match one_task p with
  | Some s => if async_done (chunks SEGMENT_SIZE text) s
              then async_finish c (Some 1) (lenZ text) Policy_default 1 s else (Panic, p)
  | None => (Panic, p)
  end.

Lemma short_write_async c p r p' :
  short_write c p = (r, p') → r ≠ Panic →
  write_capsule_with_policy_async two_cpus c (Some 1) text Policy_default p r p'.
Proof.
  unfold short_write. intros Hw Hnp.
  destruct (one_task p) as [s|] eqn:He; [|congruence].
  destruct (async_done _ s) eqn:Hd; [|congruence].
  assert (chunks SEGMENT_SIZE text = [text]) as Ht by (vm_compute; reflexivity). rewrite Ht in Hd.
  unfold one_task in He. rewrite Ht in He.
  destruct (run_events _ _ _ _ _) as [s1|] eqn:Hr; [|done].
  unfold write_capsule_with_policy_async. rewrite Ht. exists s. split; [|done].
  apply run_events_steps in Hr. destruct (rx_open s1); [|by simplify_eq].
  eapply rtc_r; [exact Hr|]. by exists Receive.
Qed.

(** The next outcomes of the registry's file. *)
Definition schedule_registry (fs : faults) (p : WritePipeline) : WritePipeline :=
  let r := rg p in
  set_rg (mkCapsuleRegistry (capsules r) (next_segment_id r) (content_store r) (reg_metadata r) fs) p.

Definition write_a := short_write cap_a (empty_pipeline None []).

(** A second write of the same bytes takes a reference to the stored segment; when the
    registry cannot be saved, the reference is given back but the capsule stays in the
    table.  Deleting it then takes the segment away from the first capsule. *)
Definition write_b := short_write cap_b (schedule_registry [Some 0] (snd write_a)).
Definition delete_b := WritePipeline.delete_capsule cap_b (snd write_b).

Example failed_create_loses_another_capsule :
  fst write_a = Ok cap_a ∧
  write_capsule_with_policy_async two_cpus cap_b (Some 1) text Policy_default
    (schedule_registry [Some 0] (snd write_a))
    (Err (map_registry_error "create_capsule_with_segments" (IoFailed "fs::write"))) (snd write_b) ∧
  fst (read_capsule cap_a (snd write_b)) = Ok text ∧
  fst delete_b = Ok tt ∧
  fst (read_capsule cap_a (snd delete_b)) = Err (Msg "Segment not found").
Proof.
  split; [vm_compute; reflexivity|]. split; [|vm_compute; by split_and!].
  apply short_write_async; [|done].
  assert (fst write_b = Err (map_registry_error "create_capsule_with_segments" (IoFailed "fs::write"))) as <-
    by (vm_compute; reflexivity). apply surjective_pairing.
Qed.

(** A registration whose save fails stays in the content store while its segment is
    removed; from then on every write of those bytes fails. *)
Definition poisoned := short_write cap_a (schedule_registry [Some 0] (empty_pipeline None [])).
Definition retried := short_write cap_a (snd poisoned).

Example failed_registration_poisons_the_content :
  fst poisoned = Err (IoFailed "fs::write") ∧
  fst retried = Err (MsgSegment "Segment not found" (mkSegmentId 0)) ∧
  fst (short_write cap_b (snd retried)) = Err (MsgSegment "Segment not found" (mkSegmentId 0)) ∧
  fst (write_capsule_with_policy cap_b (Some 1) text Policy_default (snd (reconcile_refcounts (snd retried)))) =
    Err (map_nvram_error "increment_refcount" (MsgSegment "Segment not found" (mkSegmentId 0))).
Proof. vm_compute. by split_and!. Qed.

(** Two writes in flight on one pipeline: both begin their transaction on the same log,
    stage their segments one after the other, and then conclude. *)
Definition on_pipeline (s : Store) (c : Coordinator) : Coordinator :=
  mkCoordinator (mkStage s (sg_txn (stage c)) (staged_content (stage c))) (dedupe_increments c)
    (pending_registrations c) (segment_ids c) (dedup_stats c) (next_index c) (progress c).

Definition other_text : bytes := run_of 40 x62.

Definition overlapping_writes (p : WritePipeline) :
    Res Error CapsuleId * Res Error CapsuleId * WritePipeline :=
  let staged (data : bytes) (s : Store) :=
    coordinate_all Policy_default
      (fst (prepare_all Policy_default 0 (chunks SEGMENT_SIZE data) (key_manager p)))
      (on_pipeline s (coordinator_start p)) in
  let finish (c : CapsuleId) (co : Coordinator) :=
    conclude c (Some 1) 40 Policy_default 1 co [None] (stage co) in
  let c1 := staged text (store p) in
  let c2 := staged other_text (sg_store (stage c1)) in
  let '(r1, g1) := finish cap_a (on_pipeline (sg_store (stage c2)) c1) in
  let '(r2, g2) := finish cap_b (on_pipeline (sg_store g1) c2) in
  (r1, r2, mkWritePipeline (sg_store g2) (key_manager p)).

Example overlapping_writes_overwrite :
  let '(r1, r2, p) := overlapping_writes (empty_pipeline None []) in
  r1 = Ok cap_a ∧ r2 = Ok cap_b ∧ fst (read_capsule cap_a p) = Ok other_text ∧
  fst (read_capsule cap_b p) = Ok other_text.
Proof. vm_compute. by split_and!. Qed.

Lemma short_writes :
  write_capsule_with_policy_async two_cpus cap_a (Some 1) text Policy_default (empty_pipeline None [])
    (Ok cap_a) (snd write_a) ∧
  write_capsule_with_policy_async two_cpus cap_b (Some 1) text Policy_default (snd write_a)
    (Ok cap_b) (snd (short_write cap_b (snd write_a))).
Proof.
  split; (apply short_write_async; [|done]).
  - assert (fst write_a = Ok cap_a) as <- by (vm_compute; reflexivity). apply surjective_pairing.
  - assert (fst (short_write cap_b (snd write_a)) = Ok cap_b) as <- by (vm_compute; reflexivity).
    apply surjective_pairing.
Qed.

Lemma second_fits : fits text (snd write_a).
Proof. apply fits_by; vm_compute; congruence. Qed.

Lemma write_a_inv : pipe_inv only_frame [] live_a (snd write_a).
Proof.
  by destruct (async_write_spec only_frame ∅ two_cpus cap_a (Some 1) text Policy_default _ _ _
    only_frame_injective text_chunks_ok (text_fits None []) (empty_ok None [] ltac:(done))
    (proj1 short_writes)) as (_ & _ & Hi).
Qed.

(** Writing under an id that is taken fails, and gives the new reference back. *)
Definition write_again := short_write cap_a (snd write_a).
Definition collision : Error :=
  map_registry_error "create_capsule_with_segments" (Msg "Capsule collision (extremely unlikely)").

Lemma failed_write :
  write_capsule_with_policy_async two_cpus cap_a (Some 1) text Policy_default (snd write_a)
    (Err collision) (snd write_again).
Proof.
  apply short_write_async; [|done].
  assert (fst write_again = Err collision) as <- by (vm_compute; reflexivity). apply surjective_pairing.
Qed.

Lemma async_capsule_survives_witness :
  match read_capsule cap_a (snd (short_write cap_b (snd write_a))) with
  | (Ok out, _) => out = text
  | (Err _, p) => nv_faults (lg (snd (short_write cap_b (snd write_a)))) ≠ []
  | (Panic, _) => False
  end.
Proof.
  refine (async_capsule_survives only_frame two_cpus (empty_pipeline None []) cap_a (Some 1) text
    Policy_default (snd write_a) (snd (short_write cap_b (snd write_a))) only_frame_injective _
    (text_fits None []) text_chunks_ok (proj1 short_writes) _).
  - exists ∅. by apply empty_ok.
  - apply rtc_once. apply (step_async_write only_frame two_cpus cap_a cap_b (Some 1) text Policy_default);
      [apply second_fits|apply text_chunks_ok|apply short_writes].
Defined.

Lemma async_failure_keeps_capsules_witness :
  (∀ k d, live_a !! k = Some d →
     ∃ cap, capsules (rg (snd write_again)) !! k = Some cap ∧ capsule_reads (snd write_again) cap d) ∧
  (reg_faults (rg (snd write_a)) = [] → ∃ orphans, pipe_inv only_frame [] live_a (forget orphans (snd write_again))).
Proof.
  exact (async_failure_keeps_capsules only_frame live_a two_cpus cap_a (Some 1) text Policy_default
    (snd write_a) (Err collision) (snd write_again) only_frame_injective text_chunks_ok second_fits
    write_a_inv failed_write).
Defined.

Lemma async_write_is_sequential_witness :
  write_capsule_with_policy_async two_cpus cap_a (Some 1) text Policy_default (empty_pipeline None [])
    (Ok cap_a) (snd (write_in_order two_cpus cap_a (Some 1) text Policy_default (empty_pipeline None []))).
Proof.
  apply (proj2 (async_write_is_sequential two_cpus cap_a (Some 1) text Policy_default
    (empty_pipeline None []) (Ok cap_a) _)).
  assert (fst (write_in_order two_cpus cap_a (Some 1) text Policy_default (empty_pipeline None [])) = Ok cap_a)
    as <- by (vm_compute; reflexivity).
  apply surjective_pairing.
Defined.

Lemma async_write_terminates_witness :
  sn (async_steps_to Policy_default two_cpus (chunks SEGMENT_SIZE text))
    (async_start (length (chunks SEGMENT_SIZE text)) (empty_pipeline None [])) ∧
  red (async_steps_to Policy_default two_cpus (chunks SEGMENT_SIZE text))
    (async_start (length (chunks SEGMENT_SIZE text)) (empty_pipeline None [])).
Proof.
  destruct (async_write_terminates two_cpus Policy_default (empty_pipeline None []) text) as [Hsn Hgo].
  split; [exact Hsn|]. destruct (Hgo _ (rtc_refl _ _)) as [Hd|Hr]; [|exact Hr].
  exfalso. vm_compute in Hd. discriminate Hd.
Defined.
End async_witnesses.
