(* ===== verification/Threads.v ===== *)
(** Threads: calls as sequences of atomic actions.

    A call that takes and releases locks is a [Prog]: what is left of it, an atomic action on
    the shared state and, for the state the action found, the rest.  An action carries a
    label, what the environment owes it.  Programs are composed as the sequential calls
    are ([prog_bind], [prog_map_err], [prog_attempt]); [run] runs one alone, and a system of
    threads takes the next action of any of them ([sys_step]). *)
From S2P Require Import Prelude.

Section programs.
Context {S L E : Type}.

Inductive Prog (A : Type) : Type :=
| Return (r : Res E A)
| Act (l : L) (act : S → S) (rest : S → Prog A).
#[global] Arguments Return {A}.
#[global] Arguments Act {A}.

(** One action: a call that runs under a lock. *)
Definition atom {A : Type} (l : L) (m : M S E A) : Prog A :=
  Act l (λ s, snd (m s)) (λ s, Return (fst (m s))).

(** Go on with the result, whatever it is. *)
Fixpoint prog_then {A B : Type} (p : Prog A) (k : Res E A → Prog B) : Prog B :=
  match p with
  | Return r => k r
  | Act l act rest => Act l act (λ s, prog_then (rest s) k)
  end.

Definition on_ok {A B : Type} (k : A → Prog B) (r : Res E A) : Prog B :=
  match r with
  | Ok a => k a
  | Err e => Return (Err e)
  | Panic => Return Panic
  end.

Definition prog_ret {A : Type} (a : A) : Prog A := Return (Ok a).
Definition prog_fail {A : Type} (e : E) : Prog A := Return (Err e).
Definition prog_bind {A B : Type} (p : Prog A) (k : A → Prog B) : Prog B := prog_then p (on_ok k).

(** [map_err] *)
Definition prog_map_err {A : Type} (f : E → E) (p : Prog A) : Prog A :=
  prog_then p (λ r, Return (res_map_err f r)).

(** [let _ = ..]: the outcome is dropped, a panic is not. *)
Definition prog_attempt {A : Type} (p : Prog A) : Prog unit :=
  prog_then p (λ r, Return (match r with Panic => Panic | _ => Ok tt end)).

(** The [for] loop with [?] in its body. *)
Fixpoint prog_foldM {A B : Type} (f : B → A → Prog B) (b : B) (l : list A) : Prog B :=
  match l with
  | [] => prog_ret b
  | x :: r => prog_bind (f b x) (λ b, prog_foldM f b r)
  end.

(** *** A thread alone *)
Fixpoint run {A : Type} (p : Prog A) : M S E A := λ s,
  match p with
  | Return r => (r, s)
  | Act _ act rest => run (rest s) (act s)
  end.

(** *** Several threads *)

(** One action of the [i]-th thread; [owed] reads the labels. *)
Inductive sys_step {A : Type} (owed : L → S → Prop) :
    list (Prog A) * S → list (Prog A) * S → Prop :=
| sys_act i ts s l act rest :
    ts !! i = Some (Act l act rest) → owed l s →
    sys_step owed (ts, s) (<[i := rest s]> ts, act s).
End programs.
#[global] Arguments Prog : clear implicits.

Declare Scope prog_scope.
Delimit Scope prog_scope with prog.
Notation "'let&' x ':=' p 'in' k" := (prog_bind p (λ x, k))
  (at level 10, x pattern, p at level 200, k at level 200) : prog_scope.
Notation "p1 ;;& p2" := (prog_bind p1 (λ _, p2)) (at level 100, p2 at level 200, right associativity) : prog_scope.

Section lift.
Context {S T L E : Type} (get : T → S) (put : S → T → T).

(** A program on a part of the state. *)
Fixpoint prog_zoom {A : Type} (p : Prog S L E A) : Prog T L E A :=
  match p with
  | Return r => Return r
  | Act l act rest => Act l (λ t, put (act (get t)) t) (λ t, prog_zoom (rest (get t)))
  end.
End lift.

(** ** Running a program alone *)
Section run_lemmas.
Context {S L E : Type}.
Implicit Types s : S.

(** The thread [p], alone, is the call [m]. *)
Definition runs_as {A : Type} (p : Prog S L E A) (m : M S E A) : Prop := ∀ s, run p s = m s.

Lemma run_then {A B : Type} (p : Prog S L E A) (k : Res E A → Prog S L E B) s :
  run (prog_then p k) s = let '(r, s') := run p s in run (k r) s'.
Proof. revert s. induction p as [r|l act rest IH]; intros s; [done|]. apply IH. Qed.

Lemma runs_atom {A : Type} (l : L) (m : M S E A) : runs_as (atom l m) m.
Proof. intros s. simpl. by destruct (m s). Qed.

Lemma runs_ret {A : Type} (a : A) : runs_as (prog_ret a) (ret a).
Proof. done. Qed.

Lemma runs_fail {A : Type} (e : E) : runs_as (A := A) (prog_fail e) (fail e).
Proof. done. Qed.

Lemma runs_lift {A : Type} (r : Res E A) : runs_as (Return r) (lift r).
Proof. done. Qed.

Lemma runs_bind {A B : Type} (p : Prog S L E A) m (k : A → Prog S L E B) (k' : A → M S E B) :
  runs_as p m → (∀ a, runs_as (k a) (k' a)) → runs_as (prog_bind p k) (bind m k').
Proof.
  intros Hp Hk s. unfold prog_bind, bind. rewrite run_then, Hp.
  destruct (m s) as [[a|e| ] s']; [apply Hk|done..].
Qed.

Lemma runs_map_err {A : Type} f (p : Prog S L E A) m :
  runs_as p m → runs_as (prog_map_err f p) (map_err f m).
Proof.
  intros Hp s. unfold prog_map_err, map_err. rewrite run_then, Hp. by destruct (m s) as [[a|e| ] s'].
Qed.

Lemma runs_attempt {A : Type} (p : Prog S L E A) m :
  runs_as p m → runs_as (prog_attempt p) (attempt (E' := E) m ;;; ret tt).
Proof.
  intros Hp s. unfold prog_attempt, attempt, bind. rewrite run_then, Hp. by destruct (m s) as [[a|e| ] s'].
Qed.

Lemma runs_foldM {A B : Type} (f : B → A → Prog S L E B) (g : B → A → M S E B) b l :
  (∀ b x, runs_as (f b x) (g b x)) → runs_as (prog_foldM f b l) (foldM g b l).
Proof.
  intros Hf. revert b. induction l as [|x l IH]; intros b; [apply runs_ret|].
  apply runs_bind; [apply Hf|intros b'; apply IH].
Qed.

Lemma runs_if {A : Type} (b : bool) (p q : Prog S L E A) m n :
  runs_as p m → runs_as q n → runs_as (if b then p else q) (if b then m else n).
Proof. by destruct b. Qed.

Lemma runs_ext {A : Type} (p : Prog S L E A) m m' :
  runs_as p m → (∀ s, m s = m' s) → runs_as p m'.
Proof. intros Hp Hm s. by rewrite Hp. Qed.

Lemma bind_assoc {A B C : Type} (m : M S E A) (k : A → M S E B) (k' : B → M S E C) s :
  bind (bind m k) k' s = bind m (λ a, bind (k a) k') s.
Proof. unfold bind. by destruct (m s) as [[a|e| ] s']. Qed.
End run_lemmas.

Lemma runs_zoom {S T L E A : Type} (get : T → S) (put : S → T → T) (p : Prog S L E A) m :
  (∀ t, put (get t) t = t) → (∀ s t, get (put s t) = s) → (∀ s s' t, put s' (put s t) = put s' t) →
  runs_as p m → runs_as (prog_zoom get put p) (zoom get put m).
Proof.
  intros Hpg Hgp Hpp Hp t. unfold zoom. rewrite <- Hp. clear Hp. revert t.
  induction p as [r|l act rest IH]; intros t; simpl; [by rewrite Hpg|].
  rewrite IH, Hgp. destruct (run (rest (get t)) (act (get t))) as [r s]. by rewrite Hpp.
Qed.

#[export] Hint Resolve runs_atom runs_ret runs_fail runs_lift : space.
