(* ===== verification/PipelineThreads.v ===== *)
(** The calls of the write pipeline as threads (crates/capsule-registry/src/pipeline.rs,
    crates/capsule-registry/src/lib.rs, crates/nvram-sim/src/lib.rs).

    The pipeline is shared without a lock of its own: the registry's tables, the log's
    segment map, its file and offset and the key manager each have one, which a call
    takes and releases many times.  Here every locked region is an action of its own;
    [runs_write], [runs_read], [runs_range] and [runs_delete] show that a thread alone is
    the call of WritePipeline.v.  Where the code holds several locks at once ([append] those
    of the file, the offset and the map, [save] those of its three tables) the regions here
    follow one another, which adds interleavings and takes none away.  Writing a document
    to its file is one action. *)
From S2P Require Import Prelude Errors Common Externals Threads.
From S2P Require Nvram Compression KeyManager Encryption Dedup Registry Gc WritePipeline.
From S2P Require PipelineInvariant.
Import Nvram Compression KeyManager Encryption Registry Gc WritePipeline PipelineInvariant.

#[local] Open Scope prog_scope.

Section locked_regions.
Context {JR : JsonDoc RegistryState} {JN : JsonDoc SegmentMap} `{Crates}.

(** *** The log *)

(** [append] under the locks of the file and the offset. *)
Definition append_data (id : SegmentId) (data : bytes) : M NvramLog Error Segment :=
  let! offset := gets next_offset in
  nv_io "seek" ;;;
  nv_write_all offset data ;;;
  nv_io "sync_data" ;;;
  modify (λ l, set_next_offset (u64_add (next_offset l) (lenZ data)) l) ;;;
  ret (fresh_segment id offset (wrap 32 (lenZ data))).

(** [map.insert(id, segment)] *)
Definition insert_record (id : SegmentId) (segment : Segment) : M NvramLog Error unit :=
  modify (λ l, set_segment_map (<[id := segment]> (segment_map l)) l).

(** The bodies of [increment_refcount], [decrement_refcount] and [remove_segment] under the
    lock of the map, before it is saved. *)
Definition take_reference (id : SegmentId) : M NvramLog Error Segment :=
  let! l := gets (λ l, l) in
  let! segment := lift (ok_or (segment_map l !! id) (MsgSegment "Segment not found" id)) in
  let updated := set_refs (u32_saturating_add (seg_ref_count segment) 1)
                   (u32_saturating_add (seg_access_count segment) 1) segment in
  insert_record id updated ;;;
  ret updated.

Definition give_reference (id : SegmentId) : M NvramLog Error Segment :=
  let! l := gets (λ l, l) in
  let! segment := lift (ok_or (segment_map l !! id) (MsgSegment "Segment not found" id)) in
  if seg_ref_count segment =? 0 then fail (MsgSegment "Segment already has ref_count=0" id)
  else
    let updated := set_refs (seg_ref_count segment - 1) (seg_access_count segment) segment in
    insert_record id updated ;;;
    ret updated.

Definition take_record (id : SegmentId) : M NvramLog Error (option Segment) :=
  let! removed := gets (λ l, segment_map l !! id) in
  modify (λ l, set_segment_map (delete id (segment_map l)) l) ;;;
  ret removed.

(** [read]: the record, cloned under the lock of the map, and the bytes under that of the
    file. *)
Definition record_of (id : SegmentId) : M NvramLog Error Segment :=
  let! l := gets (λ l, l) in
  lift (ok_or (segment_map l !! id) (Msg "Segment not found")).

Definition read_bytes (segment : Segment) : M NvramLog Error bytes :=
  nv_io "seek" ;;;
  nv_read_exact (seg_offset segment) (seg_len segment).

(** *** The registry *)

(** [fs::write] of the state [save] has put together. *)
Definition write_state (state : RegistryState) : M CapsuleRegistry Error unit := λ r,
  let '(f, fs) := next_fault (reg_faults r) in
  let r := mkCapsuleRegistry (capsules r) (next_segment_id r) (content_store r)
             (write_doc f (to_doc state) (reg_metadata r)) fs in
  match f with
  | None => (Ok tt, r)
  | Some _ => (Err (IoFailed "fs::write"), r)
  end.

(** [create_capsule_with_segments] under the lock of the table. *)
Definition enter_capsule (now : option Z) (id : CapsuleId) (size : Z)
    (segments : list SegmentId) (policy : Policy) : M CapsuleRegistry Error unit :=
  let! r := gets (λ r, r) in
  if bool_decide (is_Some (capsules r !! id))
  then fail (Msg "Capsule collision (extremely unlikely)")
  else
    let! created_at := lift (ok_or now (IoFailed "duration_since")) in
    modify (λ r, set_capsules (<[id := mkCapsule id size segments created_at policy 0]> (capsules r)) r).

Definition enter_content (hash : ContentHash) (id : SegmentId) : M CapsuleRegistry Error unit :=
  modify (λ r, set_content_store (<[hash := id]> (content_store r)) r).

Definition drop_content (hash : ContentHash) (id : SegmentId) : M CapsuleRegistry Error bool :=
  let! current := gets (λ r, content_store r !! hash) in
  if bool_decide (current = Some id) then
    modify (λ r, set_content_store (delete hash (content_store r)) r) ;;;
    ret true
  else ret false.

Definition take_capsule (id : CapsuleId) : M CapsuleRegistry Error Capsule :=
  let! removed := gets (λ r, capsules r !! id) in
  modify (λ r, set_capsules (delete id (capsules r)) r) ;;;
  lift (ok_or removed (Msg "Capsule not found")).
End locked_regions.

(** What the environment owes an action: that the compressed chunk is one on which the hash
    is free of collisions, and one kept raw no frame of the codec; a segment number; room
    for bytes in the file. *)
Inductive Demand : Type :=
| Nothing
| CodedChunk (policy : CompressionPolicy) (chunk : bytes)
| SegmentNumber
| Room (n : Z).

Section pipeline_threads.
Context {JR : JsonDoc RegistryState} {JN : JsonDoc SegmentMap} `{Crates}.

Definition owed (D : bytes → Prop) (d : Demand) (p : WritePipeline) : Prop :=
  match d with
  | Nothing => True
  | CodedChunk policy chunk =>
      ∀ view r, compress_segment chunk policy = Ok (view, r) →
        D (as_ref view) ∧ (cr_compressed r = false → decompress_for policy chunk = Ok chunk)
  | SegmentNumber => next_segment_id (rg p) + 1 < 2 ^ 64
  | Room n => next_offset (lg p) + n < 2 ^ 64
  end.

#[local] Abbreviation Thread := (Prog WritePipeline Demand Error).
#[local] Abbreviation on_reg m := (atom Nothing (reg m)).
#[local] Abbreviation on_nv m := (atom Nothing (nv m)).

(** *** The log *)
Definition save_map : Thread unit := on_nv save_segment_map.

Definition append_thread (id : SegmentId) (data : bytes) : Thread Segment :=
  let& segment := atom (Room (lenZ data)) (nv (append_data id data)) in
  on_nv (insert_record id segment) ;;&
  save_map ;;&
  prog_ret segment.

Definition increment_thread (id : SegmentId) : Thread Segment :=
  let& updated := on_nv (take_reference id) in
  save_map ;;&
  prog_ret updated.

Definition decrement_thread (id : SegmentId) : Thread Segment :=
  let& updated := on_nv (give_reference id) in
  save_map ;;&
  prog_ret updated.

Definition remove_thread (id : SegmentId) : Thread (option Segment) :=
  let& removed := on_nv (take_record id) in
  match removed with
  | Some _ => save_map ;;& prog_ret removed
  | None => prog_ret removed
  end.

Definition update_thread (id : SegmentId) (segment : Segment) : Thread unit :=
  on_nv (insert_record id segment) ;;&
  save_map.

Definition read_bytes_thread (id : SegmentId) : Thread bytes :=
  let& segment := on_nv (record_of id) in
  on_nv (read_bytes segment).

(** *** The registry *)

(** [save] reads one table after the other and writes what it read. *)
Definition save_registry : Thread unit :=
  let& caps := on_reg (gets capsules) in
  let& next := on_reg (gets next_segment_id) in
  let& content := on_reg (gets content_store) in
  on_reg (write_state (mkRegistryState caps next content)).

Definition create_capsule_thread (now : option Z) (id : CapsuleId) (size : Z)
    (segments : list SegmentId) (policy : Policy) : Thread unit :=
  on_reg (enter_capsule now id size segments policy) ;;&
  save_registry.

Definition register_thread (hash : ContentHash) (id : SegmentId) : Thread unit :=
  on_reg (enter_content hash id) ;;&
  save_registry.

Definition deregister_thread (hash : ContentHash) (id : SegmentId) : Thread bool :=
  let& dropped := on_reg (drop_content hash id) in
  if dropped : bool then save_registry ;;& prog_ret true else prog_ret false.

Definition take_capsule_thread (id : CapsuleId) : Thread Capsule :=
  let& capsule := on_reg (take_capsule id) in
  save_registry ;;&
  prog_ret capsule.

(** *** Writing *)
Definition write_new_thread (final_data : bytes) (comp_result : CompressionResult)
    (hash : option ContentHash) (encryption_meta : option EncryptionMetadata) : Thread SegmentId :=
  let& new_seg_id := atom SegmentNumber (reg alloc_segment) in
  let& segment := prog_map_err (map_nvram_error "append") (append_thread new_seg_id final_data) in
  prog_map_err (map_nvram_error "update_segment_metadata")
    (update_thread new_seg_id (describe_segment comp_result hash encryption_meta segment)) ;;&
  prog_ret new_seg_id.

Definition place_thread (policy : Policy) (content_hash : ContentHash) (final_data : bytes)
    (comp_result : CompressionResult) (encryption_meta : option EncryptionMetadata)
    (dedup_stats : DedupStats) : Thread (SegmentId * DedupStats) :=
  if dedupe policy then
    let& existing := on_reg (lookup_content content_hash) in
    match existing with
    | Some existing_seg_id =>
        let& updated_segment := prog_map_err (map_nvram_error "increment_refcount")
          (increment_thread existing_seg_id) in
        prog_ret (existing_seg_id, Common.add_segment (seg_len updated_segment) true dedup_stats)
    | None =>
        let& new_seg_id := write_new_thread final_data comp_result (Some content_hash) encryption_meta in
        prog_map_err (map_registry_error "register_content")
          (register_thread content_hash new_seg_id) ;;&
        prog_ret (new_seg_id, Common.add_segment (lenZ final_data) false dedup_stats)
    end
  else
    let& new_seg_id := write_new_thread final_data comp_result None encryption_meta in
    prog_ret (new_seg_id, Common.add_segment (lenZ final_data) false dedup_stats).

(** The key manager is locked while the chunk is sealed. *)
Definition write_chunk_thread (policy : Policy) (encryption_enabled : bool)
    (acc : Z * list SegmentId * DedupStats) (chunk : bytes) : Thread (Z * list SegmentId * DedupStats) :=
  let '(index, segment_ids, dedup_stats) := acc in
  let& (view, comp_result) := atom (CodedChunk (compression policy) chunk)
    (lift (res_map_err (map_compression_error index) (compress_segment chunk (compression policy)))) in
  let compressed_data := as_ref view in
  let content_hash := Dedup.hash_content compressed_data in
  let& (final_data, encryption_meta) :=
    (if encryption_enabled then
       let& (ciphertext, m) := atom Nothing (encrypt_chunk content_hash compressed_data) in
       prog_ret (ciphertext, Some m)
     else prog_ret (compressed_data, None)) in
  let& (seg_id, dedup_stats) :=
    place_thread policy content_hash final_data comp_result encryption_meta dedup_stats in
  prog_ret (index + 1, segment_ids ++ [seg_id], dedup_stats).

Definition write_capsule_thread (capsule_id : CapsuleId) (now : option Z) (data : bytes)
    (policy : Policy) : Thread CapsuleId :=
  let& km := atom Nothing (gets key_manager) in
  let encryption_enabled := is_enabled (encryption policy) && bool_decide (is_Some km) in
  let& (_, segment_ids, dedup_stats) :=
    prog_foldM (write_chunk_thread policy encryption_enabled) (0, [], DedupStats_new)
      (chunks SEGMENT_SIZE data) in
  (if 0 <? bytes_saved dedup_stats
   then prog_map_err (map_registry_error "add_deduped_bytes")
          (on_reg (add_deduped_bytes capsule_id (bytes_saved dedup_stats)))
   else prog_ret tt) ;;&
  prog_map_err (map_registry_error "create_capsule_with_segments")
    (create_capsule_thread now capsule_id (lenZ data) segment_ids policy) ;;&
  prog_ret capsule_id.

(** *** Reading *)
Definition read_segment_thread (policy : CompressionPolicy) (id : SegmentId) : Thread bytes :=
  let& raw_data := read_bytes_thread id in
  let& segment := on_nv (get_segment_metadata id) in
  let& decrypted_data := atom Nothing (decrypt_raw segment raw_data) in
  Return (decompress_for policy decrypted_data).

Definition read_capsule_thread (id : CapsuleId) : Thread bytes :=
  let& capsule := on_reg (lookup id) in
  prog_foldM (λ result seg_id,
    let& data := read_segment_thread (compression (cap_policy capsule)) seg_id in
    prog_ret (result ++ data)) [] (cap_segments capsule).

Definition read_range_thread (id : CapsuleId) (offset len : Z) : Thread bytes :=
  let& capsule := on_reg (lookup id) in
  if cap_size capsule <? u64_add offset len then prog_fail (Msg "Read beyond capsule boundary")
  else
    let& full_data := read_capsule_thread id in
    Return (slice offset (u64_add offset len) full_data).

(** *** Deleting *)
Definition delete_capsule_thread (capsule_id : CapsuleId) : Thread unit :=
  let& capsule := take_capsule_thread capsule_id in
  prog_foldM (λ _ seg_id,
    let& segment := decrement_thread seg_id in
    if seg_ref_count segment =? 0 then
      (match seg_content_hash segment with
       | Some hash => deregister_thread hash seg_id ;;& prog_ret tt
       | None => prog_ret tt
       end) ;;&
      remove_thread seg_id ;;& prog_ret tt
    else prog_ret tt) tt (cap_segments capsule).

(** ** A thread alone is the call *)

(** *** Calls on the log *)
Lemma runs_nv_bind {A B : Type} (p : Thread A) m (k : A → Thread B) k' :
  runs_as p (nv m) → (∀ a, runs_as (k a) (nv (k' a))) → runs_as (prog_bind p k) (nv (bind m k')).
Proof.
  intros Hp Hk. eapply runs_ext; [apply (runs_bind p (nv m) k (λ a, nv (k' a))); done|]. intros [[r l] km].
  unfold nv, on_store, on_nvram, zoom, bind. simpl.
  destruct (m l) as [[a|e| ] l']; simpl; [by destruct (k' a l')|done..].
Qed.

Lemma runs_nv_ret {A : Type} (a : A) : runs_as (prog_ret a : Thread A) (nv (ret a)).
Proof. by intros [[r l] km]. Qed.

Lemma runs_nv_ext {A : Type} (p : Thread A) m m' :
  runs_as p (nv m) → (∀ l, m l = m' l) → runs_as p (nv m').
Proof.
  intros Hp Hm. eapply runs_ext; [done|]. intros q. unfold nv, on_store, on_nvram, zoom. by rewrite Hm.
Qed.

(** A sequence of actions on the log. *)
Ltac nv_actions :=
  repeat (eapply runs_nv_bind; [apply runs_atom|intros ?]); first [apply runs_nv_ret|apply runs_atom].

Lemma runs_append id data : runs_as (append_thread id data) (nv (append id data)).
Proof.
  eapply runs_nv_ext; [unfold append_thread, save_map; nv_actions|]. intros l.
  unfold append, append_data, insert_record. cbv [bind gets modify ret].
  destruct (nv_io "seek" l) as [[[]|e| ] l1]; [|done..].
  destruct (nv_write_all _ data l1) as [[[]|e| ] l2]; [|done..].
  by destruct (nv_io "sync_data" l2) as [[[]|e| ] l3].
Qed.

Lemma runs_increment id : runs_as (increment_thread id) (nv (increment_refcount id)).
Proof.
  eapply runs_nv_ext; [unfold increment_thread, save_map; nv_actions|]. intros l.
  unfold increment_refcount, take_reference, insert_record. cbv [bind gets modify ret lift].
  by destruct (segment_map l !! id).
Qed.

Lemma runs_decrement id : runs_as (decrement_thread id) (nv (decrement_refcount id)).
Proof.
  eapply runs_nv_ext; [unfold decrement_thread, save_map; nv_actions|]. intros l.
  unfold decrement_refcount, give_reference, insert_record. cbv [bind gets modify ret lift fail].
  destruct (segment_map l !! id); [|done]. cbn [ok_or]. by case_if.
Qed.

Lemma runs_remove id : runs_as (remove_thread id) (nv (remove_segment id)).
Proof.
  apply (runs_nv_ext _ (bind (take_record id) (λ removed,
    match removed with Some _ => save_segment_map ;;; ret removed | None => ret removed end))).
  - apply runs_nv_bind; [apply runs_atom|]. intros [s|]; [|apply runs_nv_ret].
    apply runs_nv_bind; [apply runs_atom|intros []; apply runs_nv_ret].
  - intros l. unfold remove_segment, take_record. cbv [bind gets modify ret].
    by destruct (segment_map l !! id).
Qed.

Lemma runs_update id s : runs_as (update_thread id s) (nv (update_segment_metadata id s)).
Proof. unfold update_thread, save_map. nv_actions. Qed.

Lemma runs_read_bytes id : runs_as (read_bytes_thread id) (nv (read id)).
Proof.
  eapply runs_nv_ext; [unfold read_bytes_thread; nv_actions|]. intros l.
  unfold read, record_of, read_bytes. cbv [bind gets lift]. by destruct (segment_map l !! id).
Qed.

(** *** Calls on the registry *)
Lemma runs_reg_bind {A B : Type} (p : Thread A) m (k : A → Thread B) k' :
  runs_as p (reg m) → (∀ a, runs_as (k a) (reg (k' a))) → runs_as (prog_bind p k) (reg (bind m k')).
Proof.
  intros Hp Hk. eapply runs_ext; [apply (runs_bind p (reg m) k (λ a, reg (k' a))); done|]. intros [[r l] km].
  unfold reg, on_store, on_registry, zoom, bind. simpl.
  destruct (m r) as [[a|e| ] r']; simpl; [by destruct (k' a r')|done..].
Qed.

Lemma runs_reg_ret {A : Type} (a : A) : runs_as (prog_ret a : Thread A) (reg (ret a)).
Proof. by intros [[r l] km]. Qed.

Lemma runs_reg_ext {A : Type} (p : Thread A) m m' :
  runs_as p (reg m) → (∀ r, m r = m' r) → runs_as p (reg m').
Proof.
  intros Hp Hm. eapply runs_ext; [done|]. intros q. unfold reg, on_store, on_registry, zoom. by rewrite Hm.
Qed.

Lemma runs_save : runs_as save_registry (reg save).
Proof.
  eapply (runs_reg_ext _ (bind (gets capsules) (λ caps, bind (gets next_segment_id) (λ next,
    bind (gets content_store) (λ content, write_state (mkRegistryState caps next content)))))); [|done].
  repeat (apply runs_reg_bind; [apply runs_atom|intros ?]). apply runs_atom.
Qed.

Lemma runs_create now id size segs policy :
  runs_as (create_capsule_thread now id size segs policy) (reg (create_capsule_with_segments now id size segs policy)).
Proof.
  apply (runs_reg_ext _ (bind (enter_capsule now id size segs policy) (λ _, save)));
    [apply runs_reg_bind; [apply runs_atom|intros; apply runs_save]|]. intros r.
  unfold create_capsule_with_segments, enter_capsule. cbv [bind gets modify lift fail].
  case_bool_decide; [done|]. by destruct now.
Qed.

Lemma runs_register h id : runs_as (register_thread h id) (reg (register_content h id)).
Proof. apply runs_reg_bind; [apply runs_atom|intros; apply runs_save]. Qed.

Lemma runs_deregister h id : runs_as (deregister_thread h id) (reg (deregister_content h id)).
Proof.
  eapply (runs_reg_ext _ (bind (drop_content h id) (λ b : bool, if b then save ;;; ret true else ret false))).
  - apply runs_reg_bind; [apply runs_atom|]. intros []; [|apply runs_reg_ret].
    apply runs_reg_bind; [apply runs_save|intros _; apply runs_reg_ret].
  - intros r. unfold deregister_content, drop_content. cbv [bind gets modify ret]. by case_bool_decide.
Qed.

Lemma runs_take_capsule id : runs_as (take_capsule_thread id) (reg (Registry.delete_capsule id)).
Proof.
  eapply (runs_reg_ext _ (bind (take_capsule id) (λ c, save ;;; ret c))).
  - apply runs_reg_bind; [apply runs_atom|]. intros c.
    apply runs_reg_bind; [apply runs_save|intros _; apply runs_reg_ret].
  - intros r. unfold take_capsule, Registry.delete_capsule. cbv [bind gets modify lift].
    by destruct (capsules r !! id).
Qed.

(** *** Calls on the pipeline *)
#[local] Hint Resolve runs_bind runs_map_err runs_if runs_append runs_increment runs_decrement runs_remove
  runs_update runs_read_bytes runs_create runs_register runs_deregister runs_take_capsule : space.

Lemma runs_write_new data cr h meta :
  runs_as (write_new_thread data cr h meta) (write_new_segment data cr h meta).
Proof.
  unfold write_new_thread, write_new_segment. apply runs_bind; [apply runs_atom|intros id].
  apply runs_bind; [auto with space|intros s]. apply runs_bind; auto with space.
Qed.

Lemma runs_place policy h data cr meta st :
  runs_as (place_thread policy h data cr meta st) (place_segment policy h data cr meta st).
Proof.
  unfold place_thread, place_segment. apply runs_if.
  - apply runs_bind; [apply runs_atom|intros [id|]].
    + apply runs_bind; auto with space.
    + apply runs_bind; [apply runs_write_new|intros id]. apply runs_bind; auto with space.
  - apply runs_bind; [apply runs_write_new|auto with space].
Qed.

Lemma runs_write_chunk policy enc acc chunk :
  runs_as (write_chunk_thread policy enc acc chunk) (write_chunk policy enc acc chunk).
Proof.
  destruct acc as [[i ids] st]. unfold write_chunk_thread, write_chunk.
  apply runs_bind; [apply runs_atom|intros [view r]]. apply runs_bind.
  - apply runs_if; [|apply runs_ret]. apply runs_bind; [apply runs_atom|intros [ct m]; apply runs_ret].
  - intros [final meta]. apply runs_bind; [apply runs_place|intros [id st']; apply runs_ret].
Qed.

Lemma runs_write id now data policy :
  runs_as (write_capsule_thread id now data policy) (write_capsule_with_policy id now data policy).
Proof.
  unfold write_capsule_thread, write_capsule_with_policy. apply runs_bind; [apply runs_atom|intros km].
  apply runs_bind; [apply runs_foldM; intros; apply runs_write_chunk|intros [[i ids] st]].
  apply runs_bind; [apply runs_if; auto with space|intros _]. apply runs_bind; auto with space.
Qed.

Lemma runs_read_segment pol id : runs_as (read_segment_thread pol id) (read_segment pol id).
Proof.
  unfold read_segment_thread, read_segment. apply runs_bind; [apply runs_read_bytes|intros raw].
  apply runs_bind; [apply runs_atom|intros s]. apply runs_bind; [apply runs_atom|intros d; apply runs_lift].
Qed.

Lemma runs_read id : runs_as (read_capsule_thread id) (read_capsule id).
Proof.
  unfold read_capsule_thread, read_capsule. apply runs_bind; [apply runs_atom|intros cap].
  apply runs_foldM. intros acc sid. apply runs_bind; [apply runs_read_segment|intros d; apply runs_ret].
Qed.

Lemma runs_range id off len : runs_as (read_range_thread id off len) (read_range id off len).
Proof.
  unfold read_range_thread, read_range. apply runs_bind; [apply runs_atom|intros cap].
  apply runs_if; [apply runs_fail|]. apply runs_bind; [apply runs_read|intros d; apply runs_lift].
Qed.

Lemma runs_delete id : runs_as (delete_capsule_thread id) (WritePipeline.delete_capsule id).
Proof.
  unfold delete_capsule_thread, WritePipeline.delete_capsule.
  apply runs_bind; [apply runs_take_capsule|intros cap]. apply runs_foldM. intros [] sid.
  apply runs_bind; [apply runs_decrement|intros s]. apply runs_if; [|apply runs_ret]. apply runs_bind.
  - destruct (seg_content_hash s) as [h|]; [|apply runs_ret]. apply runs_bind; auto with space.
  - intros []. apply runs_bind; auto with space.
Qed.
End pipeline_threads.
