(* ===== verification/PipelineSharing.v ===== *)
(** What threads that share a write pipeline may rely on.

    Nothing in the pipeline keeps a reference count in step with the capsules while
    threads interleave (see [racing_delete_loses_a_write] in BlockConcurrency.v), so
    [pipe_inv] is not an invariant here.  What is: a segment number is given out once, bytes
    below the offset never change, and so a segment, as long as there is a record of it,
    stands for the same bytes.  A [Ghost] remembers every capsule ever entered with its
    data, every segment number given out with its bytes, and the file; [pinv] ties the
    shared state to it, and [psafe] says that a thread keeps to it whatever the others do
    between its actions.  A read gives the data of its capsule or fails ([safe_read]), and
    a write enters its capsule with its data or fails ([safe_write]). *)
From S2P Require Import Prelude Errors Common Externals Threads.
From S2P Require Nvram Compression KeyManager Encryption Dedup Registry Gc WritePipeline.
From S2P Require PipelineInvariant PipelineThreads.
Import Nvram Compression KeyManager Encryption Registry Gc WritePipeline PipelineInvariant.
Import PipelineThreads.

(** *** Prefixes of the file *)
Definition region (F : bytes) (s : Segment) : bytes := takeZ (seg_len s) (dropZ (seg_offset s) F).

Definition in_file (F : bytes) (s : Segment) : Prop :=
  0 ≤ seg_offset s ∧ 0 ≤ seg_len s ∧ seg_offset s + seg_len s ≤ lenZ F.

Lemma region_app F t s : in_file F s → region (F ++ t) s = region F s.
Proof.
  intros (Ho & Hl & Hle). unfold region. rewrite !takeZ_take, !dropZ_drop. unfold lenZ in *.
  rewrite drop_app_le by lia. rewrite take_app_le; [done|]. rewrite length_drop. lia.
Qed.

Lemma region_prefix F F' s : F `prefix_of` F' → in_file F s → region F' s = region F s.
Proof. intros [t ->]. apply region_app. Qed.

Lemma in_file_prefix F F' s : F `prefix_of` F' → in_file F s → in_file F' s.
Proof. intros [t ->] (? & ? & ?). pose proof (lenZ_nonneg t). unfold in_file. rewrite lenZ_app. lia. Qed.

Lemma write_at_end F t d :
  write_at (F ++ t) (lenZ F) d = F ++ d ++ dropZ (lenZ d) t.
Proof.
  destruct (decide (d = [])) as [->|Hd]; [by rewrite (dropZ_le0 (lenZ []))|].
  rewrite write_at_nonempty, lenZ_app by done. pose proof (lenZ_nonneg t). pose proof (lenZ_nonneg d).
  replace (Z.to_nat (lenZ F - (lenZ F + lenZ t))) with 0%nat by lia.
  rewrite !takeZ_take, !dropZ_drop. unfold lenZ. rewrite Nat2Z.id, take_app_length. f_equal. simpl. f_equal.
  rewrite Z2Nat.inj_add, !Nat2Z.id by lia. by rewrite <- drop_drop, drop_app_length.
Qed.

Section sharing.
Context {JR : JsonDoc RegistryState} {JN : JsonDoc SegmentMap} `{Crates}.
Context (D : bytes → Prop) (HD : hash_injective_on D) (km0 : option KeyManager).
Implicit Types p : WritePipeline.

(** [g_segments]: the bytes a number stands for, with the record, up to its counts, when it
    was there from the start; the others are stored in the clear. *)
Record Ghost := mkGhost {
  g_capsules : gmap CapsuleId bytes;
  g_segments : gmap SegmentId (bytes * option Segment);
  g_file : bytes;
}.
Implicit Types g : Ghost.

Definition extends g g' : Prop :=
  g_capsules g ⊆ g_capsules g' ∧ g_segments g ⊆ g_segments g' ∧ g_file g `prefix_of` g_file g'.

#[export] Instance extends_preorder : PreOrder extends.
Proof.
  split; [done|]. intros g1 g2 g3 (? & ? & ?) (? & ? & ?).
  split; [by trans (g_capsules g2)|]. split; [by trans (g_segments g2)|]. by trans (g_file g2).
Qed.

Lemma extends_capsule g g' c d : extends g g' → g_capsules g !! c = Some d → g_capsules g' !! c = Some d.
Proof. intros (HK & _) Hc. by eapply lookup_weaken. Qed.

(** The segment [id] stands for [d]. *)
Definition stands g (id : SegmentId) (d : bytes) : Prop := ∃ o, g_segments g !! id = Some (d, o).

Lemma stands_mono g g' id d : extends g g' → stands g id d → stands g' id d.
Proof. intros (_ & HS & _) [o Ho]. exists o. by eapply lookup_weaken. Qed.

(** A record of [id] that reads as the bytes it stands for. *)
Definition record_ok g (id : SegmentId) (s : Segment) : Prop :=
  in_file (g_file g) s ∧ ∃ d o, g_segments g !! id = Some (d, o) ∧
  match o with
  | None => seg_encrypted s = false ∧ region (g_file g) s = d
  | Some s0 => same_seal s0 s ∧ unseal km0 s (region (g_file g) s) = Some d
  end.

Lemma record_ok_mono g g' id s : extends g g' → record_ok g id s → record_ok g' id s.
Proof.
  intros (_ & HS & HF) (Hin & d & o & Ho & Hs). split; [by eapply in_file_prefix|].
  exists d, o. split; [by eapply lookup_weaken|]. by rewrite (region_prefix _ _ _ HF Hin).
Qed.

Lemma record_ok_refs g id s r a : record_ok g id s → record_ok g id (set_refs r a s).
Proof. intros (Hin & d & o & Ho & Hs). split; [done|]. exists d, o. split; [done|]. by destruct o. Qed.

Lemma record_stands g id s : record_ok g id s → ∃ d, stands g id d.
Proof. intros (_ & d & o & Ho & _). by exists d, o. Qed.

(** Bytes read through some record of [id]; any record unseals them. *)
Definition raw_ok g (id : SegmentId) (raw : bytes) : Prop :=
  ∃ d o, g_segments g !! id = Some (d, o) ∧
  match o with
  | None => raw = d
  | Some s0 => ∀ s, same_seal s0 s → unseal km0 s raw = Some d
  end.

Lemma raw_ok_mono g g' id raw : extends g g' → raw_ok g id raw → raw_ok g' id raw.
Proof. intros (_ & HS & _) (d & o & Ho & Hr). exists d, o. split; [by eapply lookup_weaken|done]. Qed.

Lemma record_raw g id s : record_ok g id s → raw_ok g id (region (g_file g) s).
Proof.
  intros (Hin & d & o & Ho & Hs). exists d, o. split; [done|]. destruct o as [s0|]; [|apply Hs].
  destruct Hs as [Hss Hu]. intros s' Hs'. rewrite (unseal_same _ s0 s') by done.
  by rewrite <- (unseal_same _ s0 s).
Qed.

Lemma raw_unseals g id raw s : raw_ok g id raw → record_ok g id s → ∃ d, unseal km0 s raw = Some d ∧ stands g id d.
Proof.
  intros (d & o & Ho & Hr) (_ & d' & o' & Ho' & Hs). assert (d' = d ∧ o' = o) as [-> ->] by (split; congruence).
  exists d. split; [|by exists o]. destruct o as [s0|]; [by apply Hr, Hs|].
  destruct Hs as [He _]. unfold unseal. by rewrite He, Hr.
Qed.

(** Under this policy the segment reads as [out]; a capsule as its data. *)
Definition reads_as g (policy : CompressionPolicy) (id : SegmentId) (out : bytes) : Prop :=
  ∃ d, stands g id d ∧ decompress_for policy d = Ok out.

Definition capsule_ok g (cap : Capsule) (data : bytes) : Prop :=
  cap_size cap = lenZ data ∧
  ∃ outs, Forall2 (reads_as g (compression (cap_policy cap))) (cap_segments cap) outs ∧ concat outs = data.

Lemma reads_as_mono g g' pol id out : extends g g' → reads_as g pol id out → reads_as g' pol id out.
Proof. intros He (d & ? & ?). exists d. split; [by eapply stands_mono|done]. Qed.

Lemma all_read_mono g g' pol ids outs :
  extends g g' → Forall2 (reads_as g pol) ids outs → Forall2 (reads_as g' pol) ids outs.
Proof. intros He Hf. eapply Forall2_impl; [done|]. intros ??. by apply reads_as_mono. Qed.

Lemma capsule_ok_mono g g' cap data : extends g g' → capsule_ok g cap data → capsule_ok g' cap data.
Proof. intros He (? & outs & ? & ?). split; [done|]. exists outs. split; [by eapply all_read_mono|done]. Qed.

(** *** The invariant *)
Record pinv g p : Prop := {
  pv_file : next_offset (lg p) = lenZ (g_file g) ∧ g_file g `prefix_of` nv_file (lg p);
  pv_keys : same_keys km0 (key_manager p) ∧ keys_ok p;
  pv_next : 0 ≤ next_segment_id (rg p);
  pv_given : ∀ id d, stands g id d → 0 ≤ seg_u64 id < next_segment_id (rg p);
  pv_map : ∀ id s, segment_map (lg p) !! id = Some s →
    0 ≤ seg_u64 id < next_segment_id (rg p) ∧ (g_segments g !! id = None ∨ record_ok g id s);
  pv_store : ∀ h id, content_store (rg p) !! h = Some id →
    ∃ d, stands g id d ∧ D d ∧ Dedup.hash_content d = h;
  pv_caps : ∀ c cap, capsules (rg p) !! c = Some cap →
    ∃ data, g_capsules g !! c = Some data ∧ capsule_ok g cap data;
}.

(** A record of a segment somebody names. *)
Lemma pinv_record g p id s d :
  pinv g p → segment_map (lg p) !! id = Some s → stands g id d → record_ok g id s.
Proof. intros Hp Hs [o Ho]. destruct (pv_map _ _ Hp id s Hs) as [_ [Hn|?]]; [congruence|done]. Qed.

(** *** Safe threads
    [rs]: capsule ids a thread has drawn and not yet entered. *)
Definition drawn g (rs : list CapsuleId) : Prop :=
  NoDup rs ∧ ∀ c, c ∈ rs → g_capsules g !! c = None.

Fixpoint psafe {A : Type} (t : Prog WritePipeline Demand Error A) (rs : list CapsuleId) g
    (Φ : Res Error A → list CapsuleId → Ghost → Prop) : Prop :=
  match t with
  | Return r => ∀ g', extends g g' → Φ r rs g'
  | Act d act rest =>
      ∀ g1 rs0 p, extends g g1 → pinv g1 p → drawn g1 (rs ++ rs0) → owed D d p →
      ∃ g2 rs2, extends g1 g2 ∧ pinv g2 (act p) ∧ drawn g2 (rs2 ++ rs0) ∧ psafe (rest p) rs2 g2 Φ
  end.

Lemma psafe_mono {A : Type} (t : Prog WritePipeline Demand Error A) rs g g' Φ :
  extends g g' → psafe t rs g Φ → psafe t rs g' Φ.
Proof.
  intros He. destruct t as [r|d act rest]; simpl.
  - intros Hr g2 He2. apply Hr. by trans g'.
  - intros Hs g1 rs0 p He1. apply Hs. by trans g'.
Qed.

Lemma psafe_conseq {A : Type} (t : Prog WritePipeline Demand Error A) rs g Φ Φ' :
  psafe t rs g Φ → (∀ r rs' g', extends g g' → Φ r rs' g' → Φ' r rs' g') → psafe t rs g Φ'.
Proof.
  revert rs g. induction t as [r|d act rest IH]; intros rs g; simpl; intros Hs HΦ.
  - intros g' He. by apply HΦ, Hs.
  - intros g1 rs0 p He Hp Hd Ho. destruct (Hs g1 rs0 p He Hp Hd Ho) as (g2 & rs2 & He2 & Hp2 & Hd2 & Hr).
    exists g2, rs2. split; [done|]. split; [done|]. split; [done|]. eapply IH; [done|].
    intros r rs' g' He'. apply HΦ. trans g1; [done|]. by trans g2.
Qed.

Lemma psafe_then {A B : Type} (t : Prog WritePipeline Demand Error A) k rs g
    (Φ : Res Error B → list CapsuleId → Ghost → Prop) :
  psafe t rs g (λ r rs' g', psafe (k r) rs' g' Φ) → psafe (prog_then t k) rs g Φ.
Proof.
  revert rs g. induction t as [r|d act rest IH]; intros rs g; simpl.
  - intros Hr. by apply Hr.
  - intros Hs g1 rs0 p He Hp Hd Ho. destruct (Hs g1 rs0 p He Hp Hd Ho) as (g2 & rs2 & ? & ? & ? & ?).
    exists g2, rs2. eauto.
Qed.

(** A thread that keeps its ids, with what it returns. *)
Definition keeps {A : Type} (rs : list CapsuleId) (Q : A → Ghost → Prop)
    (r : Res Error A) (rs' : list CapsuleId) g : Prop :=
  rs' = rs ∧ match r with Ok a => Q a g | Err _ => True | Panic => False end.

Lemma psafe_bind {A B : Type} (t : Prog WritePipeline Demand Error A) k rs g Q
    (Φ : Res Error B → list CapsuleId → Ghost → Prop) :
  psafe t rs g (keeps rs Q) → (∀ e g', Φ (Err e) rs g') →
  (∀ a g', extends g g' → Q a g' → psafe (k a) rs g' Φ) → psafe (prog_bind t k) rs g Φ.
Proof.
  intros Ht He Hk. apply psafe_then. eapply psafe_conseq; [exact Ht|].
  intros [a|e| ] rs' g' Hg [-> HQ]; simpl; [by apply Hk|by intros|done].
Qed.

Lemma psafe_closed {A : Type} (t : Prog WritePipeline Demand Error A) rs g Φ :
  psafe t rs g Φ → psafe t rs g (λ r rs' g', ∀ g2, extends g' g2 → Φ r rs' g2).
Proof.
  revert rs g. induction t as [r|d act rest IH]; intros rs g; simpl.
  - intros Hr g' He g2 He2. apply Hr. by trans g'.
  - intros Hs g1 rs0 p He Hp Hd Ho. destruct (Hs g1 rs0 p He Hp Hd Ho) as (g2 & rs2 & ? & ? & ? & ?).
    exists g2, rs2. eauto 8.
Qed.

Lemma psafe_map_err {A : Type} f (t : Prog WritePipeline Demand Error A) rs g Q :
  psafe t rs g (keeps rs Q) → psafe (prog_map_err f t) rs g (keeps rs Q).
Proof.
  intros Ht%psafe_closed. apply psafe_then. eapply psafe_conseq; [exact Ht|].
  intros r rs' g' _ Hr g2 He2. specialize (Hr g2 He2). by destruct r.
Qed.

Lemma psafe_ret {A : Type} (a : A) rs g Q :
  (∀ g', extends g g' → Q a g') → psafe (prog_ret a) rs g (keeps rs Q).
Proof. intros HQ g' He. split; [done|]. by apply HQ. Qed.

Lemma psafe_return {A : Type} (r : Res Error A) rs g Q :
  r ≠ Panic → (∀ a g', r = Ok a → extends g g' → Q a g') → psafe (Return r) rs g (keeps rs Q).
Proof. intros Hnp HQ g' He. split; [done|]. destruct r; [by eapply HQ|done|done]. Qed.

(** An action that enters no capsule. *)
Lemma psafe_atom {A : Type} d (m : M WritePipeline Error A) rs g (Q : A → Ghost → Prop) :
  (∀ g1 p, extends g g1 → pinv g1 p → owed D d p →
     wp m (λ a p', ∃ g2, extends g1 g2 ∧ g_capsules g2 = g_capsules g1 ∧ pinv g2 p' ∧
             ∀ g3, extends g2 g3 → Q a g3) (λ _ p', pinv g1 p') p) →
  psafe (atom d m) rs g (keeps rs Q).
Proof.
  intros Hw g1 rs0 p He Hp Hd Ho. specialize (Hw g1 p He Hp Ho). unfold wp in Hw. simpl.
  destruct (m p) as [[a|e| ] p']; simpl; [|by exists g1, rs|done].
  destruct Hw as (g2 & He2 & HK & Hp2 & HQ). exists g2, rs. split; [done|]. split; [done|].
  split; [|by intros g3 ?; split; [|by apply HQ]]. unfold drawn. by rewrite HK.
Qed.

(** An action that only reads, or changes nothing the ghost knows of. *)
Lemma psafe_same {A : Type} d (m : M WritePipeline Error A) rs g (Q : A → Ghost → Prop) :
  (∀ g1 p, extends g g1 → pinv g1 p → owed D d p →
     wp m (λ a p', pinv g1 p' ∧ ∀ g3, extends g1 g3 → Q a g3) (λ _ p', pinv g1 p') p) →
  psafe (atom d m) rs g (keeps rs Q).
Proof.
  intros Hw. apply psafe_atom. intros g1 p He Hp Ho. eapply wp_mono; [by apply Hw| |done].
  intros a p' [Hp' HQ]. by exists g1.
Qed.

(** The loop over a list. *)
Lemma psafe_foldM {A B : Type} (I : B → list A → Ghost → Prop) f b l rs g :
  (∀ b l g g', extends g g' → I b l g → I b l g') →
  (∀ b x l g, I b (x :: l) g → psafe (f b x) rs g (keeps rs (λ b', I b' l))) →
  I b l g → psafe (prog_foldM f b l) rs g (keeps rs (λ b', I b' [])).
Proof.
  intros Hmono Hf. revert b g. induction l as [|x l IH]; intros b g Hi; simpl.
  - apply psafe_ret. intros g' He. by eapply Hmono.
  - eapply psafe_bind; [by apply Hf|done|]. intros b' g' He Hi'. by apply IH.
Qed.
End sharing.

(** ** The actions *)
Section actions.
Context {JR : JsonDoc RegistryState} {JN : JsonDoc SegmentMap} `{Crates}.
Context (D : bytes → Prop) (km0 : option KeyManager).
Implicit Types p : WritePipeline.
Implicit Types g : Ghost.
#[local] Abbreviation pinv := (pinv D km0).
#[local] Abbreviation record_ok := (record_ok km0).
#[local] Abbreviation psafe := (psafe D km0).

Lemma pinv_log g p l' :
  pinv g p → next_offset l' = next_offset (lg p) → nv_file l' = nv_file (lg p) →
  (∀ id s, segment_map l' !! id = Some s → segment_map (lg p) !! id = Some s ∨ record_ok g id s) →
  pinv g (set_lg l' p).
Proof.
  intros [[Hn Hf] Hk Hx Hg Hm Hs Hc] Hn' Hf' Hm'. constructor; vs; try done.
  - by rewrite Hn', Hf'.
  - intros id s Hid. destruct (Hm' id s Hid) as [?|Hr]; [by apply Hm|].
    destruct (record_stands _ _ _ _ Hr) as [d Hd]. split; [by eapply Hg|by right].
Qed.

Lemma pinv_reg g p r' :
  pinv g p → next_segment_id r' = next_segment_id (rg p) →
  (∀ h id, content_store r' !! h = Some id → content_store (rg p) !! h = Some id ∨
     ∃ d, stands g id d ∧ D d ∧ Dedup.hash_content d = h) →
  (∀ c cap, capsules r' !! c = Some cap → capsules (rg p) !! c = Some cap ∨
     ∃ data, g_capsules g !! c = Some data ∧ capsule_ok g cap data) →
  pinv g (set_rg r' p).
Proof.
  intros [Hf Hk Hx Hg Hm Hs Hc] Hn Hs' Hc'. constructor; vs; rewrite ?Hn; try done.
  - intros h id Hid. destruct (Hs' h id Hid); [by apply Hs|done].
  - intros c cap Hcap. destruct (Hc' c cap Hcap); [by apply Hc|done].
Qed.

(** A new ghost for the same pipeline. *)
Lemma pinv_capsule g p c data :
  pinv g p → g_capsules g !! c = None →
  pinv (mkGhost (<[c := data]> (g_capsules g)) (g_segments g) (g_file g)) p ∧
  extends g (mkGhost (<[c := data]> (g_capsules g)) (g_segments g) (g_file g)).
Proof.
  intros [Hf Hk Hx Hg Hm Hs Hc] Hn. split.
  - constructor; try done. intros c' cap Hcap. destruct (Hc c' cap Hcap) as (d & Hd & Hok).
    exists d. split; [|done]. simpl. rewrite lookup_insert_ne; [done|]. intros ->. congruence.
  - split; [by apply insert_subseteq|done].
Qed.

(** *** The log *)
Lemma wp_save_map g p :
  pinv g p → wp (nv save_segment_map) (λ _, pinv g) (λ _, pinv g) p.
Proof.
  intros Hp. apply wp_nv. pose proof (save_view (lg p)) as Hv. unfold wp.
  destruct (save_segment_map (lg p)) as [[[]|e| ] l']; [..|done]; injection Hv as Hf Hm Hn;
    (apply pinv_log; [done..|]; intros id s; rewrite Hm; by left).
Qed.

Lemma safe_save_map rs g : psafe save_map rs g (keeps rs (λ _ _, True)).
Proof.
  apply psafe_same. intros g1 p _ Hp _. eapply wp_mono; [by apply wp_save_map|done|done].
Qed.

Lemma pinv_insert g p id s l' :
  pinv g p → record_ok g id s → l' = set_segment_map (<[id := s]> (segment_map (lg p))) (lg p) →
  pinv g (set_lg l' p).
Proof.
  intros Hp Hr ->. apply pinv_log; [done..|]. intros id' s'. simpl.
  intros [[<- <-]|[? ?]]%lookup_insert_Some; by auto.
Qed.

Lemma safe_insert id s rs g :
  record_ok g id s → psafe (atom Nothing (nv (insert_record id s))) rs g (keeps rs (λ _ _, True)).
Proof.
  intros Hr. apply psafe_same. intros g1 p He Hp _. apply wp_nv. unfold wp, insert_record, modify.
  split; [|done]. eapply pinv_insert; [done| |done]. by eapply record_ok_mono.
Qed.

(** Bytes behind the end of the file. *)
Lemma wp_append_data g p id data :
  pinv g p → g_segments g !! id = Some (data, None) → lenZ data < 2 ^ 32 →
  next_offset (lg p) + lenZ data < 2 ^ 64 →
  wp (nv (append_data id data))
    (λ s p', ∃ g2, extends g g2 ∧ g_capsules g2 = g_capsules g ∧ pinv g2 p' ∧ record_ok g2 id s)
    (λ _, pinv g) p.
Proof.
  intros Hp Hid Hl Hroom. apply wp_nv. pose proof (lenZ_nonneg data) as Hpos.
  destruct (pv_file _ _ _ _ Hp) as [Hn [t Ht]].
  assert (∀ fs d, pinv g (set_lg (set_nv_file (write_at (nv_file (lg p)) (next_offset (lg p)) d)
    (set_nv_faults fs (lg p))) p)) as Htorn.
  { intros fs d. destruct Hp as [[Hn' Hf] Hk Hx Hg Hm Hs Hc]. constructor; vs; try done.
    simpl. split; [done|]. rewrite Ht, Hn, write_at_end. by apply prefix_app_r. }
  assert (∀ fs, pinv g (set_lg (set_nv_faults fs (lg p)) p)) as Hfaults.
  { intros fs. apply pinv_log; [done..|]. by left. }
  unfold wp, append_data, nv_io, nv_write_all. cbv [bind gets modify ret].
  destruct (next_fault (nv_faults (lg p))) as [[k|] f1]; [apply Hfaults|]. cbn [nv_faults set_nv_faults].
  destruct (next_fault f1) as [[k|] f2]; [exact (Htorn f2 _)|]. cbn [nv_faults set_nv_faults set_nv_file].
  destruct (next_fault f2) as [[k|] f3]; [exact (Htorn f3 _)|]. cbn.
  assert (u64_add (next_offset (lg p)) (lenZ data) = lenZ (g_file g) + lenZ data) as ->
    by (pose proof (lenZ_nonneg (g_file g)); rewrite Hn; unfold u64_add, wrap; apply Z.mod_small; lia).
  assert (wrap 32 (lenZ data) = lenZ data) as -> by (unfold wrap; apply Z.mod_small; lia).
  set (g2 := mkGhost (g_capsules g) (g_segments g) (g_file g ++ data)).
  assert (extends g g2) as He by (split; [done|]; split; [done|]; by apply prefix_app_r).
  exists g2. split; [done|]. split; [done|]. split.
  - destruct Hp as [[Hn' Hf] Hk Hx Hg Hm Hs Hc]. constructor; vs; try done.
    + simpl. rewrite lenZ_app, Ht, Hn, write_at_end, app_assoc. split; [done|]. by apply prefix_app_r.
    + intros id' s Hs'. destruct (Hm id' s Hs') as [? [?|?]]; (split; [done|]); [by left|right].
      by eapply record_ok_mono.
  - pose proof (lenZ_nonneg (g_file g)). split.
    + unfold in_file. cbn [g_file g2 seg_offset seg_len fresh_segment]. rewrite lenZ_app. lia.
    + exists data, None. split; [done|]. split; [done|]. unfold region.
      cbn [g_file g2 seg_offset seg_len fresh_segment]. rewrite Hn, takeZ_take, dropZ_drop.
      unfold lenZ. rewrite !Nat2Z.id, drop_app_length. by rewrite firstn_all.
Qed.

Lemma safe_append id data rs g :
  g_segments g !! id = Some (data, None) → lenZ data < 2 ^ 32 →
  psafe (append_thread id data) rs g (keeps rs (λ s g', record_ok g' id s)).
Proof.
  intros Hid Hl. eapply psafe_bind; [|done|].
  - apply psafe_atom. intros g1 p He Hp Hroom. eapply wp_mono; [apply (wp_append_data g1 p id data)|..]; try done.
    + destruct He as (_ & HS & _). by eapply lookup_weaken.
    + intros s p' (g2 & He2 & HK & Hp2 & Hr). exists g2. split; [done|]. split; [done|]. split; [done|].
      intros g3 He3. by eapply record_ok_mono.
  - intros s g1 He Hr. eapply psafe_bind; [by apply safe_insert|done|]. intros [] g2 He2 _.
    eapply psafe_bind; [apply safe_save_map|done|]. intros [] g3 He3 _. apply psafe_ret.
    intros g4 He4. eapply record_ok_mono; [|exact Hr]. trans g2; [done|]. by trans g3.
Qed.

Lemma safe_update id s rs g :
  record_ok g id s → psafe (update_thread id s) rs g (keeps rs (λ _ _, True)).
Proof.
  intros Hr. eapply psafe_bind; [by apply safe_insert|done|]. intros. apply safe_save_map.
Qed.

(** A change of the counts of the record of a segment somebody names. *)
Lemma wp_counts g p id d s r a :
  pinv g p → stands g id d → segment_map (lg p) !! id = Some s →
  pinv g (set_lg (set_segment_map (<[id := set_refs r a s]> (segment_map (lg p))) (lg p)) p).
Proof.
  intros Hp Hd Hs. eapply pinv_insert; [done| |done]. apply record_ok_refs. by eapply pinv_record.
Qed.

Lemma set_lg_same p : set_lg (lg p) p = p.
Proof. by destruct p as [[? ?] ?]. Qed.

Lemma set_rg_same p : set_rg (rg p) p = p.
Proof. by destruct p as [[? ?] ?]. Qed.

Lemma psafe_increment id d rs g :
  stands g id d → psafe (increment_thread id) rs g (keeps rs (λ _ _, True)).
Proof.
  intros Hd. eapply psafe_bind; [|done|].
  - apply (psafe_same D km0 _ _ _ _ (λ _ _, True)). intros g1 p He Hp _. apply wp_nv. unfold wp, take_reference, insert_record.
    cbv [bind gets lift modify ret]. destruct (segment_map (lg p) !! id) as [s|] eqn:Hs; cbn [ok_or].
    + split; [|done]. eapply wp_counts; [done| |done]. by eapply stands_mono.
    + by rewrite set_lg_same.
  - intros s g1 _ _. eapply psafe_bind; [apply safe_save_map|done|]. intros. by apply psafe_ret.
Qed.

Lemma safe_decrement id d rs g :
  stands g id d → psafe (decrement_thread id) rs g (keeps rs (λ _ _, True)).
Proof.
  intros Hd. eapply psafe_bind; [|done|].
  - apply (psafe_same D km0 _ _ _ _ (λ _ _, True)). intros g1 p He Hp _. apply wp_nv. unfold wp, give_reference, insert_record.
    cbv [bind gets lift modify ret fail]. destruct (segment_map (lg p) !! id) as [s|] eqn:Hs; cbn [ok_or].
    + case_if; [by rewrite set_lg_same|]. split; [|done]. eapply wp_counts; [done| |done]. by eapply stands_mono.
    + by rewrite set_lg_same.
  - intros s g1 _ _. eapply psafe_bind; [apply safe_save_map|done|]. intros. by apply psafe_ret.
Qed.

Lemma safe_remove id rs g : psafe (remove_thread id) rs g (keeps rs (λ _ _, True)).
Proof.
  eapply psafe_bind; [|done|].
  - apply (psafe_same D km0 _ _ _ _ (λ _ _, True)). intros g1 p He Hp _. apply wp_nv. unfold wp, take_record.
    cbv [bind gets modify ret]. split; [|done]. apply pinv_log; [done..|]. intros id' s.
    simpl. intros [_ ?]%lookup_delete_Some. by left.
  - intros [s|] g1 _ _; [|by apply psafe_ret].
    eapply psafe_bind; [apply safe_save_map|done|]. intros. by apply psafe_ret.
Qed.

(** *** Reading a segment *)
Lemma wp_record d (f : SegmentId → Error) g p id :
  pinv g p → stands g id d →
  wp (nv (let! l := gets (λ l, l) in lift (ok_or (segment_map l !! id) (f id))))
    (λ s p', pinv g p' ∧ record_ok g id s) (λ _, pinv g) p.
Proof.
  intros Hp Hd. apply wp_nv. unfold wp. cbv [bind gets lift]. rewrite set_lg_same.
  destruct (segment_map (lg p) !! id) as [s|] eqn:Hs; cbn [ok_or]; [|done].
  split; [done|]. by eapply pinv_record.
Qed.

Lemma safe_read_bytes id d rs g :
  stands g id d → psafe (read_bytes_thread id) rs g (keeps rs (λ raw g', raw_ok km0 g' id raw)).
Proof.
  intros Hd. eapply psafe_bind; [|done|].
  - apply (psafe_same D km0 _ _ _ _ (λ s g, record_ok g id s)). intros g1 p He Hp _.
    eapply wp_mono; [apply (wp_record d (λ _, Msg "Segment not found") g1 p id Hp)|..]; [by eapply stands_mono| |done].
    intros s p' [Hp' Hr]. split; [done|]. intros g3 He3. by eapply record_ok_mono.
  - intros s g1 _ Hr. apply psafe_same. intros g2 p He Hp _. apply wp_nv.
    assert (∀ fs, pinv g2 (set_lg (set_nv_faults fs (lg p)) p)) as Hfaults.
    { intros fs. apply pinv_log; [done..|]. by left. }
    unfold wp, read_bytes, nv_read_exact, nv_io. cbv [bind gets lift].
    destruct (next_fault (nv_faults (lg p))) as [[k|] f1]; [apply Hfaults|]. cbn [nv_faults set_nv_faults].
    destruct (next_fault f1) as [[k|] f2]; [exact (Hfaults f2)|]. cbn [nv_file set_nv_faults].
    pose proof (record_ok_mono _ _ _ _ _ He Hr) as Hr2. pose proof Hr2 as ((Ho & Hl & Hle) & _).
    destruct (pv_file _ _ _ _ Hp) as [_ [t Ht]]. pose proof (lenZ_nonneg t).
    rewrite read_at_Some by (rewrite ?Ht, ?lenZ_app; lia). cbn [ok_or]. split; [exact (Hfaults f2)|].
    intros g3 He3. eapply raw_ok_mono; [done|]. fold (region (nv_file (lg p)) s). rewrite Ht.
    change (λ x, ?f x) with f. rewrite region_app by apply Hr2. by apply record_raw.
Qed.

Lemma pinv_after g p p' : pinv g p → after_read p p' → pinv g p'.
Proof.
  intros [Hf [Hk Hko] Hx Hg Hm Hs Hc] ((Hr & [= Hfi Hma Hno] & _) & Hk' & Hko').
  constructor; rewrite ?Hr, ?Hma, ?Hfi, ?Hno; try done. split; [|done].
  destruct km0 as [m|], (key_manager p) as [m1|], (key_manager p') as [m2|]; try done.
  destruct Hk, Hk'. split; congruence.
Qed.

Lemma safe_read_segment pol id out rs g :
  reads_as g pol id out → psafe (read_segment_thread pol id) rs g (keeps rs (λ o _, o = out)).
Proof.
  intros (d & Hd & Ho). eapply psafe_bind; [by eapply safe_read_bytes|done|]. intros raw g1 He1 Hraw.
  eapply psafe_bind; [|done|].
  { apply (psafe_same D km0 _ _ _ _ (λ s g, record_ok g id s)). intros g2 p He Hp _.
    eapply wp_mono; [apply (wp_record d (MsgSegment "Segment not found") g2 p id Hp)|..];
      [by eapply stands_mono; [|done]; trans g1| |done].
    intros s p' [Hp' Hr]. split; [done|]. intros g3 He3. by eapply record_ok_mono. }
  intros s g2 He2 Hr. eapply (psafe_bind D km0 _ _ _ _ (λ d' _, d' = d)); [|done|].
  - apply psafe_same. intros g3 p He3 Hp _.
    destruct (raw_unseals km0 g3 id raw s) as (d' & Hu & Hst).
    { eapply raw_ok_mono; [|exact Hraw]. by trans g2. }
    { eapply record_ok_mono; [|exact Hr]; done. }
    assert (d' = d) as ->.
    { destruct Hst as [o Ho1], (stands_mono g g3 id d) as [o' Ho2]; [|done|congruence].
      trans g1; [done|]. by trans g2. }
    eapply wp_mono; [apply (decrypt_raw_run p s raw d)|..].
    + apply (pv_keys _ _ _ _ Hp).
    + rewrite (unseal_keys km0 (key_manager p)); [done|]. apply (pv_keys _ _ _ _ Hp).
    + intros d' p' [-> Ha]. split; [by eapply pinv_after|done].
    + done.
  - intros d' g3 _ ->. apply psafe_return; rewrite Ho; [done|]. by intros a g' [= ->].
Qed.

(** *** The registry *)
Lemma pinv_same_tables g p r' :
  pinv g p → state_of r' = state_of (rg p) → pinv g (set_rg r' p).
Proof.
  intros Hp (Hc & Hn & Hs)%state_of_eq. apply pinv_reg; [done|done|..].
  - intros h id. rewrite Hs. by left.
  - intros c cap. rewrite Hc. by left.
Qed.

Lemma psafe_gets {A : Type} (f : CapsuleRegistry → A) rs g :
  psafe (atom Nothing (reg (gets f))) rs g (keeps rs (λ _ _, True)).
Proof.
  apply (psafe_same D km0 _ _ _ _ (λ _ _, True)). intros g1 p _ Hp _. apply wp_reg. unfold wp, gets.
  by rewrite set_rg_same.
Qed.

Lemma safe_save rs g : psafe save_registry rs g (keeps rs (λ _ _, True)).
Proof.
  unfold save_registry. do 3 (eapply psafe_bind; [apply psafe_gets|done|intros ????]).
  apply psafe_same. intros g4 p _ Hp _. apply wp_reg. unfold wp, write_state.
  destruct (next_fault (reg_faults (rg p))) as [[k|] fs]; [|split; [|done]]; by apply pinv_same_tables.
Qed.

Lemma safe_register h id d rs g :
  stands g id d → D d → Dedup.hash_content d = h →
  psafe (register_thread h id) rs g (keeps rs (λ _ _, True)).
Proof.
  intros Hd HDd Hh. eapply psafe_bind; [|done|intros; apply safe_save].
  apply (psafe_same D km0 _ _ _ _ (λ _ _, True)). intros g1 p He Hp _. apply wp_reg.
  unfold wp, enter_content, modify. split; [|done]. apply pinv_reg; [done|done| |by left].
  intros h' id'. simpl. intros [[<- <-]|[? ?]]%lookup_insert_Some; [right|by left].
  exists d. split; [by eapply stands_mono|done].
Qed.

Lemma safe_deregister h id rs g : psafe (deregister_thread h id) rs g (keeps rs (λ _ _, True)).
Proof.
  eapply psafe_bind; [|done|].
  - apply (psafe_same D km0 _ _ _ _ (λ _ _, True)). intros g1 p He Hp _. apply wp_reg.
    unfold wp, drop_content. cbv [bind gets modify ret]. case_bool_decide; (split; [|done]).
    + apply pinv_reg; [done|done| |by left]. intros h' id'. simpl. intros [_ ?]%lookup_delete_Some. by left.
    + by rewrite set_rg_same.
  - intros [] g1 _ _; [|by apply psafe_ret]. eapply psafe_bind; [apply safe_save|done|].
    intros. by apply psafe_ret.
Qed.

(** Looking a capsule up, or taking it out of the table, finds the one entered. *)
Lemma safe_lookup c rs g :
  psafe (atom Nothing (reg (lookup c))) rs g
    (keeps rs (λ cap g', ∃ data, g_capsules g' !! c = Some data ∧ capsule_ok g' cap data)).
Proof.
  apply psafe_same. intros g1 p _ Hp _. apply wp_reg. unfold wp, lookup. cbv [bind gets lift].
  rewrite set_rg_same. destruct (capsules (rg p) !! c) as [cap|] eqn:Hc; cbn [ok_or]; [|done].
  split; [done|]. intros g3 He. destruct (pv_caps _ _ _ _ Hp c cap Hc) as (data & ? & ?).
  exists data. split; [by eapply extends_capsule|by eapply capsule_ok_mono].
Qed.

Lemma safe_take_capsule c rs g :
  psafe (take_capsule_thread c) rs g
    (keeps rs (λ cap g', ∀ id, id ∈ cap_segments cap → ∃ d, stands g' id d)).
Proof.
  eapply psafe_bind; [|done|].
  - apply (psafe_same D km0 _ _ _ _ (λ cap g', ∀ id, id ∈ cap_segments cap → ∃ d, stands g' id d)).
    intros g1 p _ Hp _. apply wp_reg. unfold wp, take_capsule. cbv [bind gets modify lift].
    assert (pinv g1 (set_rg (set_capsules (delete c (capsules (rg p))) (rg p)) p)) as Hp'.
    { apply pinv_reg; [done|done|by left|]. intros c' cap. simpl. intros [_ ?]%lookup_delete_Some. by left. }
    destruct (capsules (rg p) !! c) as [cap|] eqn:Hc; cbn [ok_or]; [|done]. split; [done|].
    intros g3 He id Hid. destruct (pv_caps _ _ _ _ Hp c cap Hc) as (data & _ & _ & outs & Hf & _).
    apply list_elem_of_lookup in Hid as [i Hi].
    destruct (Forall2_lookup_l _ _ _ _ _ Hf Hi) as (out & _ & d & Hd & _). exists d. by eapply stands_mono.
  - intros cap g1 _ Hcap. eapply psafe_bind; [apply safe_save|done|]. intros _ g2 He _.
    apply psafe_ret. intros g3 He3 id Hid. destruct (Hcap id Hid) as [d Hd]. exists d.
    eapply stands_mono; [|done]. by trans g2.
Qed.
End actions.

(** ** The calls *)
Section calls.
Context {JR : JsonDoc RegistryState} {JN : JsonDoc SegmentMap} `{Crates}.
Context (D : bytes → Prop) (HD : hash_injective_on D) (km0 : option KeyManager).
Implicit Types p : WritePipeline.
Implicit Types g : Ghost.
#[local] Abbreviation pinv := (pinv D km0).
#[local] Abbreviation psafe := (psafe D km0).

(** A read gives the data of the capsule, or fails. *)
Lemma safe_read c rs g :
  psafe (read_capsule_thread c) rs g (keeps rs (λ out g', g_capsules g' !! c = Some out)).
Proof.
  eapply psafe_bind; [apply safe_lookup|done|]. intros cap g1 _ (data & Hdata & _ & outs & Hf & Hout).
  eapply psafe_conseq.
  - apply (psafe_foldM D km0 (λ acc rest g, ∃ more, acc ++ concat more = data ∧
      Forall2 (reads_as g (compression (cap_policy cap))) rest more ∧ g_capsules g !! c = Some data)).
    + intros acc rest g2 g3 He (more & Ha & Hr & Hc). exists more. split; [done|].
      split; [by eapply all_read_mono|by eapply extends_capsule].
    + intros acc id rest g2 (more & Ha & Hr & Hc). inversion Hr as [|? out ? more' Hid Hrest]; subst.
      eapply psafe_bind; [by apply safe_read_segment|done|]. intros o g3 He ->. apply psafe_ret.
      intros g4 He4. exists more'. split; [by rewrite <- app_assoc|].
      assert (extends g2 g4) by by trans g3. split; [by eapply all_read_mono|by eapply extends_capsule].
    + by exists outs.
  - intros [acc|e| ] rs' g2 _ [-> Hr]; (split; [done|]); [|done..].
    destruct Hr as (more & Ha & Hr & Hc). inversion Hr; subst more. cbn in Ha. rewrite app_nil_r in Ha. by subst.
Qed.

Lemma safe_range c off len data rs g :
  g_capsules g !! c = Some data → lenZ data < 2 ^ 64 → 0 ≤ off → 0 ≤ len → off + len ≤ lenZ data →
  psafe (read_range_thread c off len) rs g (keeps rs (λ out _, out = takeZ len (dropZ off data))).
Proof.
  intros Hc Hd Ho Hl Hle. eapply psafe_bind; [apply safe_lookup|done|].
  intros cap g1 He1 (data' & Hdata & Hsz & _). case_if; [by split|].
  eapply psafe_bind; [apply safe_read|done|]. intros out g2 He2 Hout.
  assert (out = data) as ->.
  { apply (extends_capsule g g2) in Hc; [|by trans g1]. cbn in Hout. congruence. }
  assert (u64_add off len = off + len) as -> by (unfold u64_add, wrap; apply Z.mod_small; lia).
  unfold slice. rewrite (proj2 (Z.leb_le _ _)), (proj2 (Z.leb_le (off + len) _)) by lia. cbn [andb].
  apply psafe_return; [done|]. intros a g' [= <-] _. by replace (off + len - off) with len by lia.
Qed.

(** *** Deleting *)
Lemma safe_delete c rs g : psafe (delete_capsule_thread c) rs g (keeps rs (λ _ _, True)).
Proof.
  eapply psafe_bind; [apply safe_take_capsule|done|]. intros cap g1 _ Hcap.
  apply (psafe_conseq D km0 _ _ _ (keeps rs (λ _ g, ∀ id, id ∈ [] → ∃ d, stands g id d)));
    [|intros r rs' g' _ [-> ?]; split; [done|by destruct r]].
  apply (psafe_foldM D km0 (λ _ rest g, ∀ id, id ∈ rest → ∃ d, stands g id d)).
  - intros _ rest g2 g3 He Hr id Hid. destruct (Hr id Hid) as [d ?]. exists d. by eapply stands_mono.
  - intros [] id rest g2 Hr. destruct (Hr id ltac:(by left)) as [d Hd].
    assert (∀ g', extends g2 g' → ∀ id', id' ∈ rest → ∃ d, stands g' id' d) as Hrest.
    { intros g' He id' Hid'. destruct (Hr id' ltac:(by right)) as [d' ?]. exists d'. by eapply stands_mono. }
    eapply psafe_bind; [by eapply safe_decrement|done|]. intros s g3 He3 _.
    case_if; [|apply psafe_ret; intros g4 He4; apply Hrest; by trans g3].
    apply (psafe_bind D km0 _ _ _ _ (λ _ _, True)); [|done|].
    + destruct (seg_content_hash s) as [h|]; [|by apply psafe_ret].
      eapply psafe_bind; [apply safe_deregister|done|]. intros. by apply psafe_ret.
    + intros [] g4 He4 _. eapply psafe_bind; [apply safe_remove|done|]. intros _ g5 He5 _.
      apply psafe_ret. intros g6 He6. apply Hrest. trans g3; [done|]. trans g4; [done|]. by trans g5.
  - exact Hcap.
Qed.

(** *** Writing *)

(** A segment number, for these bytes. *)
Lemma wp_alloc g p data :
  pinv g p → next_segment_id (rg p) + 1 < 2 ^ 64 →
  wp (reg alloc_segment)
    (λ id p', ∃ g2, extends g g2 ∧ g_capsules g2 = g_capsules g ∧ pinv g2 p' ∧
       g_segments g2 !! id = Some (data, None)) (λ _ _, False) p.
Proof.
  intros Hp Hroom. apply wp_reg. unfold wp, alloc_segment. cbv [bind gets modify ret].
  set (id := mkSegmentId (next_segment_id (rg p))).
  assert (u64_add (next_segment_id (rg p)) 1 = next_segment_id (rg p) + 1) as ->.
  { pose proof (pv_next _ _ _ _ Hp). unfold u64_add, wrap. apply Z.mod_small. lia. }
  assert (g_segments g !! id = None) as Hid.
  { destruct (g_segments g !! id) as [[d o]|] eqn:Ho; [|done].
    destruct (pv_given _ _ _ _ Hp id d) as [_ Hlt]; [by exists o|]. simpl in Hlt. lia. }
  set (g2 := mkGhost (g_capsules g) (<[id := (data, None)]> (g_segments g)) (g_file g)).
  assert (extends g g2) as He by (split; [done|]; split; [by apply insert_subseteq|done]).
  exists g2. split; [done|]. split; [done|]. split; [|apply lookup_insert_eq].
  destruct Hp as [Hf Hk Hx Hg Hm Hs Hc]. constructor; vs; cbn [next_segment_id set_next_segment_id]; try done.
  - lia.
  - intros id' d [o Ho]. cbn [g2 g_segments] in Ho.
    apply lookup_insert_Some in Ho as [[<- _]|[_ Ho]]; [simpl; lia|].
    destruct (Hg id' d); [by exists o|]. lia.
  - intros id' s Hs'. destruct (Hm id' s Hs') as [Hb Hr]. split; [lia|].
    assert (id' ≠ id) as Hne by (intros ->; simpl in Hb; lia).
    destruct Hr as [Hn|Hr]; [left|right; by eapply record_ok_mono].
    cbn [g2 g_segments]. by rewrite lookup_insert_ne.
  - intros h id' Hh. destruct (Hs h id' Hh) as (d & ? & ? & ?). exists d. split; [by eapply stands_mono|done].
  - intros c cap Hcap. destruct (Hc c cap Hcap) as (d & ? & ?). exists d. split; [done|].
    by eapply capsule_ok_mono.
Qed.

Lemma describe_record_ok g id s cr h d :
  g_segments g !! id = Some (d, None) → record_ok km0 g id s →
  record_ok km0 g id (describe_segment cr h None s).
Proof.
  intros Hid (Hin & d' & o & Ho & Hs). assert (o = None) as -> by congruence.
  split; [|exists d', None; split; [done|]]; by destruct h.
Qed.

Lemma extends_segment g g' id x : extends g g' → g_segments g !! id = Some x → g_segments g' !! id = Some x.
Proof. intros (_ & HS & _) Hx. by eapply lookup_weaken. Qed.

Lemma safe_write_new data cr h rs g :
  lenZ data < 2 ^ 32 →
  psafe (write_new_thread data cr h None) rs g (keeps rs (λ id g', stands g' id data)).
Proof.
  intros Hl. eapply (psafe_bind D km0 _ _ _ _ (λ id g', g_segments g' !! id = Some (data, None))); [|done|].
  - apply psafe_atom. intros g1 p He Hp Hroom. eapply wp_mono; [by apply (wp_alloc g1 p data)| |done].
    intros id p' (g2 & He2 & HK & Hp2 & Hid). exists g2. split; [done|]. split; [done|]. split; [done|].
    intros g3 He3. by eapply extends_segment.
  - intros id g1 _ Hid. eapply psafe_bind; [apply psafe_map_err; by eapply safe_append|done|].
    intros s g2 He2 Hs. eapply psafe_bind; [apply psafe_map_err, safe_update|done|].
    + eapply (describe_record_ok _ _ _ _ _ data); [by eapply extends_segment|exact Hs].
    + intros [] g3 He3 _. apply psafe_ret. intros g4 He4. exists None.
      eapply extends_segment; [|exact Hid]. trans g2; [done|]. by trans g3.
Qed.

Lemma safe_place policy d cr st rs g :
  D d → lenZ d < 2 ^ 32 →
  psafe (place_thread policy (Dedup.hash_content d) d cr None st) rs g (keeps rs (λ x g', stands g' x.1 d)).
Proof.
  intros HDd Hl. unfold place_thread. destruct (dedupe policy).
  2:{ eapply psafe_bind; [by apply safe_write_new|done|]. intros id g1 _ Hid. apply psafe_ret.
      intros g2 He. by eapply stands_mono. }
  eapply (psafe_bind D km0 _ _ _ _ (λ o g', ∀ id, o = Some id → stands g' id d)); [|done|].
  - apply psafe_same. intros g1 p _ Hp _. apply wp_reg. unfold wp, lookup_content, gets.
    rewrite set_rg_same. split; [done|]. intros g3 He id Hid.
    destruct (pv_store _ _ _ _ Hp _ _ Hid) as (d' & Hst & HDd' & Hh).
    assert (d' = d) as -> by by apply HD. by eapply stands_mono.
  - intros [id|] g1 _ Hex.
    + pose proof (Hex id eq_refl) as Hid.
      eapply psafe_bind; [apply psafe_map_err; by eapply psafe_increment|done|]. intros s g2 He2 _.
      apply psafe_ret. intros g3 He3. eapply stands_mono; [|done]. by trans g2.
    + eapply psafe_bind; [by apply safe_write_new|done|]. intros id g2 _ Hid.
      eapply psafe_bind; [apply psafe_map_err; by apply (safe_register D km0 _ _ d)|done|].
      intros [] g3 He3 _. apply psafe_ret. intros g4 He4. eapply stands_mono; [|exact Hid]. by trans g3.
Qed.

Lemma safe_write_chunk policy i ids st chunk rs g :
  lenZ chunk < 2 ^ 32 →
  psafe (write_chunk_thread policy false (i, ids, st) chunk) rs g
    (keeps rs (λ acc g', ∃ id st', acc = (i + 1, ids ++ [id], st') ∧ reads_as g' (compression policy) id chunk)).
Proof.
  intros Hl. eapply (psafe_bind D km0 _ _ _ _ (λ x _, D (as_ref x.1) ∧
    lenZ (as_ref x.1) ≤ lenZ chunk ∧ decompress_for (compression policy) (as_ref x.1) = Ok chunk)); [|done|].
  - apply psafe_same. intros g1 p _ Hp Howed. unfold wp, lift.
    destruct (compress_segment chunk (compression policy)) as [[view r]|e| ] eqn:Hc; cbn [res_map_err];
      [|done|by apply adaptive_compress_no_panic in Hc].
    destruct (Howed view r Hc) as [HDd Hraw]. split; [done|]. intros g3 _. split; [done|].
    by apply (compress_reads _ _ _ r).
  - intros [view r] g1 _ (HDd & Hle & Hdec). cbn [fst] in *.
    eapply (psafe_bind D km0 _ _ _ _ (λ x _, x = (as_ref view, None))); [by apply psafe_ret|done|].
    intros x g2 _ ->. eapply psafe_bind; [apply safe_place; [done|lia]|done|].
    intros [id st'] g3 _ Hst. apply psafe_ret. intros g4 He4. exists id, st'. split; [done|].
    exists (as_ref view). split; [by eapply stands_mono|done].
Qed.

(** What a write leaves: its capsule entered with its data, or a failure. *)
Definition entered (c : CapsuleId) (data : bytes) (rs : list CapsuleId)
    (r : Res Error CapsuleId) (rs' : list CapsuleId) g : Prop :=
  match r with
  | Ok c' => c' = c ∧ rs' = rs ∧ g_capsules g !! c = Some data
  | Err _ => True
  | Panic => False
  end.

Lemma psafe_create now c data ids policy rs g :
  (∃ outs, Forall2 (reads_as g (compression policy)) ids outs ∧ concat outs = data) →
  psafe (prog_map_err (map_registry_error "create_capsule_with_segments")
      (create_capsule_thread now c (lenZ data) ids policy) ;;& prog_ret c)%prog (c :: rs) g (entered c data rs).
Proof.
  intros (outs & Hf & Ho) g1 rs0 p He Hp [Hnd Hdr] _.
  assert (g_capsules g1 !! c = None) as Hc by (apply Hdr; by left).
  assert (∀ t, capsule_ok g1 (mkCapsule c (lenZ data) ids t policy 0) data) as Hok.
  { intros t. split; [done|]. exists outs. split; [by eapply all_read_mono|done]. }
  destruct (pinv_capsule D km0 g1 p c data Hp Hc) as [Hp2 He2].
  set (g2 := mkGhost _ _ _) in *.
  assert (∀ t, pinv g2 (set_rg (set_capsules (<[c := mkCapsule c (lenZ data) ids t policy 0]>
    (capsules (rg p))) (rg p)) p)) as Hp3.
  { intros t. apply pinv_reg; [done|done|by left|]. intros c' cap. simpl.
    intros [[<- <-]|[? ?]]%lookup_insert_Some; [right|by left]. exists data.
    split; [apply lookup_insert_eq|by eapply capsule_ok_mono]. }
  assert (drawn g2 (rs ++ rs0)) as Hd2.
  { apply NoDup_cons in Hnd as [Hni Hnd]. split; [done|]. intros c' Hc'. cbn [g2 g_capsules].
    rewrite lookup_insert_ne by (intros <-; done). apply Hdr. by right. }
  unfold atom, reg, on_store, on_registry, zoom, enter_capsule. cbv [bind gets modify lift fail].
  cbn [store registry]. fold (rg p). case_bool_decide as Hin; cbn [fst snd].
  { exists g1, (c :: rs). split; [done|]. split; [destruct p as [[? ?] ?]; exact Hp|]. by split. }
  destruct now as [t|]; cbn [ok_or fst snd].
  2:{ exists g1, (c :: rs). split; [done|]. split; [destruct p as [[? ?] ?]; exact Hp|]. by split. }
  exists g2, rs. split; [done|]. split; [exact (Hp3 t)|]. split; [done|].
  cbn [on_ok prog_then]. apply psafe_then. eapply psafe_conseq.
  - apply psafe_map_err. apply safe_save.
  - intros [[]|e| ] rs' g3 He3 [-> Hr]; [|by intros|done]. intros g4 He4. split; [done|]. split; [done|].
    apply (extends_capsule g2); [by trans g3|]. apply lookup_insert_eq.
Qed.

Lemma chunk_below_u32 (data chunk : bytes) : chunk ∈ chunks SEGMENT_SIZE data → lenZ chunk < 2 ^ 32.
Proof.
  intros Hin. pose proof (chunks_bound SEGMENT_SIZE data ltac:(done)) as Hf.
  rewrite Forall_forall in Hf. specialize (Hf chunk Hin). unfold SEGMENT_SIZE in Hf. lia.
Qed.

Lemma safe_chunks policy data rs g :
  psafe (prog_foldM (write_chunk_thread policy false) (0, [], DedupStats_new) (chunks SEGMENT_SIZE data))
    rs g (keeps rs (λ acc g', ∃ outs, Forall2 (reads_as g' (compression policy)) acc.1.2 outs ∧ concat outs = data)).
Proof.
  eapply psafe_conseq.
  - apply (psafe_foldM D km0 (λ acc rest g, ∃ outs, Forall2 (reads_as g (compression policy)) acc.1.2 outs ∧
      outs ++ rest = chunks SEGMENT_SIZE data)).
    + intros acc rest g1 g2 He (outs & Hf & Hr). exists outs. split; [by eapply all_read_mono|done].
    + intros [[i ids] st] chunk rest g1 (outs & Hf & Hr). eapply psafe_conseq.
      * apply safe_write_chunk. apply (chunk_below_u32 data). rewrite <- Hr. apply elem_of_app. right. left.
      * intros [acc|e| ] rs' g2 He [-> HQ]; (split; [done|]); [|done..].
        destruct HQ as (id & st' & -> & Hid). exists (outs ++ [chunk]). cbn [fst snd].
        split; [apply Forall2_app; [by eapply all_read_mono|by constructor]|by rewrite <- app_assoc].
    + exists []. by split.
  - intros [acc|e| ] rs' g2 He [-> HQ]; (split; [done|]); [|done..].
    destruct HQ as (outs & Hf & Hr). exists outs. split; [done|]. rewrite app_nil_r in Hr. subst outs.
    by apply concat_chunks.
Qed.

Lemma safe_add_deduped c b rs g :
  psafe (atom Nothing (reg (add_deduped_bytes c b))) rs g (keeps rs (λ _ _, True)).
Proof.
  apply (psafe_same D km0 _ _ _ _ (λ _ _, True)). intros g1 p He Hp _. apply wp_reg.
  unfold wp, add_deduped_bytes, modify. split; [|done].
  destruct (capsules (rg p) !! c) as [cap|] eqn:Hc; [|by rewrite set_rg_same].
  apply pinv_reg; [done|done|by left|]. intros c' cap'. simpl.
  intros [[<- <-]|[? ?]]%lookup_insert_Some; [right|by left].
  by apply (pv_caps _ _ _ _ Hp c cap).
Qed.

(** A write without encryption enters its capsule with its data, or fails. *)
Lemma safe_write c now data policy rs g :
  is_enabled (encryption policy) = false →
  psafe (write_capsule_thread c now data policy) (c :: rs) g (entered c data rs).
Proof.
  intros Henc. unfold write_capsule_thread. rewrite Henc.
  eapply (psafe_bind D km0 _ _ _ _ (λ _ _, True)); [|done|].
  - apply psafe_same. intros g1 p He Hp _. unfold wp, gets. by split.
  - intros km g1 _ _. cbn [andb]. eapply psafe_bind; [apply safe_chunks|done|].
    intros [[i ids] st] g2 _ Houts. cbn [fst snd] in Houts.
    eapply (psafe_bind D km0 _ _ _ _ (λ _ _, True)); [|done|].
    + case_if; [|by apply psafe_ret]. apply psafe_map_err. apply safe_add_deduped.
    + intros [] g3 He3 _. apply psafe_create. destruct Houts as (outs & Hf & Ho). exists outs.
      split; [by eapply all_read_mono|done].
Qed.

(** *** A sound pipeline to start from *)
Definition ghost_of (G : gmap CapsuleId bytes) p : Ghost :=
  mkGhost G
    (map_imap (λ id s, (λ x, (fst x, Some s)) <$> content p id) (segment_map (lg p)))
    (takeZ (next_offset (lg p)) (nv_file (lg p))).

Lemma ghost_of_segment G p id d o :
  g_segments (ghost_of G p) !! id = Some (d, o) ↔
  ∃ s h, segment_map (lg p) !! id = Some s ∧ content p id = Some (d, h) ∧ o = Some s.
Proof.
  cbn [ghost_of g_segments]. rewrite map_lookup_imap. split.
  - destruct (segment_map (lg p) !! id) as [s|]; [|done]. simpl.
    destruct (content p id) as [[d' h]|]; [|done]. intros [= <- <-]. by exists s, h.
  - intros (s & h & -> & Hc & ->). simpl. by rewrite Hc.
Qed.

Lemma pipe_inv_pinv G p : km0 = key_manager p → pipe_inv D [] G p → pinv (ghost_of G p) p.
Proof.
  intros -> Hi. destruct (pi_log _ _ _ _ Hi) as [[Hn Hwf] Hend].
  assert (lenZ (takeZ (next_offset (lg p)) (nv_file (lg p))) = next_offset (lg p)) as Hlen
    by (rewrite lenZ_takeZ; lia).
  assert (∀ id d h, content p id = Some (d, h) → stands (ghost_of G p) id d) as Hst.
  { intros id d h Hc. unfold content in Hc. destruct (segment_map (lg p) !! id) as [s|] eqn:Hs; [|done].
    exists (Some s). apply ghost_of_segment. exists s, h. split; [done|]. split; [|done].
    unfold content. by rewrite Hs. }
  assert (∀ id s, segment_map (lg p) !! id = Some s → in_file (g_file (ghost_of G p)) s ∧
    ∀ raw, segment_bytes (lg p) id = Some raw → region (g_file (ghost_of G p)) s = raw) as Hreg.
  { intros id s Hs. destruct (Hwf id s Hs) as (Ho & Hl & Hle & _). cbn [ghost_of g_file].
    assert (in_file (takeZ (next_offset (lg p)) (nv_file (lg p))) s) as Hin by (unfold in_file; rewrite Hlen; lia).
    split; [done|]. intros raw. unfold segment_bytes. rewrite Hs, read_at_Some by lia. intros [= <-].
    change (takeZ (seg_len s) (dropZ (seg_offset s) (nv_file (lg p)))) with (region (nv_file (lg p)) s).
    symmetry. eapply region_prefix; [|done]. exists (dropZ (next_offset (lg p)) (nv_file (lg p))).
    by rewrite takeZ_dropZ. }
  constructor.
  - cbn [ghost_of g_file]. split; [done|]. exists (dropZ (next_offset (lg p)) (nv_file (lg p))).
    by rewrite takeZ_dropZ.
  - split; [done|exact (pi_key _ _ _ _ Hi)].
  - apply (pi_next _ _ _ _ Hi).
  - intros id d [o Ho]. apply ghost_of_segment in Ho as (s & h & Hs & _). by apply (pi_ids _ _ _ _ Hi id s).
  - intros id s Hs. split; [by apply (pi_ids _ _ _ _ Hi id s)|].
    destruct (content p id) as [[d h]|] eqn:Hc; [right|left].
    + destruct (Hreg id s Hs) as [Hin Hraw]. split; [done|]. exists d, (Some s).
      split; [by apply ghost_of_segment; exists s, h|]. split; [done|].
      unfold content in Hc. rewrite Hs in Hc. cbn [mbind option_bind] in Hc.
      destruct (segment_bytes (lg p) id) as [raw|]; [|done]. cbn [mbind option_bind] in Hc.
      rewrite (Hraw raw eq_refl). destruct (unseal _ _ _); [|done]. by simplify_eq/=.
    + cbn [ghost_of g_segments]. rewrite map_lookup_imap, Hs. simpl. by rewrite Hc.
  - intros h id Hh. destruct (pi_store _ _ _ _ Hi h id Hh) as (d & Hc & HDd & Hd).
    exists d. split; [by eapply Hst|done].
  - intros c cap Hcap. destruct (pi_caps _ _ _ _ Hi c cap Hcap) as (data & HG & Hsz & outs & Hf & Ho).
    exists data. split; [done|]. split; [done|]. exists outs. split; [|done].
    eapply Forall2_impl; [exact Hf|]. intros id out (d & h & Hc & Hdec). exists d. split; [by eapply Hst|done].
Qed.

(** *** A read nobody disturbs *)

(** The thread asks nothing of its environment. *)
Fixpoint undemanding {A : Type} (t : Prog WritePipeline Demand Error A) : Prop :=
  match t with
  | Return _ => True
  | Act d _ rest => d = Nothing ∧ ∀ p, undemanding (rest p)
  end.

Lemma undemanding_then {A B : Type} (t : Prog WritePipeline Demand Error A) (k : Res Error A → Prog _ _ _ B) :
  undemanding t → (∀ r, undemanding (k r)) → undemanding (prog_then t k).
Proof.
  intros Ht Hk. induction t as [r|d act rest IH]; [apply Hk|]. destruct Ht as [-> Ht].
  split; [done|]. intros p. apply IH, Ht.
Qed.

Lemma undemanding_bind {A B : Type} (t : Prog WritePipeline Demand Error A) (k : A → Prog _ _ _ B) :
  undemanding t → (∀ a, undemanding (k a)) → undemanding (prog_bind t k).
Proof. intros Ht Hk. apply undemanding_then; [done|]. intros [a|e| ]; [apply Hk|done..]. Qed.

Lemma undemanding_foldM {A B : Type} (f : B → A → Prog WritePipeline Demand Error B) b l :
  (∀ b x, undemanding (f b x)) → undemanding (prog_foldM f b l).
Proof.
  intros Hf. revert b. induction l as [|x l IH]; intros b; [done|]. apply undemanding_bind; auto.
Qed.

Lemma undemanding_read c : undemanding (read_capsule_thread c).
Proof.
  apply undemanding_bind; [by split|intros cap]. apply undemanding_foldM. intros acc id.
  apply undemanding_bind; [|done]. apply undemanding_bind; [|intros raw].
  - apply undemanding_bind; [by split|intros s; by split].
  - apply undemanding_bind; [by split|intros s]. apply undemanding_bind; [by split|done].
Qed.

Lemma psafe_run {A : Type} (t : Prog WritePipeline Demand Error A) rs g Φ p r p' :
  undemanding t → psafe t rs g Φ → pinv g p → drawn g rs → run t p = (r, p') →
  ∃ g' rs', extends g g' ∧ pinv g' p' ∧ Φ r rs' g'.
Proof.
  revert rs g p. induction t as [r0|d act rest IH]; intros rs g p; simpl.
  - intros _ HΦ Hp _ [= <- <-]. exists g, rs. split; [done|]. split; [done|]. by apply HΦ.
  - intros [-> Hu] Hs Hp Hd Hr.
    destruct (Hs g [] p (reflexivity g) Hp) as (g2 & rs2 & He & Hp2 & Hd2 & Hs2); [by rewrite app_nil_r|done|].
    rewrite app_nil_r in Hd2. destruct (IH p rs2 g2 (act p) (Hu p) Hs2 Hp2 Hd2 Hr) as (g' & rs' & He' & ? & ?).
    exists g', rs'. split; [by trans g2|done].
Qed.

Lemma pinv_read g p c data r p' :
  pinv g p → g_capsules g !! c = Some data → read_capsule c p = (r, p') →
  r ≠ Panic ∧ ∀ out, r = Ok out → out = data.
Proof.
  intros Hp Hc Hr. rewrite <- (runs_read c p) in Hr.
  destruct (psafe_run _ [] g _ p r p' (undemanding_read c) (safe_read c [] g) Hp) as (g' & rs' & He & _ & _ & HQ);
    [by split; [constructor|intros ? ?%elem_of_nil]|done|].
  destruct r as [out|e| ]; [|done..]. split; [done|]. intros out' [= <-].
  apply (extends_capsule g g') in Hc; [|done]. congruence.
Qed.
End calls.
