(* ===== verification/CapsuleService.v ===== *)
(** The capsule service: what the protocol front ends (block volumes, the NFS
    namespace, the S3 view) ask of a pipeline, as an interface with its laws.  The
    front ends are modelled and proved against the interface; the write pipeline
    with the default policy is shown to implement it. *)
From S2P Require Import Prelude Errors Common Externals.
From S2P Require Nvram Compression KeyManager Encryption Dedup Registry Gc WritePipeline.
From S2P Require PipelineInvariant PipelineTheorems PipelineProgress.

(** [write_capsule], [read_capsule], [read_range] and [delete_capsule] of a pipeline;
    the id a write draws and the clock it reads are arguments. *)
Class CapsuleService (P : Type) := {
  svc_write : CapsuleId → option Z → bytes → M P Error CapsuleId;
  svc_read : CapsuleId → M P Error bytes;
  svc_range : CapsuleId → Z → Z → M P Error bytes;
  svc_delete : CapsuleId → M P Error unit;
}.

(** The contract.  [holds G p]: the live capsules of [p] are those of [G], with their
    bytes.  [accepts d p]: [p] can take the data [d] (machine integers, codec).
    [healthy p]: no failure is pending; [ready d p]: moreover [d] can be stored now. *)
Class ServiceLaws (P : Type) `{CapsuleService P} := {
  holds : gmap CapsuleId bytes → P → Prop;
  accepts : bytes → P → Prop;
  healthy : P → Prop;
  ready : bytes → P → Prop;

  svc_write_spec G p c now d :
    holds G p → accepts d p →
    wp (svc_write c now d)
      (λ c' p', c' = c ∧ G !! c = None ∧ holds (<[c := d]> G) p')
      (λ _ p', holds G p' ∨ G !! c = None ∧ holds (<[c := d]> G) p') p;
  svc_read_spec G p c d :
    holds G p → G !! c = Some d →
    wp (svc_read c)
      (λ d' p', d' = d ∧ holds G p' ∧ (∀ x, accepts x p → accepts x p') ∧
         (∀ x, ready x p → ready x p'))
      (λ _ p', holds G p' ∧ ¬ healthy p) p;
  svc_read_none G p c :
    holds G p → G !! c = None → wp (svc_read c) (λ _ _, False) (λ _, holds G) p;
  svc_range_spec G p c d off len :
    holds G p → G !! c = Some d → lenZ d < 2 ^ 64 → 0 ≤ off → 0 ≤ len → off + len ≤ lenZ d →
    wp (svc_range c off len)
      (λ d' p', d' = takeZ len (dropZ off d) ∧ holds G p') (λ _ p', holds G p' ∧ ¬ healthy p) p;
  svc_range_none G p c off len :
    holds G p → G !! c = None → wp (svc_range c off len) (λ _ _, False) (λ _, holds G) p;
  svc_delete_spec G p c :
    holds G p → wp (svc_delete c) (λ _, holds (delete c G)) (λ _, holds (delete c G)) p;

  ready_healthy d p : ready d p → healthy p;
  svc_write_ready G p c t d :
    holds G p → accepts d p → ready d p → G !! c = None →
    wp (svc_write c (Some t) d) (λ _, healthy) (λ _ _, False) p;
  svc_delete_healthy G p c d :
    holds G p → G !! c = Some d → healthy p → wp (svc_delete c) (λ _, healthy) (λ _ _, False) p;
}.

(** ** The write pipeline implements the service *)
Import Nvram Compression KeyManager Encryption Registry Gc WritePipeline PipelineInvariant.
Import PipelineTheorems PipelineProgress.

Section implementation.
Context {JR : JsonDoc RegistryState} {JN : JsonDoc SegmentMap} `{Crates}.

#[export] Instance pipeline_service : CapsuleService WritePipeline :=
  {| svc_write := write_capsule; svc_read := read_capsule; svc_range := read_range;
     svc_delete := WritePipeline.delete_capsule |}.

Context `{!XtsLaws} `{!HmacLaws}.
Context (D : bytes → Prop) (HD : hash_injective_on D).
Implicit Types p : WritePipeline.

Lemma fits_read_only d p p' : read_only p p' → fits d p → fits d p'.
Proof.
  intros (Hr & [= Hf Hm Hn] & _) (Ho & Hs & Hc). unfold fits, budget, refs in *.
  by rewrite Hr, Hm, Hn.
Qed.

Lemma range_spec G p c d off len :
  pipe_inv D [] G p → G !! c = Some d → lenZ d < 2 ^ 64 → 0 ≤ off → 0 ≤ len → off + len ≤ lenZ d →
  wp (read_range c off len)
    (λ d' p', d' = takeZ len (dropZ off d) ∧ pipe_inv D [] G p')
    (λ _ p', pipe_inv D [] G p' ∧ ¬ quiet p) p.
Proof.
  intros Hi HG Hd Ho Hl Hle. unfold read_range. apply wp_bind, wp_reg. unfold wp at 1, lookup.
  cbv [bind gets lift]. destruct (capsules (rg p) !! c) as [cap|] eqn:Hc; cbn [ok_or].
  2:{ by rewrite (pi_dom _ _ _ _ Hi c Hc) in HG. }
  assert (set_rg (rg p) p = p) as -> by (by destruct p as [[? ?] ?]).
  destruct (pi_caps _ _ _ _ Hi c cap Hc) as (d0 & HG0 & Hsz & _).
  assert (d0 = d) as -> by congruence. rewrite Hsz.
  assert (u64_add off len = off + len) as -> by (unfold u64_add, wrap; apply Z.mod_small; lia).
  destruct (Z.ltb_spec (lenZ d) (off + len)) as [|_]; [lia|].
  apply wp_bind. eapply wp_mono; [by eapply read_spec|..].
  - intros out q (-> & Hiq & _). unfold wp, lift, slice.
    rewrite (proj2 (Z.leb_le _ _)) by lia. rewrite (proj2 (Z.leb_le (off + len) _)) by lia.
    cbn [andb]. by replace (off + len - off) with len by lia.
  - intros e q [Hiq Hf]. split; [done|]. intros [? _]. by apply Hf.
Qed.

Lemma range_none G p c off len :
  pipe_inv D [] G p → G !! c = None →
  wp (read_range c off len) (λ _ _, False) (λ _ p', p' = p) p.
Proof.
  intros Hi HG. unfold read_range. apply wp_bind, wp_reg. unfold wp at 1, lookup.
  cbv [bind gets lift]. destruct (capsules (rg p) !! c) as [cap|] eqn:Hc; cbn [ok_or].
  - destruct (pi_caps _ _ _ _ Hi c cap Hc) as (d & HG' & _). congruence.
  - by destruct p as [[? ?] ?].
Qed.

Program Definition pipeline_laws : ServiceLaws WritePipeline :=
  {| holds := pipe_inv D [];
     accepts := λ d p, chunks_ok D (compression Policy_default) d ∧ fits d p;
     healthy := quiet;
     ready := λ d p, storable Policy_default false d ∧ quiet p |}.
Next Obligation. intros G p c now d Hi [Hok Hf]. by apply write_spec. Qed.
Next Obligation.
  intros G p c d Hi HG. eapply wp_mono; [by eapply read_spec|..].
  - intros out q (-> & Hq & Hro). split; [done|]. split; [done|]. split.
    + intros x [Hok Hf]. split; [done|]. by eapply fits_read_only.
    + intros x [Hs Hqq]. split; [done|]. by eapply quiet_read_only.
  - intros e q [Hq Hf]. split; [done|]. intros [? _]. by apply Hf.
Qed.
Next Obligation.
  intros G p c Hi HG. eapply wp_mono; [by eapply read_none|done|]. by intros e q ->.
Qed.
Next Obligation. intros G p c d off len ????? ?. by apply range_spec. Qed.
Next Obligation.
  intros G p c off len Hi HG. eapply wp_mono; [by eapply range_none|done|]. by intros e q ->.
Qed.
Next Obligation. intros G p c Hi. by apply delete_capsule_spec. Qed.
Next Obligation. by intros d p [_ ?]. Qed.
Next Obligation.
  intros G p c t d Hi [Hok Hf] [Hst Hq] HG. by apply (write_quiet D G).
Qed.
Next Obligation. intros G p c d Hi HG Hq. by apply (delete_quiet D G p c d). Qed.
End implementation.

(** ** A table in memory implements it too: the smallest service, for witnesses *)
Section memory.
Abbreviation Memory := (gmap CapsuleId bytes).

Definition mem_write (c : CapsuleId) (now : option Z) (d : bytes) : M Memory Error CapsuleId :=
  λ m, match m !! c with
       | Some _ => (Err (Msg "Capsule collision (extremely unlikely)"), m)
       | None => (Ok c, <[c := d]> m)
       end.

Definition mem_read (c : CapsuleId) : M Memory Error bytes :=
  λ m, (ok_or (m !! c) (Msg "Capsule not found"), m).

Definition mem_range (c : CapsuleId) (off len : Z) : M Memory Error bytes :=
  λ m, match m !! c with
       | Some d =>
           if lenZ d <? u64_add off len then (Err (Msg "Read beyond capsule boundary"), m)
           else (slice off (u64_add off len) d, m)
       | None => (Err (Msg "Capsule not found"), m)
       end.

Definition mem_delete (c : CapsuleId) : M Memory Error unit := λ m, (Ok tt, delete c m).

#[export] Instance memory_service : CapsuleService Memory :=
  {| svc_write := mem_write; svc_read := mem_read; svc_range := mem_range; svc_delete := mem_delete |}.

#[export] Program Instance memory_laws : ServiceLaws Memory :=
  {| holds := eq; accepts := λ _ _, True; healthy := λ _, True; ready := λ _ _, True |}.
Next Obligation.
  intros G p c now d -> _. unfold wp. simpl. unfold mem_write.
  destruct (p !! c) eqn:Hc; [by left|done].
Qed.
Next Obligation. intros G p c d -> Hc. unfold wp. simpl. unfold mem_read. by rewrite Hc. Qed.
Next Obligation. intros G p c -> Hc. unfold wp. simpl. unfold mem_read. by rewrite Hc. Qed.
Next Obligation.
  intros G p c d off len -> Hc Hd Ho Hl Hle. unfold wp. simpl. unfold mem_range. rewrite Hc.
  assert (u64_add off len = off + len) as -> by (unfold u64_add, wrap; apply Z.mod_small; lia).
  destruct (Z.ltb_spec (lenZ d) (off + len)) as [|_]; [lia|]. unfold slice.
  rewrite (proj2 (Z.leb_le _ _)), (proj2 (Z.leb_le (off + len) _)) by lia. simpl.
  by replace (off + len - off) with len by lia.
Qed.
Next Obligation. intros G p c off len -> Hc. unfold wp. simpl. unfold mem_range. by rewrite Hc. Qed.
Next Obligation. by intros G p c ->. Qed.
Next Obligation. done. Qed.
Next Obligation. intros G p c t d -> _ _ Hc. unfold wp. simpl. unfold mem_write. by rewrite Hc. Qed.
Next Obligation. done. Qed.
End memory.
