(* ===== verification/BlockView.v ===== *)
(** Crate [protocol-block] (crates/protocol-block/src/lib.rs): named logical volumes,
    each backed by one capsule; a write replaces the capsule.

    The view is generic in the pipeline ([CapsuleService]).  The volume table sits
    behind a lock that is taken and released several times by one call; each locked
    region is a definition of its own here, and the calls are their composition (the
    interleavings of several calls are in BlockConcurrency.v).  Clocks are arguments:
    [now] is the one the pipeline reads, [ts] the one the view reads. *)
From S2P Require Import Prelude Errors Common Externals CapsuleService.
From S2P Require Nvram Compression Registry Gc WritePipeline PipelineInvariant PipelineTheorems.

Definition DEFAULT_BLOCK_SIZE : Z := 4096.

Record BlockVolume := mkBlockVolume {
  vol_name : string;
  vol_size : Z;
  vol_block_size : Z;
  vol_capsule_id : CapsuleId;
  vol_created_at : Z;
  vol_updated_at : Z;
  vol_version : Z;
}.

Abbreviation Volumes := (gmap string BlockVolume).

(** [SystemTime::now().duration_since(UNIX_EPOCH).unwrap_or_default()] *)
Definition unix_timestamp (ts : option Z) : Z := default 0 ts.

Definition is_ascii_alphanumeric (n : Z) : bool :=
  ((48 <=? n) && (n <=? 57)) || ((65 <=? n) && (n <=? 90)) || ((97 <=? n) && (n <=? 122)).

(** A character by its code; the last three are '-', '_' and '.'. *)
Definition is_name_char (c : Ascii.ascii) : bool :=
  let n := Z.of_N (Ascii.N_of_ascii c) in
  is_ascii_alphanumeric n || existsb (Z.eqb n) [45; 95; 46].

Definition validate_volume_name (name : string) : Res Error unit :=
  if bool_decide (name = "") then Err (Msg "Volume name cannot be empty")
  else if negb (forallb is_name_char (String.list_ascii_of_string name))
  then Err (Msg "Volume name must be alphanumeric with '-', '_' or '.'")
  else Ok tt.

(** [buffer[start..end].copy_from_slice(data)], [end = start + data.len()] wrapping. *)
Definition copy_into (buffer : bytes) (start : Z) (data : bytes) : Res Error bytes :=
  let stop := u64_add start (lenZ data) in
  if (start <=? stop) && (stop <=? lenZ buffer)
  then Ok (takeZ start buffer ++ data ++ dropZ stop buffer)
  else Panic.

Section block_view.
Context {P : Type} `{CapsuleService P} {JV : JsonDoc Volumes}.

(** [bv_metadata]: no path, or a path and the document in that file, if it exists. *)
Record BlockView := mkBlockView {
  bv_pipeline : P;
  volumes : Volumes;
  bv_metadata : option (option (doc Volumes));
  bv_faults : faults;
}.

Definition set_pipeline (p : P) (b : BlockView) : BlockView :=
  mkBlockView p (volumes b) (bv_metadata b) (bv_faults b).
Definition set_volumes (v : Volumes) (b : BlockView) : BlockView :=
  mkBlockView (bv_pipeline b) v (bv_metadata b) (bv_faults b).

Definition on_pipeline {A : Type} (m : M P Error A) : M BlockView Error A :=
  zoom bv_pipeline set_pipeline m.

Definition BlockView_new (p : P) : BlockView := mkBlockView p ∅ None [].

(** [open]: the metadata file is read if it exists. *)
Definition BlockView_open (p : P) (metadata : option (doc Volumes)) (fs : faults) :
    Res Error BlockView :=
  match metadata with
  | None => Ok (mkBlockView p ∅ (Some None) fs)
  | Some d =>
      match next_fault fs with
      | (Some _, _) => Err (IoFailed "read_to_string")
      | (None, fs) =>
          let? v := ok_or (of_doc d) JsonFailed in
          Ok (mkBlockView p v (Some metadata) fs)
      end
  end.

Definition persist : M BlockView Error unit := λ b,
  match bv_metadata b with
  | None => (Ok tt, b)
  | Some old =>
      let '(f, fs) := next_fault (bv_faults b) in
      let b := mkBlockView (bv_pipeline b) (volumes b)
                 (Some (write_doc f (to_doc (volumes b)) old)) fs in
      match f with
      | None => (Ok tt, b)
      | Some _ => (Err (IoFailed "fs::write"), b)
      end
  end.

(** *** Creating *)

(** The checks before any lock; [isize::MAX] bounds the zeroed buffer. *)
Definition check_geometry (name : string) (size block_size : Z) : Res Error unit :=
  let? _ := validate_volume_name name in
  if size =? 0 then Err (Msg "Volume size must be > 0")
  else if block_size =? 0 then Err (Msg "Block size must be > 0")
  else if negb (size mod block_size =? 0)
  then Err (Msg "Volume size must be a multiple of block size")
  else if U64_MAX <? size
  then Err (Msg "Volume size exceeds addressable memory for initialisation")
  else Ok tt.

Definition check_absent (name : string) : M BlockView Error unit :=
  let! b := gets (λ b, b) in
  if bool_decide (is_Some (volumes b !! name)) then fail (Msg "Volume already exists") else ret tt.

Definition zeroed (size : Z) : Res Error bytes :=
  if 2 ^ 63 - 1 <? size then Panic else Ok (replicate (Z.to_nat size) x00).

(** The second check and the insertion, under the write lock: [false] when another
    caller created the volume meanwhile. *)
Definition insert_volume (name : string) (v : BlockVolume) : M BlockView Error bool :=
  let! b := gets (λ b, b) in
  if bool_decide (is_Some (volumes b !! name)) then ret false
  else modify (λ b, set_volumes (<[name := v]> (volumes b)) b) ;;; ret true.

Definition create_volume_with_block_size (id : CapsuleId) (now ts : option Z)
    (name : string) (size block_size : Z) : M BlockView Error BlockVolume :=
  lift (check_geometry name size block_size) ;;;
  check_absent name ;;;
  let! buffer := lift (zeroed size) in
  let! capsule_id := on_pipeline (svc_write id now buffer) in
  let t := unix_timestamp ts in
  let v := mkBlockVolume name size block_size capsule_id t t 1 in
  let! inserted := insert_volume name v in
  if inserted then persist ;;; ret v
  else
    attempt (E' := Error) (on_pipeline (svc_delete capsule_id)) ;;;
    fail (Msg "Volume already exists").

Definition create_volume (id : CapsuleId) (now ts : option Z) (name : string) (size : Z) :
    M BlockView Error BlockVolume :=
  create_volume_with_block_size id now ts name size DEFAULT_BLOCK_SIZE.

(** *** Looking up *)
Definition volume (name : string) : M BlockView Error BlockVolume :=
  let! b := gets (λ b, b) in
  lift (ok_or (volumes b !! name) (Msg "Volume not found")).

Definition list_volumes : M BlockView Error (list BlockVolume) :=
  gets (λ b, (btree_iter (volumes b)).*2).

(** *** Deleting *)
Definition remove_volume (name : string) : M BlockView Error CapsuleId :=
  let! v := volume name in
  modify (λ b, set_volumes (delete name (volumes b)) b) ;;;
  ret (vol_capsule_id v).

Definition delete_volume (name : string) : M BlockView Error unit :=
  let! capsule_id := remove_volume name in
  persist ;;;
  attempt (E' := Error) (on_pipeline (svc_delete capsule_id)) ;;;
  ret tt.

(** *** Reading and writing *)
Definition block_read (name : string) (offset len : Z) : M BlockView Error bytes :=
  let! v := volume name in
  if vol_size v <? u64_add offset len then fail (Msg "Read beyond end of volume")
  else on_pipeline (svc_range (vol_capsule_id v) offset len).

(** What a write remembers of the volume: its capsule and its version. *)
Definition snapshot (name : string) (offset len : Z) : M BlockView Error (CapsuleId * Z) :=
  let! v := volume name in
  if vol_size v <? u64_add offset len then fail (Msg "Write beyond end of volume")
  else ret (vol_capsule_id v, vol_version v).

(** The update under the write lock: [false] when the volume is no longer the one
    remembered. *)
Definition swap_capsule (name : string) (capsule_id : CapsuleId) (version : Z)
    (new_capsule : CapsuleId) (t : Z) : M BlockView Error bool :=
  let! v := volume name in
  if negb ((vol_version v =? version) && bool_decide (vol_capsule_id v = capsule_id))
  then ret false
  else
    let v := mkBlockVolume (vol_name v) (vol_size v) (vol_block_size v) new_capsule
               (vol_created_at v) t (u64_saturating_add (vol_version v) 1) in
    modify (λ b, set_volumes (<[name := v]> (volumes b)) b) ;;;
    ret true.

Definition block_write (id : CapsuleId) (now ts : option Z) (name : string) (offset : Z)
    (data : bytes) : M BlockView Error unit :=
  match data with
  | [] => ret tt
  | _ =>
      let! (capsule_id, version) := snapshot name offset (lenZ data) in
      let! buffer := on_pipeline (svc_read capsule_id) in
      let! buffer := lift (copy_into buffer offset data) in
      let! new_capsule := on_pipeline (svc_write id now buffer) in
      let! swapped := swap_capsule name capsule_id version new_capsule (unix_timestamp ts) in
      if swapped then
        persist ;;;
        attempt (E' := Error) (on_pipeline (svc_delete capsule_id)) ;;;
        ret tt
      else
        attempt (E' := Error) (on_pipeline (svc_delete new_capsule)) ;;;
        fail (Msg "Volume modified concurrently")
  end.
End block_view.

(** ** The abstract volumes *)
Section block_spec.
Context {P : Type} `{ServiceLaws P} {JV : JsonDoc Volumes}.
Implicit Types b : BlockView (P := P).

(** The bytes a volume holds. *)
Definition contents (G : gmap CapsuleId bytes) b (name : string) : option bytes :=
  v ← volumes b !! name; G !! vol_capsule_id v.

(** A volume is backed by a live capsule of its size, a multiple of its block size. *)
Definition vol_ok (G : gmap CapsuleId bytes) (name : string) (v : BlockVolume) : Prop :=
  vol_name v = name ∧ validate_volume_name name = Ok tt ∧
  0 < vol_block_size v ∧ (vol_block_size v | vol_size v) ∧ 0 < vol_size v < 2 ^ 63 ∧
  ∃ data, G !! vol_capsule_id v = Some data ∧ lenZ data = vol_size v.

(** No capsule backs two volumes. *)
Definition vols_ok (G : gmap CapsuleId bytes) (vs : Volumes) : Prop :=
  (∀ name v, vs !! name = Some v → vol_ok G name v) ∧
  ∀ n1 n2 v1 v2, vs !! n1 = Some v1 → vs !! n2 = Some v2 →
    vol_capsule_id v1 = vol_capsule_id v2 → n1 = n2.

Definition block_inv (G : gmap CapsuleId bytes) b : Prop :=
  holds G (bv_pipeline b) ∧ vols_ok G (volumes b).

(** [data] over the bytes from [start]. *)
Definition splice (start : Z) (data buffer : bytes) : bytes :=
  takeZ start buffer ++ data ++ dropZ (start + lenZ data) buffer.

Lemma splice_length start data buffer :
  0 ≤ start → start + lenZ data ≤ lenZ buffer → lenZ (splice start data buffer) = lenZ buffer.
Proof.
  intros ??. pose proof (lenZ_nonneg data). unfold splice.
  rewrite !lenZ_app, lenZ_takeZ, lenZ_dropZ. lia.
Qed.

Lemma copy_into_ok start data buffer :
  0 ≤ start → start + lenZ data ≤ lenZ buffer → start + lenZ data < 2 ^ 64 →
  copy_into buffer start data = Ok (splice start data buffer).
Proof.
  intros ???. pose proof (lenZ_nonneg data). unfold copy_into.
  assert (u64_add start (lenZ data) = start + lenZ data) as ->
    by (unfold u64_add, wrap; apply Z.mod_small; lia).
  by rewrite (proj2 (Z.leb_le _ _)), (proj2 (Z.leb_le _ (lenZ buffer))) by lia.
Qed.

(** *** Changing the capsules *)
Lemma vol_ok_mono G G' name v :
  (∀ d, G !! vol_capsule_id v = Some d → G' !! vol_capsule_id v = Some d) →
  vol_ok G name v → vol_ok G' name v.
Proof. intros HG (? & ? & ? & ? & [? ?] & d & Hd & ?). split_and!; try done. exists d. eauto. Qed.

Lemma vols_ok_insert_capsule G c d vs :
  G !! c = None → vols_ok G vs → vols_ok (<[c := d]> G) vs.
Proof.
  intros Hc [Hv Hi]. split; [|done]. intros name v Hn. eapply vol_ok_mono; [|by apply Hv].
  intros d' Hd. rewrite lookup_insert_ne; [done|]. intros ->. congruence.
Qed.

(** A capsule that backs no volume can go. *)
Lemma vols_ok_delete_capsule G c vs :
  (∀ name v, vs !! name = Some v → vol_capsule_id v ≠ c) → vols_ok G vs → vols_ok (delete c G) vs.
Proof.
  intros Hc [Hv Hi]. split; [|done]. intros name v Hn. eapply vol_ok_mono; [|by apply Hv].
  intros d' Hd. rewrite lookup_delete_ne; [done|]. intros Heq. by apply (Hc name v Hn).
Qed.

Lemma vols_ok_insert G vs name v :
  vols_ok G vs → vol_ok G name v →
  (∀ n' v', n' ≠ name → vs !! n' = Some v' → vol_capsule_id v' ≠ vol_capsule_id v) →
  vols_ok G (<[name := v]> vs).
Proof.
  intros [Hv Hi] Hok Hne. split.
  - intros n' v' [[<- <-]|[? ?]]%lookup_insert_Some; [done|by apply Hv].
  - intros n1 n2 v1 v2 [[<- <-]|[Hn1 H1]]%lookup_insert_Some [[<- <-]|[Hn2 H2]]%lookup_insert_Some Heq;
      [done|by destruct (Hne n2 v2 ltac:(done) H2)|by destruct (Hne n1 v1 ltac:(done) H1)|by eapply Hi].
Qed.

Lemma vols_ok_remove G vs name : vols_ok G vs → vols_ok G (delete name vs).
Proof.
  intros [Hv Hi]. split.
  - intros n' v' [_ ?]%lookup_delete_Some. by apply Hv.
  - intros n1 n2 v1 v2 [_ ?]%lookup_delete_Some [_ ?]%lookup_delete_Some. by apply Hi.
Qed.

(** Of the volumes only one is backed by the capsule of [name]. *)
Lemma vols_ok_other G vs name v :
  vols_ok G vs → vs !! name = Some v →
  ∀ n' v', n' ≠ name → vs !! n' = Some v' → vol_capsule_id v' ≠ vol_capsule_id v.
Proof. intros [_ Hi] Hn n' v' Hne Hn' Heq. apply Hne. by eapply Hi. Qed.

(** *** The locked regions and the calls on the pipeline *)
Lemma wp_on_pipeline {A : Type} (m : M P Error A) Q R b :
  wp m (λ a p, Q a (set_pipeline p b)) (λ e p, R e (set_pipeline p b)) (bv_pipeline b) →
  wp (on_pipeline m) Q R b.
Proof. apply wp_zoom. Qed.

(** Only the file and the schedule differ. *)
Definition same_view b b' : Prop := bv_pipeline b' = bv_pipeline b ∧ volumes b' = volumes b.

Lemma persist_spec b : wp persist (λ _, same_view b) (λ _, same_view b) b.
Proof.
  unfold wp, persist. destruct (bv_metadata b) as [old|]; [|done].
  by destruct (next_fault (bv_faults b)) as [[k|] fs].
Qed.

Lemma wp_volume name Q R b :
  (∀ v, volumes b !! name = Some v → Q v b) →
  (volumes b !! name = None → R (Msg "Volume not found") b) → wp (volume name) Q R b.
Proof. intros HQ HR. unfold wp, volume, bind, gets, lift. destruct (volumes b !! name); simpl; eauto. Qed.

(** Deleting a capsule nobody uses, ignoring the outcome. *)
Lemma discard_spec G b c :
  block_inv G b → (∀ name v, volumes b !! name = Some v → vol_capsule_id v ≠ c) →
  wp (attempt (E' := Error) (on_pipeline (svc_delete c)))
    (λ _ b', volumes b' = volumes b ∧ block_inv (delete c G) b') (λ _ _, False) b.
Proof.
  intros [Hh Hv] Hc. apply wp_attempt, wp_on_pipeline.
  pose proof (svc_delete_spec G (bv_pipeline b) c Hh) as Hd.
  eapply wp_mono; [exact Hd|..]; intros a p' Hp'; split; try done;
    (split; [done|by apply vols_ok_delete_capsule]).
Qed.

Lemma contents_delete_capsule G b c name :
  (∀ n v, volumes b !! n = Some v → vol_capsule_id v ≠ c) →
  contents (delete c G) b name = contents G b name.
Proof.
  intros Hc. unfold contents. destruct (volumes b !! name) as [v|] eqn:Hn; [|done]. simpl.
  rewrite lookup_delete_ne; [done|]. intros Heq. by apply (Hc name v Hn).
Qed.

Lemma contents_volumes G b b' name :
  volumes b' = volumes b → contents G b' name = contents G b name.
Proof. unfold contents. by intros ->. Qed.

(** [c] backs no volume. *)
Definition unused (c : CapsuleId) b : Prop :=
  ∀ name v, volumes b !! name = Some v → vol_capsule_id v ≠ c.

Lemma fresh_unused G b c : block_inv G b → G !! c = None → unused c b.
Proof.
  intros [_ [Hv _]] Hc name v Hn Heq. destruct (Hv name v Hn) as (_ & _ & _ & _ & _ & d & Hd & _).
  congruence.
Qed.

(** What a call did to the volumes' bytes. *)
Definition unchanged (G : gmap CapsuleId bytes) b G' b' : Prop :=
  ∀ n, contents G' b' n = contents G b n.
Definition updated (G : gmap CapsuleId bytes) b (name : string) (new : option bytes) G' b' : Prop :=
  ∀ n, contents G' b' n = if decide (n = name) then new else contents G b n.

Lemma contents_inv G b name d :
  block_inv G b → contents G b name = Some d →
  ∃ v, volumes b !! name = Some v ∧ G !! vol_capsule_id v = Some d ∧ lenZ d = vol_size v ∧
    vol_ok G name v.
Proof.
  intros [_ [Hv _]]. unfold contents. destruct (volumes b !! name) as [v|] eqn:Hn; [|done]. simpl.
  intros Hd. exists v. pose proof (Hv name v Hn) as Hok. destruct (Hok) as (_ & _ & _ & _ & _ & d' & ? & ?).
  split_and!; [done|done|congruence|done].
Qed.

Lemma contents_some G b name v :
  block_inv G b → volumes b !! name = Some v →
  ∃ d, contents G b name = Some d ∧ G !! vol_capsule_id v = Some d ∧ lenZ d = vol_size v.
Proof.
  intros [_ [Hv _]] Hn. destruct (Hv name v Hn) as (_ & _ & _ & _ & _ & d & Hd & Hl).
  exists d. unfold contents. by rewrite Hn.
Qed.

(** A stored capsule changes no volume until one points to it. *)
Lemma store_unchanged G b b' c d :
  block_inv G b → G !! c = None → volumes b' = volumes b → unchanged G b (<[c := d]> G) b'.
Proof.
  intros Hi Hc Hvs n. rewrite (contents_volumes _ b) by done. unfold contents.
  destruct (volumes b !! n) as [v|] eqn:Hn; [|done]. simpl.
  rewrite lookup_insert_ne; [done|]. intros Heq. by apply (fresh_unused G b c Hi Hc n v).
Qed.

Lemma discard_unchanged G b b' c :
  unused c b → volumes b' = volumes b → unchanged G b (delete c G) b'.
Proof. intros Hc Hvs n. rewrite (contents_volumes _ b) by done. by apply contents_delete_capsule. Qed.

(** Storing a capsule on behalf of the view. *)
Lemma store_spec G b c now d :
  block_inv G b → accepts d (bv_pipeline b) →
  wp (on_pipeline (svc_write c now d))
    (λ c' b', c' = c ∧ G !! c = None ∧ volumes b' = volumes b ∧ block_inv (<[c := d]> G) b')
    (λ _ b', ∃ G', block_inv G' b' ∧ unchanged G b G' b') b.
Proof.
  intros Hi Ha. apply wp_on_pipeline. destruct Hi as [Hh Hv].
  eapply wp_mono; [by apply svc_write_spec|..].
  - intros c' p' (-> & Hc & Hp'). split_and!; [done..|]. split; [done|].
    by apply vols_ok_insert_capsule.
  - intros e p' [Hp'|[Hc Hp']].
    + by exists G.
    + exists (<[c := d]> G). split; [split; [done|by apply vols_ok_insert_capsule]|].
      by apply store_unchanged.
Qed.

(** The update under the lock points the volume to the new capsule, or finds that the
    volume is not the one remembered. *)
Lemma swap_spec G b name c ver new d t :
  block_inv G b → G !! new = Some d → unused new b →
  (∀ v, volumes b !! name = Some v → vol_capsule_id v = c → vol_version v = ver →
     lenZ d = vol_size v) →
  wp (swap_capsule name c ver new t)
    (λ sw b', block_inv G b' ∧
       if sw then (∃ v, volumes b !! name = Some v ∧ vol_capsule_id v = c ∧ vol_version v = ver) ∧
         updated G b name (Some d) G b' ∧ unused c b' ∧
         ∀ c', c' ≠ new → unused c' b → unused c' b'
       else b' = b)
    (λ _ b', b' = b) b.
Proof.
  intros Hi Hd Hun Hlen. unfold swap_capsule. apply wp_bind, wp_volume; [|done]. intros v Hn.
  destruct ((vol_version v =? ver) && bool_decide (vol_capsule_id v = c)) eqn:Hcmp; cbn [negb];
    [|by unfold wp, ret].
  apply andb_prop in Hcmp as [Hver%Z.eqb_eq Hc%bool_decide_eq_true].
  unfold wp, bind, modify, ret. set (v' := mkBlockVolume _ _ _ _ _ _ _).
  assert (∀ n' v0, n' ≠ name → volumes b !! n' = Some v0 → vol_capsule_id v0 ≠ c) as Hother.
  { subst c. by apply (vols_ok_other G _ name v (proj2 Hi)). }
  split; [split; [apply Hi|]|split_and!].
  - apply vols_ok_insert; [apply Hi| |].
    + destruct (proj1 (proj2 Hi) name v Hn) as (? & ? & ? & ? & [? ?] & _).
      split_and!; try done. exists d. split; [done|]. by apply (Hlen v).
    + intros n' v0 _ Hn'. by apply (Hun n' v0).
  - by exists v.
  - intros n. unfold contents. cbn [volumes set_volumes].
    case_decide as Hnn; [subst n; by rewrite lookup_insert_eq|by rewrite lookup_insert_ne].
  - intros n' v0. cbn [volumes set_volumes]. intros [[<- <-]|[? Hn']]%lookup_insert_Some.
    + simpl. intros Heq. by apply (Hun name v Hn); subst c.
    + by apply (Hother n' v0).
  - intros c' Hne Hc' n' v0. cbn [volumes set_volumes].
    intros [[<- <-]|[? Hn']]%lookup_insert_Some; [by intros ?|by apply (Hc' n' v0)].
Qed.
End block_spec.

(** ** One call at a time *)
Section block_calls.
Context {P : Type} `{ServiceLaws P} {JV : JsonDoc Volumes}.
Implicit Types b : BlockView (P := P).

(** Saving and dropping the replaced capsule leaves the volumes as they are. *)
Lemma finish_spec G b c :
  block_inv G b → unused c b →
  wp (persist ;;; attempt (E' := Error) (on_pipeline (svc_delete c)) ;;; ret tt)
    (λ _ b', ∃ G', block_inv G' b' ∧ unchanged G b G' b')
    (λ _ b', ∃ G', block_inv G' b' ∧ unchanged G b G' b') b.
Proof.
  intros Hi Hc. apply wp_bind. eapply wp_mono; [apply persist_spec|..].
  - intros _ b1 [Hp Hv]. assert (block_inv G b1) as Hi1 by (unfold block_inv; by rewrite Hp, Hv).
    assert (unused c b1) as Hc1 by (intros n v; rewrite Hv; apply Hc).
    apply wp_bind. eapply wp_mono; [by apply (discard_spec G)| |done].
    intros x b2 [Hv2 Hi2]. unfold wp, ret. exists (delete c G). split; [done|].
    intros n. rewrite (discard_unchanged G b1) by done. by apply contents_volumes.
  - intros e b1 [Hp Hv]. exists G. split; [unfold block_inv; by rewrite Hp, Hv|].
    intros n. by apply contents_volumes.
Qed.

Lemma unchanged_trans G0 b0 G1 b1 G2 b2 :
  unchanged G0 b0 G1 b1 → unchanged G1 b1 G2 b2 → unchanged G0 b0 G2 b2.
Proof. intros H1 H2 n. by rewrite H2. Qed.

Lemma updated_trans G0 b0 name new G1 b1 G2 b2 G3 b3 :
  unchanged G0 b0 G1 b1 → updated G1 b1 name new G2 b2 → unchanged G2 b2 G3 b3 →
  updated G0 b0 name new G3 b3.
Proof. intros H1 H2 H3 n. rewrite H3, H2. by case_decide; [|apply H1]. Qed.

(** The call ends with the volumes unchanged, or with [name] holding [new] where [pre]
    holds; [applied] says that it must be the second. *)
Definition outcome (applied pre : Prop) G b (name : string) (new : option bytes) b' : Prop :=
  ∃ G', block_inv G' b' ∧
    ((¬ applied ∧ unchanged G b G' b') ∨ (pre ∧ updated G b name new G' b')).

Lemma outcome_same pre G b name new b' :
  block_inv G b → same_view b b' → outcome False pre G b name new b'.
Proof.
  intros Hi [Hp Hv]. exists G. split; [unfold block_inv; by rewrite Hp, Hv|]. left.
  split; [tauto|]. intros n. by apply contents_volumes.
Qed.

(** From the stored copy on: swap, then drop the capsule that is no longer needed. *)
Lemma volume_commit_spec (pre : Prop) G b G2 b2 name v id new t :
  pre → unchanged G b G2 b2 → block_inv G2 b2 → G2 !! id = Some new → unused id b2 →
  volumes b2 !! name = Some v → lenZ new = vol_size v →
  wp (let! swapped := swap_capsule name (vol_capsule_id v) (vol_version v) id t in
      if swapped then
        persist ;;; attempt (E' := Error) (on_pipeline (svc_delete (vol_capsule_id v))) ;;; ret tt
      else
        attempt (E' := Error) (on_pipeline (svc_delete id)) ;;;
        fail (Msg "Volume modified concurrently"))
    (λ _, outcome True pre G b name (Some new)) (λ _, outcome False pre G b name (Some new)) b2.
Proof.
  intros Hpre Hun Hi2 Hid Hun2 Hv Hlen. apply wp_bind. eapply wp_mono.
  - apply (swap_spec G2 b2 name _ _ id new); try done. intros w Hw _ _. by simplify_eq.
  - intros sw b3 [Hi3 Hsw]. destruct sw.
    + destruct Hsw as (_ & Hup & Hc3 & _).
      eapply wp_mono; [by apply finish_spec|..]; intros ? b4 (G4 & Hi4 & Hun4); exists G4;
        (split; [done|]); right; (split; [done|]); by eapply updated_trans.
    + subst b3. apply wp_bind. eapply wp_mono; [by apply (discard_spec G2)| |done].
      intros z b4 [Hv4 Hi4]. unfold wp, fail. exists (delete id G2). split; [done|]. left.
      split; [tauto|]. eapply unchanged_trans; [done|]. by apply discard_unchanged.
  - intros e b3 ->. exists G2. split; [done|]. left. by split; [tauto|].
Qed.

Lemma block_write_spec G b id now ts name off data :
  data ≠ [] → block_inv G b → 0 ≤ off → off + lenZ data < 2 ^ 64 →
  (∀ old, contents G b name = Some old → accepts (splice off data old) (bv_pipeline b)) →
  let pre := ∃ old, contents G b name = Some old ∧ off + lenZ data ≤ lenZ old in
  let new := splice off data <$> contents G b name in
  wp (block_write id now ts name off data)
    (λ _, outcome True pre G b name new) (λ _, outcome False pre G b name new) b.
Proof.
  intros Hne Hi Ho Hsum Hacc pre new. unfold block_write. pose proof (lenZ_nonneg data) as Hl.
  destruct data as [|x data]; [done|]. set (dt := x :: data) in *. cbv iota.
  apply wp_bind. unfold snapshot. apply wp_bind, wp_volume; [|by intros; apply outcome_same].
  intros v Hn. destruct (contents_some G b name v Hi Hn) as (old & Hct & HG & Hlen).
  specialize (Hacc old Hct). subst new. rewrite Hct. cbn [fmap option_fmap option_map].
  assert (u64_add off (lenZ dt) = off + lenZ dt) as -> by (unfold u64_add, wrap; apply Z.mod_small; lia).
  destruct (Z.ltb_spec (vol_size v) (off + lenZ dt)) as [|Hle];
    [unfold wp, fail; by apply outcome_same|].
  unfold wp at 1, ret at 1. apply wp_bind, wp_on_pipeline. destruct Hi as [Hh Hv].
  eapply wp_mono; [by apply (svc_read_spec G)|..].
  2:{ intros e p1 [Hh1 _]. exists G. split; [by split|left]. by split; [tauto|]. }
  intros buffer p1 (-> & Hh1 & Hacc1 & _). set (b1 := set_pipeline p1 b).
  assert (block_inv G b1) as Hi1 by done.
  apply wp_bind. unfold wp at 1, lift at 1. rewrite copy_into_ok by lia.
  apply wp_bind. eapply wp_mono; [apply (store_spec G b1); [done|by apply Hacc1]|..].
  2:{ intros e b2 (G2 & Hi2 & Hu). exists G2. split; [done|]. left. by split; [tauto|]. }
  intros c b2 (-> & Hc & Hv2 & Hi2).
  apply (volume_commit_spec pre G b (<[id := splice off dt old]> G)).
  - exists old. split; [done|lia].
  - by apply (store_unchanged G b1).
  - done.
  - apply lookup_insert_eq.
  - intros n w. rewrite Hv2. by apply (fresh_unused G b1).
  - by rewrite Hv2.
  - rewrite splice_length; lia.
Qed.

(** *** Creating *)
Lemma zeroed_ok size : 0 ≤ size < 2 ^ 63 → ∃ z, zeroed size = Ok z ∧ z = replicate (Z.to_nat size) x00.
Proof.
  intros Hs. unfold zeroed. destruct (Z.ltb_spec (2 ^ 63 - 1) size); [lia|]. by eexists.
Qed.

Lemma lenZ_zeroes size : 0 ≤ size → lenZ (replicate (Z.to_nat size) x00) = size.
Proof. intros. unfold lenZ. rewrite length_replicate. lia. Qed.

Lemma check_geometry_ok name size bs :
  0 ≤ size → 0 ≤ bs → check_geometry name size bs = Ok tt →
  validate_volume_name name = Ok tt ∧ 0 < size ∧ 0 < bs ∧ (bs | size).
Proof.
  intros ?? . unfold check_geometry. destruct (validate_volume_name name) as [[]| | ]; try done.
  cbn [res_bind]. destruct (Z.eqb_spec size 0); [done|]. destruct (Z.eqb_spec bs 0); [done|].
  destruct (Z.eqb_spec (size mod bs) 0) as [Hm|]; [|done]. cbn [negb]. intros _.
  split_and!; [done|lia|lia|]. by apply Z.mod_divide.
Qed.

(** A new volume over a capsule nobody uses. *)
Lemma add_volume G b name v d :
  block_inv G b → vol_ok G name v → G !! vol_capsule_id v = Some d → unused (vol_capsule_id v) b →
  let b' := set_volumes (<[name := v]> (volumes b)) b in
  block_inv G b' ∧ updated G b name (Some d) G b'.
Proof.
  intros Hi Hok Hd Hun b'. split; [split; [apply Hi|]|].
  - apply vols_ok_insert; [apply Hi|done|]. intros n' v' _. apply Hun.
  - intros n. unfold contents. cbn [volumes set_volumes b'].
    case_decide; [subst n; by rewrite lookup_insert_eq|by rewrite lookup_insert_ne].
Qed.

Lemma create_volume_spec G b id now ts name size bs :
  block_inv G b → 0 ≤ size < 2 ^ 63 → 0 ≤ bs →
  accepts (replicate (Z.to_nat size) x00) (bv_pipeline b) →
  wp (create_volume_with_block_size id now ts name size bs)
    (λ v b', vol_size v = size ∧ vol_block_size v = bs ∧
       outcome True (contents G b name = None) G b name (Some (replicate (Z.to_nat size) x00)) b')
    (λ _, outcome False (contents G b name = None) G b name (Some (replicate (Z.to_nat size) x00))) b.
Proof.
  intros Hi Hs Hb Hacc. unfold create_volume_with_block_size.
  apply wp_bind. unfold wp at 1, lift at 1.
  destruct (check_geometry name size bs) as [[]|e| ] eqn:Hg; [|by apply outcome_same|].
  2:{ unfold check_geometry, validate_volume_name in Hg. by repeat case_match_eq. }
  apply check_geometry_ok in Hg as (Hname & Hs0 & Hb0 & Hdiv); [|lia..].
  apply wp_bind. unfold check_absent, wp at 1. cbv [bind gets].
  case_bool_decide as Hex; [by apply outcome_same|]. apply eq_None_not_Some in Hex. unfold ret at 1.
  assert (contents G b name = None) as Hnone by (unfold contents; by rewrite Hex).
  apply wp_bind. destruct (zeroed_ok size Hs) as (z & Hz & ->). unfold wp at 1, lift at 1. rewrite Hz.
  apply wp_bind. eapply wp_mono; [by apply (store_spec G b)|..].
  2:{ intros e b1 (G1 & Hi1 & Hu). exists G1. split; [done|]. left. by split; [tauto|]. }
  intros c b1 (-> & Hc & Hv1 & Hi1). set (zs := replicate _ _) in *. set (G1 := <[id := zs]> G) in *.
  set (t := unix_timestamp ts). set (v := mkBlockVolume name size bs id t t 1).
  assert (vol_ok G1 name v) as Hok.
  { unfold vol_ok. cbn [v vol_name vol_block_size vol_size vol_capsule_id]. split_and!; try done; try lia.
    exists zs. split; [apply lookup_insert_eq|]. apply lenZ_zeroes. lia. }
  apply wp_bind. unfold insert_volume, wp at 1. cbv [bind gets modify ret].
  rewrite Hv1, Hex. rewrite bool_decide_false by (by intros [? ?]).
  destruct (add_volume G1 b1 name v zs) as [Hi2 Hup]; [done..|apply lookup_insert_eq| |].
  { intros n w. rewrite Hv1. by apply (fresh_unused G b). }
  set (b2 := set_volumes _ b1) in *.
  assert (∀ b3, same_view b2 b3 → outcome True (contents G b name = None) G b name (Some zs) b3)
    as Hout.
  { intros b3 [Hp3 Hv3]. exists G1. split; [unfold block_inv; by rewrite Hp3, Hv3|]. right. split; [done|].
    eapply updated_trans; [by apply (store_unchanged G b b1 id zs)|done|].
    intros n. by apply contents_volumes. }
  apply wp_bind. eapply wp_mono; [apply persist_spec|..].
  - intros u b3 H3. unfold wp, ret. split_and!; try done. by apply Hout.
  - intros e b3 H3. destruct (Hout b3 H3) as (G3 & ? & [[? _]|?]); [tauto|]. exists G3. auto.
Qed.

(** *** Deleting and reading *)
Lemma delete_volume_spec G b name :
  block_inv G b →
  wp (delete_volume name)
    (λ _, outcome True (is_Some (contents G b name)) G b name None)
    (λ _, outcome False (is_Some (contents G b name)) G b name None) b.
Proof.
  intros Hi. unfold delete_volume. apply wp_bind. unfold remove_volume.
  apply wp_bind, wp_volume; [|by intros; apply outcome_same]. intros v Hn.
  unfold wp at 1. cbv [bind modify ret]. set (b1 := set_volumes _ b).
  destruct (contents_some G b name v Hi Hn) as (old & Hct & _).
  assert (block_inv G b1) as Hi1 by (split; [apply Hi|apply vols_ok_remove; apply Hi]).
  assert (unused (vol_capsule_id v) b1) as Hun.
  { intros n w Hw. unfold b1 in Hw. cbn [volumes set_volumes] in Hw.
    apply lookup_delete_Some in Hw as [? Hw]. by apply (vols_ok_other G _ name v (proj2 Hi) Hn n). }
  assert (updated G b name None G b1) as Hup.
  { intros n. unfold contents. cbn [volumes set_volumes b1].
    case_decide as Hnn; [subst n; by rewrite lookup_delete_eq|by rewrite lookup_delete_ne]. }
  eapply wp_mono; [by apply finish_spec|..]; intros ? b2 (G2 & Hi2 & Hun2);
    exists G2; (split; [done|]); right; (split; [by eexists|by eapply updated_trans]).
Qed.

Lemma block_read_spec G b name off len :
  block_inv G b → 0 ≤ off → 0 ≤ len → off + len < 2 ^ 64 →
  wp (block_read name off len)
    (λ out b', volumes b' = volumes b ∧ block_inv G b' ∧
       ∃ d, contents G b name = Some d ∧ off + len ≤ lenZ d ∧ out = takeZ len (dropZ off d))
    (λ _ b', volumes b' = volumes b ∧ block_inv G b' ∧
       (∀ d, contents G b name = Some d → off + len ≤ lenZ d → ¬ healthy (bv_pipeline b))) b.
Proof.
  intros Hi Ho Hl Hsum. unfold block_read. apply wp_bind, wp_volume.
  2:{ intros Hn. split; [done|]. split; [done|]. intros d. unfold contents. by rewrite Hn. }
  intros v Hn. destruct (contents_some G b name v Hi Hn) as (d & Hct & HG & Hlen).
  assert (u64_add off len = off + len) as -> by (unfold u64_add, wrap; apply Z.mod_small; lia).
  destruct (proj1 (proj2 Hi) name v Hn) as (_ & _ & _ & _ & [_ Hsz] & _).
  destruct (Z.ltb_spec (vol_size v) (off + len)) as [|Hle].
  { unfold wp, fail. split; [done|]. split; [done|]. intros d' Hd'. simplify_eq. lia. }
  destruct Hi as [Hh Hv]. apply wp_on_pipeline.
  eapply wp_mono; [apply (svc_range_spec G _ _ d); [done|done|lia..]|..].
  - intros out p' [-> Hp']. split; [done|]. split; [by split|]. exists d. split_and!; [done|lia|done].
  - intros e p' [Hp' Hne]. split; [done|]. split; [by split|]. by intros.
Qed.
End block_calls.

(** ** Properties *)
Section block_properties.
Context {P : Type} `{ServiceLaws P} {JV : JsonDoc Volumes}.
Implicit Types b : BlockView (P := P).

Inductive BlockOp : Type :=
| OpCreate (id : CapsuleId) (now ts : option Z) (name : string) (size block_size : Z)
| OpWrite (id : CapsuleId) (now ts : option Z) (name : string) (offset : Z) (data : bytes)
| OpRead (name : string) (offset len : Z)
| OpDelete (name : string).

(** A call and the bytes it hands back. *)
Definition run_op (op : BlockOp) : M BlockView Error bytes :=
  match op with
  | OpCreate id now ts name size bs => create_volume_with_block_size id now ts name size bs ;;; ret []
  | OpWrite id now ts name off data => block_write id now ts name off data ;;; ret []
  | OpRead name off len => block_read name off len
  | OpDelete name => delete_volume name ;;; ret []
  end.

(** Volumes as a file of bytes each: what the calls mean.  [C] maps the names in use
    to their bytes; a call yields bytes and the names' new bytes. *)
Definition block_spec (C : string → option bytes) (op : BlockOp) : option (bytes * (string → option bytes)) :=
  let put name d := λ n, if decide (n = name) then d else C n in
  match op with
  | OpCreate _ _ _ name size _ =>
      match C name with
      | None => Some ([], put name (Some (replicate (Z.to_nat size) x00)))
      | Some _ => None
      end
  | OpWrite _ _ _ name off data =>
      match data, C name with
      | [], _ => Some ([], C)
      | _, Some old =>
          if off + lenZ data <=? lenZ old then Some ([], put name (Some (splice off data old))) else None
      | _, None => None
      end
  | OpRead name off len =>
      match C name with
      | Some d => if off + len <=? lenZ d then Some (takeZ len (dropZ off d), C) else None
      | None => None
      end
  | OpDelete name => if C name is Some _ then Some ([], put name None) else None
  end.

(** Arguments that fit their machine types, without the overflow of offset and length. *)
Definition op_fits (G : gmap CapsuleId bytes) b (op : BlockOp) : Prop :=
  match op with
  | OpCreate _ _ _ _ size bs =>
      0 ≤ size < 2 ^ 63 ∧ 0 ≤ bs ∧ accepts (replicate (Z.to_nat size) x00) (bv_pipeline b)
  | OpWrite _ _ _ name off data =>
      0 ≤ off ∧ off + lenZ data < 2 ^ 64 ∧
      ∀ old, contents G b name = Some old → accepts (splice off data old) (bv_pipeline b)
  | OpRead _ off len => 0 ≤ off ∧ 0 ≤ len ∧ off + len < 2 ^ 64
  | OpDelete _ => True
  end.

(** What a call did, against what it was to do. *)
Definition refines_to G b (s : option (bytes * (string → option bytes)))
    (run : Res Error bytes * BlockView) : Prop :=
  match run with
  | (Ok out, b') => ∃ G' C', block_inv G' b' ∧ s = Some (out, C') ∧ ∀ n, contents G' b' n = C' n
  | (Err _, b') => ∃ G', block_inv G' b' ∧
      (unchanged G b G' b' ∨
       ∃ out C', s = Some (out, C') ∧ ∀ n, contents G' b' n = C' n)
  | (Panic, _) => False
  end.

Lemma outcome_refines {A : Type} G b (m : M BlockView Error A) pre name new out s :
  wp m (λ _, outcome True pre G b name new) (λ _, outcome False pre G b name new) b →
  (pre → s = Some (out, λ n, if decide (n = name) then new else contents G b n)) →
  refines_to G b s ((m ;;; ret out) b).
Proof.
  intros Hw Hs. unfold wp in Hw. unfold bind, refines_to.
  destruct (m b) as [[a|e| ] b']; [| |done].
  - destruct Hw as (G' & Hi' & [[? _]|[Hp Hu]]); [tauto|]. unfold ret. exists G'. eexists.
    split; [done|]. split; [by apply Hs|done].
  - destruct Hw as (G' & Hi' & [[_ Hu]|[Hp Hu]]); exists G'; (split; [done|]); [by left|right].
    eexists _, _. split; [by apply Hs|done].
Qed.

(** C17: block volumes are byte arrays.  Every call on a sound view, whatever I/O fails
    in the pipeline or in saving the metadata, ends in a sound view; when it succeeds
    it has returned the bytes and made the change the specification prescribes, and
    when it fails the volumes hold what they held or the prescribed change - never a
    partial one, and never a change of another volume.  The calls are those of [op_fits]:
    volumes smaller than 2^63 bytes, offset and length whose sum is below 2^64, and data the
    pipeline accepts. *)
Theorem block_calls_refine G b op :
  block_inv G b → op_fits G b op →
  refines_to G b (block_spec (contents G b) op) (run_op op b).
Proof.
  intros Hi Hf. destruct op as [id now ts name size bs|id now ts name off data|name off len|name]; simpl in Hf.
  - destruct Hf as (Hs & Hb & Hacc). cbn [run_op].
    eapply outcome_refines.
    + eapply wp_mono; [by apply create_volume_spec|by intros v b' (_ & _ & Hout); exact Hout|done].
    + cbn [block_spec]. by intros ->.
  - destruct Hf as (Ho & Hl & Hacc). cbn [run_op]. destruct data as [|x data].
    { simpl. exists G. eexists. split; [done|]. by split. }
    eapply outcome_refines; [by apply block_write_spec|].
    cbn [block_spec]. intros (old & -> & Hle). by rewrite (proj2 (Z.leb_le _ _) Hle).
  - destruct Hf as (Ho & Hl & Hsum). cbn [run_op block_spec].
    pose proof (block_read_spec G b name off len Hi Ho Hl Hsum) as Hw. unfold wp in Hw. unfold refines_to.
    destruct (block_read name off len b) as [[out|e| ] b']; [| |done].
    + destruct Hw as (Hv & Hi' & d & Hd & Hle & ->). rewrite Hd, (proj2 (Z.leb_le _ _) Hle).
      exists G. eexists. split; [done|]. split; [done|]. intros n. by apply contents_volumes.
    + destruct Hw as (Hv & Hi' & _). exists G. split; [done|]. left. intros n. by apply contents_volumes.
  - cbn [run_op]. eapply outcome_refines; [by apply delete_volume_spec|].
    cbn [block_spec]. by intros [d ->].
Qed.
End block_properties.

(** ** Witness: a volume on the write pipeline, over the toy crates *)
Section block_witness.
Import Nvram Compression Registry WritePipeline PipelineInvariant PipelineTheorems.
#[local] Existing Instance toy_crates.
#[local] Existing Instance toy_XtsLaws.
#[local] Existing Instance toy_HmacLaws.
#[local] Existing Instance toy_state_doc.
#[local] Instance toy_segments_doc : JsonDoc SegmentMap := plain_doc SegmentMap.
#[local] Instance toy_volumes_doc0 : JsonDoc Volumes := plain_doc Volumes.

Definition zeroes : bytes := replicate 40 x00.
Definition zero_frame : bytes := [x04; x28; x00].
Definition only_zero_frame (d : bytes) : Prop := d = zero_frame.

#[local] Instance zero_laws : ServiceLaws WritePipeline :=
  pipeline_laws only_zero_frame (λ a b Ha Hb _, eq_trans Ha (eq_sym Hb)).

Definition empty_view : BlockView := mkBlockView (empty_pipeline None []) ∅ (Some None) [].

Lemma empty_view_inv : block_inv ∅ empty_view.
Proof.
  split.
  - apply (empty_pipeline_inv only_zero_frame None None [] []). done.
  - change (vols_ok ∅ (∅ : Volumes)).
    split; [intros ? ? Hv|intros ? ? ? ? Hv]; by rewrite lookup_empty in Hv.
Qed.

Lemma zeroes_accepted : accepts zeroes (bv_pipeline empty_view).
Proof.
  split; [|by apply fits_by; vm_compute].
  intros chunk Hc view r Hcomp.
  assert (chunks SEGMENT_SIZE zeroes = [zeroes]) as Ht by (vm_compute; reflexivity).
  rewrite Ht in Hc. apply list_elem_of_singleton in Hc as ->.
  assert (compress_segment zeroes (LZ4 1) =
    Ok (Owned zero_frame, mkCompressionResult 40 40 true false "lz4:1" None)) as He
    by (vm_compute; reflexivity).
  change (compression Policy_default) with (LZ4 1) in Hcomp. rewrite He in Hcomp.
  simplify_eq. by split.
Qed.

Lemma block_calls_refine_witness :
  let op := OpCreate cap_a (Some 5) (Some 6) "disk0" 40 8 in
  is_ok (fst (run_op op empty_view)) = true ∧
  refines_to ∅ empty_view (block_spec (contents ∅ empty_view) op) (run_op op empty_view).
Proof.
  split; [vm_compute; reflexivity|].
  apply (block_calls_refine ∅ empty_view (OpCreate cap_a (Some 5) (Some 6) "disk0" 40 8) empty_view_inv).
  split; [by vm_compute|]. split; [by vm_compute|]. exact zeroes_accepted.
Defined.
End block_witness.
