(* ===== verification/BlockConcurrency.v ===== *)
(** Concurrent callers of a block view (crates/protocol-block/src/lib.rs).

    A call takes and releases the lock of the volume table several times and calls the
    pipeline in between, which has no lock of its own either, so calls interleave at every
    lock of the view, the registry, the log and the key manager.  [thread_of] cuts each
    call of BlockView.v into its actions, the calls on the pipeline as in
    PipelineThreads.v, and [runs_thread_of] shows that an undisturbed thread is the call.
    The properties hold for every interleaving of any number of threads: the volumes'
    optimistic check and the immutability of stored bytes (PipelineSharing.v) make them
    hold. *)
From S2P Require Import Prelude Errors Common Externals Threads CapsuleService BlockView.
From S2P Require Nvram Compression KeyManager Registry WritePipeline PipelineInvariant.
From S2P Require PipelineTheorems PipelineThreads PipelineSharing.
Import WritePipeline PipelineInvariant PipelineThreads PipelineSharing.

#[local] Open Scope prog_scope.

Section threads.
Context {JR : JsonDoc Registry.RegistryState} {JN : JsonDoc Nvram.SegmentMap} {JV : JsonDoc Volumes} `{Crates}.
#[local] Abbreviation View := (BlockView (P := WritePipeline)).
#[local] Abbreviation Thread := (Prog View Demand Error).

(** A region of the view's own lock, and a call on the pipeline. *)
Definition on_view {A : Type} (m : M View Error A) : Thread A := atom Nothing m.
Definition in_pipeline {A : Type} (t : Prog WritePipeline Demand Error A) : Thread A :=
  prog_zoom bv_pipeline set_pipeline t.

(** [write_capsule] *)
Definition store_thread (id : CapsuleId) (now : option Z) (data : bytes) : Thread CapsuleId :=
  in_pipeline (write_capsule_thread id now data Policy_default).

(** [let _ = self.pipeline.delete_capsule(..)] *)
Definition discard_thread (c : CapsuleId) : Thread unit :=
  prog_attempt (in_pipeline (delete_capsule_thread c)).

Definition create_thread (id : CapsuleId) (now ts : option Z) (name : string) (size block_size : Z) :
    Thread BlockVolume :=
  Return (check_geometry name size block_size) ;;&
  on_view (check_absent name) ;;&
  let& buffer := Return (zeroed size) in
  let& capsule_id := store_thread id now buffer in
  let t := unix_timestamp ts in
  let v := mkBlockVolume name size block_size capsule_id t t 1 in
  let& inserted := on_view (insert_volume name v) in
  if inserted : bool then on_view persist ;;& prog_ret v
  else discard_thread capsule_id ;;& prog_fail (Msg "Volume already exists").

Definition delete_thread (name : string) : Thread unit :=
  let& capsule_id := on_view (remove_volume name) in
  on_view persist ;;&
  discard_thread capsule_id ;;&
  prog_ret tt.

Definition read_thread (name : string) (offset len : Z) : Thread bytes :=
  let& v := on_view (volume name) in
  if vol_size v <? u64_add offset len then prog_fail (Msg "Read beyond end of volume")
  else in_pipeline (read_range_thread (vol_capsule_id v) offset len).

Definition write_thread (id : CapsuleId) (now ts : option Z) (name : string) (offset : Z)
    (data : bytes) : Thread unit :=
  match data with
  | [] => on_view (ret tt)
  | _ =>
      let& (capsule_id, version) := on_view (snapshot name offset (lenZ data)) in
      let& buffer := in_pipeline (read_capsule_thread capsule_id) in
      let& buffer := Return (copy_into buffer offset data) in
      let& new_capsule := store_thread id now buffer in
      let& swapped := on_view (swap_capsule name capsule_id version new_capsule (unix_timestamp ts)) in
      if swapped : bool then
        on_view persist ;;&
        discard_thread capsule_id ;;&
        prog_ret tt
      else
        discard_thread new_capsule ;;&
        prog_fail (Msg "Volume modified concurrently")
  end.

Definition thread_of (op : BlockOp) : Thread bytes :=
  match op with
  | OpCreate id now ts name size bs => create_thread id now ts name size bs ;;& prog_ret []
  | OpWrite id now ts name off data => write_thread id now ts name off data ;;& prog_ret []
  | OpRead name off len => read_thread name off len
  | OpDelete name => delete_thread name ;;& prog_ret []
  end.

(** *** A thread alone *)
Lemma runs_in_pipeline {A : Type} (t : Prog WritePipeline Demand Error A) m :
  runs_as t m → runs_as (in_pipeline t) (on_pipeline m).
Proof. apply runs_zoom; [by intros []|done|done]. Qed.

Lemma runs_store id now data : runs_as (store_thread id now data) (on_pipeline (svc_write id now data)).
Proof. apply runs_in_pipeline, runs_write. Qed.

Lemma runs_discard {A : Type} c (k : Thread A) k' :
  runs_as k k' →
  runs_as (discard_thread c ;;& k) (attempt (E' := Error) (on_pipeline (svc_delete c)) ;;; k').
Proof.
  intros Hk. eapply runs_ext.
  - eapply (runs_bind _ _ _ (λ _, k')); [apply runs_attempt, runs_in_pipeline, runs_delete|done].
  - intros b. apply bind_assoc.
Qed.

Lemma runs_create_thread id now ts name size bs :
  runs_as (create_thread id now ts name size bs) (create_volume_with_block_size id now ts name size bs).
Proof.
  unfold create_thread, create_volume_with_block_size.
  apply runs_bind; [apply runs_lift|intros []]. apply runs_bind; [apply runs_atom|intros []].
  apply runs_bind; [apply runs_lift|intros buffer]. apply runs_bind; [apply runs_store|intros c].
  apply runs_bind; [apply runs_atom|intros []]; [|by apply runs_discard].
  apply runs_bind; [apply runs_atom|intros []; apply runs_ret].
Qed.

Lemma runs_write_thread id now ts name off data :
  runs_as (write_thread id now ts name off data) (block_write id now ts name off data).
Proof.
  unfold write_thread, block_write. destruct data as [|x data]; [apply runs_atom|].
  apply runs_bind; [apply runs_atom|intros [c ver]].
  apply runs_bind; [apply runs_in_pipeline, runs_read|intros buffer].
  apply runs_bind; [apply runs_lift|intros buffer']. apply runs_bind; [apply runs_store|intros new].
  apply runs_bind; [apply runs_atom|intros []]; [|by apply runs_discard].
  apply runs_bind; [apply runs_atom|intros []]. by apply runs_discard.
Qed.

(** The actions of a thread, one after the other, are the call. *)
Lemma runs_thread_of op : runs_as (thread_of op) (run_op op).
Proof.
  destruct op as [id now ts name size bs|id now ts name off data|name off len|name]; cbn [thread_of run_op].
  - apply runs_bind; [apply runs_create_thread|intros; apply runs_ret].
  - apply runs_bind; [apply runs_write_thread|intros; apply runs_ret].
  - unfold read_thread, block_read. apply runs_bind; [apply runs_atom|intros v].
    apply runs_if; [apply runs_fail|apply runs_in_pipeline, runs_range].
  - apply runs_bind; [|intros; apply runs_ret]. unfold delete_thread, delete_volume.
    apply runs_bind; [apply runs_atom|intros c]. apply runs_bind; [apply runs_atom|intros []].
    by apply runs_discard.
Qed.

(** What the environment owes an action of a thread. *)
Definition owed_to (D : bytes → Prop) (d : Demand) (b : View) : Prop := owed D d (bv_pipeline b).
End threads.

(** ** The shared invariant and what each thread may rely on *)
Section logic.
Context {JR : JsonDoc Registry.RegistryState} {JN : JsonDoc Nvram.SegmentMap} {JV : JsonDoc Volumes} `{Crates}.
Context (D : bytes → Prop) (HD : hash_injective_on D) (km0 : option KeyManager.KeyManager).
#[local] Abbreviation View := (BlockView (P := WritePipeline)).
#[local] Abbreviation Thread := (Prog View Demand Error).
Implicit Types b : View.
Implicit Types g : Ghost.
Implicit Types rs : list CapsuleId.

(** Every volume is backed by a capsule that was entered with bytes of its size. *)
Definition backed (K : gmap CapsuleId bytes) (vs : Volumes) : Prop :=
  ∀ name v, vs !! name = Some v → vol_ok K name v.

Definition shared g b : Prop := pinv D km0 g (bv_pipeline b) ∧ backed (g_capsules g) (volumes b).

(** What the volumes hold. *)
Definition held g b : string → option bytes := contents (g_capsules g) b.

Lemma backed_mono g g' vs : extends g g' → backed (g_capsules g) vs → backed (g_capsules g') vs.
Proof.
  intros He Hb name v Hn. eapply vol_ok_mono; [|by apply Hb]. intros d. by apply extends_capsule.
Qed.

(** A volume holds what its capsule was entered with. *)
Lemma held_volume g b name v :
  shared g b → volumes b !! name = Some v →
  ∃ d, held g b name = Some d ∧ g_capsules g !! vol_capsule_id v = Some d ∧ lenZ d = vol_size v ∧
    vol_size v < 2 ^ 63.
Proof.
  intros [_ Hb] Hn. destruct (Hb name v Hn) as (_ & _ & _ & _ & [_ ?] & d & Hd & ?). exists d.
  split; [|done]. unfold held, contents. by rewrite Hn.
Qed.

Lemma held_mono g g' b b' n :
  extends g g' → shared g b → volumes b' = volumes b → held g' b' n = held g b n.
Proof.
  intros He [_ Hb] Hv. unfold held, contents. rewrite Hv. destruct (volumes b !! n) as [v|] eqn:Hn; [|done].
  destruct (Hb n v Hn) as (_ & _ & _ & _ & _ & d & Hd & _). simpl. rewrite Hd. by apply (extends_capsule g).
Qed.

(** Whether a call has taken effect, and with which result. *)
Inductive Status : Type :=
| Pending (op : BlockOp)
| Committed (out : bytes).

(** An action leaves the volumes alone or is the point where the call takes effect. *)
Definition effect (C C' : string → option bytes) (s s' : Status) : Prop :=
  (s' = s ∧ ∀ n, C' n = C n) ∨
  ∃ op out C1, s = Pending op ∧ s' = Committed out ∧ block_spec C op = Some (out, C1) ∧
    ∀ n, C' n = C1 n.

(** A thread that has drawn [rs] and not yet entered them goes well, whatever the others do
    between its actions. *)
Fixpoint safe {A : Type} (t : Thread A) rs g (s : Status)
    (Φ : Res Error A → list CapsuleId → Ghost → Status → Prop) : Prop :=
  match t with
  | Return r => ∀ g', extends g g' → Φ r rs g' s
  | Act d act rest =>
      ∀ g1 rs0 b, extends g g1 → shared g1 b → drawn g1 (rs ++ rs0) → owed_to D d b →
      ∃ g2 rs2 s2, extends g1 g2 ∧ shared g2 (act b) ∧ drawn g2 (rs2 ++ rs0) ∧
        effect (held g1 b) (held g2 (act b)) s s2 ∧ safe (rest b) rs2 g2 s2 Φ
  end.

Lemma safe_mono {A : Type} (t : Thread A) rs g g' s Φ :
  extends g g' → safe t rs g s Φ → safe t rs g' s Φ.
Proof.
  intros He. destruct t as [r|d act rest]; simpl.
  - intros Hr g2 He2. apply Hr. by trans g'.
  - intros Hs g1 rs0 b He1. apply Hs. by trans g'.
Qed.

Lemma safe_then {A B : Type} (t : Thread A) (k : Res Error A → Thread B) rs g s Φ :
  safe t rs g s (λ r rs' g' s', safe (k r) rs' g' s' Φ) → safe (prog_then t k) rs g s Φ.
Proof.
  revert rs g s. induction t as [r|d act rest IH]; intros rs g s; simpl.
  - intros Hr. by apply Hr.
  - intros Hs g1 rs0 b He Hsh Hd Ho.
    destruct (Hs g1 rs0 b He Hsh Hd Ho) as (g2 & rs2 & s2 & ? & ? & ? & ? & ?). exists g2, rs2, s2. eauto 8.
Qed.

(** A call on the pipeline leaves every volume alone. *)
Lemma safe_in_pipeline {A : Type} (t : Prog WritePipeline Demand Error A) rs g s Ψ
    (Φ : Res Error A → list CapsuleId → Ghost → Status → Prop) :
  psafe D km0 t rs g Ψ → (∀ r rs' g', extends g g' → Ψ r rs' g' → Φ r rs' g' s) →
  safe (in_pipeline t) rs g s Φ.
Proof.
  revert rs g. induction t as [r|d act rest IH]; intros rs g; simpl; intros Ht HΦ.
  - intros g' He. apply HΦ; [done|]. by apply Ht.
  - intros g1 rs0 b He [Hp Hb] Hd Ho.
    destruct (Ht g1 rs0 (bv_pipeline b) He Hp Hd Ho) as (g2 & rs2 & He2 & Hp2 & Hd2 & Hs2).
    exists g2, rs2, s. split; [done|]. split; [split; [done|by eapply backed_mono]|]. split; [done|]. split.
    + left. split; [done|]. intros n. by eapply held_mono.
    + eapply IH; [done|]. intros r rs' g' He'. apply HΦ. trans g1; [done|]. by trans g2.
Qed.

(** A region of the view's lock. *)
Lemma safe_on_view {A : Type} (m : M View Error A) rs g s (Φ : Res Error A → list CapsuleId → Ghost → Status → Prop) :
  (∀ g1 b, extends g g1 → shared g1 b →
     ∃ s2, bv_pipeline (m b).2 = bv_pipeline b ∧ backed (g_capsules g1) (volumes (m b).2) ∧
       effect (held g1 b) (held g1 (m b).2) s s2 ∧ ∀ g', extends g1 g' → Φ (m b).1 rs g' s2) →
  safe (on_view m) rs g s Φ.
Proof.
  intros Hm g1 rs0 b He Hsh Hd _. destruct (Hm g1 b He Hsh) as (s2 & Hp & Hb & Heff & HΦ).
  exists g1, rs, s2. split; [done|]. split; [split; [by rewrite Hp; apply Hsh|done]|]. by split.
Qed.

(** One that changes no volume. *)
Lemma safe_view_same {A : Type} (m : M View Error A) rs g s (Φ : Res Error A → list CapsuleId → Ghost → Status → Prop) :
  (∀ g1 b, extends g g1 → shared g1 b →
     same_view b (m b).2 ∧ ∀ g', extends g1 g' → Φ (m b).1 rs g' s) →
  safe (on_view m) rs g s Φ.
Proof.
  intros Hm. apply safe_on_view. intros g1 b He Hsh. destruct (Hm g1 b He Hsh) as ([Hp Hv] & HΦ).
  exists s. split; [done|]. split; [rewrite Hv; apply Hsh|]. split; [|done].
  left. split; [done|]. intros n. by eapply held_mono.
Qed.

(** How a call ends: a value was fixed when it took effect. *)
Definition settled (r : Res Error bytes) rs g (s : Status) : Prop :=
  match r with Ok out => s = Committed out | Err _ => True | Panic => False end.

(** Sequencing, for threads that end a call when they fail. *)
Lemma safe_seq {A B : Type} (t : Thread A) (k : A → Thread B) rs g s Φ :
  safe t rs g s (λ r rs' g' s', match r with
    | Ok a => safe (k a) rs' g' s' Φ
    | Err e => ∀ g2, extends g' g2 → Φ (Err e) rs' g2 s'
    | Panic => False
    end) →
  safe (prog_bind t k) rs g s Φ.
Proof.
  intros Ht. apply safe_then. revert Ht. revert rs g s.
  induction t as [r|d act rest IH]; intros rs g s; simpl.
  - intros Hr g' He. specialize (Hr g' He). by destruct r.
  - intros Hs g1 rs0 b He Hsh Hd Ho.
    destruct (Hs g1 rs0 b He Hsh Hd Ho) as (g2 & rs2 & s2 & ? & ? & ? & ? & ?). exists g2, rs2, s2. eauto 8.
Qed.
End logic.

(** ** The calls go well *)
Section calls.
Context {JR : JsonDoc Registry.RegistryState} {JN : JsonDoc Nvram.SegmentMap} {JV : JsonDoc Volumes} `{Crates}.
Context (D : bytes → Prop) (HD : hash_injective_on D) (km0 : option KeyManager.KeyManager).
#[local] Abbreviation View := (BlockView (P := WritePipeline)).
#[local] Abbreviation Thread := (Prog View Demand Error).
#[local] Abbreviation safe := (safe D km0).
#[local] Abbreviation shared := (shared D km0).
Implicit Types b : View.
Implicit Types g : Ghost.
Implicit Types rs : list CapsuleId.

(** A call that returns nothing but whether it took effect. *)
Definition ends {A : Type} (r : Res Error A) rs g (s : Status) : Prop :=
  match r with Ok _ => s = Committed [] | Err _ => True | Panic => False end.


Lemma safe_local {A B : Type} (r : Res Error A) (k : A → Thread B) rs g s :
  r ≠ Panic → (∀ a, r = Ok a → safe (k a) rs g s ends) → safe (prog_bind (Return r) k) rs g s ends.
Proof. intros Hnp Hk. destruct r as [a|e| ]; [by apply Hk|done|done]. Qed.

Lemma safe_discard {B : Type} c (k : Thread B) rs g s :
  (∀ g', extends g g' → safe k rs g' s ends) → safe (discard_thread c ;;& k) rs g s ends.
Proof.
  intros Hk. apply safe_seq, safe_then.
  eapply safe_in_pipeline; [apply (safe_delete D km0 c rs g)|].
  intros r rs' g' He [-> Hr] g2 He2. destruct r; [..|done]; apply Hk; by trans g'.
Qed.

Lemma safe_persist {B : Type} (k : Thread B) rs g s :
  safe k rs g s ends → safe (on_view persist ;;& k) rs g s ends.
Proof.
  intros Hk. apply safe_seq, safe_view_same. intros g1 b He _. pose proof (persist_spec b) as Hp. unfold wp in Hp.
  destruct (persist b) as [[[]|e| ] b']; [..|done]; (split; [done|]); intros g' He'; [|done].
  eapply safe_mono; [|done]. by trans g1.
Qed.

(** Storing a capsule under a drawn id. *)
Lemma safe_store {B : Type} id now d (k : CapsuleId → Thread B) rs g s :
  (∀ g', extends g g' → g_capsules g' !! id = Some d → safe (k id) rs g' s ends) →
  safe (prog_bind (store_thread id now d) k) (id :: rs) g s ends.
Proof.
  intros Hk. apply safe_seq. eapply safe_in_pipeline; [by apply (safe_write D HD km0 id now d Policy_default rs g)|].
  intros [c|e| ] rs' g' He; [|done|done]. intros (-> & -> & Hc). by apply Hk.
Qed.

(** Reading a capsule: the bytes it was entered with. *)
Lemma safe_fetch {B : Type} c d (k : bytes → Thread B) rs g s :
  g_capsules g !! c = Some d → (∀ g', extends g g' → safe (k d) rs g' s ends) →
  safe (prog_bind (in_pipeline (read_capsule_thread c)) k) rs g s ends.
Proof.
  intros Hc Hk. apply safe_seq. eapply safe_in_pipeline; [apply (PipelineSharing.safe_read D km0 c rs g)|].
  intros [out|e| ] rs' g' He [-> Hout]; [|done|done]. apply (extends_capsule g g') in Hc; [|done].
  assert (out = d) as -> by congruence. by apply Hk.
Qed.

(** *** Writing *)

(** Publishing a stored copy: the write takes effect here or not at all. *)
Lemma safe_swap {B : Type} id now ts name off x data old c ver new t (k1 k2 : Thread B) rs g :
  let op := OpWrite id now ts name off (x :: data) in
  g_capsules g !! c = Some old → g_capsules g !! new = Some (splice off (x :: data) old) →
  0 ≤ off → off + lenZ (x :: data) ≤ lenZ old →
  (∀ g', extends g g' → safe k1 rs g' (Committed []) ends) →
  (∀ g', extends g g' → safe k2 rs g' (Pending op) ends) →
  safe (prog_bind (on_view (swap_capsule name c ver new t)) (λ swapped : bool, if swapped then k1 else k2))
    rs g (Pending op) ends.
Proof.
  intros op Hc Hnew Ho Hle H1 H2. apply safe_seq, safe_on_view. intros g1 b He Hsh.
  apply (extends_capsule g g1) in Hc as Hc1; [|done]. apply (extends_capsule g g1) in Hnew as Hnew1; [|done].
  pose proof Hsh as [_ Hb]. unfold swap_capsule, volume. cbv [bind gets lift modify ret].
  destruct (volumes b !! name) as [v|] eqn:Hn; cbn [ok_or];
    [|exists (Pending op); split; [done|]; split; [done|]; split; [by left|done]].
  destruct (negb _) eqn:Hne.
  { exists (Pending op). split; [done|]. split; [done|]. split; [by left|]. intros g' He'. apply H2. by trans g1. }
  apply negb_false_iff, andb_true_iff in Hne as [_ Hvc%bool_decide_eq_true].
  destruct (held_volume D km0 g1 b name v Hsh Hn) as (d & Hheld & Hd & Hsz & _).
  rewrite Hvc in Hd. assert (d = old) as -> by congruence. set (v' := mkBlockVolume _ _ _ _ _ _ _).
  exists (Committed []). split; [done|]. split; [|split].
  - intros n w. cbn [snd volumes set_volumes]. intros [[<- <-]|[? Hw]]%lookup_insert_Some; [|by apply Hb].
    destruct (Hb name v Hn) as (? & ? & ? & ? & [? ?] & _). split_and!; try done.
    exists (splice off (x :: data) old). split; [done|]. by rewrite (splice_length off (x :: data) old Ho Hle).
  - right. exists op, []. eexists. split; [done|]. split; [done|]. unfold op, block_spec. rewrite Hheld.
    rewrite (proj2 (Z.leb_le _ _) Hle). split; [reflexivity|]. intros n. unfold held, contents.
    cbn [snd volumes set_volumes]. case_decide as Hnn.
    + subst n. rewrite lookup_insert_eq. exact Hnew1.
    + by rewrite lookup_insert_ne.
  - intros g' He'. apply H1. by trans g1.
Qed.

Lemma write_safe id now ts name off data g :
  0 ≤ off → off + lenZ data < 2 ^ 64 →
  safe (write_thread id now ts name off data) [id] g (Pending (OpWrite id now ts name off data)) ends.
Proof.
  intros Ho Hsum. unfold write_thread. destruct data as [|x data].
  { apply safe_on_view. intros g1 b He [_ Hb]. exists (Committed []). split; [done|]. split; [done|].
    split; [|done]. right. eexists _, [], _. by split_and!. }
  set (dt := x :: data) in *. set (op := OpWrite id now ts name off dt).
  pose proof (lenZ_nonneg dt). apply safe_seq, safe_view_same. intros g1 b He Hsh.
  unfold snapshot, volume. cbv [bind gets lift].
  destruct (volumes b !! name) as [v|] eqn:Hn; cbn [ok_or]; [|by split].
  destruct (held_volume D km0 g1 b name v Hsh Hn) as (old & _ & Hc & Hlen & _).
  assert (u64_add off (lenZ dt) = off + lenZ dt) as -> by (unfold u64_add, wrap; apply Z.mod_small; lia).
  destruct (Z.ltb_spec (vol_size v) (off + lenZ dt)) as [|Hle]; [by split|]. split; [done|].
  intros g2 He2. cbn [fst ret]. apply (safe_fetch _ old); [by eapply extends_capsule|]. intros g3 He3.
  apply safe_local; [rewrite copy_into_ok by lia; done|].
  intros buffer. rewrite copy_into_ok by lia. intros [= <-].
  apply safe_store. intros g4 He4 Hnew. unfold op, dt in *.
  eapply safe_swap; [|done|lia|lia|..].
  - eapply extends_capsule; [|exact Hc]. trans g2; [done|]. by trans g3.
  - intros g5 _. apply safe_persist, safe_discard. done.
  - intros g5 _. apply safe_discard. done.
Qed.

(** *** Creating *)
Lemma create_safe id now ts name size bs g :
  0 ≤ size < 2 ^ 63 → 0 ≤ bs →
  safe (create_thread id now ts name size bs) [id] g (Pending (OpCreate id now ts name size bs)) ends.
Proof.
  intros Hs Hb. unfold create_thread. set (op := OpCreate id now ts name size bs).
  apply safe_local.
  { unfold check_geometry, validate_volume_name. by repeat case_match_eq. }
  intros [] Hg. apply check_geometry_ok in Hg as (Hname & Hs0 & Hb0 & Hdiv); [|lia..].
  apply safe_seq, safe_view_same. intros g1 b He Hsh. unfold check_absent. cbv [bind gets].
  case_bool_decide; (split; [done|]); intros g2 He2; [done|]. cbn [fst ret].
  destruct (zeroed_ok size Hs) as (z & Hz & ->). apply safe_local; [by rewrite Hz|].
  intros buffer. rewrite Hz. intros [= <-]. set (zs := replicate _ _).
  apply safe_store. intros g3 He3 Hnew. cbv zeta. set (v := mkBlockVolume _ _ _ _ _ _ _).
  apply safe_seq, safe_on_view. clear dependent b. intros g4 b He4 Hsh. unfold insert_volume. cbv [bind gets modify ret].
  pose proof Hsh as [_ Hbk]. case_bool_decide as Hex.
  { exists (Pending op). split; [done|]. split; [done|]. split; [by left|]. intros g' He'.
    by apply safe_discard. }
  apply eq_None_not_Some in Hex. apply (extends_capsule g3 g4) in Hnew; [|done].
  exists (Committed []). split; [done|]. split; [|split].
  - intros n w. cbn [snd volumes set_volumes]. intros [[<- <-]|[? Hw]]%lookup_insert_Some; [|by apply Hbk].
    unfold vol_ok. cbn [v vol_name vol_block_size vol_size vol_capsule_id].
    split_and!; try done; try lia. exists zs. split; [done|]. apply lenZ_zeroes. lia.
  - right. exists op, []. eexists. split; [done|]. split; [done|]. unfold op, block_spec, held, contents.
    rewrite Hex. cbn [mbind option_bind]. split; [reflexivity|]. intros n. cbn [snd volumes set_volumes].
    case_decide as Hnn; [subst n; by rewrite lookup_insert_eq|by rewrite lookup_insert_ne].
  - intros g' He'. cbn [fst]. by apply safe_persist.
Qed.

(** *** Reading and deleting *)
Lemma read_safe name off len g :
  0 ≤ off → 0 ≤ len → off + len < 2 ^ 64 →
  safe (read_thread name off len) [] g (Pending (OpRead name off len)) settled.
Proof.
  intros Ho Hl Hsum. unfold read_thread. apply safe_seq, safe_on_view. intros g1 b He Hsh.
  unfold volume. cbv [bind gets lift]. set (op := OpRead name off len).
  destruct (volumes b !! name) as [v|] eqn:Hn; cbn [ok_or];
    [|exists (Pending op); split; [done|]; split; [apply Hsh|]; split; [by left|done]].
  destruct (held_volume D km0 g1 b name v Hsh Hn) as (d & Hct & Hc & Hlen & Hmax).
  assert (u64_add off len = off + len) as -> by (unfold u64_add, wrap; apply Z.mod_small; lia).
  cbn [fst snd]. destruct (Z.ltb_spec (vol_size v) (off + len)) as [|Hle].
  { exists (Pending op). split; [done|]. split; [apply Hsh|]. split; [by left|done]. }
  exists (Committed (takeZ len (dropZ off d))). split; [done|]. split; [apply Hsh|]. split.
  - right. eexists _, _, _. split; [done|]. split; [done|]. split; [|done].
    simpl. rewrite Hct. by rewrite (proj2 (Z.leb_le _ _)) by lia.
  - intros g' He'. eapply safe_in_pipeline.
    + apply (safe_range D km0 _ off len d [] g'); [by eapply extends_capsule|lia..].
    + intros [out|e| ] rs' g2 _ [_ Hr]; [by rewrite Hr|done|done].
Qed.

Lemma delete_safe name g : safe (delete_thread name) [] g (Pending (OpDelete name)) ends.
Proof.
  unfold delete_thread. apply safe_seq, safe_on_view. intros g1 b He Hsh.
  unfold remove_volume, volume. cbv [bind gets lift modify ret]. set (op := OpDelete name).
  destruct (volumes b !! name) as [v|] eqn:Hn; cbn [ok_or fst snd];
    [|exists (Pending op); split; [done|]; split; [apply Hsh|]; split; [by left|done]].
  destruct (held_volume D km0 g1 b name v Hsh Hn) as (old & Hct & _).
  exists (Committed []). split; [done|]. split; [|split].
  - intros n w. cbn [volumes set_volumes]. intros [_ Hw]%lookup_delete_Some. by apply Hsh.
  - right. eexists op, _, _. split; [done|]. split; [done|].
    split; [simpl; by rewrite Hct|]. intros n. unfold held, contents. cbn [volumes set_volumes].
    case_decide as Hnn; [subst n; by rewrite lookup_delete_eq|by rewrite lookup_delete_ne].
  - intros g' He'. apply safe_persist, safe_discard. done.
Qed.
End calls.

(** ** The whole system *)
Section system.
Context {JR : JsonDoc Registry.RegistryState} {JN : JsonDoc Nvram.SegmentMap} {JV : JsonDoc Volumes} `{Crates}.
#[local] Abbreviation View := (BlockView (P := WritePipeline)).
#[local] Abbreviation Thread := (Prog View Demand Error bytes).
Implicit Types b : View.
Implicit Types g : Ghost.

(** Arguments that fit their machine types. *)
Definition op_static (op : BlockOp) : Prop :=
  match op with
  | OpCreate _ _ _ _ size bs => 0 ≤ size < 2 ^ 63 ∧ 0 ≤ bs
  | OpWrite _ _ _ _ off data => 0 ≤ off ∧ off + lenZ data < 2 ^ 64
  | OpRead _ off len => 0 ≤ off ∧ 0 ≤ len ∧ off + len < 2 ^ 64
  | OpDelete _ => True
  end.

(** The id a call draws for its capsule. *)
Definition draws (op : BlockOp) : list CapsuleId :=
  match op with
  | OpCreate id _ _ _ _ _ | OpWrite id _ _ _ _ _ => [id]
  | _ => []
  end.

(** The calls of [log], each with the bytes it returned, applied one at a time. *)
Inductive replay (ops : list BlockOp) (C : string → option bytes) :
    list (nat * bytes) → (string → option bytes) → Prop :=
| replay_nil C' : (∀ n, C' n = C n) → replay ops C [] C'
| replay_snoc log C1 i op out C2 C3 :
    replay ops C log C1 → ops !! i = Some op → block_spec C1 op = Some (out, C2) →
    (∀ n, C3 n = C2 n) → replay ops C (log ++ [(i, out)]) C3.

Lemma replay_ext ops C log C1 C2 : (∀ n, C2 n = C1 n) → replay ops C log C1 → replay ops C log C2.
Proof.
  intros He Hr. revert He. destruct Hr as [C' HC|log' C' i op out C3 C4 Hr Hop Hs HC]; intros He.
  - apply replay_nil. intros n. by rewrite He.
  - eapply replay_snoc; [done..|]. intros n. by rewrite He.
Qed.

Section invariant.
Context (D : bytes → Prop) (HD : hash_injective_on D) (km0 : option KeyManager.KeyManager).

(** A call whose result is dropped. *)
Lemma safe_no_bytes {A : Type} (t : Prog View Demand Error A) rs g s :
  safe D km0 t rs g s ends → safe D km0 (t ;;& prog_ret []) rs g s settled.
Proof.
  intros Ht. apply safe_then. revert rs g s Ht.
  induction t as [r|d act rest IH]; intros rs g s; simpl.
  - intros Hr g' He. specialize (Hr g' He). destruct r; [|done..]. by intros g2 _.
  - intros Hs g1 rs0 b He Hsh Hd Ho.
    destruct (Hs g1 rs0 b He Hsh Hd Ho) as (g2 & rs2 & s2 & ? & ? & ? & ? & ?). exists g2, rs2, s2. eauto 8.
Qed.

Lemma call_safe op g : op_static op → safe D km0 (thread_of op) (draws op) g (Pending op) settled.
Proof.
  destruct op; cbn [op_static thread_of draws].
  - intros [??]. by apply safe_no_bytes, create_safe.
  - intros [??]. by apply safe_no_bytes, write_safe.
  - intros (? & ? & ?). by apply read_safe.
  - intros _. apply safe_no_bytes, delete_safe.
Qed.

Definition logged (ops : list BlockOp) (log : list (nat * bytes)) (i : nat) (s : Status) : Prop :=
  match s with
  | Pending op => ops !! i = Some op ∧ i ∉ log.*1
  | Committed out => (i, out) ∈ log
  end.

(** [os]: the ids each thread has drawn, and whether its call has taken effect. *)
Record sys_inv (ops : list BlockOp) (C0 : string → option bytes) (st : list Thread * View) g
    (os : list (list CapsuleId * Status)) (log : list (nat * bytes)) : Prop := {
  si_shared : shared D km0 g (snd st);
  si_drawn : drawn g (concat os.*1);
  si_safe : Forall2 (λ t o, safe D km0 t (fst o) g (snd o) settled) (fst st) os;
  si_replay : replay ops C0 log (held g (snd st));
  si_once : NoDup log.*1;
  si_logged : ∀ i o, os !! i = Some o → logged ops log i (snd o);
}.

#[export] Instance drawn_perm g : Proper ((≡ₚ) ==> iff) (drawn g).
Proof. intros rs1 rs2 Hrs. unfold drawn. by setoid_rewrite Hrs. Qed.

(** A step extends the log by at most the call that made it. *)
Lemma log_step ops C0 log i C C' s s' :
  replay ops C0 log C → NoDup log.*1 → logged ops log i s → effect C C' s s' →
  ∃ log', replay ops C0 log' C' ∧ NoDup log'.*1 ∧ logged ops log' i s' ∧
    ∀ j sj, j ≠ i → logged ops log j sj → logged ops log' j sj.
Proof.
  intros Hr Hnd Hl [[-> He]|(op & out & C1 & -> & -> & Hs & HC)].
  - exists log. split_and!; try done. by eapply replay_ext.
  - destruct Hl as [Hop Hni]. exists (log ++ [(i, out)]). split_and!.
    + by eapply replay_snoc.
    + rewrite fmap_app. simpl. apply NoDup_app. split; [done|]. split; [|apply NoDup_singleton].
      intros j Hj ->%list_elem_of_singleton. done.
    + simpl. apply elem_of_app. right. by left.
    + intros j [op'|out'] Hne; simpl.
      * intros [? Hj]. split; [done|]. rewrite fmap_app, not_elem_of_app. split; [done|].
        simpl. by intros ?%list_elem_of_singleton.
      * intros ?. apply elem_of_app. by left.
Qed.

(** The ids of all threads, with one thread's in front. *)
Lemma concat_middle (l1 l2 : list (list CapsuleId * Status)) o :
  concat (l1 ++ o :: l2).*1 ≡ₚ fst o ++ concat (l1 ++ l2).*1.
Proof.
  rewrite !fmap_app, fmap_cons, !concat_app. simpl. rewrite !app_assoc. f_equiv. apply Permutation_app_comm.
Qed.

Lemma sys_step_inv ops C0 st st' g os log :
  sys_inv ops C0 st g os log → sys_step (owed_to D) st st' →
  ∃ g' os' log', extends g g' ∧ sys_inv ops C0 st' g' os' log'.
Proof.
  intros [Hsh Hdr Hsafe Hrep Hnd Hlog] Hstep. destruct Hstep as [i ts b d act rest Hi Hok].
  cbn [fst snd] in *. destruct (Forall2_lookup_l _ _ _ _ _ Hsafe Hi) as (o & Ho & Hs).
  destruct (list_elem_of_split_length os i o Ho) as (l1 & l2 & -> & Hlen).
  rewrite concat_middle in Hdr.
  destruct (Hs g _ b (reflexivity g) Hsh Hdr Hok) as (g2 & rs2 & s2 & He & Hsh2 & Hdr2 & Heff & Hsafe2).
  destruct (log_step ops C0 log i _ _ _ s2 Hrep Hnd (Hlog i o Ho) Heff) as (log' & Hr' & Hnd' & Hl' & Hoth).
  exists g2, (l1 ++ (rs2, s2) :: l2), log'. split; [done|]. constructor; cbn [fst snd]; try done.
  - by rewrite concat_middle.
  - apply Forall2_app_inv_r in Hsafe as (ts1 & ts2 & H1 & H2 & ->).
    inversion H2 as [|t0 o0 ts0 ? Ht0 Hts0]; subst. pose proof (Forall2_length _ _ _ H1) as Hl1.
    rewrite insert_app_r_alt by lia. rewrite Hl1, Nat.sub_diag. cbn [list_insert insert].
    apply Forall2_app; [|constructor; [done|]]; (eapply Forall2_impl; [done|]);
      intros t0' o0'; by apply safe_mono.
  - intros j oj Hj. destruct (decide (j = i)) as [->|Hne].
    + rewrite Hlen, lookup_app_r, Nat.sub_diag in Hj by done. simpl in Hj. by simplify_eq.
    + apply Hoth; [done|]. apply (Hlog j oj). rewrite <- Hj. clear - Hlen Hne.
      destruct (decide (j < length l1)%nat); [by rewrite !lookup_app_l|].
      rewrite !lookup_app_r by lia. destruct (j - length l1)%nat eqn:Hd; [lia|done].
Qed.

Lemma sys_steps_inv ops C0 st st' g os log :
  sys_inv ops C0 st g os log → rtc (sys_step (owed_to D)) st st' →
  ∃ g' os' log', extends g g' ∧ sys_inv ops C0 st' g' os' log'.
Proof.
  intros Hinv Hsteps. revert g os log Hinv.
  induction Hsteps as [st|st st1 st2 H1 _ IH]; intros g os log Hinv; [by exists g, os, log|].
  destruct (sys_step_inv _ _ _ _ _ _ _ Hinv H1) as (g1 & os1 & log1 & He1 & Hinv1).
  destruct (IH _ _ _ Hinv1) as (g2 & os2 & log2 & He2 & Hinv2). exists g2, os2, log2. split; [by trans g1|done].
Qed.

Lemma sys_init ops g b :
  shared D km0 g b → Forall op_static ops → drawn g (concat (draws <$> ops)) →
  sys_inv ops (held g b) (thread_of <$> ops, b) g ((λ op, (draws op, Pending op)) <$> ops) [].
Proof.
  intros Hsh Hst Hdr. constructor; cbn [fst snd].
  - done.
  - by rewrite <- list_fmap_compose.
  - clear - Hst HD. induction Hst; constructor; [by apply call_safe|done].
  - by apply replay_nil.
  - constructor.
  - intros i o. rewrite list_lookup_fmap. intros (op & Hop & ->)%fmap_Some. simpl. split; [done|].
    apply not_elem_of_nil.
Qed.
End invariant.

(** C16: concurrent calls take effect one at a time.  Run any number of calls, with
    distinct fresh capsule ids, in any interleaving of the regions their locks protect -
    those of the volume table, the registry's tables, the log's map and file and the key
    manager - and under any I/O failures.  At every moment the volumes stand for what some
    of the calls give when made one after the other, each at most once, with exactly the
    results they return; every call that has returned a value is among them, and none has
    panicked.  In particular no update is overwritten by a concurrent one.  Reading the
    capsule of a volume gives the bytes the volume stands for or an error, never others;
    an error it can be: a deletion may remove a segment another call has just shared
    ([racing_delete_loses_a_write]). *)
Theorem block_calls_linearize D G b ops ts b' :
  hash_injective_on D → pipe_inv D [] G (bv_pipeline b) → backed G (volumes b) →
  Forall op_static ops →
  NoDup (concat (draws <$> ops)) → (∀ c, c ∈ concat (draws <$> ops) → G !! c = None) →
  rtc (sys_step (owed_to D)) (thread_of <$> ops, b) (ts, b') →
  ∃ K log, G ⊆ K ∧ backed K (volumes b') ∧ NoDup log.*1 ∧
    replay ops (contents G b) log (contents K b') ∧
    (∀ i r, ts !! i = Some (Return r) → r ≠ Panic ∧ ∀ out, r = Ok out → (i, out) ∈ log) ∧
    ∀ name v data r p, volumes b' !! name = Some v → contents K b' name = Some data →
      read_capsule (vol_capsule_id v) (bv_pipeline b') = (r, p) →
      r ≠ Panic ∧ ∀ out, r = Ok out → out = data.
Proof.
  intros HD Hpi Hb Hst Hnd Hfresh Hsteps. set (km0 := key_manager (bv_pipeline b)).
  pose proof (pipe_inv_pinv D km0 G (bv_pipeline b) eq_refl Hpi) as Hp0.
  destruct (sys_steps_inv D km0 _ _ _ _ _ _ _ (sys_init D HD km0 ops _ b (conj Hp0 Hb) Hst (conj Hnd Hfresh)) Hsteps)
    as (g & os & log & (HK & _) & [Hsh Hdr Hsafe Hrep Hnd' Hlog]). cbn [fst snd] in *.
  exists (g_capsules g), log. split; [exact HK|]. split; [apply Hsh|]. split; [done|]. split; [exact Hrep|]. split.
  - intros i r Hr. destruct (Forall2_lookup_l _ _ _ _ _ Hsafe Hr) as (o & Ho & Hs). simpl in Hs.
    specialize (Hs g (reflexivity g)). split; [by destruct r|]. intros out ->. specialize (Hlog i o Ho).
    by rewrite Hs in Hlog.
  - intros name v data r p Hv Hc. unfold contents in Hc. rewrite Hv in Hc. eapply pinv_read; [apply Hsh|done].
Qed.
End system.

(** ** Witness: two writers of one volume, over the toy crates *)
Section concurrency_witness.
Import Compression Registry Nvram PipelineTheorems.
#[local] Existing Instance toy_crates.
#[local] Existing Instance toy_XtsLaws.
#[local] Existing Instance toy_HmacLaws.
#[local] Existing Instance toy_state_doc.
#[local] Instance toy_records_doc : JsonDoc SegmentMap := plain_doc SegmentMap.
#[local] Instance toy_volumes_doc : JsonDoc Volumes := plain_doc Volumes.
#[local] Abbreviation View := (BlockView (P := WritePipeline)).
#[local] Abbreviation System := (list (Prog View Demand Error bytes) * View)%type.

(** Whether an action's demand is met, the codec's frames being those of [F]. *)
Definition meets (F : list bytes) (d : Demand) (b : View) : bool :=
  match d with
  | Nothing => true
  | CodedChunk policy chunk =>
      match compress_segment chunk policy with
      | Ok (view, r) =>
          bool_decide (as_ref view ∈ F) &&
          (cr_compressed r ||
           match decompress_for policy chunk with Ok d => bool_decide (d = chunk) | _ => false end)
      | _ => true
      end
  | SegmentNumber => next_segment_id (rg (bv_pipeline b)) + 1 <? 2 ^ 64
  | Room n => next_offset (lg (bv_pipeline b)) + n <? 2 ^ 64
  end.

Lemma meets_owed F d b : meets F d b = true → owed_to (λ x, x ∈ F) d b.
Proof.
  destruct d as [|policy chunk| |n]; unfold owed_to; cbn [meets owed]; [done| |lia..].
  intros Hm view r Hc. rewrite Hc in Hm. apply andb_true_iff in Hm as [Hf%bool_decide_eq_true Hr].
  split; [done|]. intros Hno. rewrite Hno in Hr. cbn [orb] in Hr.
  destruct (decompress_for policy chunk); [|done..]. by apply bool_decide_eq_true in Hr as ->.
Qed.

(** One action of a thread, and some of a thread after another. *)
Definition act_on (F : list bytes) (i : nat) (st : System) : option System :=
  match fst st !! i with
  | Some (Act d act rest) =>
      if meets F d (snd st) then Some (<[i := rest (snd st)]> (fst st), act (snd st)) else None
  | _ => Some st
  end.

Fixpoint play (F : list bytes) (schedule : list (nat * nat)) (st : System) : option System :=
  match schedule with
  | [] => Some st
  | (i, n) :: rest => st ← Nat.iter n (λ st, st ≫= act_on F i) (Some st); play F rest st
  end.

Lemma act_on_step F i st st' : act_on F i st = Some st' → rtc (sys_step (owed_to (λ x, x ∈ F))) st st'.
Proof.
  destruct st as [ts b]. unfold act_on. cbn [fst snd].
  destruct (ts !! i) as [[r|d act rest]|] eqn:Hi; [by intros [= <-]| |by intros [= <-]].
  destruct (meets F d b) eqn:Hm; [|done]. intros [= <-].
  apply rtc_once. by eapply sys_act; [|apply meets_owed].
Qed.

Lemma play_steps F schedule st st' :
  play F schedule st = Some st' → rtc (sys_step (owed_to (λ x, x ∈ F))) st st'.
Proof.
  revert st. induction schedule as [|[i n] rest IH]; intros st; simpl; [by intros [= <-]|].
  intros (st1 & Hn & Hrest)%bind_Some. etrans; [|by apply IH]. clear Hrest IH.
  revert st1 Hn. induction n as [|n IH]; intros st1; simpl; [by intros [= <-]|].
  intros (st2 & H2 & H1)%bind_Some. etrans; [by apply IH|]. by eapply act_on_step.
Qed.

Definition finished (st : System) : list (option (Res Error bytes)) :=
  (λ t, match t with Return r => Some r | Act _ _ _ => None end) <$> fst st.

Definition cid (b : byte) : CapsuleId := mkCapsuleId (replicate 16 b).
Definition no_disks : View := mkBlockView (empty_pipeline None []) ∅ (Some None) [].

(** The first writer reads the volume, the second runs to its end, then the first goes on. *)
Definition two_writers : list BlockOp :=
  [OpCreate (cid x01) (Some 1) (Some 1) "disk" 40 8;
   OpWrite (cid x02) (Some 1) (Some 1) "disk" 0 [x61];
   OpWrite (cid x03) (Some 1) (Some 1) "disk" 20 [x62]].
Definition writers_schedule : list (nat * nat) := [(0, 100); (1, 6); (2, 100); (1, 100)]%nat.
Definition zeroed_disk : bytes := replicate 40 x00.
Definition disk_a : bytes := x61 :: replicate 39 x00.
Definition disk_b : bytes := replicate 20 x00 ++ x62 :: replicate 19 x00.
Definition frames : list bytes := [[x04; x28; x00]; disk_a; disk_b].
Definition writers_end : option System := play frames writers_schedule (thread_of <$> two_writers, no_disks).

Lemma frames_injective : hash_injective_on (λ d, d ∈ frames).
Proof.
  assert (Forall (λ a, Forall (λ b, Dedup.hash_content a = Dedup.hash_content b → a = b) frames) frames) as Hf.
  { apply (bool_decide_unpack _). vm_compute. exact I. }
  intros a b Ha Hb. rewrite Forall_forall in Hf. specialize (Hf a Ha). rewrite Forall_forall in Hf. by apply Hf.
Qed.

Lemma block_calls_linearize_witness :
  ∃ ts b K log,
    finished (ts, b) = [Some (Ok []); Some (Err (Msg "Volume modified concurrently")); Some (Ok [])] ∧
    backed K (volumes b) ∧ NoDup log.*1 ∧ replay two_writers (contents ∅ no_disks) log (contents K b) ∧
    (0%nat, []) ∈ log ∧ (2%nat, []) ∈ log ∧ contents K b "disk" = Some disk_b.
Proof.
  assert (finished <$> writers_end =
    Some [Some (Ok []); Some (Err (Msg "Volume modified concurrently")); Some (Ok [])]) as Hfin
    by (vm_compute; reflexivity).
  assert ((λ st, v ← volumes (snd st) !! "disk"; Some (vol_capsule_id v,
    fst (read_capsule (vol_capsule_id v) (bv_pipeline (snd st))))) <$> writers_end =
    Some (Some (cid x03, Ok disk_b))) as Hdisk by (vm_compute; reflexivity).
  destruct writers_end as [[ts b]|] eqn:Hend; [|discriminate]. injection Hfin as Hfin. injection Hdisk as Hdisk.
  pose proof (block_calls_linearize (λ d, d ∈ frames) ∅ no_disks two_writers ts b frames_injective
    (empty_pipeline_inv _ None None [] [] None ltac:(done)) ltac:(by intros ? ?)) as Hmain.
  destruct Hmain as (K & log & _ & Hb & Hnd & Hrep & Hret & Hread).
  - repeat constructor; vm_compute; congruence.
  - apply (bool_decide_unpack _). vm_compute. exact I.
  - done.
  - exact (play_steps _ _ _ _ Hend).
  - assert (∀ i out, finished (ts, b) !! i = Some (Some (Ok out)) → (i, out) ∈ log) as Hin.
    { intros i out. unfold finished. cbn [fst]. rewrite list_lookup_fmap.
      intros ([r|d act rest] & Ht & He)%fmap_Some; [|done]. injection He as <-.
      by apply (proj2 (Hret i _ Ht)). }
    exists ts, b, K, log. split; [exact Hfin|]. split; [done|]. split; [done|]. split; [done|].
    split; [apply Hin; by rewrite Hfin|]. split; [apply Hin; by rewrite Hfin|].
    cbn [snd] in Hdisk. destruct (volumes b !! "disk") as [v|] eqn:Hv; [|discriminate].
    injection Hdisk as Hc Hr. change (fst (read_capsule (vol_capsule_id v) (bv_pipeline b)) = Ok disk_b) in Hr.
    destruct (Hb "disk" v Hv) as (_ & _ & _ & _ & _ & d & Hd & _).
    assert (contents K b "disk" = Some d) as Hcd by (unfold contents; rewrite Hv; exact Hd).
    rewrite Hcd. destruct (read_capsule (vol_capsule_id v) (bv_pipeline b)) as [r p] eqn:Hrd.
    destruct (Hread "disk" v d r p Hv Hcd Hrd) as [_ Hout]. f_equal. symmetry. by apply Hout.
Defined.

(** A call can fail for a reason that never was: a read that looked the volume up before
    a write replaced its capsule does not find the capsule, although the volume is there,
    before and after. *)
Example read_races_write :
  let ops := [OpCreate (cid x01) (Some 1) (Some 1) "disk" 40 8; OpRead "disk" 0 1;
              OpWrite (cid x03) (Some 1) (Some 1) "disk" 20 [x62]] in
  finished <$> play frames [(0, 100); (1, 1); (2, 100); (1, 100)]%nat (thread_of <$> ops, no_disks) =
    Some [Some (Ok []); Some (Err (Msg "Capsule not found")); Some (Ok [])].
Proof. vm_compute. reflexivity. Qed.

(** A volume that was created is lost: its capsule shares a segment with one being
    deleted.  The creating thread has found the segment by its hash, the deleting one
    takes the last reference, the creating one takes a reference and ends well, and
    then the deleting one removes the segment. *)
Example racing_delete_loses_a_write :
  let ops := [OpCreate (cid x01) (Some 1) (Some 1) "a" 40 8; OpCreate (cid x02) (Some 1) (Some 1) "b" 40 8;
              OpDelete "a"; OpRead "b" 0 40] in
  finished <$> play frames [(0, 100); (1, 4); (2, 8); (1, 100); (2, 100); (3, 100)]%nat
    (thread_of <$> ops, no_disks) =
    Some [Some (Ok []); Some (Ok []); Some (Ok []); Some (Err (Msg "Segment not found"))].
Proof. vm_compute. reflexivity. Qed.
End concurrency_witness.
