(* ===== verification/NfsView.v ===== *)
(** Crate [protocol-nfs] (crates/protocol-nfs/src/lib.rs): a namespace of files and
    directories over a pipeline ([CapsuleService]); a file is one capsule.

    A path is a string of bytes.  [Path::components] and [str::replace] of the standard
    library are written out (Unix rules).  The namespace is a table from full paths to
    nodes.  Clocks and the drawn capsule id are arguments. *)
From S2P Require Import Prelude Errors Common Externals CapsuleService BlockView.
From Stdlib Require Import Ascii.

(** ** Paths *)
Definition BACKSLASH : ascii := "092"%char.

Fixpoint replace_char (a b : ascii) (s : string) : string :=
  match s with
  | EmptyString => ""
  | String x r => String (if Ascii.eqb x a then b else x) (replace_char a b r)
  end.

(** [components.join("/")] *)
Definition join (l : list string) : string := String.concat "/" l.

Inductive Component :=
| Prefix (p : string)
| RootDir
| CurDir
| ParentDir
| Normal (part : string).

Definition is_absolute (s : string) : bool :=
  match s with
  | String x _ => Ascii.eqb x SLASH
  | EmptyString => false
  end.

(** A part after the first: empty parts and "." vanish. *)
Definition component_of (part : string) : list Component :=
  if bool_decide (part = "") || bool_decide (part = ".") then []
  else if bool_decide (part = "..") then [ParentDir] else [Normal part].

(** [Path::components]: a "." counts only at the start of a relative path. *)
Definition path_components (s : string) : list Component :=
  let parts := split_on SLASH s in
  if is_absolute s then RootDir :: (parts ≫= component_of)
  else match parts with
       | part :: rest =>
           (if bool_decide (part = ".") then [CurDir] else component_of part) ++ (rest ≫= component_of)
       | [] => []
       end.

Record NormalizedPath := mkNormalizedPath { np_full : string; np_components : list string }.

Definition is_root (p : NormalizedPath) : bool := bool_decide (np_components p = []).
Definition path_name (p : NormalizedPath) : option string := last (np_components p).

(** "/" before the joined components. *)
Definition full_path (l : list string) : string :=
  match l with
  | [] => "/"
  | _ => "/" +:+ join l
  end.

Definition parent_path (p : NormalizedPath) : option string :=
  match np_components p with
  | [] => None
  | [_] => Some "/"
  | l => Some ("/" +:+ join (take (length l - 1) l))
  end.

(** The loop over the components, with the [absolute] flag. *)
Definition normalize_step (acc : bool * list string) (c : Component) : bool * list string :=
  let '(absolute, components) := acc in
  match c with
  | Prefix _ | RootDir => (true, [])
  | CurDir => (absolute, components)
  | ParentDir => (absolute, take (length components - 1) components)
  | Normal part =>
      let part := replace_char BACKSLASH SLASH part in
      if bool_decide (part = "") then (absolute, components) else (absolute, components ++ [part])
  end.

Definition normalize_path (path : string) : Res Error NormalizedPath :=
  let candidate := if bool_decide (path = "") then "/" else path in
  let '(absolute, components) := foldl normalize_step (false, []) (path_components candidate) in
  let absolute := if negb absolute then true else absolute in
  if negb absolute && bool_decide (components = []) then Err (Msg "Invalid path")
  else Ok (mkNormalizedPath (full_path components) components).

(** ** Nodes *)
Inductive NfsNodeKind :=
| Directory
| File (capsule_id : CapsuleId) (size : Z).

Record NfsNode := mkNfsNode {
  node_name : string;
  node_path : string;
  node_kind : NfsNodeKind;
  node_created_at : Z;
  node_modified_at : Z;
}.

Definition directory_node (path name : string) (timestamp : Z) : NfsNode :=
  mkNfsNode name path Directory timestamp timestamp.
Definition file_node (path name : string) (capsule_id : CapsuleId) (size timestamp : Z) : NfsNode :=
  mkNfsNode name path (File capsule_id size) timestamp timestamp.

Definition is_directory (n : NfsNode) : bool :=
  match node_kind n with
  | Directory => true
  | File _ _ => false
  end.

Definition touch (timestamp : Z) (n : NfsNode) : NfsNode :=
  mkNfsNode (node_name n) (node_path n) (node_kind n) (node_created_at n) timestamp.

Inductive EntryKind := EntryFile | EntryDirectory.

Record NfsEntry := mkNfsEntry {
  entry_path : string;
  entry_name : string;
  entry_kind : EntryKind;
  entry_size : Z;
  entry_created_at : Z;
  entry_modified_at : Z;
  entry_capsule_id : option CapsuleId;
}.

Definition to_entry (n : NfsNode) : NfsEntry :=
  match node_kind n with
  | Directory =>
      mkNfsEntry (node_path n) (node_name n) EntryDirectory 0 (node_created_at n)
        (node_modified_at n) None
  | File capsule_id size =>
      mkNfsEntry (node_path n) (node_name n) EntryFile size (node_created_at n)
        (node_modified_at n) (Some capsule_id)
  end.

Abbreviation Nodes := (gmap string NfsNode).

(** [ensure_root_node]: touch the root or make it. *)
Definition ensure_root_node (timestamp : Z) (nodes : Nodes) : Nodes :=
  match nodes !! "/" with
  | Some node => <["/" := touch timestamp node]> nodes
  | None => <["/" := directory_node "/" "/" timestamp]> nodes
  end.

(** One round of the loop of [ensure_directory]; the accumulator is
    [current_components]. *)
Definition ensure_part (timestamp : Z) (current : list string) (part : string) :
    M Nodes Error (list string) :=
  let current := current ++ [part] in
  let current_path := "/" +:+ join current in
  let! nodes := gets (λ n, n) in
  match nodes !! current_path with
  | Some node =>
      if is_directory node then
        modify (λ ns, <[current_path := touch timestamp node]> ns) ;;; ret current
      else fail (Msg "Path conflict with file")
  | None =>
      modify (λ ns, <[current_path := directory_node current_path part timestamp]> ns) ;;; ret current
  end.

Definition ensure_directory (path : NormalizedPath) (timestamp : Z) : M Nodes Error unit :=
  modify (ensure_root_node timestamp) ;;;
  foldM (ensure_part timestamp) [] (np_components path) ;;;
  ret tt.

(** ** The view *)
Section nfs_view.
Context {P : Type} `{CapsuleService P} {JN : JsonDoc Nodes}.

(** [nfs_namespace]: no path, or a path and the document in that file, if it exists. *)
Record NfsView := mkNfsView {
  nfs_pipeline : P;
  nodes : Nodes;
  nfs_namespace : option (option (doc Nodes));
  nfs_faults : faults;
}.

Definition set_nfs_pipeline (p : P) (v : NfsView) : NfsView :=
  mkNfsView p (nodes v) (nfs_namespace v) (nfs_faults v).
Definition set_nodes (n : Nodes) (v : NfsView) : NfsView :=
  mkNfsView (nfs_pipeline v) n (nfs_namespace v) (nfs_faults v).

Definition on_capsules {A : Type} (m : M P Error A) : M NfsView Error A :=
  zoom nfs_pipeline set_nfs_pipeline m.
Definition on_nodes {A : Type} (m : M Nodes Error A) : M NfsView Error A :=
  zoom nodes set_nodes m.

Definition NfsView_new (p : P) (ts : option Z) : NfsView :=
  mkNfsView p (ensure_root_node (unix_timestamp ts) ∅) None [].

Definition NfsView_open (p : P) (namespace : option (doc Nodes)) (ts : option Z) (fs : faults) :
    Res Error NfsView :=
  match namespace with
  | None => Ok (mkNfsView p (ensure_root_node (unix_timestamp ts) ∅) (Some None) fs)
  | Some d =>
      match next_fault fs with
      | (Some _, _) => Err (IoFailed "read_to_string")
      | (None, fs) =>
          let? ns := ok_or (of_doc d) JsonFailed in
          Ok (mkNfsView p (ensure_root_node (unix_timestamp ts) ns) (Some namespace) fs)
      end
  end.

Definition nfs_persist : M NfsView Error unit := λ v,
  match nfs_namespace v with
  | None => (Ok tt, v)
  | Some old =>
      let '(f, fs) := next_fault (nfs_faults v) in
      let v := mkNfsView (nfs_pipeline v) (nodes v)
                 (Some (write_doc f (to_doc (nodes v)) old)) fs in
      match f with
      | None => (Ok tt, v)
      | Some _ => (Err (IoFailed "fs::write"), v)
      end
  end.

(** *** Writing a file *)

(** The read-locked check before the data is stored. *)
Definition preflight (path_info : NormalizedPath) : M NfsView Error unit :=
  let! v := gets (λ v, v) in
  match nodes v !! np_full path_info with
  | Some existing =>
      if is_directory existing then fail (Msg "Cannot overwrite directory with file") else ret tt
  | None => ret tt
  end.

Definition touch_path (path : string) (timestamp : Z) (ns : Nodes) : Nodes :=
  match ns !! path with
  | Some node => <[path := touch timestamp node]> ns
  | None => ns
  end.

(** The write-locked region: parents, then the node; the capsule it replaced. *)
Definition link_file (path_info parent_info : NormalizedPath) (capsule_id : CapsuleId) (size t : Z) :
    M NfsView Error (option CapsuleId) :=
  on_nodes (ensure_directory parent_info t) ;;;
  let! v := gets (λ v, v) in
  let old_capsule :=
    match nodes v !! np_full path_info with
    | Some node => match node_kind node with File c _ => Some c | Directory => None end
    | None => None
    end in
  let! file_name := lift (ok_or (path_name path_info) (Msg "Invalid file path")) in
  on_nodes (modify (λ ns,
    touch_path (np_full parent_info) t
      (<[np_full path_info := file_node (np_full path_info) file_name capsule_id size t]> ns))) ;;;
  ret old_capsule.

(** [let _ = self.pipeline.delete_capsule(..)] *)
Definition drop_capsule (c : option CapsuleId) : M NfsView Error unit :=
  match c with
  | Some c => attempt (E' := Error) (on_capsules (svc_delete c)) ;;; ret tt
  | None => ret tt
  end.

(** The two halves of [write_file]: up to the stored capsule, and from the lock on. *)
Definition write_file_store (id : CapsuleId) (now : option Z) (path : string) (data : bytes) :
    M NfsView Error (NormalizedPath * NormalizedPath * CapsuleId) :=
  let! path_info := lift (normalize_path path) in
  if is_root path_info then fail (Msg "Cannot write file at root")
  else
    let! parent := lift (ok_or (parent_path path_info) (Msg "File path must have a parent directory")) in
    let! parent_info := lift (normalize_path parent) in
    preflight path_info ;;;
    let! capsule_id := on_capsules (svc_write id now data) in
    ret (path_info, parent_info, capsule_id).

Definition write_file_link (path_info parent_info : NormalizedPath) (capsule_id : CapsuleId)
    (size t : Z) : M NfsView Error CapsuleId :=
  let! old_capsule := link_file path_info parent_info capsule_id size t in
  drop_capsule old_capsule ;;;
  nfs_persist ;;;
  ret capsule_id.

Definition write_file (id : CapsuleId) (now ts : option Z) (path : string) (data : bytes) :
    M NfsView Error CapsuleId :=
  let! (path_info, parent_info, capsule_id) := write_file_store id now path data in
  write_file_link path_info parent_info capsule_id (lenZ data) (unix_timestamp ts).

(** *** Reading *)
Definition find_node (path : string) (missing : string) : M NfsView Error NfsNode :=
  let! path_info := lift (normalize_path path) in
  let! v := gets (λ v, v) in
  lift (ok_or (nodes v !! np_full path_info) (Msg missing)).

Definition read_file (path : string) : M NfsView Error bytes :=
  let! node := find_node path "No such file" in
  match node_kind node with
  | File capsule_id _ => on_capsules (svc_read capsule_id)
  | Directory => fail (Msg "Path is a directory")
  end.

Definition nfs_read_range (path : string) (offset len : Z) : M NfsView Error bytes :=
  let! node := find_node path "No such file" in
  match node_kind node with
  | File capsule_id size =>
      if size <? u64_add offset len then fail (Msg "Read beyond end of file")
      else on_capsules (svc_range capsule_id offset len)
  | Directory => fail (Msg "Path is a directory")
  end.

Definition metadata (path : string) : M NfsView Error NfsEntry :=
  let! node := find_node path "No such path" in
  ret (to_entry node).

(** *** Directories *)
Definition mkdir (ts : option Z) (path : string) : M NfsView Error unit :=
  let! path_info := lift (normalize_path path) in
  on_nodes (ensure_directory path_info (unix_timestamp ts)) ;;;
  nfs_persist.

(** The write-locked region of [delete]: the capsule of a removed file. *)
Definition unlink (path_info : NormalizedPath) (t : Z) : M NfsView Error (option CapsuleId) :=
  let! v := gets (λ v, v) in
  let! node := lift (ok_or (nodes v !! np_full path_info) (Msg "No such path")) in
  let! removed :=
    match node_kind node with
    | Directory =>
        let prefix := np_full path_info +:+ "/" in
        if existsb (str_prefix prefix) (btree_iter (nodes v)).*1
        then fail (Msg "Directory not empty") else ret None
    | File capsule_id _ => ret (Some capsule_id)
    end in
  on_nodes (modify (λ ns,
    let ns := delete (np_full path_info) ns in
    match parent_path path_info with
    | Some parent => touch_path parent t ns
    | None => ns
    end)) ;;;
  ret removed.

Definition nfs_delete (ts : option Z) (path : string) : M NfsView Error unit :=
  let! path_info := lift (normalize_path path) in
  if is_root path_info then fail (Msg "Cannot delete root directory")
  else
    let! removed := unlink path_info (unix_timestamp ts) in
    drop_capsule removed ;;;
    nfs_persist.

(** [path] is [prefix] and one more component. *)
Definition is_child (dir prefix path : string) : bool :=
  negb (bool_decide (path = dir)) && str_prefix prefix path &&
  (let remainder := String.substring (String.length prefix)
                      (String.length path - String.length prefix) path in
   negb (bool_decide (remainder = "") || has_char SLASH remainder)).

Definition list_directory (path : string) : M NfsView Error (list NfsEntry) :=
  let! path_info := lift (normalize_path path) in
  let! v := gets (λ v, v) in
  let! dir_node := lift (ok_or (nodes v !! np_full path_info) (Msg "No such directory")) in
  if negb (is_directory dir_node) then fail (Msg "Path is not a directory")
  else
    let prefix := if is_root path_info then "/" else np_full path_info +:+ "/" in
    ret (to_entry <$> (filter (λ kn, is_child (np_full path_info) prefix kn.1) (btree_iter (nodes v))).*2).
End nfs_view.

(** ** Lemmas on paths *)

(** A component as [normalize_path] yields it from a path without a backslash. *)
Definition good (c : string) : Prop :=
  c ≠ "" ∧ c ≠ "." ∧ c ≠ ".." ∧ has_char SLASH c = false ∧ has_char BACKSLASH c = false.

Lemma split_on_app c s r :
  has_char c s = false →
  split_on c (s +:+ r) =
    match split_on c r with p :: ps => (s +:+ p) :: ps | [] => [s] end.
Proof.
  induction s as [|x s IH]; intros Hs; [by destruct r; simpl; repeat case_match|].
  simpl in *. apply orb_false_iff in Hs as [Hx Hs]. rewrite Hx, IH by done.
  by destruct (split_on c r).
Qed.

Lemma split_on_nonempty c s : split_on c s ≠ [].
Proof. destruct s as [|x s]; [done|]. simpl. destruct (Ascii.eqb x c); [done|]. by destruct (split_on c s). Qed.

Lemma split_on_none c s : has_char c s = false → split_on c s = [s].
Proof.
  intros Hs. pose proof (split_on_app c s "" Hs) as Ha. simpl in Ha. by rewrite !append_empty in Ha.
Qed.

Lemma join_cons x y l : join (x :: y :: l) = x +:+ String SLASH (join (y :: l)).
Proof. done. Qed.

Lemma split_on_join l :
  l ≠ [] → Forall (λ c, has_char SLASH c = false) l → split_on SLASH (join l) = l.
Proof.
  intros Hne Hf. induction Hf as [|x l Hx Hf IH]; [done|]. destruct l as [|y l].
  - by apply split_on_none.
  - rewrite join_cons, split_on_app by done. cbn [split_on]. rewrite Ascii.eqb_refl, IH by done.
    by rewrite append_empty.
Qed.

(** Parts inherit the absence of a character, and have no separator. *)
Lemma split_on_parts c d s :
  has_char d s = false →
  Forall (λ p, has_char c p = false ∧ has_char d p = false) (split_on c s).
Proof.
  induction s as [|x s IH]; simpl; intros Hs; [by repeat constructor|].
  apply orb_false_iff in Hs as [Hx Hs]. specialize (IH Hs).
  destruct (Ascii.eqb x c) eqn:Hxc; [by constructor|].
  destruct (split_on c s) as [|p ps]; [constructor; [|done]; simpl; by rewrite Hxc, Hx|].
  inversion IH as [|? ? [Hp1 Hp2] Hps]; subst. constructor; [|done]. simpl. by rewrite Hxc, Hx, Hp1, Hp2.
Qed.

Lemma replace_char_id a b s : has_char a s = false → replace_char a b s = s.
Proof.
  induction s as [|x s IH]; [done|]. simpl. intros [Hx Hs]%orb_false_iff. by rewrite Hx, IH.
Qed.

Definition good_component (c : Component) : Prop :=
  match c with
  | Normal p => good p
  | _ => True
  end.

Lemma component_of_good p :
  has_char SLASH p = false → has_char BACKSLASH p = false → Forall good_component (component_of p).
Proof.
  intros ??. unfold component_of. repeat case_bool_decide; simpl; repeat constructor; done.
Qed.

Lemma components_good ps :
  Forall (λ p, has_char SLASH p = false ∧ has_char BACKSLASH p = false) ps →
  Forall good_component (ps ≫= component_of).
Proof.
  induction 1 as [|p ps [? ?] Hps IH]; [constructor|]. simpl. apply Forall_app.
  split; [by apply component_of_good|done].
Qed.

Lemma path_components_good s :
  has_char BACKSLASH s = false → Forall good_component (path_components s).
Proof.
  intros Hs. pose proof (split_on_parts SLASH BACKSLASH s Hs) as Hp. unfold path_components.
  destruct (is_absolute s); [constructor; [done|by apply components_good]|].
  destruct (split_on SLASH s) as [|p ps]; [constructor|]. inversion Hp as [|? ? [? ?] Hps]; subst.
  apply Forall_app. split; [|by apply components_good].
  case_bool_decide; [by repeat constructor|by apply component_of_good].
Qed.

Lemma Forall_take {A : Type} (Q : A → Prop) n l : Forall Q l → Forall Q (take n l).
Proof. intros Hf. revert n. induction Hf; intros [|n]; simpl; constructor; auto. Qed.

Lemma normalize_steps_good cs acc :
  Forall good_component cs → Forall good acc.2 → Forall good (foldl normalize_step acc cs).2.
Proof.
  intros Hf. revert acc. induction Hf as [|c cs Hc Hf IH]; intros acc Ha; [done|]. simpl.
  apply IH. destruct acc as [absolute l], c as [p| | | |p]; simpl in *; try done.
  - by apply Forall_take.
  - destruct Hc as (H1 & H2 & H3 & H4 & H5). rewrite replace_char_id by done.
    rewrite bool_decide_false by done. apply Forall_app. split; [done|]. by repeat constructor.
Qed.

(** Normalisation always succeeds; without backslashes its components are good. *)
Lemma normalize_path_ok path :
  ∃ l, normalize_path path = Ok (mkNormalizedPath (full_path l) l) ∧
    (has_char BACKSLASH path = false → Forall good l).
Proof.
  unfold normalize_path.
  destruct (foldl normalize_step (false, []) _) as [absolute l] eqn:Hf. exists l.
  split; [by destruct absolute|]. intros Hb.
  change l with (absolute, l).2. rewrite <- Hf. apply normalize_steps_good; [|constructor].
  apply path_components_good. by case_bool_decide.
Qed.

Lemma component_of_id p : good p → component_of p = [Normal p].
Proof. intros (H1 & H2 & H3 & _). unfold component_of. by rewrite !bool_decide_false. Qed.

Lemma components_id l : Forall good l → l ≫= component_of = Normal <$> l.
Proof. induction 1 as [|p l Hp Hl IH]; [done|]. rewrite bind_cons, fmap_cons.
  by rewrite component_of_id, IH. Qed.

Lemma normalize_normals absolute acc l :
  Forall good l → foldl normalize_step (absolute, acc) (Normal <$> l) = (absolute, acc ++ l).
Proof.
  intros Hf. revert acc. induction Hf as [|p l (H1 & _ & _ & _ & H5) Hl IH]; intros acc; simpl.
  - by rewrite app_nil_r.
  - rewrite replace_char_id by done. rewrite bool_decide_false by done. rewrite IH.
    by rewrite <- app_assoc.
Qed.

Lemma good_no_slash l : Forall good l → Forall (λ c, has_char SLASH c = false) l.
Proof. intros Hf. eapply Forall_impl; [done|]. by intros c (_ & _ & _ & ? & _). Qed.

(** A full path normalises to itself. *)
Lemma normalize_full l : Forall good l → normalize_path (full_path l) = Ok (mkNormalizedPath (full_path l) l).
Proof.
  intros Hf. destruct l as [|x l]; [done|]. unfold normalize_path, full_path.
  rewrite bool_decide_false by done. change ("/" +:+ join (x :: l)) with (String SLASH (join (x :: l))).
  unfold path_components. cbn [is_absolute split_on]. rewrite Ascii.eqb_refl.
  rewrite split_on_join by (done || by apply good_no_slash).
  change (("" :: x :: l) ≫= component_of) with ((x :: l) ≫= component_of).
  rewrite components_id by done. cbn [foldl normalize_step]. by rewrite normalize_normals.
Qed.

Lemma full_path_inj l1 l2 : Forall good l1 → Forall good l2 → full_path l1 = full_path l2 → l1 = l2.
Proof.
  intros H1 H2 He. pose proof (normalize_full l1 H1) as E1. rewrite He, normalize_full in E1 by done.
  by injection E1.
Qed.

Lemma full_path_snoc l x : "/" +:+ join (l ++ [x]) = full_path (l ++ [x]).
Proof. by destruct l. Qed.

(** The parent of a path is the path without its last component. *)
Lemma parent_path_snoc l x :
  parent_path (mkNormalizedPath (full_path (l ++ [x])) (l ++ [x])) = Some (full_path l).
Proof.
  unfold parent_path. cbn [np_components]. destruct l as [|y l]; [done|].
  destruct l as [|z l]; [done|]. cbn [app].
  replace (length (y :: z :: l ++ [x]) - 1)%nat with (length (y :: z :: l)).
  - change (y :: z :: l ++ [x]) with ((y :: z :: l) ++ [x]). by rewrite take_app_length.
  - simpl. rewrite length_app. simpl. lia.
Qed.

(** ** The namespace as a tree *)
Section nfs_tree.
Implicit Types ns : Nodes.
Implicit Types l : list string.

(** What is at the path with components [l]. *)
Definition kind_at ns l : option NfsNodeKind := node_kind <$> ns !! full_path l.

(** Every node sits at a full path of good components, and says so. *)
Definition labels ns : Prop :=
  ∀ k n, ns !! k = Some n →
    node_path n = k ∧ ∃ l, Forall good l ∧ k = full_path l ∧ node_name n = default "/" (last l).

(** The root is a directory, and whatever is in the tree is in a directory. *)
Definition tree ns : Prop :=
  kind_at ns [] = Some Directory ∧
  ∀ l x k, Forall good (l ++ [x]) → kind_at ns (l ++ [x]) = Some k → kind_at ns l = Some Directory.

(** Directories above a node. *)
Lemma tree_prefix ns l l' k :
  tree ns → Forall good (l ++ l') → l' ≠ [] → kind_at ns (l ++ l') = Some k →
  kind_at ns l = Some Directory.
Proof.
  intros [Hroot Ht]. revert k. induction l' as [|x l' IH] using rev_ind; [done|].
  intros k Hg _ Hk. rewrite app_assoc in Hg, Hk. pose proof (Ht _ _ _ Hg Hk) as Hd.
  destruct l' as [|y l']; [by rewrite app_nil_r in Hd|].
  eapply IH; [|done|exact Hd]. by apply Forall_app in Hg as [? _].
Qed.

Lemma kind_at_insert ns l l' n :
  Forall good l → Forall good l' →
  kind_at (<[full_path l := n]> ns) l' =
    if decide (l' = l) then Some (node_kind n) else kind_at ns l'.
Proof.
  intros Hl Hl'. unfold kind_at. case_decide as Hd.
  - subst l'. by rewrite lookup_insert_eq.
  - rewrite lookup_insert_ne; [done|]. intros He. apply Hd. by apply full_path_inj.
Qed.

Lemma labels_insert ns l n :
  labels ns → Forall good l → node_path n = full_path l → node_name n = default "/" (last l) →
  labels (<[full_path l := n]> ns).
Proof.
  intros Hl Hg Hp Hn k m [[<- <-]|[_ Hm]]%lookup_insert_Some; [|by apply Hl].
  split; [done|]. by exists l.
Qed.

(** Touching a node changes times only. *)
Lemma kind_at_touch ns k n t l : ns !! k = Some n → kind_at (<[k := touch t n]> ns) l = kind_at ns l.
Proof.
  intros Hn. unfold kind_at. destruct (decide (k = full_path l)) as [<-|Hne].
  - by rewrite lookup_insert_eq, Hn.
  - by rewrite lookup_insert_ne.
Qed.

Lemma labels_touch ns k n t : ns !! k = Some n → labels ns → labels (<[k := touch t n]> ns).
Proof. intros Hn Hl k' m [[<- <-]|[_ Hm]]%lookup_insert_Some; [apply (Hl k n Hn)|by apply Hl]. Qed.

Lemma touch_path_spec k t ns :
  labels ns → labels (touch_path k t ns) ∧ ∀ l, kind_at (touch_path k t ns) l = kind_at ns l.
Proof.
  intros Hl. unfold touch_path. destruct (ns !! k) as [n|] eqn:Hn; [|done].
  split; [by apply labels_touch|]. intros l. by apply kind_at_touch.
Qed.

Lemma ensure_root_spec t ns :
  labels ns → tree ns →
  labels (ensure_root_node t ns) ∧ ∀ l, Forall good l → kind_at (ensure_root_node t ns) l = kind_at ns l.
Proof.
  intros Hl [Hr _]. unfold ensure_root_node. unfold kind_at, full_path in Hr.
  destruct (ns !! "/") as [n|] eqn:Hn; [|done].
  split; [by apply labels_touch|]. intros l _. by apply kind_at_touch.
Qed.

(** [ns'] is [ns] with the directories [l] goes through. *)
Definition with_dirs ns l ns' : Prop :=
  labels ns' ∧ ∀ l', Forall good l' →
    kind_at ns' l' = if decide (l' `prefix_of` l) then Some Directory else kind_at ns l'.

Lemma prefix_snoc l' l (x : string) : l' `prefix_of` l ++ [x] ↔ l' `prefix_of` l ∨ l' = l ++ [x].
Proof.
  split.
  - intros [r Hr]. destruct r as [|y r _] using rev_ind; [right; by rewrite app_nil_r in Hr|].
    rewrite app_assoc in Hr. apply app_inj_tail in Hr as [-> _]. left. by exists r.
  - intros [Hp| ->]; [by apply prefix_app_r|done].
Qed.

Lemma ensure_part_spec t ns cur x ns1 :
  Forall good (cur ++ [x]) → with_dirs ns cur ns1 →
  wp (ensure_part t cur x)
    (λ cur' ns2, cur' = cur ++ [x] ∧ with_dirs ns (cur ++ [x]) ns2 ∧
       ∀ c sz, kind_at ns (cur ++ [x]) ≠ Some (File c sz))
    (λ _ ns2, ns2 = ns1 ∧ ∃ c sz, kind_at ns (cur ++ [x]) = Some (File c sz)) ns1.
Proof.
  intros Hg [Hl Hk]. unfold ensure_part. rewrite full_path_snoc. unfold wp. cbv [bind gets].
  assert (Forall good cur) as Hgc by (by apply Forall_app in Hg as [? _]).
  assert (∀ n, node_kind n = Directory → node_path n = full_path (cur ++ [x]) →
    node_name n = x → with_dirs ns (cur ++ [x]) (<[full_path (cur ++ [x]) := n]> ns1)) as Hins.
  { intros n Hd Hp Hn. split.
    - apply labels_insert; [done|done|done|]. by rewrite last_snoc.
    - intros l' Hl'. rewrite kind_at_insert by done. case_decide as H1.
      + subst l'. rewrite decide_True by done. by rewrite Hd.
      + rewrite Hk by done. destruct (decide (l' `prefix_of` cur)) as [Hp'|Hp'].
        * rewrite decide_True; [done|]. apply prefix_snoc. by left.
        * rewrite decide_False; [done|]. intros [?|?]%prefix_snoc; done. }
  assert (kind_at ns (cur ++ [x]) = node_kind <$> ns1 !! full_path (cur ++ [x])) as Hkx.
  { pose proof (Hk (cur ++ [x]) Hg) as Hkx. rewrite decide_False in Hkx; [done|].
    intros [r Hr]. apply (f_equal length) in Hr. rewrite !length_app in Hr. simpl in Hr. lia. }
  rewrite Hkx. destruct (ns1 !! full_path (cur ++ [x])) as [node|] eqn:Hn; cbv [modify ret fail].
  - destruct (is_directory node) eqn:Hd.
    + split; [done|]. split; [|intros c sz; simpl; unfold is_directory in Hd; by destruct (node_kind node)].
      apply Hins; [by unfold is_directory in Hd; destruct (node_kind node) eqn:E|..].
      * by apply (Hl _ _ Hn).
      * destruct (Hl _ _ Hn) as (_ & l0 & Hg0 & He & Hnm). apply full_path_inj in He as <-; [|done..].
        simpl. by rewrite Hnm, last_snoc.
    + split; [done|]. unfold is_directory in Hd. destruct (node_kind node) as [|c sz] eqn:E; [done|].
      exists c, sz. simpl. by rewrite E.
  - split; [done|]. split; [by apply Hins|done].
Qed.

(** [ensure_directory]: the directories down to [l], unless a file is in the way - then
    the tree stays as it was. *)
Lemma ensure_directory_spec t ns l :
  labels ns → tree ns → Forall good l →
  wp (ensure_directory (mkNormalizedPath (full_path l) l) t)
    (λ _ ns', with_dirs ns l ns' ∧
       ∀ p, p `prefix_of` l → ∀ c sz, kind_at ns p ≠ Some (File c sz))
    (λ _ ns', labels ns' ∧ (∀ l', Forall good l' → kind_at ns' l' = kind_at ns l') ∧
       ∃ p c sz, p `prefix_of` l ∧ kind_at ns p = Some (File c sz)) ns.
Proof.
  intros Hl Ht Hg. destruct (ensure_root_spec t ns Hl Ht) as [Hl1 Hk1]. unfold ensure_directory.
  apply wp_bind. unfold wp at 1, modify. set (ns1 := ensure_root_node t ns) in *.
  apply wp_bind. eapply wp_mono.
  - apply (wp_foldM (λ cur rest ns', cur ++ rest = l ∧ with_dirs ns cur ns' ∧
        ∀ p, p `prefix_of` cur → ∀ c sz, kind_at ns p ≠ Some (File c sz))
      (λ _ ns', labels ns' ∧ (∀ l', Forall good l' → kind_at ns' l' = kind_at ns l') ∧
         ∃ p c sz, p `prefix_of` l ∧ kind_at ns p = Some (File c sz))).
    + intros cur x rest ns2 (He & Hw & Hnf). rewrite cons_middle, app_assoc in He.
      assert (Forall good (cur ++ [x])) as Hgx by (rewrite <- He in Hg; by apply Forall_app in Hg as [? _]).
      assert (with_dirs ns cur ns2) as [Hl2 Hk2] by done.
      eapply wp_mono; [by apply (ensure_part_spec t ns)|..].
      * intros cur' ns3 (-> & Hw' & Hx). split; [done|]. split; [done|]. intros p Hp c sz Hf.
        apply prefix_snoc in Hp as [Hp| ->]; [by eapply Hnf|by eapply Hx].
      * intros e ns3 (-> & c & sz & Hf). split; [done|].
        assert (∀ p, p `prefix_of` cur → kind_at ns p = Some Directory) as Hdir.
        { intros p [r ->]. eapply (tree_prefix ns p (r ++ [x])); [done| | |].
          - by rewrite app_assoc.
          - by destruct r.
          - by rewrite app_assoc. }
        split; [|exists (cur ++ [x]), c, sz; split; [by rewrite <- He; apply prefix_app_r|done]].
        intros l' Hl'. rewrite Hk2 by done. case_decide; [by rewrite Hdir|done].
    + split; [done|]. split.
      * split; [done|]. intros l' Hl'. rewrite Hk1 by done. case_decide as Hp; [|done].
        apply prefix_nil_inv in Hp as ->. apply Ht.
      * intros p ->%prefix_nil_inv c sz. by rewrite (proj1 Ht).
  - intros cur ns2 (He & Hw & Hnf). rewrite app_nil_r in He. subst cur. unfold wp, ret. done.
  - done.
Qed.
End nfs_tree.

(** ** Prefixes of path strings *)
Lemma substring_all s : String.substring 0 (String.length s) s = s.
Proof. induction s as [|x s IH]; [done|]. simpl. by rewrite IH. Qed.

Lemma substring_app p r :
  String.substring (String.length p) (String.length (p +:+ r) - String.length p) (p +:+ r) = r.
Proof.
  induction p as [|x p IH].
  - change ("" +:+ r) with r. simpl. rewrite Nat.sub_0_r. apply substring_all.
  - rewrite append_cons. simpl. exact IH.
Qed.

(** "/" and the components, each followed by "/": the prefix of what is below. *)
Definition dir_prefix (l : list string) : string :=
  if bool_decide (l = []) then "/" else full_path l +:+ "/".

Lemma join_app x l y r : join ((x :: l) ++ y :: r) = join (x :: l) +:+ String SLASH (join (y :: r)).
Proof.
  revert x. induction l as [|z l IH]; intros x; [done|].
  change ((x :: z :: l) ++ y :: r) with (x :: z :: (l ++ y :: r)). rewrite join_cons.
  change (z :: l ++ y :: r) with ((z :: l) ++ y :: r). rewrite IH, join_cons.
  by rewrite append_assoc, append_cons.
Qed.

Lemma full_path_below l y r : full_path (l ++ y :: r) = dir_prefix l +:+ join (y :: r).
Proof.
  unfold dir_prefix. destruct l as [|x l]; [done|]. rewrite bool_decide_false by done.
  change (full_path ((x :: l) ++ y :: r)) with ("/" +:+ join ((x :: l) ++ y :: r)).
  rewrite join_app. unfold full_path. by rewrite !append_assoc.
Qed.

Lemma split_full l : l ≠ [] → Forall good l → split_on SLASH (full_path l) = "" :: l.
Proof.
  intros Hne Hg. destruct l as [|x l]; [done|]. change (full_path (x :: l)) with (String SLASH (join (x :: l))).
  cbn [split_on]. rewrite Ascii.eqb_refl, split_on_join; [done|done|by apply good_no_slash].
Qed.

Lemma split_dir_prefix l r :
  Forall good l → split_on SLASH (dir_prefix l +:+ r) = "" :: l ++ split_on SLASH r.
Proof.
  intros Hg. unfold dir_prefix. destruct l as [|x l].
  - rewrite bool_decide_true by done. change ("/" +:+ r) with (String SLASH r). cbn [split_on]. by rewrite Ascii.eqb_refl.
  - rewrite bool_decide_false by done. unfold full_path. rewrite !append_assoc.
    change ("/" +:+ join (x :: l) +:+ "/" +:+ r) with (String SLASH (join (x :: l) +:+ String SLASH r)).
    cbn [split_on]. rewrite Ascii.eqb_refl. f_equal. clear - Hg. revert x Hg.
    induction l as [|y l IH]; intros x [(_ & _ & _ & Hx & _) Hg]%Forall_cons.
    + change (join [x]) with x. rewrite split_on_app by done. cbn [split_on]. rewrite Ascii.eqb_refl.
      by rewrite append_empty.
    + rewrite join_cons, append_assoc, split_on_app by done. rewrite append_cons. cbn [split_on].
      rewrite Ascii.eqb_refl, IH by done. by rewrite append_empty.
Qed.

(** What a path below a directory looks like. *)
Lemma below_iff l q r :
  Forall good l → Forall good q → q ≠ [] → full_path q = dir_prefix l +:+ r →
  q = l ++ split_on SLASH r.
Proof.
  intros Hl Hq Hne He. pose proof (split_full q Hne Hq) as Hs.
  rewrite He, split_dir_prefix in Hs by done. by injection Hs.
Qed.

(** [is_child] holds of exactly the paths with one more component. *)
Lemma is_child_iff l q :
  Forall good l → Forall good q →
  is_child (full_path l) (dir_prefix l) (full_path q) = true ↔ ∃ y, q = l ++ [y].
Proof.
  intros Hl Hq. unfold is_child. rewrite !andb_true_iff, !negb_true_iff, orb_false_iff. split.
  - intros [[Hne [r Hr]%str_prefix_app] [Hr0 Hr1]]. rewrite Hr, substring_app in Hr0, Hr1.
    apply bool_decide_eq_false in Hne, Hr0. exists r. destruct (decide (q = [])) as [->|Hqn].
    + exfalso. destruct l as [|x l]; [done|]. unfold dir_prefix in Hr. rewrite bool_decide_false in Hr by done.
      apply (f_equal String.length) in Hr. rewrite !length_append in Hr. simpl in Hr. lia.
    + rewrite (below_iff l q r) by done. by rewrite split_on_none.
  - intros [y ->]. assert (good y) as (Hy0 & _ & _ & Hy1 & _).
    { apply Forall_app in Hq as [_ Hq]. by apply Forall_cons in Hq as [? _]. }
    pose proof (full_path_below l y [] : _ = dir_prefix l +:+ y) as Hb. rewrite Hb. split; [split|].
    + apply bool_decide_eq_false. intros He. rewrite <- Hb in He.
      apply full_path_inj in He; [|done..]. apply (f_equal length) in He.
      rewrite length_app in He. simpl in He. lia.
    + apply str_prefix_app. by exists y.
    + rewrite substring_app. by rewrite bool_decide_false.
Qed.

(** A key below a directory starts with its prefix. *)
Lemma str_prefix_below l y r : str_prefix (dir_prefix l) (full_path (l ++ y :: r)) = true.
Proof. apply str_prefix_app. rewrite full_path_below. by eexists. Qed.

