(* ===== verification/NfsTheorems.v ===== *)
(** The NFS view (NfsView.v) as an abstract namespace: a tree of directories and files
    with their bytes.  The invariant of the table and what every call does to the tree,
    under any I/O failure. *)
From S2P Require Import Prelude Errors Common Externals CapsuleService BlockView NfsView.

(** ** The abstract namespace *)
Inductive Obj :=
| ODir
| OFile (data : bytes).

Abbreviation Tree := (list string → option Obj).

Section nfs_spec.
Context {P : Type} `{ServiceLaws P} {JN : JsonDoc Nodes}.
Implicit Types v : NfsView (P := P).
Implicit Types ns : Nodes.
Implicit Types l : list string.

Definition obj (G : gmap CapsuleId bytes) v l : option Obj :=
  match kind_at (nodes v) l with
  | Some Directory => Some ODir
  | Some (File c _) => OFile <$> G !! c
  | None => None
  end.

(** Every file is backed by a live capsule of its size, and no capsule by two. *)
Definition files_ok (G : gmap CapsuleId bytes) ns : Prop :=
  (∀ l c sz, Forall good l → kind_at ns l = Some (File c sz) →
     ∃ d, G !! c = Some d ∧ lenZ d = sz ∧ sz < 2 ^ 64) ∧
  ∀ l1 l2 c s1 s2, Forall good l1 → Forall good l2 →
    kind_at ns l1 = Some (File c s1) → kind_at ns l2 = Some (File c s2) → l1 = l2.

Record nfs_inv (G : gmap CapsuleId bytes) v : Prop := {
  ni_holds : holds G (nfs_pipeline v);
  ni_labels : labels (nodes v);
  ni_tree : tree (nodes v);
  ni_files : files_ok G (nodes v);
}.

(** [c] backs no file. *)
Definition unlinked (c : CapsuleId) ns : Prop :=
  ∀ l c' sz, Forall good l → kind_at ns l = Some (File c' sz) → c' ≠ c.

Definition same_objs G v G' v' : Prop := ∀ l, Forall good l → obj G' v' l = obj G v l.

(** The tree depends on the kinds of the paths only. *)
Lemma tree_ext ns ns' :
  (∀ l, Forall good l → kind_at ns' l = kind_at ns l) → tree ns → tree ns'.
Proof.
  intros He [Hr Ht]. split; [rewrite He; [done|constructor]|]. intros l x k Hg.
  rewrite !He; [by apply Ht|by apply Forall_app in Hg as [? _]|done].
Qed.

Lemma files_ok_ext G ns ns' :
  (∀ l, Forall good l → kind_at ns' l = kind_at ns l) → files_ok G ns → files_ok G ns'.
Proof.
  intros He [Hf Hi]. split.
  - intros l c sz Hg. rewrite He by done. by apply Hf.
  - intros l1 l2 c s1 s2 H1 H2. rewrite !He by done. by apply Hi.
Qed.

Lemma obj_ext G v v' l : kind_at (nodes v') l = kind_at (nodes v) l → obj G v' l = obj G v l.
Proof. unfold obj. by intros ->. Qed.

(** Capsules come and go without touching the files. *)
Lemma files_ok_insert_capsule G c d ns : G !! c = None → files_ok G ns → files_ok (<[c := d]> G) ns.
Proof.
  intros Hc [Hf Hi]. split; [|done]. intros l c' sz Hg Hk. destruct (Hf l c' sz Hg Hk) as (d' & Hd & ?).
  exists d'. rewrite lookup_insert_ne; [done|]. intros ->. congruence.
Qed.

Lemma files_ok_delete_capsule G c ns : unlinked c ns → files_ok G ns → files_ok (delete c G) ns.
Proof.
  intros Hu [Hf Hi]. split; [|done]. intros l c' sz Hg Hk. destruct (Hf l c' sz Hg Hk) as (d' & Hd & ?).
  exists d'. rewrite lookup_delete_ne; [done|]. intros ->. by apply (Hu l c' sz Hg Hk).
Qed.

Lemma fresh_unlinked G c ns : files_ok G ns → G !! c = None → unlinked c ns.
Proof. intros [Hf _] Hc l c' sz Hg Hk ->. destruct (Hf l c sz Hg Hk) as (d & Hd & _). congruence. Qed.

Lemma obj_insert_capsule G v v' c d :
  nfs_inv G v → G !! c = None → nodes v' = nodes v → same_objs G v (<[c := d]> G) v'.
Proof.
  intros Hi Hc Hn l Hg. unfold obj. rewrite Hn. destruct (kind_at (nodes v) l) as [[|c' sz]|] eqn:Hk; try done.
  rewrite lookup_insert_ne; [done|]. intros Heq.
  by apply (fresh_unlinked G c _ (ni_files _ _ Hi) Hc l c' sz Hg Hk).
Qed.

Lemma obj_delete_capsule G v v' c :
  unlinked c (nodes v) → nodes v' = nodes v → same_objs G v (delete c G) v'.
Proof.
  intros Hu Hn l Hg. unfold obj. rewrite Hn. destruct (kind_at (nodes v) l) as [[|c' sz]|] eqn:Hk; try done.
  rewrite lookup_delete_ne; [done|]. intros Heq. by apply (Hu l c' sz Hg Hk).
Qed.

(** *** The calls on the pipeline and the file *)
Lemma wp_on_capsules {A : Type} (m : M P Error A) Q R v :
  wp m (λ a p, Q a (set_nfs_pipeline p v)) (λ e p, R e (set_nfs_pipeline p v)) (nfs_pipeline v) →
  wp (on_capsules m) Q R v.
Proof. apply wp_zoom. Qed.

Lemma wp_on_nodes {A : Type} (m : M Nodes Error A) Q R v :
  wp m (λ a ns, Q a (set_nodes ns v)) (λ e ns, R e (set_nodes ns v)) (nodes v) →
  wp (on_nodes m) Q R v.
Proof. apply wp_zoom. Qed.

Definition same_nfs v v' : Prop := nfs_pipeline v' = nfs_pipeline v ∧ nodes v' = nodes v.

Lemma nfs_inv_same G v v' : same_nfs v v' → nfs_inv G v → nfs_inv G v' ∧ same_objs G v G v'.
Proof.
  intros [Hp Hn] []. split; [by constructor; rewrite ?Hp, ?Hn|].
  intros l _. apply obj_ext. by rewrite Hn.
Qed.

Lemma nfs_persist_spec v : wp nfs_persist (λ _, same_nfs v) (λ _, same_nfs v) v.
Proof.
  unfold wp, nfs_persist. destruct (nfs_namespace v) as [old|]; [|done].
  by destruct (next_fault (nfs_faults v)) as [[k|] fs].
Qed.

Lemma drop_capsule_spec G v o :
  nfs_inv G v → (∀ c, o = Some c → unlinked c (nodes v)) →
  wp (drop_capsule o)
    (λ _ v', nodes v' = nodes v ∧ ∃ G', nfs_inv G' v' ∧ same_objs G v G' v') (λ _ _, False) v.
Proof.
  intros [Hh Hl Ht Hf] Ho. unfold drop_capsule. destruct o as [c|].
  2:{ unfold wp, ret. split; [done|]. by exists G. }
  specialize (Ho c eq_refl). apply wp_bind, wp_attempt, wp_on_capsules.
  pose proof (svc_delete_spec G (nfs_pipeline v) c Hh) as Hd.
  eapply wp_mono; [exact Hd|..]; intros a p' Hp'; unfold wp, ret; split; try done;
    exists (delete c G);
    (split; [constructor; [done|done|done|by apply files_ok_delete_capsule]|by apply obj_delete_capsule]).
Qed.

(** What follows the change of the table: dropping a capsule, saving. *)
Lemma settle_spec {A : Type} G v o (a : A) :
  nfs_inv G v → (∀ c, o = Some c → unlinked c (nodes v)) →
  wp (drop_capsule o ;;; nfs_persist ;;; ret a)
    (λ a' v', a' = a ∧ ∃ G', nfs_inv G' v' ∧ same_objs G v G' v')
    (λ _ v', ∃ G', nfs_inv G' v' ∧ same_objs G v G' v') v.
Proof.
  intros Hi Ho. apply wp_bind. eapply wp_mono; [by apply (drop_capsule_spec G)| |done].
  intros _ v1 (_ & G1 & Hi1 & Hs1). apply wp_bind.
  eapply wp_mono; [apply nfs_persist_spec|..]; intros ? v2 Hv2;
    destruct (nfs_inv_same G1 v1 v2 Hv2 Hi1) as [Hi2 Hs2].
  - unfold wp, ret. split; [done|]. exists G1. split; [done|]. intros l Hg. by rewrite Hs2, Hs1.
  - exists G1. split; [done|]. intros l Hg. by rewrite Hs2, Hs1.
Qed.
End nfs_spec.

(** ** The calls *)
Section nfs_calls.
Context {P : Type} `{ServiceLaws P} {JN : JsonDoc Nodes}.
Implicit Types v : NfsView (P := P).
Implicit Types ns : Nodes.
Implicit Types l : list string.

(** The table after a file was linked at [l ++ [x]]. *)
Definition linked ns l (x : string) (c : CapsuleId) (sz : Z) ns' : Prop :=
  labels ns' ∧ ∀ l', Forall good l' →
    kind_at ns' l' = if decide (l' = l ++ [x]) then Some (File c sz)
                     else if decide (l' `prefix_of` l) then Some Directory else kind_at ns l'.

Lemma snoc_not_prefix l (x : string) : ¬ l ++ [x] `prefix_of` l.
Proof. intros [r Hr]. apply (f_equal length) in Hr. rewrite !length_app in Hr. simpl in Hr. lia. Qed.

Lemma snoc_neq l (x : string) : l ≠ l ++ [x].
Proof. intros Hr. apply (f_equal length) in Hr. rewrite length_app in Hr. simpl in Hr. lia. Qed.

Lemma linked_tree ns l x c sz ns' :
  Forall good (l ++ [x]) → tree ns → kind_at ns (l ++ [x]) ≠ Some Directory →
  linked ns l x c sz ns' → tree ns'.
Proof.
  intros Hg [Hr Ht] Hnd [_ Hk]. assert (Forall good l) as Hgl by (by apply Forall_app in Hg as [? _]).
  split.
  - rewrite Hk by constructor. rewrite decide_False by (by destruct l).
    rewrite decide_True; [done|apply prefix_nil].
  - intros l1 y k Hg1. assert (Forall good l1) as Hgl1 by (by apply Forall_app in Hg1 as [? _]).
    rewrite !Hk by done. case_decide as H1.
    + apply app_inj_tail in H1 as [-> _]. intros _. rewrite decide_False by apply snoc_neq.
      by rewrite decide_True.
    + case_decide as H2.
      * intros _. assert (l1 `prefix_of` l) as Hp by (etrans; [|exact H2]; by apply prefix_app_r).
        rewrite decide_False, decide_True; [done|done|]. intros ->. by apply (snoc_not_prefix l x).
      * intros Hk1. pose proof (Ht l1 y k Hg1 Hk1) as Hd. rewrite decide_False.
        -- by case_decide.
        -- intros ->. done.
Qed.

Lemma linked_files G ns l x c d ns' :
  files_ok G ns → G !! c = Some d → lenZ d < 2 ^ 64 → unlinked c ns →
  Forall good (l ++ [x]) → linked ns l x c (lenZ d) ns' → files_ok G ns'.
Proof.
  intros [Hf Hi] Hd Hsz Hu Hg [_ Hk].
  assert (∀ l1 c1 s1, Forall good l1 → kind_at ns' l1 = Some (File c1 s1) →
    l1 = l ++ [x] ∧ c1 = c ∧ s1 = lenZ d ∨ kind_at ns l1 = Some (File c1 s1)) as Hcase.
  { intros l1 c1 s1 H1. rewrite Hk by done. repeat case_decide; [|done|by right].
    intros [= <- <-]. by left. }
  split.
  - intros l1 c1 s1 H1 [(-> & -> & ->)|Hold]%Hcase; [by exists d|by apply (Hf l1)|done].
  - intros l1 l2 c1 s1 s2 H1 H2 K1 K2. apply Hcase in K1, K2; [|done..].
    destruct K1 as [(-> & -> & _)|K1], K2 as [(-> & Hc & _)|K2]; [done| | |by eapply Hi].
    + by destruct (Hu l2 c s2 H2 K2).
    + subst c1. by destruct (Hu l1 c s1 H1 K1).
Qed.

(** The capsule of the file at [l], if there is one. *)
Definition capsule_at ns l : option CapsuleId :=
  match kind_at ns l with
  | Some (File c _) => Some c
  | _ => None
  end.

(** The table and the pipeline after the locked region of a write. *)
Lemma link_file_table v l x c sz t :
  labels (nodes v) → tree (nodes v) → Forall good (l ++ [x]) →
  wp (link_file (mkNormalizedPath (full_path (l ++ [x])) (l ++ [x])) (mkNormalizedPath (full_path l) l) c sz t)
    (λ o v', o = capsule_at (nodes v) (l ++ [x]) ∧ nfs_pipeline v' = nfs_pipeline v ∧
       linked (nodes v) l x c sz (nodes v') ∧
       ∀ p, p `prefix_of` l → ∀ c' sz', kind_at (nodes v) p ≠ Some (File c' sz'))
    (λ _ v', nfs_pipeline v' = nfs_pipeline v ∧ labels (nodes v') ∧
       (∀ l', Forall good l' → kind_at (nodes v') l' = kind_at (nodes v) l') ∧
       ∃ p c' sz', p `prefix_of` l ∧ kind_at (nodes v) p = Some (File c' sz')) v.
Proof.
  intros Hl Ht Hg. assert (Forall good l) as Hgl by (by apply Forall_app in Hg as [? _]).
  unfold link_file. apply wp_bind, wp_on_nodes.
  eapply wp_mono; [by apply (ensure_directory_spec t (nodes v) l)| |by intros e ns1 (? & ? & ?)].
  intros [] ns1 [[Hl1 Hk1] Hnf]. unfold wp. cbv [bind gets lift modify ret on_nodes zoom].
  assert (path_name (mkNormalizedPath (full_path (l ++ [x])) (l ++ [x])) = Some x) as ->.
  { unfold path_name. cbn [np_components]. apply last_snoc. }
  cbn [ok_or nodes set_nodes np_full nfs_pipeline].
  set (n := file_node (full_path (l ++ [x])) x c sz t). set (ns2 := <[full_path (l ++ [x]) := n]> ns1).
  assert (labels ns2) as Hl2 by (apply labels_insert; [done|done|done|by rewrite last_snoc]).
  destruct (touch_path_spec (full_path l) t ns2 Hl2) as [Hl3 Hk3].
  split_and!; [|done| |done].
  - unfold capsule_at. assert (kind_at (nodes v) (l ++ [x]) = kind_at ns1 (l ++ [x])) as ->.
    { rewrite Hk1 by done. by rewrite decide_False by apply snoc_not_prefix. }
    unfold kind_at. by destruct (ns1 !! full_path (l ++ [x])) as [m|].
  - split; [done|]. intros l' Hl'. rewrite Hk3. unfold ns2. rewrite kind_at_insert by done.
    case_decide; [done|]. by apply Hk1.
Qed.

Lemma link_file_spec G v l x c d t :
  nfs_inv G v → Forall good (l ++ [x]) → kind_at (nodes v) (l ++ [x]) ≠ Some Directory →
  G !! c = Some d → lenZ d < 2 ^ 64 → unlinked c (nodes v) →
  wp (link_file (mkNormalizedPath (full_path (l ++ [x])) (l ++ [x])) (mkNormalizedPath (full_path l) l)
        c (lenZ d) t)
    (λ o v', o = capsule_at (nodes v) (l ++ [x]) ∧ nfs_inv G v' ∧
       linked (nodes v) l x c (lenZ d) (nodes v') ∧
       ∀ p, p `prefix_of` l → ∀ c' sz, kind_at (nodes v) p ≠ Some (File c' sz))
    (λ _ v', nfs_inv G v' ∧ same_objs G v G v' ∧
       ∃ p c' sz, p `prefix_of` l ∧ kind_at (nodes v) p = Some (File c' sz)) v.
Proof.
  intros [Hh Hl Ht Hf] Hg Hnd Hc Hd Hu.
  eapply wp_mono; [by apply (link_file_table v l x c (lenZ d) t)|..].
  - intros o v' (-> & Hp & Hlk & Hnf). split; [done|]. split; [|done]. pose proof Hlk as [Hl' _].
    constructor; [by rewrite Hp|done|by eapply linked_tree|by eapply linked_files].
  - intros e v' (Hp & Hl1 & Hk1 & Hfile). split; [|split; [by intros l' Hl'; apply obj_ext, Hk1|done]].
    constructor; [by rewrite Hp|done|by eapply tree_ext|by eapply files_ok_ext].
Qed.

Lemma linked_obj G v v' l x c d :
  linked (nodes v) l x c (lenZ d) (nodes v') → G !! c = Some d →
  ∀ l', Forall good l' →
    obj G v' l' = if decide (l' = l ++ [x]) then Some (OFile d)
                  else if decide (l' `prefix_of` l) then Some ODir else obj G v l'.
Proof.
  intros [_ Hk] Hc l' Hl'. unfold obj. rewrite Hk by done. repeat case_decide; [|done..].
  by rewrite Hc.
Qed.

(** The replaced capsule backs no file any more. *)
Lemma linked_unlinked G v v' l x c (d : bytes) c0 :
  nfs_inv G v → Forall good (l ++ [x]) → unlinked c (nodes v) →
  linked (nodes v) l x c (lenZ d) (nodes v') → capsule_at (nodes v) (l ++ [x]) = Some c0 →
  unlinked c0 (nodes v').
Proof.
  intros Hi Hg Hu [_ Hk] Hc0 l' c' sz Hl' Hk'. rewrite Hk in Hk' by done. unfold capsule_at in Hc0.
  destruct (kind_at (nodes v) (l ++ [x])) as [[|c1 s1]|] eqn:H1; try done. injection Hc0 as ->.
  case_decide as Hd.
  - injection Hk' as <- <-. intros ->. by apply (Hu _ _ _ Hg H1).
  - case_decide; [done|]. intros ->. apply Hd.
    by apply (proj2 (ni_files _ _ Hi) l' (l ++ [x]) c0 sz s1).
Qed.

(** The components of a path. *)
Definition norm (path : string) : list string :=
  match normalize_path path with
  | Ok p => np_components p
  | _ => []
  end.

Lemma normalize_norm path :
  normalize_path path = Ok (mkNormalizedPath (full_path (norm path)) (norm path)) ∧
  (has_char BACKSLASH path = false → Forall good (norm path)).
Proof. unfold norm. destruct (normalize_path_ok path) as (l & -> & Hg). done. Qed.

(** A sound view of the abstract namespace [O]. *)
Definition shows (O : Tree) v : Prop :=
  ∃ G, nfs_inv G v ∧ ∀ l, Forall good l → obj G v l = O l.

(** A call that ends with the namespace as it was. *)
Definition unmoved G v v' : Prop := shows (obj G v) v'.

Lemma unmoved_refl G v : nfs_inv G v → unmoved G v v.
Proof. intros Hi. by exists G. Qed.

Lemma unmoved_trans G v v1 v' G1 : same_objs G v G1 v1 → unmoved G1 v1 v' → unmoved G v v'.
Proof. intros Hs (G' & Hi & Hs'). exists G'. split; [done|]. intros l Hg. by rewrite Hs', Hs. Qed.

Lemma write_file_store_spec G v id now path data :
  nfs_inv G v → has_char BACKSLASH path = false → accepts data (nfs_pipeline v) →
  wp (write_file_store id now path data)
    (λ r v', ∃ l x, norm path = l ++ [x] ∧
       r = (mkNormalizedPath (full_path (l ++ [x])) (l ++ [x]), mkNormalizedPath (full_path l) l, id) ∧
       nodes v' = nodes v ∧ kind_at (nodes v) (l ++ [x]) ≠ Some Directory ∧
       G !! id = None ∧ nfs_inv (<[id := data]> G) v')
    (λ _ v', unmoved G v v') v.
Proof.
  intros Hi Hb Ha. destruct (normalize_norm path) as [Hn Hg]. specialize (Hg Hb).
  unfold write_file_store. rewrite Hn. unfold wp. cbv [bind lift]. unfold is_root. cbn [np_components].
  destruct (norm path) as [|x l _] using rev_ind.
  { rewrite bool_decide_true by done. by apply unmoved_refl. }
  rewrite bool_decide_false by (by destruct l). rewrite parent_path_snoc. cbn [ok_or].
  assert (Forall good l) as Hgl by (by apply Forall_app in Hg as [? _]).
  rewrite normalize_full by done. unfold preflight. cbv [bind gets ret]. cbn [np_full].
  assert (∀ k, nodes v !! full_path (l ++ [x]) = k → node_kind <$> k = kind_at (nodes v) (l ++ [x])) as Hk
    by (by intros k <-).
  assert (kind_at (nodes v) (l ++ [x]) ≠ Some Directory →
    wp (let! capsule_id := on_capsules (svc_write id now data) in
        ret (mkNormalizedPath (full_path (l ++ [x])) (l ++ [x]), mkNormalizedPath (full_path l) l, capsule_id))
    (λ r v', ∃ l0 x0, l ++ [x] = l0 ++ [x0] ∧
       r = (mkNormalizedPath (full_path (l0 ++ [x0])) (l0 ++ [x0]), mkNormalizedPath (full_path l0) l0, id) ∧
       nodes v' = nodes v ∧ kind_at (nodes v) (l0 ++ [x0]) ≠ Some Directory ∧
       G !! id = None ∧ nfs_inv (<[id := data]> G) v')
    (λ _ v', unmoved G v v') v) as Hstore.
  { intros Hnd. pose proof Hi as [Hh Hl Ht Hf]. apply wp_bind, wp_on_capsules.
    eapply wp_mono; [by apply (svc_write_spec G)|..].
    - intros c' p' (-> & Hid & Hh'). unfold wp, ret. exists l, x. split_and!; try done.
      constructor; [done|done|done|by apply files_ok_insert_capsule].
    - intros e p' [Hh'|[Hid Hh']].
      + exists G. split; [by constructor|]. intros l' _. by apply obj_ext.
      + exists (<[id := data]> G). split; [|by apply obj_insert_capsule].
        constructor; [done|done|done|by apply files_ok_insert_capsule]. }
  destruct (nodes v !! full_path (l ++ [x])) as [n|] eqn:Hnode; specialize (Hk _ eq_refl).
  - destruct (is_directory n) eqn:Hd; cbv [fail]; [by apply unmoved_refl|].
    apply Hstore. rewrite <- Hk. unfold is_directory in Hd. simpl. by destruct (node_kind n).
  - apply Hstore. by rewrite <- Hk.
Qed.

(** *** The abstract namespace after a change *)
Definition with_parents l (O : Tree) : Tree := λ l', if decide (l' `prefix_of` l) then Some ODir else O l'.
Definition put l (o : option Obj) (O : Tree) : Tree := λ l', if decide (l' = l) then o else O l'.
Definition no_file_above l (O : Tree) : Prop := ∀ p d, p `prefix_of` l → O p ≠ Some (OFile d).
Definition empty_dir l (O : Tree) : Prop := ∀ y r, Forall good (l ++ y :: r) → O (l ++ y :: r) = None.

Lemma obj_file G v l c sz :
  nfs_inv G v → Forall good l → kind_at (nodes v) l = Some (File c sz) →
  ∃ d, G !! c = Some d ∧ lenZ d = sz ∧ sz < 2 ^ 64 ∧ obj G v l = Some (OFile d).
Proof.
  intros Hi Hg Hk. destruct (proj1 (ni_files _ _ Hi) l c sz Hg Hk) as (d & Hd & Hsz & Hlt).
  exists d. split_and!; try done. unfold obj. by rewrite Hk, Hd.
Qed.

Lemma obj_dir G v l : nfs_inv G v → Forall good l → obj G v l = Some ODir ↔ kind_at (nodes v) l = Some Directory.
Proof.
  intros Hi Hg. destruct (kind_at (nodes v) l) as [[|c sz]|] eqn:Hk.
  - unfold obj. by rewrite Hk.
  - destruct (obj_file G v l c sz Hi Hg Hk) as (d & _ & _ & _ & ->). done.
  - unfold obj. by rewrite Hk.
Qed.

Lemma no_file_above_obj G v l :
  (∀ p, p `prefix_of` l → ∀ c sz, kind_at (nodes v) p ≠ Some (File c sz)) → no_file_above l (obj G v).
Proof.
  intros Hn p d Hp. unfold obj. destruct (kind_at (nodes v) p) as [[|c sz]|] eqn:Hk; try done.
  by destruct (Hn p Hp c sz).
Qed.

Lemma shows_ext (O O' : Tree) v : (∀ l, Forall good l → O l = O' l) → shows O v → shows O' v.
Proof. intros He (G & Hi & HO). exists G. split; [done|]. intros l Hg. by rewrite HO, He. Qed.

Lemma Forall_prefix {A : Type} (Q : A → Prop) (l' r : list A) : l' `prefix_of` r → Forall Q r → Forall Q l'.
Proof. by intros [k ->] [? _]%Forall_app. Qed.

(** The tree that a write or a directory makes depends on the good paths only. *)
Lemma put_with_parents_ext l' l o (O O' : Tree) :
  (∀ p, Forall good p → O p = O' p) →
  ∀ p, Forall good p → put l' o (with_parents l O) p = put l' o (with_parents l O') p.
Proof. intros He p Hg. unfold put, with_parents. by repeat case_decide; auto. Qed.

Lemma no_file_above_ext l (O O' : Tree) :
  (∀ p, Forall good p → O p = O' p) → Forall good l → no_file_above l O → no_file_above l O'.
Proof. intros He Hg Hn p d Hp. rewrite <- He; [by apply Hn|by eapply Forall_prefix]. Qed.

(** The second half of a call: what [settle_spec] leaves, in terms of the tree. *)
Lemma settle_shows {A : Type} G v o (a : A) (O : Tree) :
  nfs_inv G v → (∀ c, o = Some c → unlinked c (nodes v)) →
  (∀ l, Forall good l → obj G v l = O l) →
  wp (drop_capsule o ;;; nfs_persist ;;; ret a)
    (λ a' v', a' = a ∧ shows O v') (λ _ v', shows O v') v.
Proof.
  intros Hi Ho HO. eapply wp_mono; [by apply (settle_spec G v o a)|..].
  - intros a' v' (-> & G' & Hi' & Hs). split; [done|]. exists G'. split; [done|]. intros l Hg.
    by rewrite Hs, HO.
  - intros e v' (G' & Hi' & Hs). exists G'. split; [done|]. intros l Hg. by rewrite Hs, HO.
Qed.

Lemma write_file_link_spec G v l x c d t :
  nfs_inv G v → Forall good (l ++ [x]) → kind_at (nodes v) (l ++ [x]) ≠ Some Directory →
  G !! c = Some d → lenZ d < 2 ^ 64 → unlinked c (nodes v) →
  wp (write_file_link (mkNormalizedPath (full_path (l ++ [x])) (l ++ [x]))
        (mkNormalizedPath (full_path l) l) c (lenZ d) t)
    (λ c' v', c' = c ∧ no_file_above l (obj G v) ∧
       shows (put (l ++ [x]) (Some (OFile d)) (with_parents l (obj G v))) v')
    (λ _ v', unmoved G v v' ∨ no_file_above l (obj G v) ∧
       shows (put (l ++ [x]) (Some (OFile d)) (with_parents l (obj G v))) v') v.
Proof.
  intros Hi Hg Hnd Hc Hd Hu. unfold write_file_link. apply wp_bind.
  eapply wp_mono; [by apply (link_file_spec G)|..].
  - intros o v1 (-> & Hi1 & Hlk & Hnf).
    assert (no_file_above l (obj G v)) as Hna by (by apply no_file_above_obj).
    eapply wp_mono.
    + apply (settle_shows G v1 _ c (put (l ++ [x]) (Some (OFile d)) (with_parents l (obj G v)))); [done|..].
      * intros c0 Hc0. by eapply (linked_unlinked G v v1 l x c d).
      * intros l' Hl'. by apply (linked_obj G v v1 l x c d).
    + intros c' v' [-> Hs]. done.
    + intros e v' Hs. by right.
  - intros e v1 (Hi1 & Hs & _). left. by exists G.
Qed.

(** A write makes the directories above the file and puts the data. *)
Lemma write_file_spec G v id now ts path data :
  nfs_inv G v → has_char BACKSLASH path = false → accepts data (nfs_pipeline v) → lenZ data < 2 ^ 64 →
  let done_ v' := ∃ l x, norm path = l ++ [x] ∧ obj G v (l ++ [x]) ≠ Some ODir ∧
    no_file_above l (obj G v) ∧
    shows (put (l ++ [x]) (Some (OFile data)) (with_parents l (obj G v))) v' in
  wp (write_file id now ts path data)
    (λ c v', c = id ∧ done_ v') (λ _ v', unmoved G v v' ∨ done_ v') v.
Proof.
  intros Hi Hb Ha Hlen done_. unfold write_file. apply wp_bind.
  eapply wp_mono; [by apply (write_file_store_spec G)|..]; [|by intros e v' Hv; left].
  intros r v1 (l & x & Hn & -> & Hns & Hnd & Hid & Hi1).
  assert (Forall good (l ++ [x])) as Hg by (rewrite <- Hn; by apply normalize_norm).
  assert (same_objs G v (<[id := data]> G) v1) as Hs by (by apply obj_insert_capsule).
  assert (∀ l', Forall good l' → obj G v l' = obj (<[id := data]> G) v1 l') as Hs' by (intros; by rewrite Hs).
  assert (Forall good l) as Hgl by (by apply Forall_app in Hg as [? _]).
  assert (∀ v', no_file_above l (obj (<[id := data]> G) v1) ∧
    shows (put (l ++ [x]) (Some (OFile data)) (with_parents l (obj (<[id := data]> G) v1))) v' → done_ v')
    as Hdone.
  { intros v' [Hna Hsh]. exists l, x. split; [done|]. split; [by rewrite obj_dir|].
    split; [by eapply no_file_above_ext|]. eapply shows_ext; [|exact Hsh].
    by apply put_with_parents_ext. }
  eapply wp_mono.
  - apply (write_file_link_spec (<[id := data]> G)); [done|done|by rewrite Hns|by rewrite lookup_insert_eq|done|].
    rewrite Hns. by eapply fresh_unlinked; [eapply ni_files|].
  - intros c v' (-> & Hv). split; [done|by apply Hdone].
  - intros e v' [Hv|Hv]; [left|right; by apply Hdone]. by eapply unmoved_trans.
Qed.

(** *** Directories *)
Lemma with_dirs_tree ns l ns' : tree ns → with_dirs ns l ns' → tree ns'.
Proof.
  intros [Hr Ht] [_ Hk]. split.
  - rewrite Hk by constructor. by case_decide.
  - intros l1 y k Hg1. assert (Forall good l1) as Hg1' by (by apply Forall_app in Hg1 as [? _]).
    rewrite !Hk by done. destruct (decide (l1 ++ [y] `prefix_of` l)) as [Hp|Hp].
    + intros _. rewrite decide_True; [done|]. etrans; [|exact Hp]. by apply prefix_app_r.
    + intros Hk1. rewrite (Ht l1 y k Hg1 Hk1). by case_decide.
Qed.

Lemma with_dirs_shows G v l ns' :
  nfs_inv G v → Forall good l → (∀ p, p `prefix_of` l → ∀ c sz, kind_at (nodes v) p ≠ Some (File c sz)) →
  with_dirs (nodes v) l ns' →
  nfs_inv G (set_nodes ns' v) ∧
  ∀ l', Forall good l' → obj G (set_nodes ns' v) l' = with_parents l (obj G v) l'.
Proof.
  intros [Hh Hl Ht Hf] Hg Hnf [Hl' Hk].
  assert (∀ l', Forall good l' → ∀ c sz,
    kind_at ns' l' = Some (File c sz) → kind_at (nodes v) l' = Some (File c sz)) as Hfile.
  { intros l' Hg' c sz. rewrite Hk by done. by case_decide. }
  split; [constructor; [done|done|..]|].
  - by eapply with_dirs_tree.
  - destruct Hf as [Hf Hi]. split.
    + intros l' c sz Hg' Hk'. by eapply Hf, Hfile.
    + intros l1 l2 c s1 s2 H1 H2 K1 K2. by eapply Hi; [..|apply Hfile|apply Hfile].
  - intros l' Hg'. unfold obj, with_parents. cbn [nodes set_nodes]. rewrite Hk by done. by case_decide.
Qed.

Lemma mkdir_spec G v ts path :
  nfs_inv G v → has_char BACKSLASH path = false →
  let done_ v' := no_file_above (norm path) (obj G v) ∧ shows (with_parents (norm path) (obj G v)) v' in
  wp (mkdir ts path) (λ _ v', done_ v') (λ _ v', unmoved G v v' ∨ done_ v') v.
Proof.
  intros Hi Hb done_. destruct (normalize_norm path) as [Hn Hg]. specialize (Hg Hb).
  pose proof Hi as [Hh Hl Ht Hf]. unfold mkdir. rewrite Hn. apply wp_bind. unfold wp at 1, lift.
  apply wp_bind, wp_on_nodes. eapply wp_mono; [by apply (ensure_directory_spec _ (nodes v) (norm path))|..].
  - intros _ ns' [Hw Hnf]. destruct (with_dirs_shows G v (norm path) ns') as [Hi' HO]; [done..|].
    eapply wp_mono; [apply nfs_persist_spec|..]; intros u v' Hv; [|right];
      (split; [by apply no_file_above_obj|]); destruct (nfs_inv_same G _ v' Hv Hi') as [Hi2 Hs2];
      exists G; (split; [done|]); intros l' Hl'; by rewrite Hs2, HO.
  - intros e ns' (Hl' & Hk & _). left. exists G. split.
    + constructor; [done|done|by eapply tree_ext|by eapply files_ok_ext].
    + intros l' Hg'. by apply obj_ext, Hk.
Qed.

(** *** Removing *)
Lemma in_iter ns k : k ∈ (btree_iter ns).*1 ↔ is_Some (ns !! k).
Proof.
  split.
  - intros ([k' n] & -> & Hn%elem_of_btree_iter)%list_elem_of_fmap. by exists n.
  - intros [n Hn]. apply list_elem_of_fmap. exists (k, n). split; [done|]. by apply elem_of_btree_iter.
Qed.

Lemma has_child_iff ns l :
  labels ns → Forall good l → l ≠ [] →
  existsb (str_prefix (full_path l +:+ "/")) (btree_iter ns).*1 = true ↔
  ∃ y r, Forall good (l ++ y :: r) ∧ kind_at ns (l ++ y :: r) ≠ None.
Proof.
  intros Hl Hg Hne. assert (full_path l +:+ "/" = dir_prefix l) as ->.
  { unfold dir_prefix. by rewrite bool_decide_false. }
  rewrite List.existsb_exists. setoid_rewrite <- list_elem_of_In. split.
  - intros (k & [n Hn]%in_iter & [r Hr]%str_prefix_app).
    destruct (Hl k n Hn) as (_ & q & Hq & Hk & _). rewrite Hk in Hn, Hr. destruct (decide (q = [])) as [->|Hqn].
    + exfalso. apply (f_equal String.length) in Hr. unfold dir_prefix in Hr.
      rewrite bool_decide_false in Hr by done. rewrite !length_append in Hr.
      destruct l as [|x l]; [done|]. simpl in Hr. lia.
    + pose proof (below_iff l q r Hg Hq Hqn Hr) as ->.
      destruct (split_on SLASH r) as [|y r'] eqn:Hs; [by destruct (split_on_nonempty SLASH r)|].
      exists y, r'. split; [done|]. unfold kind_at. by rewrite Hn.
  - intros (y & r & Hg' & Hk). exists (full_path (l ++ y :: r)). split; [|apply str_prefix_below].
    apply in_iter. unfold kind_at in Hk. destruct (ns !! full_path (l ++ y :: r)); [done|done].
Qed.

Lemma kind_at_delete ns l l' :
  Forall good l → Forall good l' →
  kind_at (delete (full_path l) ns) l' = if decide (l' = l) then None else kind_at ns l'.
Proof.
  intros Hl Hl'. unfold kind_at. case_decide as Hd.
  - subst l'. by rewrite lookup_delete_eq.
  - rewrite lookup_delete_ne; [done|]. intros He. apply Hd. by apply full_path_inj.
Qed.

Lemma labels_delete ns k : labels ns → labels (delete k ns).
Proof. intros Hl k' n [_ Hn]%lookup_delete_Some. by apply Hl. Qed.

(** The table after the node at [l] was removed. *)
Definition removed ns l ns' : Prop :=
  labels ns' ∧ ∀ l', Forall good l' → kind_at ns' l' = if decide (l' = l) then None else kind_at ns l'.

Lemma removed_tree ns l ns' :
  tree ns → Forall good l → l ≠ [] → (∀ y r, Forall good (l ++ y :: r) → kind_at ns (l ++ y :: r) = None) →
  removed ns l ns' → tree ns'.
Proof.
  intros [Hr Ht] Hg Hne Hbelow [_ Hk]. split.
  - rewrite Hk by constructor. by rewrite decide_False.
  - intros l1 y k Hg1. assert (Forall good l1) as Hg1' by (by apply Forall_app in Hg1 as [? _]).
    rewrite !Hk by done. case_decide as Hd; [done|]. intros Hk1. rewrite decide_False; [by eapply Ht|].
    intros ->. by rewrite Hbelow in Hk1.
Qed.

Lemma removed_files G ns l ns' : files_ok G ns → removed ns l ns' → files_ok G ns'.
Proof.
  intros [Hf Hi] [_ Hk].
  assert (∀ l' c sz, Forall good l' → kind_at ns' l' = Some (File c sz) →
    kind_at ns l' = Some (File c sz)) as Hfile.
  { intros l' c sz Hg'. rewrite Hk by done. by case_decide. }
  split.
  - intros l' c sz Hg' Hk'. by apply (Hf l'), Hfile.
  - intros l1 l2 c s1 s2 H1 H2 K1 K2. by eapply Hi; [..|apply Hfile|apply Hfile].
Qed.

(** The table and the pipeline after the locked region of a removal. *)
Lemma unlink_table v l t :
  labels (nodes v) → tree (nodes v) → Forall good l → l ≠ [] →
  wp (unlink (mkNormalizedPath (full_path l) l) t)
    (λ o v', o = capsule_at (nodes v) l ∧ nfs_pipeline v' = nfs_pipeline v ∧
       removed (nodes v) l (nodes v') ∧ kind_at (nodes v) l ≠ None ∧
       ∀ y r, Forall good (l ++ y :: r) → kind_at (nodes v) (l ++ y :: r) = None)
    (λ _ v', v' = v) v.
Proof.
  intros Hl Ht Hg Hne. destruct l as [|x l' _] eqn:Hl0 using rev_ind; [done|]. rewrite <- Hl0 in *.
  unfold unlink, wp. cbv [bind gets lift]. cbn [np_full].
  destruct (nodes v !! full_path l) as [n|] eqn:Hn; cbn [ok_or]; [|done].
  assert (kind_at (nodes v) l = Some (node_kind n)) as Hk by (unfold kind_at; by rewrite Hn).
  assert (removed (nodes v) l (touch_path (full_path l') t (delete (full_path l) (nodes v)))) as Hrm.
  { destruct (touch_path_spec (full_path l') t _ (labels_delete _ (full_path l) Hl)) as [Hl1 Hk1].
    split; [done|]. intros q Hq. rewrite Hk1. by apply kind_at_delete. }
  unfold capsule_at. rewrite Hk.
  assert (parent_path (mkNormalizedPath (full_path l) l) = Some (full_path l')) as Hp
    by (rewrite Hl0; apply parent_path_snoc).
  destruct (node_kind n) as [|c sz] eqn:Hkn; cbv [ret].
  - destruct (existsb _ _) eqn:Hex; [done|]. rewrite Hp. cbv [on_nodes zoom modify].
    split_and!; try done. intros y r Hgr. apply dec_stable. intros Hkr. apply not_true_iff_false in Hex.
    apply Hex, has_child_iff; [done..|]. by exists y, r.
  - rewrite Hp. cbv [on_nodes zoom modify]. split_and!; try done. intros y r Hgr.
    destruct (kind_at (nodes v) (l ++ y :: r)) as [k|] eqn:Hkr; [|done].
    pose proof (tree_prefix (nodes v) l (y :: r) k Ht Hgr ltac:(done) Hkr). congruence.
Qed.

Lemma unlink_spec G v l t :
  nfs_inv G v → Forall good l → l ≠ [] →
  wp (unlink (mkNormalizedPath (full_path l) l) t)
    (λ o v', o = capsule_at (nodes v) l ∧ nfs_inv G v' ∧ removed (nodes v) l (nodes v') ∧
       kind_at (nodes v) l ≠ None ∧ (kind_at (nodes v) l = Some Directory → empty_dir l (obj G v)))
    (λ _ v', v' = v) v.
Proof.
  intros [Hh Hl Ht Hf] Hg Hne. eapply wp_mono; [by apply unlink_table| |done].
  intros o v' (-> & Hp & Hrm & Hsome & Hnone). pose proof Hrm as [Hl' _]. split_and!; try done.
  - constructor; [by rewrite Hp|done|by eapply removed_tree|by eapply removed_files].
  - intros _ y r Hgr. unfold obj. by rewrite Hnone.
Qed.

(** The capsule of a removed file backs no other one. *)
Lemma removed_unlinked G v v1 l :
  nfs_inv G v → Forall good l →
  (∀ l', Forall good l' → kind_at (nodes v1) l' = if decide (l' = l) then None else kind_at (nodes v) l') →
  ∀ c, capsule_at (nodes v) l = Some c → unlinked c (nodes v1).
Proof.
  intros Hi Hg Hk1 c Hc l' c' sz Hl' Hk' ->. rewrite Hk1 in Hk' by done. unfold capsule_at in Hc.
  destruct (kind_at (nodes v) l) as [[|c1 s1]|] eqn:Hk; try done. injection Hc as ->.
  case_decide as Hd; [done|]. apply Hd. by eapply (proj2 (ni_files _ _ Hi)).
Qed.

Lemma nfs_delete_spec G v ts path :
  nfs_inv G v → has_char BACKSLASH path = false →
  let l := norm path in
  let done_ v' := l ≠ [] ∧ obj G v l ≠ None ∧ (obj G v l = Some ODir → empty_dir l (obj G v)) ∧
    shows (put l None (obj G v)) v' in
  wp (nfs_delete ts path) (λ _ v', done_ v') (λ _ v', unmoved G v v' ∨ done_ v') v.
Proof.
  intros Hi Hb l done_. destruct (normalize_norm path) as [Hn Hg]. specialize (Hg Hb). fold l in Hn, Hg.
  unfold nfs_delete. rewrite Hn. apply wp_bind. unfold wp at 1, lift, is_root. cbn [np_components].
  case_bool_decide as Hroot; [by left; apply unmoved_refl|].
  apply wp_bind. eapply wp_mono; [by apply (unlink_spec G)| |intros e v' ->; left; by apply unmoved_refl].
  intros o v1 (-> & Hi1 & [Hl1 Hk1] & Hsome & Hempty).
  assert (∀ l', Forall good l' → obj G v1 l' = put l None (obj G v) l') as HO.
  { intros l' Hl'. unfold obj, put. rewrite Hk1 by done. by case_decide. }
  pose proof (removed_unlinked G v v1 l Hi Hg Hk1) as Hun.
  assert (∀ v', shows (put l None (obj G v)) v' → done_ v') as Hdone.
  { intros v' Hs. split; [done|]. split; [|split; [by rewrite obj_dir|done]].
    destruct (kind_at (nodes v) l) as [[|c sz]|] eqn:Hk; [by unfold obj; rewrite Hk| |done].
    by destruct (obj_file G v l c sz Hi Hg Hk) as (d & _ & _ & _ & ->). }
  pose proof (settle_shows G v1 (capsule_at (nodes v) l) tt (put l None (obj G v)) Hi1 Hun HO) as Hs.
  revert Hs. unfold wp, bind, ret. destruct (drop_capsule _ v1) as [[a|e| ] v2]; [|by right; apply Hdone|done].
  destruct (nfs_persist v2) as [[u|e| ] v']; [|by right; apply Hdone|done]. intros [_ Hs]. by apply Hdone.
Qed.

(** *** Reading *)
Lemma shows_set_pipeline G v p : nfs_inv G v → holds G p → unmoved G v (set_nfs_pipeline p v).
Proof. intros [Hh Hl Ht Hf] Hp. exists G. split; [by constructor|]. intros l _. by apply obj_ext. Qed.

Lemma find_node_spec G v path missing :
  nfs_inv G v → has_char BACKSLASH path = false →
  wp (find_node path missing)
    (λ n v', v' = v ∧ kind_at (nodes v) (norm path) = Some (node_kind n))
    (λ _ v', v' = v ∧ obj G v (norm path) = None) v.
Proof.
  intros Hi Hb. destruct (normalize_norm path) as [Hn Hg]. unfold find_node. rewrite Hn.
  unfold wp. cbv [bind lift gets]. cbn [np_full]. unfold obj, kind_at.
  by destruct (nodes v !! full_path (norm path)).
Qed.

Lemma read_file_spec G v path :
  nfs_inv G v → has_char BACKSLASH path = false →
  wp (read_file path)
    (λ d v', obj G v (norm path) = Some (OFile d) ∧ unmoved G v v')
    (λ _ v', unmoved G v v' ∧
       (healthy (nfs_pipeline v) → ∀ d, obj G v (norm path) ≠ Some (OFile d))) v.
Proof.
  intros Hi Hb. assert (Forall good (norm path)) as Hg by (by apply normalize_norm).
  unfold read_file. apply wp_bind. eapply wp_mono; [by apply (find_node_spec G)|..].
  2:{ intros e v' (-> & ->). split; [by apply unmoved_refl|done]. }
  intros n v' (-> & Hk). destruct (node_kind n) as [|c sz].
  { unfold wp, fail. split; [by apply unmoved_refl|]. unfold obj. by rewrite Hk. }
  destruct (obj_file G v (norm path) c sz Hi Hg Hk) as (d & Hd & _ & _ & HO).
  apply wp_on_capsules. eapply wp_mono; [by apply (svc_read_spec G); [apply Hi|]|..].
  - intros d' p' (-> & Hh & _). split; [done|by apply shows_set_pipeline].
  - intros e p' (Hh & Hnh). split; [by apply shows_set_pipeline|done].
Qed.

Lemma nfs_read_range_spec G v path off len :
  nfs_inv G v → has_char BACKSLASH path = false → 0 ≤ off → 0 ≤ len → off + len < 2 ^ 64 →
  wp (nfs_read_range path off len)
    (λ out v', ∃ d, obj G v (norm path) = Some (OFile d) ∧ off + len ≤ lenZ d ∧
       out = takeZ len (dropZ off d) ∧ unmoved G v v')
    (λ _ v', unmoved G v v' ∧
       (healthy (nfs_pipeline v) → ∀ d, obj G v (norm path) = Some (OFile d) → lenZ d < off + len)) v.
Proof.
  intros Hi Hb Ho Hl Hs. assert (Forall good (norm path)) as Hg by (by apply normalize_norm).
  unfold nfs_read_range. apply wp_bind. eapply wp_mono; [by apply (find_node_spec G)|..].
  2:{ intros e v' (-> & ->). split; [by apply unmoved_refl|done]. }
  intros n v' (-> & Hk). destruct (node_kind n) as [|c sz].
  { unfold wp, fail. split; [by apply unmoved_refl|]. unfold obj. by rewrite Hk. }
  destruct (obj_file G v (norm path) c sz Hi Hg Hk) as (d & Hd & Hsz & Hlt & HO). rewrite HO.
  assert (u64_add off len = off + len) as -> by (unfold u64_add, wrap; apply Z.mod_small; lia).
  destruct (Z.ltb_spec sz (off + len)) as [Hout|Hin].
  { unfold wp, fail. split; [by apply unmoved_refl|]. intros _ d' [= ->]. lia. }
  apply wp_on_capsules. eapply wp_mono; [apply (svc_range_spec G _ c d); [by apply Hi|done|lia..]|..].
  - intros d' p' (-> & Hh). exists d. split_and!; [done|lia|done|by apply shows_set_pipeline].
  - intros e p' (Hh & Hnh). split; [by apply shows_set_pipeline|done].
Qed.
End nfs_calls.

(** ** The calls against the specification *)
Inductive NfsOp :=
| OpWriteFile (id : CapsuleId) (now ts : option Z) (path : string) (data : bytes)
| OpMkdir (ts : option Z) (path : string)
| OpRemove (ts : option Z) (path : string)
| OpReadFile (path : string)
| OpReadRange (path : string) (off len : Z).

Definition op_path (op : NfsOp) : string :=
  match op with
  | OpWriteFile _ _ _ path _ | OpMkdir _ path | OpRemove _ path | OpReadFile path
  | OpReadRange path _ _ => path
  end.

(** What a call may return and leave behind. *)
Inductive nfs_spec (O : Tree) : NfsOp → bytes → Tree → Prop :=
| spec_write id now ts path data l x :
    norm path = l ++ [x] → O (l ++ [x]) ≠ Some ODir → no_file_above l O →
    nfs_spec O (OpWriteFile id now ts path data) [] (put (l ++ [x]) (Some (OFile data)) (with_parents l O))
| spec_mkdir ts path :
    no_file_above (norm path) O → nfs_spec O (OpMkdir ts path) [] (with_parents (norm path) O)
| spec_remove ts path :
    norm path ≠ [] → O (norm path) ≠ None → (O (norm path) = Some ODir → empty_dir (norm path) O) →
    nfs_spec O (OpRemove ts path) [] (put (norm path) None O)
| spec_read path d : O (norm path) = Some (OFile d) → nfs_spec O (OpReadFile path) d O
| spec_range path off len d :
    O (norm path) = Some (OFile d) → off + len ≤ lenZ d →
    nfs_spec O (OpReadRange path off len) (takeZ len (dropZ off d)) O.

(** *** Calls that must succeed *)
Section nfs_success.
Context {P : Type} `{ServiceLaws P} {JN : JsonDoc Nodes}.
Implicit Types v : NfsView (P := P).
Implicit Types l : list string.

(** [m] does no I/O on the namespace file. *)
Definition no_io {A : Type} (m : M (NfsView (P := P)) Error A) : Prop :=
  ∀ v, nfs_faults (m v).2 = nfs_faults v.

Lemma no_io_bind {A B : Type} (m : M NfsView Error A) (k : A → M NfsView Error B) :
  no_io m → (∀ a, no_io (k a)) → no_io (bind m k).
Proof.
  intros Hm Hk v. pose proof (Hm v) as H1. unfold bind. destruct (m v) as [[a|e| ] v1]; [|done..].
  by rewrite Hk.
Qed.

Lemma no_io_attempt {E' A : Type} (m : M NfsView Error A) : no_io m → ∀ v,
  nfs_faults ((attempt (E' := E') m) v).2 = nfs_faults v.
Proof. intros Hm v. pose proof (Hm v) as H1. unfold attempt. by destruct (m v) as [[a|e| ] v1]. Qed.

Lemma no_io_on_nodes {A : Type} (m : M Nodes Error A) : no_io (on_nodes m).
Proof. intros v. unfold on_nodes, zoom. by destruct (m (nodes v)). Qed.

Lemma no_io_on_capsules {A : Type} (m : M P Error A) : no_io (on_capsules m).
Proof. intros v. unfold on_capsules, zoom. by destruct (m (nfs_pipeline v)). Qed.

Lemma no_io_link_file p q c sz t : no_io (link_file p q c sz t).
Proof.
  unfold link_file. apply no_io_bind; [apply no_io_on_nodes|]. intros _. apply no_io_bind; [done|].
  intros v. apply no_io_bind; [done|]. intros x. apply no_io_bind; [apply no_io_on_nodes|done].
Qed.

Lemma no_io_unlink p t : no_io (unlink p t).
Proof.
  unfold unlink. apply no_io_bind; [done|]. intros v. apply no_io_bind; [done|]. intros n.
  apply no_io_bind; [by destruct (node_kind n); [destruct (existsb _ _)|]|].
  intros o. apply no_io_bind; [apply no_io_on_nodes|done].
Qed.

Lemma no_io_drop o : no_io (drop_capsule o).
Proof.
  destruct o as [c|]; [|done]. apply no_io_bind; [|done]. intros v. apply no_io_attempt.
  apply no_io_on_capsules.
Qed.

Lemma wp_no_io {A : Type} (m : M NfsView Error A) Q R v :
  no_io m → wp m Q R v → wp m (λ a v', Q a v' ∧ nfs_faults v' = nfs_faults v) R v.
Proof. intros Hm. pose proof (Hm v) as H1. unfold wp. by destruct (m v) as [[a|e| ] v1]. Qed.

(** No failure is pending for the namespace file. *)
Definition saves v : Prop := (next_fault (nfs_faults v)).1 = None.

Lemma persist_saves v : saves v → wp nfs_persist (λ _ _, True) (λ _ _, False) v.
Proof.
  unfold saves, wp, nfs_persist. destruct (nfs_namespace v) as [old|]; [|done].
  destruct (next_fault (nfs_faults v)) as [f fs]. by intros [= ->].
Qed.

Lemma settle_saves G v o :
  nfs_inv G v → (∀ c, o = Some c → unlinked c (nodes v)) → saves v →
  wp (drop_capsule o) (λ _ v', wp nfs_persist (λ _ _, True) (λ _ _, False) v') (λ _ _, False) v.
Proof.
  intros Hi Ho Hs. eapply wp_mono; [eapply (wp_no_io _ _ _ _ (no_io_drop o)); by apply (drop_capsule_spec G)|..].
  - intros u v' [_ Hf]. apply persist_saves. unfold saves. by rewrite Hf.
  - done.
Qed.

Lemma no_io_write_file_store id now path data : no_io (write_file_store id now path data).
Proof.
  unfold write_file_store. apply no_io_bind; [done|]. intros p. destruct (is_root p); [done|].
  apply no_io_bind; [done|]. intros q. apply no_io_bind; [done|]. intros pi.
  apply no_io_bind; [|intros _; apply no_io_bind; [apply no_io_on_capsules|done]].
  unfold preflight. apply no_io_bind; [done|]. intros v. by repeat case_match.
Qed.

(** Both conditions of the total calls at once. *)
Lemma wp_total_and {A : Type} (m : M NfsView Error A) Q R v :
  wp m Q R v → wp m (λ _ _, True) (λ _ _, False) v → wp m Q (λ _ _, False) v.
Proof. unfold wp. by destruct (m v) as [[a|e| ] v1]. Qed.

Lemma store_ready G v id t path data l x :
  nfs_inv G v → has_char BACKSLASH path = false → accepts data (nfs_pipeline v) →
  ready data (nfs_pipeline v) → G !! id = None → norm path = l ++ [x] → obj G v (l ++ [x]) ≠ Some ODir →
  wp (write_file_store id (Some t) path data) (λ _ _, True) (λ _ _, False) v.
Proof.
  intros Hi Hb Ha Hr Hid Hn Hnd. destruct (normalize_norm path) as [Hnp Hg]. specialize (Hg Hb).
  rewrite Hn in Hnp, Hg. assert (Forall good l) as Hgl by (by apply Forall_app in Hg as [? _]).
  unfold write_file_store. rewrite Hnp. apply wp_bind. unfold wp at 1, lift, is_root. cbn [np_components].
  rewrite bool_decide_false by (by destruct l). rewrite parent_path_snoc. apply wp_bind.
  unfold wp at 1. cbn [ok_or]. apply wp_bind. unfold wp at 1. rewrite normalize_full by done.
  apply wp_bind. rewrite obj_dir in Hnd by done.
  assert (preflight (mkNormalizedPath (full_path (l ++ [x])) (l ++ [x])) v = (Ok tt, v)) as Hpre.
  { unfold preflight. cbv [bind gets]. cbn [np_full]. unfold kind_at in Hnd.
    destruct (nodes v !! full_path (l ++ [x])) as [n|]; [|done]. unfold is_directory. simpl in Hnd.
    by destruct (node_kind n). }
  unfold wp at 1. rewrite Hpre. apply wp_bind, wp_on_capsules.
  eapply wp_mono; [by apply (svc_write_ready G); [apply Hi|..]|done|done].
Qed.

Lemma write_file_succeeds G v id t ts path data l x :
  nfs_inv G v → has_char BACKSLASH path = false → accepts data (nfs_pipeline v) → lenZ data < 2 ^ 64 →
  ready data (nfs_pipeline v) → saves v → G !! id = None →
  norm path = l ++ [x] → obj G v (l ++ [x]) ≠ Some ODir → no_file_above l (obj G v) →
  wp (write_file id (Some t) ts path data) (λ _ _, True) (λ _ _, False) v.
Proof.
  intros Hi Hb Ha Hlen Hr Hs Hid Hn Hnd Hna. unfold write_file. apply wp_bind.
  pose proof (write_file_store_spec G v id (Some t) path data Hi Hb Ha) as Hstore.
  pose proof (store_ready G v id t path data l x Hi Hb Ha Hr Hid Hn Hnd) as Hready.
  apply (wp_total_and _ _ _ _ (wp_no_io _ _ _ _ (no_io_write_file_store _ _ _ _) Hstore)) in Hready.
  eapply wp_mono; [exact Hready| |done].
  intros r v1 [(l' & x' & Hn' & -> & Hns & Hnd' & _ & Hi1) Hfs].
  rewrite Hn in Hn'. apply app_inj_tail in Hn' as [<- <-].
  assert (Forall good (l ++ [x])) as Hg by (rewrite <- Hn; by apply normalize_norm).
  unfold write_file_link. apply wp_bind.
  eapply wp_mono; [eapply wp_no_io; [apply no_io_link_file|];
    eapply (link_file_spec (<[id := data]> G) v1 l x id data); [done|done|by rewrite Hns| | |]|..].
  - by rewrite lookup_insert_eq.
  - done.
  - rewrite Hns. by eapply fresh_unlinked; [eapply ni_files|].
  - intros o v2 [(-> & Hi2 & Hlk & _) Hfs2]. apply wp_bind.
    eapply wp_mono; [apply (settle_saves (<[id := data]> G) v2)|..|done].
    + done.
    + intros c0 Hc0. eapply (linked_unlinked (<[id := data]> G) v1 v2 l x id data); try done.
      rewrite Hns. by eapply fresh_unlinked; [eapply ni_files|].
    + unfold saves. by rewrite Hfs2, Hfs.
    + intros u v3 Hv3. apply wp_bind. eapply wp_mono; [exact Hv3|done|done].
  - intros e v2 (_ & _ & p & c' & sz & Hp & Hk). rewrite Hns in Hk.
    assert (Forall good p) as Hgp.
    { eapply Forall_prefix; [exact Hp|]. by apply Forall_app in Hg as [? _]. }
    destruct (obj_file G v p c' sz Hi Hgp Hk) as (d & _ & _ & _ & HO). by apply (Hna p d).
Qed.

Lemma mkdir_succeeds G v ts path :
  nfs_inv G v → has_char BACKSLASH path = false → saves v → no_file_above (norm path) (obj G v) →
  wp (mkdir ts path) (λ _ _, True) (λ _ _, False) v.
Proof.
  intros Hi Hb Hs Hna. destruct (normalize_norm path) as [Hn Hg]. specialize (Hg Hb).
  unfold mkdir. rewrite Hn. apply wp_bind. unfold wp at 1, lift. apply wp_bind, wp_on_nodes.
  eapply wp_mono; [apply (ensure_directory_spec _ (nodes v) (norm path)); [by apply Hi|by apply Hi|done]|..].
  - intros _ ns' _. by apply persist_saves.
  - intros e ns' (_ & _ & p & c & sz & Hp & Hk).
    assert (Forall good p) as Hgp by (by eapply Forall_prefix).
    destruct (obj_file G v p c sz Hi Hgp Hk) as (d & _ & _ & _ & HO). by apply (Hna p d).
Qed.

Lemma unlink_succeeds G v l t :
  nfs_inv G v → Forall good l → l ≠ [] → obj G v l ≠ None →
  (obj G v l = Some ODir → empty_dir l (obj G v)) →
  wp (unlink (mkNormalizedPath (full_path l) l) t) (λ _ _, True) (λ _ _, False) v.
Proof.
  intros Hi Hg Hne Hsome Hempty. unfold unlink, wp. cbv [bind gets lift]. cbn [np_full].
  assert (kind_at (nodes v) l = node_kind <$> nodes v !! full_path l) as Hk by done.
  destruct (nodes v !! full_path l) as [n|] eqn:Hn; cbn [ok_or].
  2:{ unfold obj in Hsome. by rewrite Hk in Hsome. }
  destruct (node_kind n) as [|c sz] eqn:Hkn; cbv [ret]; [|done].
  destruct (existsb _ _) eqn:Hex; [|done]. exfalso.
  apply has_child_iff in Hex as (y & r & Hgr & Hkr); [|by apply Hi|done|done].
  assert (obj G v l = Some ODir) as Hdir by (apply obj_dir; [done..|]; rewrite Hk; simpl; by rewrite Hkn).
  specialize (Hempty Hdir y r Hgr). destruct (kind_at (nodes v) (l ++ y :: r)) as [[|c sz]|] eqn:Hky; [| |done].
  - unfold obj in Hempty. by rewrite Hky in Hempty.
  - destruct (obj_file G v _ c sz Hi Hgr Hky) as (d & _ & _ & _ & HO). congruence.
Qed.

Lemma nfs_delete_succeeds G v ts path :
  nfs_inv G v → has_char BACKSLASH path = false → saves v → norm path ≠ [] →
  obj G v (norm path) ≠ None → (obj G v (norm path) = Some ODir → empty_dir (norm path) (obj G v)) →
  wp (nfs_delete ts path) (λ _ _, True) (λ _ _, False) v.
Proof.
  intros Hi Hb Hs Hroot Hsome Hempty. destruct (normalize_norm path) as [Hn Hg]. specialize (Hg Hb).
  unfold nfs_delete. rewrite Hn. apply wp_bind. unfold wp at 1, lift, is_root. cbn [np_components].
  rewrite bool_decide_false by done. apply wp_bind.
  pose proof (unlink_succeeds G v (norm path) (unix_timestamp ts) Hi Hg Hroot Hsome Hempty) as Hu.
  pose proof (unlink_spec G v (norm path) (unix_timestamp ts) Hi Hg Hroot) as Hspec.
  apply (wp_total_and _ _ _ _ (wp_no_io _ _ _ _ (no_io_unlink _ _) Hspec)) in Hu.
  eapply wp_mono; [exact Hu| |done]. intros o v1 [(-> & Hi1 & [_ Hk1] & _) Hfs]. apply wp_bind.
  apply (settle_saves G v1); [done| |by unfold saves; rewrite Hfs].
  by apply (removed_unlinked G v v1 (norm path)).
Qed.
End nfs_success.

Section nfs_properties.
Context {P : Type} `{ServiceLaws P} {JN : JsonDoc Nodes}.
Implicit Types v : NfsView (P := P).

Definition run_nfs (op : NfsOp) : M NfsView Error bytes :=
  match op with
  | OpWriteFile id now ts path data => write_file id now ts path data ;;; ret []
  | OpMkdir ts path => mkdir ts path ;;; ret []
  | OpRemove ts path => nfs_delete ts path ;;; ret []
  | OpReadFile path => read_file path
  | OpReadRange path off len => nfs_read_range path off len
  end.

(** Paths without a backslash, arguments that fit their types and the pipeline. *)
Definition nfs_fits v (op : NfsOp) : Prop :=
  has_char BACKSLASH (op_path op) = false ∧
  match op with
  | OpWriteFile _ _ _ _ data => accepts data (nfs_pipeline v) ∧ lenZ data < 2 ^ 64
  | OpReadRange _ off len => 0 ≤ off ∧ 0 ≤ len ∧ off + len < 2 ^ 64
  | _ => True
  end.

Definition nfs_refines (O : Tree) (op : NfsOp) (run : Res Error bytes * NfsView) : Prop :=
  match run with
  | (Ok out, v') => ∃ O', nfs_spec O op out O' ∧ shows O' v'
  | (Err _, v') => shows O v' ∨ ∃ out O', nfs_spec O op out O' ∧ shows O' v'
  | (Panic, _) => False
  end.

Lemma nfs_refines_ret {A : Type} O op out (m : M NfsView Error A) (done_ : NfsView → Prop) v :
  wp m (λ _ v', done_ v') (λ _ v', shows O v' ∨ done_ v') v →
  (∀ v', done_ v' → ∃ O', nfs_spec O op out O' ∧ shows O' v') →
  nfs_refines O op ((m ;;; ret out) v).
Proof.
  unfold wp, bind. destruct (m v) as [[a|e| ] v']; simpl; [by auto| |done].
  intros [Hs|Hd] Hdone; [by left|right]. by exists out; apply Hdone.
Qed.

(** C18: the namespace is a tree of directories and files.  Whatever I/O fails in the
    pipeline or in saving the namespace, a call ends without a panic in a sound view;
    when it succeeds it returned the bytes and made the change the specification
    prescribes (a write makes the missing parents, a directory is removed only when
    empty, no file is overwritten by a directory or the reverse), and when it fails
    the tree is the old one or the prescribed one.  The calls are those of [nfs_fits]:
    paths without a backslash (a name with one breaks the tree, [backslash_orphans]),
    ranges whose end is below 2^64 (beyond it the pipeline's own sum wraps, and its slice
    can panic), and data the pipeline accepts. *)
Theorem nfs_calls_refine G v op :
  nfs_inv G v → nfs_fits v op → nfs_refines (obj G v) op (run_nfs op v).
Proof.
  intros Hi [Hb Hf]. destruct op as [id now ts path data|ts path|ts path|path|path off len]; cbn [op_path] in Hb.
  - destruct Hf as [Ha Hlen]. eapply nfs_refines_ret.
    + eapply wp_mono; [by apply (write_file_spec G)|by intros c v' [_ Hd]; exact Hd|done].
    + intros v' (l & x & Hn & Hnd & Hna & Hs). eexists. split; [by eapply spec_write|done].
  - eapply nfs_refines_ret; [by apply mkdir_spec|].
    intros v' [Hna Hs]. eexists. split; [by eapply spec_mkdir|done].
  - eapply nfs_refines_ret; [by apply nfs_delete_spec|].
    intros v' (Hroot & Hsome & Hempty & Hs). eexists. split; [by eapply spec_remove|done].
  - pose proof (read_file_spec G v path Hi Hb) as Hw. unfold wp in Hw. unfold nfs_refines. cbn [run_nfs].
    destruct (read_file path v) as [[d|e| ] v']; [|by left; apply Hw|done].
    exists (obj G v). destruct Hw as [Hd Hs]. split; [by constructor|done].
  - destruct Hf as (Ho & Hl & Hsum). pose proof (nfs_read_range_spec G v path off len Hi Hb Ho Hl Hsum) as Hw.
    unfold wp in Hw. unfold nfs_refines. cbn [run_nfs].
    destruct (nfs_read_range path off len v) as [[d|e| ] v']; [|by left; apply Hw|done].
    destruct Hw as (d' & Hd & Hle & -> & Hs). exists (obj G v). split; [by econstructor|done].
Qed.

(** What a call needs to go through: a pipeline that can store the data now (reads: one
    without a pending failure), an id that is new, a namespace file that can be saved. *)
Definition nfs_prepared (G : gmap CapsuleId bytes) v (op : NfsOp) : Prop :=
  match op with
  | OpWriteFile id now _ _ data => saves v ∧ ready data (nfs_pipeline v) ∧ is_Some now ∧ G !! id = None
  | OpReadFile _ | OpReadRange _ _ _ => healthy (nfs_pipeline v)
  | _ => saves v
  end.

(** C19: no call is refused without a reason.  Where the specification lets a call go
    through and no failure is pending, the call succeeds (with the result of
    [nfs_calls_refine]), for the same calls. *)
Theorem nfs_calls_succeed G v op out O' :
  nfs_inv G v → nfs_fits v op → nfs_prepared G v op → nfs_spec (obj G v) op out O' →
  ∃ out' v', run_nfs op v = (Ok out', v').
Proof.
  intros Hi [Hb Hf] Hp Hs.
  assert (wp (run_nfs op) (λ _ _, True) (λ _ _, False) v) as Hw.
  { destruct Hs as [id now ts path data l x Hn Hnd Hna|ts path Hna|ts path Hr Hsome Hempty|path d Hd
      |path off len d Hd Hle]; cbn [op_path nfs_prepared run_nfs] in *.
    - destruct Hf as [Ha Hlen], Hp as (Hsv & Hrd & [t ->] & Hid). apply wp_bind.
      eapply wp_mono; [by eapply write_file_succeeds|done|done].
    - apply wp_bind. eapply wp_mono; [by eapply mkdir_succeeds|done|done].
    - apply wp_bind. eapply wp_mono; [by eapply nfs_delete_succeeds|done|done].
    - eapply wp_mono; [by apply (read_file_spec G)|done|]. intros e v' [_ Hno]. by apply (Hno Hp d).
    - destruct Hf as (Ho & Hl & Hsum). eapply wp_mono; [by apply (nfs_read_range_spec G)|done|].
      intros e v' [_ Hno]. specialize (Hno Hp d Hd). lia. }
  apply wp_total in Hw as (out' & v' & Hrun & _). by exists out', v'.
Qed.
End nfs_properties.

(** ** What holds over any pipeline, its failures and surprises included *)
Section nfs_any_pipeline.
Context {P : Type} `{CapsuleService P} {JN : JsonDoc Nodes}.
Implicit Types v : NfsView (P := P).

(** The entries of [list_directory] for the directory [l], as a relation. *)
Definition child_entry (ns : Nodes) (l : list string) (e : NfsEntry) : Prop :=
  ∃ x n, Forall good (l ++ [x]) ∧ ns !! full_path (l ++ [x]) = Some n ∧ e = to_entry n.

Lemma children_spec ns l e :
  labels ns → Forall good l →
  e ∈ to_entry <$> (filter (λ kn, is_child (full_path l) (dir_prefix l) kn.1) (btree_iter ns)).*2 ↔
  child_entry ns l e.
Proof.
  intros Hl Hg. rewrite list_elem_of_fmap. split.
  - intros (n & -> & ([k n'] & -> & [Hc Hin%elem_of_btree_iter]%list_elem_of_filter)%list_elem_of_fmap).
    cbn [fst snd] in *. destruct (Hl k n' Hin) as (_ & q & Hq & -> & _).
    apply Is_true_true, is_child_iff in Hc as [y ->]; [|done..]. by exists y, n'.
  - intros (x & n & Hgx & Hn & ->). exists n. split; [done|]. apply list_elem_of_fmap.
    exists (full_path (l ++ [x]), n). split; [done|]. apply list_elem_of_filter. cbn [fst].
    split; [|by apply elem_of_btree_iter]. apply Is_true_true, is_child_iff; [done..|]. by exists x.
Qed.

(** Distinct keys in order stay so whatever is left out. *)
Lemma strict_sorted (kns : list (string * NfsNode)) :
  StronglySorted key_le kns → NoDup kns.*1 →
  (∀ k n, (k, n) ∈ kns → node_path n = k) →
  StronglySorted (λ a b, String.leb a b = true ∧ a ≠ b) (entry_path <$> (to_entry <$> kns.*2)).
Proof.
  induction 1 as [|[k n] kns Hs IH Hk]; simpl; intros Hd Hp; [constructor|].
  apply NoDup_cons in Hd as [Hnk Hd]. constructor; [apply IH; [done|]; intros; apply Hp; by right|].
  assert (∀ m, entry_path (to_entry m) = node_path m) as Hep.
  { intros m. unfold to_entry. by destruct (node_kind m). }
  apply Forall_forall. intros e (e1 & -> & (m & -> & ([k' m'] & -> & Hin)%list_elem_of_fmap)%list_elem_of_fmap)%list_elem_of_fmap.
  rewrite !Hep, (Hp k n) by (by left). cbn [snd]. rewrite (Hp k' m') by (by right).
  eapply Forall_forall in Hk; [|exact Hin]. split; [exact Hk|]. intros ->. apply Hnk.
  apply list_elem_of_fmap. by exists (k', m').
Qed.

(** C36: [list_directory] of a directory gives the entries of its immediate children,
    all of them, each once, in the byte order of their paths; of anything else it
    fails.  The view is not changed. *)
Theorem list_directory_lists_children v path :
  labels (nodes v) → has_char BACKSLASH path = false →
  match kind_at (nodes v) (norm path) with
  | Some Directory =>
      ∃ es, list_directory path v = (Ok es, v) ∧
        (∀ e, e ∈ es ↔ child_entry (nodes v) (norm path) e) ∧
        StronglySorted (λ a b, String.leb a b = true ∧ a ≠ b) (entry_path <$> es)
  | _ => ∃ e, list_directory path v = (Err e, v)
  end.
Proof.
  intros Hl Hb. destruct (normalize_norm path) as [Hn Hg]. specialize (Hg Hb).
  set (l := norm path) in *.
  assert (list_directory path v = match kind_at (nodes v) l with
    | Some Directory => (Ok (to_entry <$> (filter (λ kn, is_child (full_path l) (dir_prefix l) kn.1)
                               (btree_iter (nodes v))).*2), v)
    | Some (File _ _) => (Err (Msg "Path is not a directory"), v)
    | None => (Err (Msg "No such directory"), v)
    end) as ->.
  { unfold list_directory. rewrite Hn. unfold kind_at, is_root, dir_prefix. cbv [bind lift gets].
    cbn [np_full np_components]. destruct (nodes v !! full_path l) as [n|]; [|done].
    cbn [ok_or fmap option_fmap option_map]. unfold is_directory. destruct (node_kind n); [|done].
    by destruct (bool_decide (l = [])). }
  destruct (kind_at (nodes v) l) as [[|c sz]|]; [|by eexists..].
  eexists. split; [done|]. split; [intros e; by apply children_spec|].
  apply strict_sorted.
  - apply StronglySorted_filter, btree_iter_sorted.
  - eapply sublist_NoDup; [exact (NoDup_btree_iter (nodes v))|]. apply fmap_sublist, sublist_filter.
  - intros k n [_ Hin%elem_of_btree_iter]%list_elem_of_filter. by apply (Hl k n Hin).
Qed.

(** The table is a tree of labelled nodes. *)
Definition well_formed v : Prop := labels (nodes v) ∧ tree (nodes v).

(** [m] ends in a well-formed view, panics included; when it returns, with [Q]. *)
Definition keeps_tree {A : Type} (m : M NfsView Error A) (Q : A → NfsView → Prop) v : Prop :=
  well_formed (m v).2 ∧ ∀ a v', m v = (Ok a, v') → Q a v'.

Lemma keeps_bind {A B : Type} (m : M NfsView Error A) (k : A → M NfsView Error B) Q v :
  keeps_tree m (λ a, keeps_tree (k a) Q) v → keeps_tree (bind m k) Q v.
Proof.
  intros [Hw Hq]. unfold keeps_tree, bind. destruct (m v) as [[a|e| ] v1]; [|done..]. by apply Hq.
Qed.

Lemma keeps_wp {A : Type} (m : M NfsView Error A) (Q Q' : A → NfsView → Prop) R v :
  wp m Q R v → (∀ a v', Q a v' → well_formed v' ∧ Q' a v') → (∀ e v', R e v' → well_formed v') →
  keeps_tree m Q' v.
Proof.
  unfold wp, keeps_tree. intros Hw HQ HR. destruct (m v) as [[a|e| ] v1]; [|by split; [eapply HR|]|done].
  destruct (HQ a v1 Hw) as [Hwf Hq]. split; [done|]. by intros ? ? [= <- <-].
Qed.

(** A step that leaves the table alone. *)
Lemma keeps_nodes {A : Type} (m : M NfsView Error A) (Q : A → NfsView → Prop) v :
  well_formed v → nodes (m v).2 = nodes v →
  (∀ a v', nodes v' = nodes v → Q a v') → keeps_tree m Q v.
Proof.
  intros Hw Hn HQ. unfold keeps_tree. destruct (m v) as [r v1]. cbn [snd] in *.
  split; [unfold well_formed; by rewrite Hn|]. intros a v' [= _ <-]. by apply HQ.
Qed.

Lemma nodes_on_capsules {A : Type} (m : M P Error A) v : nodes (on_capsules m v).2 = nodes v.
Proof. unfold on_capsules, zoom. by destruct (m (nfs_pipeline v)). Qed.

Lemma nodes_drop o v : nodes (drop_capsule o v).2 = nodes v.
Proof.
  destruct o as [c|]; [|done]. unfold drop_capsule, bind, attempt.
  pose proof (nodes_on_capsules (svc_delete c) v) as Hn.
  by destruct (on_capsules (svc_delete c) v) as [[a|e| ] v1].
Qed.

Lemma nodes_persist v : nodes (nfs_persist v).2 = nodes v.
Proof.
  unfold nfs_persist. destruct (nfs_namespace v); [|done]. by destruct (next_fault (nfs_faults v)) as [[k|] fs].
Qed.

Lemma keeps_settle {A : Type} (a : A) o v :
  well_formed v → keeps_tree (drop_capsule o ;;; nfs_persist ;;; ret a) (λ _ _, True) v.
Proof.
  intros Hw. apply keeps_bind, keeps_nodes; [done|apply nodes_drop|]. intros u v1 Hn1.
  assert (well_formed v1) as Hw1 by (unfold well_formed; by rewrite Hn1).
  apply keeps_bind, keeps_nodes; [done|apply nodes_persist|]. intros u' v2 Hn2.
  apply keeps_nodes; [by unfold well_formed; rewrite Hn2|done|done].
Qed.

Lemma preflight_run l v :
  let run := preflight (mkNormalizedPath (full_path l) l) v in
  run.2 = v ∧ ∀ u, run.1 = Ok u → kind_at (nodes v) l ≠ Some Directory.
Proof.
  unfold preflight. cbv [bind gets]. cbn [np_full]. unfold kind_at, is_directory.
  destruct (nodes v !! full_path l) as [n|]; [|done]. by destruct (node_kind n) eqn:Hk; simpl; rewrite ?Hk.
Qed.

Lemma keeps_write id now ts path data v :
  well_formed v → has_char BACKSLASH path = false →
  keeps_tree (write_file id now ts path data) (λ _ _, True) v.
Proof.
  intros [Hl Ht] Hb. destruct (normalize_norm path) as [Hn Hg]. specialize (Hg Hb).
  unfold write_file. apply keeps_bind.
  assert (keeps_tree (write_file_store id now path data) (λ r v', nodes v' = nodes v ∧
    ∃ l x c, r = (mkNormalizedPath (full_path (l ++ [x])) (l ++ [x]), mkNormalizedPath (full_path l) l, c) ∧
      Forall good (l ++ [x]) ∧ kind_at (nodes v) (l ++ [x]) ≠ Some Directory) v) as [Hw Hq].
  { unfold write_file_store. rewrite Hn. unfold lift. apply keeps_bind. split; [done|]. intros ? ? [= <- <-].
    unfold is_root. cbn [np_components]. case_bool_decide as Hr; [by split|].
    destruct (norm path) as [|x l _] using rev_ind; [done|]. rewrite parent_path_snoc.
    apply keeps_bind. split; [done|]. intros ? ? [= <- <-]. apply keeps_bind. split; [done|].
    rewrite normalize_full by (by apply Forall_app in Hg as [? _]). intros ? ? [= <- <-].
    apply keeps_bind.
    destruct (preflight_run (l ++ [x]) v) as [Hsame Hnd]. unfold keeps_tree at 1. rewrite Hsame.
    split; [done|]. intros u v' Hpre. rewrite Hpre in Hsame, Hnd. simpl in Hsame. subst v'.
    apply keeps_bind, keeps_nodes; [done|apply nodes_on_capsules|]. intros c v' Hn'.
    split; [change (well_formed v'); unfold well_formed; by rewrite Hn'|]. intros ? ? [= <- <-]. split; [done|].
    exists l, x, c. split; [done|]. split; [done|]. by apply (Hnd u). }
  split; [done|]. intros r v1 Hrun. destruct (Hq r v1 Hrun) as (Hn1 & l & x & c & -> & Hgx & Hnd).
  unfold write_file_link. apply keeps_bind.
  eapply keeps_wp; [apply (link_file_table v1 l x c); [by rewrite Hn1|by rewrite Hn1|done]|..].
  - intros o v2 (-> & _ & Hlk & _). rewrite Hn1 in Hlk.
    assert (well_formed v2) as Hw2 by (split; [by apply Hlk|by eapply linked_tree]).
    split; [done|by apply keeps_settle].
  - intros e v2 (_ & Hl2 & Hk2 & _). rewrite Hn1 in Hk2. split; [done|by eapply tree_ext].
Qed.

Lemma keeps_mkdir ts path v :
  well_formed v → has_char BACKSLASH path = false → keeps_tree (mkdir ts path) (λ _ _, True) v.
Proof.
  intros [Hl Ht] Hb. destruct (normalize_norm path) as [Hn Hg]. specialize (Hg Hb).
  unfold mkdir. rewrite Hn. apply keeps_bind. split; [done|]. intros ? ? [= <- <-].
  apply keeps_bind. apply (keeps_wp _ (λ _, well_formed) _ (λ _, well_formed)).
  - apply wp_on_nodes. eapply wp_mono; [by apply (ensure_directory_spec _ (nodes v) (norm path))|..].
    + intros _ ns' [Hw Hnf]. split; [by apply Hw|by eapply with_dirs_tree].
    + intros e ns' (Hl' & Hk & _). split; [done|by eapply tree_ext].
  - intros u v' Hw'. split; [done|]. by apply keeps_nodes; [|apply nodes_persist|].
  - done.
Qed.

Lemma keeps_delete ts path v :
  well_formed v → has_char BACKSLASH path = false → keeps_tree (nfs_delete ts path) (λ _ _, True) v.
Proof.
  intros [Hl Ht] Hb. destruct (normalize_norm path) as [Hn Hg]. specialize (Hg Hb).
  unfold nfs_delete. rewrite Hn. apply keeps_bind. split; [done|]. intros ? ? [= <- <-].
  unfold is_root. cbn [np_components]. case_bool_decide as Hr; [by split|].
  apply keeps_bind. eapply keeps_wp; [by apply unlink_table|..].
  - intros o v1 (-> & _ & Hrm & _ & Hnone).
    assert (well_formed v1) as Hw1 by (split; [by apply Hrm|by eapply removed_tree]).
    split; [done|]. apply keeps_bind, keeps_nodes; [done|apply nodes_drop|]. intros u v2 Hn2.
    apply keeps_nodes; [by unfold well_formed; rewrite Hn2|apply nodes_persist|done].
  - by intros e v' ->.
Qed.

Lemma keeps_find {A : Type} path missing (k : NfsNode → M NfsView Error A) v :
  well_formed v → (∀ n, nodes (k n v).2 = nodes v) →
  keeps_tree (let! n := find_node path missing in k n) (λ _ _, True) v.
Proof.
  intros Hw Hk. apply keeps_bind. destruct (normalize_norm path) as [Hn _].
  unfold find_node. rewrite Hn. split; [done|]. cbv [bind lift gets].
  intros n v'. destruct (nodes v !! _) as [n'|]; [|done]. cbn [ok_or]. intros [= <- <-].
  by apply keeps_nodes.
Qed.

Lemma run_nfs_keeps op v :
  well_formed v → has_char BACKSLASH (op_path op) = false → well_formed (run_nfs op v).2.
Proof.
  assert (∀ (A B : Type) (m : M NfsView Error A) (b : B), keeps_tree m (λ _ _, True) v →
    well_formed ((m ;;; ret b) v).2) as Hret.
  { intros A B m b [Hw _]. unfold bind. by destruct (m v) as [[a|e| ] v1]. }
  intros Hw Hb. destruct op as [id now ts path data|ts path|ts path|path|path off len]; cbn [op_path run_nfs] in *.
  - by apply Hret, keeps_write.
  - by apply Hret, keeps_mkdir.
  - by apply Hret, keeps_delete.
  - apply (keeps_find _ _ _ v Hw). intros n. destruct (node_kind n); [done|]. apply nodes_on_capsules.
  - apply (keeps_find _ _ _ v Hw). intros n. destruct (node_kind n) as [|c sz]; [done|].
    destruct (sz <? _); [done|]. apply nodes_on_capsules.
Qed.

(** C35: the table is a well-typed tree, always.  Over any pipeline, whatever its calls
    return and whether or not they panic, every run of calls with backslash-free paths
    leaves each node under its own full path with its own name, the root a directory,
    and every other node in a directory. *)
Theorem nfs_table_stays_a_tree v ops :
  well_formed v → Forall (λ op, has_char BACKSLASH (op_path op) = false) ops →
  well_formed (foldl (λ v op, (run_nfs op v).2) v ops).
Proof.
  intros Hw Hf. revert v Hw. induction Hf as [|op ops Hb Hf IH]; intros v Hw; [done|].
  apply IH. by apply run_nfs_keeps.
Qed.
End nfs_any_pipeline.

(** ** Saving and opening again *)
Section nfs_reopen.
Context {P : Type} `{ServiceLaws P} {JN : JsonDoc Nodes}.
Implicit Types v : NfsView (P := P).

(** The namespace file, if there is one, holds the table. *)
Definition saved v : Prop :=
  match nfs_namespace v with
  | None => True
  | Some file => file = Some (to_doc (nodes v))
  end.

Definition mutates (op : NfsOp) : bool :=
  match op with
  | OpReadFile _ | OpReadRange _ _ _ => false
  | _ => true
  end.

(** [m] returns only in a view that is saved. *)
Definition ends_saved {A : Type} (m : M (NfsView (P := P)) Error A) : Prop :=
  ∀ v a v', m v = (Ok a, v') → saved v'.

Lemma ends_saved_bind {A B : Type} (m : M NfsView Error A) (k : A → M NfsView Error B) :
  (∀ a, ends_saved (k a)) → ends_saved (bind m k).
Proof. intros Hk v b v'. unfold bind. destruct (m v) as [[a|e| ] v1]; [|done..]. apply Hk. Qed.

Lemma ends_saved_ret {A B : Type} (m : M NfsView Error A) (b : B) : ends_saved m → ends_saved (m ;;; ret b).
Proof.
  intros Hm v c v'. unfold bind, ret. destruct (m v) as [[a|e| ] v1] eqn:Hrun; [|done..].
  intros [= _ <-]. by eapply Hm.
Qed.

Lemma ends_saved_persist : ends_saved nfs_persist.
Proof.
  intros v a v'. unfold nfs_persist, saved. destruct (nfs_namespace v) as [old|] eqn:Hns.
  - destruct (next_fault (nfs_faults v)) as [[k|] fs]; intros [= _ <-]; done.
  - intros [= _ <-]. by rewrite Hns.
Qed.

Lemma ends_saved_lift {A B : Type} (r : Res Error A) (k : A → M NfsView Error B) :
  (∀ a, r = Ok a → ends_saved (k a)) → ends_saved (let! a := lift r in k a).
Proof. intros Hk v b v'. unfold bind, lift. destruct r as [a|e| ]; [|done..]. by apply Hk. Qed.

Lemma run_nfs_saves op : mutates op = true → ends_saved (run_nfs op).
Proof.
  destruct op as [id now ts path data|ts path|ts path|path|path off len]; try done; intros _; apply ends_saved_ret.
  - apply ends_saved_bind. intros [[p q] c]. apply ends_saved_bind. intros o.
    apply ends_saved_bind. intros _. apply ends_saved_ret, ends_saved_persist.
  - apply ends_saved_bind. intros p. apply ends_saved_bind. intros _. apply ends_saved_persist.
  - apply ends_saved_bind. intros p v a v'. destruct (is_root p); [done|].
    revert v a v'. apply ends_saved_bind. intros o. apply ends_saved_bind. intros _. apply ends_saved_persist.
Qed.

(** C37: what a call reported done survives a restart.  After a write, a [mkdir] or a
    removal that succeeded, opening the namespace file again over the same pipeline
    succeeds and gives a sound view of the same tree. *)
Theorem nfs_reopen_shows_the_tree v op out v' file ts :
  mutates op = true → run_nfs op v = (Ok out, v') → nfs_namespace v' = Some file →
  ∃ v'', NfsView_open (nfs_pipeline v') file ts [] = Ok v'' ∧
    ∀ G, nfs_inv G v' → nfs_inv G v'' ∧ same_objs G v' G v''.
Proof.
  intros Hm Hrun Hns. pose proof (run_nfs_saves op Hm v out v' Hrun) as Hs. unfold saved in Hs.
  rewrite Hns in Hs. subst file. unfold NfsView_open. cbn [next_fault]. rewrite of_to_doc. cbn [ok_or].
  eexists. split; [done|]. intros G [Hh Hl Ht Hf].
  destruct (ensure_root_spec (unix_timestamp ts) (nodes v') Hl Ht) as [Hl' Hk'].
  split; [constructor; [done|done|by eapply tree_ext|by eapply files_ok_ext]|].
  intros l Hg. by apply obj_ext, Hk'.
Qed.
End nfs_reopen.

(** ** A new namespace *)
Section nfs_new.
Context {P : Type} `{ServiceLaws P} {JN : JsonDoc Nodes}.

Lemma new_root t l :
  Forall good l → kind_at (ensure_root_node t ∅) l = if decide (l = []) then Some Directory else None.
Proof.
  intros Hg. unfold ensure_root_node. rewrite lookup_empty. change "/" with (full_path []) at 1.
  rewrite kind_at_insert by (done || constructor). by repeat case_decide.
Qed.

Lemma new_well_formed (p : P) ns t fs : well_formed (mkNfsView p (ensure_root_node t ∅) ns fs).
Proof.
  split.
  - cbn [nodes]. unfold ensure_root_node. rewrite lookup_empty. change "/" with (full_path []) at 1.
    apply labels_insert; [|constructor|done|done]. intros k n. by rewrite lookup_empty.
  - split; cbn [nodes]; [by rewrite new_root by constructor|]. intros l x k Hg. rewrite new_root by done.
    by rewrite decide_False by (by destruct l).
Qed.

(** Before any capsule is stored the namespace is the root alone. *)
Lemma new_inv (p : P) ns t fs : holds ∅ p → nfs_inv ∅ (mkNfsView p (ensure_root_node t ∅) ns fs).
Proof.
  intros Hp. destruct (new_well_formed p ns t fs) as [Hl Ht]. constructor; [done|done|done|].
  assert (∀ l c sz, Forall good l → kind_at (ensure_root_node t ∅) l ≠ Some (File c sz)) as Hno.
  { intros l c sz Hg. rewrite new_root by done. by case_decide. }
  split; cbn [nodes].
  - intros l c sz Hg Hk. by destruct (Hno l c sz Hg).
  - intros l1 l2 c s1 s2 Hg _ Hk. by destruct (Hno l1 c s1 Hg).
Qed.
End nfs_new.

(** ** Witnesses: a namespace over a table in memory *)
#[local] Instance toy_nodes_doc : JsonDoc Nodes := plain_doc Nodes.

Definition hello : bytes := [x68; x69].
Definition file_id_a : CapsuleId := mkCapsuleId (replicate 16 x0a).
Definition file_id_b : CapsuleId := mkCapsuleId (replicate 16 x0b).
Definition nfs_start (fs : faults) : NfsView := mkNfsView (∅ : gmap CapsuleId bytes) (ensure_root_node 0 ∅) (Some None) fs.
Definition make_file : NfsOp := OpWriteFile file_id_a (Some 5) (Some 6) "/a//./b/../c.txt" hello.

(** The namespace with /a and /a/c.txt; [fs]: the outcomes of the saves to come. *)
Definition nfs_one (fs : faults) : NfsView := (run_nfs make_file (nfs_start fs)).2.

Lemma make_file_fits fs : nfs_fits (nfs_start fs) make_file.
Proof. split; [reflexivity|]. split; [exact I|by vm_compute]. Qed.

Lemma nfs_calls_refine_witness :
  is_ok (run_nfs make_file (nfs_start [])).1 = true ∧
  nfs_refines (obj ∅ (nfs_start [])) make_file (run_nfs make_file (nfs_start [])).
Proof.
  split; [vm_compute; reflexivity|].
  apply (nfs_calls_refine ∅ (nfs_start []) make_file); [by apply new_inv|apply make_file_fits].
Defined.

Lemma no_files_yet fs l d : obj ∅ (nfs_start fs) l ≠ Some (OFile d).
Proof. unfold obj. destruct (kind_at _ l) as [[|c sz]|]; [done| |done]. by rewrite lookup_empty. Qed.

Lemma nfs_calls_succeed_witness :
  ∃ out' v', run_nfs make_file (nfs_start []) = (Ok out', v').
Proof.
  eapply (nfs_calls_succeed ∅ (nfs_start []) make_file []).
  - by apply new_inv.
  - apply make_file_fits.
  - split; [reflexivity|]. split; [exact I|]. split; [by eexists|reflexivity].
  - apply (spec_write _ _ _ _ _ _ ["a"] "c.txt"); [vm_compute; reflexivity| |].
    + vm_compute. discriminate.
    + intros p d _. apply no_files_yet.
Defined.

Lemma nfs_one_well_formed fs : well_formed (nfs_one fs).
Proof. apply run_nfs_keeps; [apply new_well_formed|reflexivity]. Qed.

Lemma list_directory_lists_children_witness :
  (list_directory "/a" (nfs_one [])).1 =
    Ok [mkNfsEntry "/a/c.txt" "c.txt" EntryFile 2 6 6 (Some file_id_a)] ∧
  match kind_at (nodes (nfs_one [])) (norm "/a") with
  | Some Directory =>
      ∃ es, list_directory "/a" (nfs_one []) = (Ok es, nfs_one []) ∧
        (∀ e, e ∈ es ↔ child_entry (nodes (nfs_one [])) (norm "/a") e) ∧
        StronglySorted (λ a b, String.leb a b = true ∧ a ≠ b) (entry_path <$> es)
  | _ => ∃ e, list_directory "/a" (nfs_one []) = (Err e, nfs_one [])
  end.
Proof.
  split; [vm_compute; reflexivity|].
  apply (list_directory_lists_children (nfs_one []) "/a"); [apply nfs_one_well_formed|reflexivity].
Defined.

Lemma nfs_table_stays_a_tree_witness :
  let ops := [make_file; OpMkdir None "/a/c.txt/d"; OpRemove (Some 7) "/a"; OpReadFile "a/c.txt"] in
  well_formed (foldl (λ v op, (run_nfs op v).2) (nfs_start []) ops).
Proof.
  intros ops. apply (nfs_table_stays_a_tree (nfs_start []) ops); [apply new_well_formed|].
  repeat constructor.
Defined.

Lemma nfs_one_run : run_nfs make_file (nfs_start []) = (Ok [], nfs_one []).
Proof. unfold nfs_one. rewrite (surjective_pairing (run_nfs make_file (nfs_start []))) at 1. f_equal. Qed.

Definition nfs_one_file : option (doc Nodes) := default None (nfs_namespace (nfs_one [])).

Lemma nfs_one_saved : nfs_namespace (nfs_one []) = Some nfs_one_file.
Proof. vm_compute. reflexivity. Qed.

Lemma nfs_reopen_shows_the_tree_witness :
  ∃ v'', NfsView_open (nfs_pipeline (nfs_one [])) nfs_one_file None [] = Ok v'' ∧
    ∀ G, nfs_inv G (nfs_one []) → nfs_inv G v'' ∧ same_objs G (nfs_one []) G v''.
Proof.
  exact (nfs_reopen_shows_the_tree (nfs_start []) make_file [] (nfs_one []) nfs_one_file None eq_refl
    nfs_one_run nfs_one_saved).
Defined.

(** A save that fails leaves the file of the namespace behind the capsules: an overwrite
    has already dropped the old capsule, so the view opened from the file names a file
    that cannot be read. *)
Example overwrite_then_failed_save :
  let v := mkNfsView (nfs_pipeline (nfs_one [])) (nodes (nfs_one [])) (nfs_namespace (nfs_one [])) [Some (-1)] in
  let '(r, v') := run_nfs (OpWriteFile file_id_b (Some 7) (Some 8) "/a/c.txt" hello) v in
  is_ok r = false ∧
  match NfsView_open (nfs_pipeline v') (default None (nfs_namespace v')) (Some 9) [] with
  | Ok v'' => (read_file "/a/c.txt" v'').1 = Err (Msg "Capsule not found")
  | _ => False
  end.
Proof. vm_compute. split; reflexivity. Qed.

(** A directory made between the two halves of a write is overwritten by the file; what
    was put below it stays in the table and can no longer be reached by a listing. *)
Example write_races_mkdir :
  let v := nfs_start [] in
  match write_file_store file_id_a (Some 5) "/d" hello v with
  | (Ok (p, q, c), v1) =>
      let v2 := (mkdir (Some 6) "/d/sub" v1).2 in
      let v3 := (write_file_link p q c 2 7 v2).2 in
      kind_at (nodes v3) ["d"] = Some (File file_id_a 2) ∧ kind_at (nodes v3) ["d"; "sub"] = Some Directory ∧
      (list_directory "/d" v3).1 = Err (Msg "Path is not a directory")
  | _ => False
  end.
Proof. vm_compute. split; [reflexivity|]. split; reflexivity. Qed.

(** A backslash in a name makes a key with a component of its own, but no directory. *)
Example backslash_orphans :
  let v := (run_nfs (OpWriteFile file_id_a (Some 5) (Some 6) "/x\y" hello) (nfs_start [])).2 in
  is_Some (nodes v !! "/x/y") ∧ nodes v !! "/x" = None ∧ (list_directory "/" v).1 = Ok [].
Proof. vm_compute. split; [by eexists|]. split; reflexivity. Qed.

(** A write below a file stores its capsule before it is refused. *)
Example refused_write_leaks :
  let '(r, v) := run_nfs (OpWriteFile file_id_b (Some 7) (Some 8) "/a/c.txt/d" hello) (nfs_one []) in
  r = Err (Msg "Path conflict with file") ∧ nfs_pipeline v !! file_id_b = Some hello.
Proof. vm_compute. split; reflexivity. Qed.
