(* ===== verification/S3View.v ===== *)
(** Crate [protocol-s3] (crates/protocol-s3/src/lib.rs, handlers.rs): a table from
    "bucket/key" to capsules over a pipeline ([CapsuleService]), and the HTTP handlers
    that answer for it.

    Only the [Legacy] backend is modelled: the other one is a feature that is off by
    default.  [SystemTime::now] is an argument ([None]: a clock before 1970, for which
    [duration_since] is an error), as are the texts that other crates format. *)
From S2P Require Import Prelude Errors Common Externals CapsuleService BlockView.

Record KeyMapping := mkKeyMapping {
  km_key : string;
  km_capsule_id : CapsuleId;
  km_size : Z;
  km_created_at : Z;
  km_content_type : string;
}.

(** [format!("{}/{}", bucket, key)] *)
Definition full_key (bucket key : string) : string := bucket +:+ "/" +:+ key.

Definition detect_content_type (key : string) : string :=
  if str_suffix ".txt" key then "text/plain"
  else if str_suffix ".json" key then "application/json"
  else if str_suffix ".html" key then "text/html"
  else if str_suffix ".jpg" key || str_suffix ".jpeg" key then "image/jpeg"
  else if str_suffix ".png" key then "image/png"
  else "application/octet-stream".

Abbreviation Keys := (gmap string KeyMapping).

Section s3_view.
Context {P : Type} `{CapsuleService P} `{HashOrder}.

Record S3View := mkS3View { s3_pipeline : P; key_map : Keys }.

Definition set_s3_pipeline (p : P) (s : S3View) : S3View := mkS3View p (key_map s).

(** [task::spawn_blocking(..).await]: a panic of the task is an error of the caller. *)
Definition spawn_blocking {A : Type} (m : M P Error A) : M S3View Error A := λ s,
  match m (s3_pipeline s) with
  | (Ok a, p) => (Ok a, set_s3_pipeline p s)
  | (Err e, p) => (Err e, set_s3_pipeline p s)
  | (Panic, p) => (Err (Msg "task panicked"), set_s3_pipeline p s)
  end.

Definition put_object (id : CapsuleId) (now ts : option Z) (bucket key : string) (data : bytes) :
    M S3View Error CapsuleId :=
  let! capsule_id := spawn_blocking (svc_write id now data) in
  let full_key := full_key bucket key in
  let! created_at := lift (ok_or ts (Msg "second time provided was later than self")) in
  let mapping :=
    mkKeyMapping full_key capsule_id (lenZ data) created_at (detect_content_type key) in
  modify (λ s, mkS3View (s3_pipeline s) (<[full_key := mapping]> (key_map s))) ;;;
  ret capsule_id.

Definition head_object (bucket key : string) : M S3View Error KeyMapping :=
  let! s := gets (λ s, s) in
  lift (ok_or (key_map s !! full_key bucket key) (Msg "Key not found")).

Definition get_object (bucket key : string) : M S3View Error bytes :=
  let! s := gets (λ s, s) in
  let! mapping := lift (ok_or (key_map s !! full_key bucket key) (Msg "Key not found")) in
  spawn_blocking (svc_read (km_capsule_id mapping)).

Definition list_objects (bucket : string) : M S3View Error (list KeyMapping) :=
  let prefix := bucket +:+ "/" in
  let! s := gets (λ s, s) in
  ret ((filter (λ kv, str_prefix prefix kv.1) (hash_iter (key_map s))).*2).

Definition delete_object (bucket key : string) : M S3View Error unit :=
  let! s := gets (λ s, s) in
  let! _ := lift (ok_or (key_map s !! full_key bucket key) (Msg "Key not found")) in
  modify (λ s, mkS3View (s3_pipeline s) (delete (full_key bucket key) (key_map s))).

(** ** Handlers *)
Inductive StatusCode := OK | NO_CONTENT | NOT_FOUND | INTERNAL_SERVER_ERROR.

Record ObjectMetadata := mkObjectMetadata {
  om_key : string;
  om_size : Z;
  om_last_modified : Z;
  om_content_type : string;
  om_etag : string;
}.

Record ListResponse := mkListResponse {
  lr_name : string;
  lr_prefix : option string;
  lr_contents : list ObjectMetadata;
}.

Inductive Body :=
| Empty
| Data (data : bytes)
| Text (e : Error)
| Json (r : ListResponse).

(** A response: its status, its headers and its body; an error is sent as its text. *)
Record Response := mkResponse {
  status : StatusCode;
  headers : list (string * string);
  body : Body;
}.

(** [Display] of a UUID and of a number, [Debug] of a time. *)
Context (uuid_text : bytes → string) (u64_text : Z → string) (format_http_date : Z → string).

Definition QUOTE : string := String (Ascii.ascii_of_nat 34) "".
Definition etag (id : CapsuleId) : string := QUOTE +:+ uuid_text (as_uuid id) +:+ QUOTE.

Definition error_response (code : StatusCode) (e : Error) : Response := mkResponse code [] (Text e).

(** A handler runs [m] and answers for both outcomes; a panic of [m] is one of the handler. *)
Definition answer {A : Type} (m : M S3View Error A) (code : StatusCode) (yes : A → M S3View Error Response) :
    M S3View Error Response := λ s,
  match m s with
  | (Ok a, s) => yes a s
  | (Err e, s) => (Ok (error_response code e), s)
  | (Panic, s) => (Panic, s)
  end.

Definition handle_put (id : CapsuleId) (now ts : option Z) (bucket key : string) (body : bytes) :
    M S3View Error Response :=
  answer (put_object id now ts bucket key body) INTERNAL_SERVER_ERROR
    (λ capsule_id, ret (mkResponse OK [("ETag", etag capsule_id)] Empty)).

Definition handle_get (bucket key : string) : M S3View Error Response :=
  answer (get_object bucket key) NOT_FOUND (λ data,
    let! m := attempt (E' := Error) (head_object bucket key) in
    let content_type :=
      match m with inl m => km_content_type m | inr _ => "application/octet-stream" end in
    ret (mkResponse OK [("Content-Type", content_type)] (Data data))).

Definition handle_head (bucket key : string) : M S3View Error Response :=
  answer (head_object bucket key) NOT_FOUND (λ mapping,
    ret (mkResponse OK
      [("Content-Length", u64_text (km_size mapping));
       ("Content-Type", km_content_type mapping);
       ("ETag", etag (km_capsule_id mapping));
       ("Last-Modified", format_http_date (km_created_at mapping))] Empty)).

Definition object_metadata (m : KeyMapping) : ObjectMetadata :=
  mkObjectMetadata (km_key m) (km_size m) (km_created_at m) (km_content_type m)
    (etag (km_capsule_id m)).

Definition handle_list (bucket : string) : M S3View Error Response :=
  answer (list_objects bucket) INTERNAL_SERVER_ERROR (λ mappings,
    ret (mkResponse OK [] (Json (mkListResponse bucket None (object_metadata <$> mappings))))).

Definition handle_delete (bucket key : string) : M S3View Error Response :=
  answer (delete_object bucket key) NOT_FOUND (λ _, ret (mkResponse NO_CONTENT [] Empty)).
End s3_view.

(** ** Keys *)

(** Without a separator in the bucket, a full key has one bucket and one key. *)
Lemma full_key_inj b1 k1 b2 k2 :
  has_char SLASH b1 = false → has_char SLASH b2 = false →
  full_key b1 k1 = full_key b2 k2 → b1 = b2 ∧ k1 = k2.
Proof. intros H1 H2. by apply (append_char_inj SLASH). Qed.

Lemma prefix_full_key b k : str_prefix (b +:+ "/") (full_key b k) = true.
Proof. apply str_prefix_app. exists k. unfold full_key. by rewrite append_assoc. Qed.

Lemma prefix_full_key_iff b b' k :
  has_char SLASH b = false → has_char SLASH b' = false →
  str_prefix (b +:+ "/") (full_key b' k) = true ↔ b' = b.
Proof.
  intros Hb Hb'. split; [|intros ->; apply prefix_full_key].
  intros [r Hr]%str_prefix_app. rewrite append_assoc in Hr. symmetry in Hr.
  by destruct (full_key_inj b r b' k Hb Hb' Hr) as [-> _].
Qed.

(** ** The abstract object store *)
Abbreviation Objects := (string → string → option bytes).

Inductive Request :=
| Put (id : CapsuleId) (now ts : option Z) (bucket key : string) (body : bytes)
| Get (bucket key : string)
| Head (bucket key : string)
| List (bucket : string)
| Delete (bucket key : string).

Definition req_bucket (req : Request) : string :=
  match req with
  | Put _ _ _ b _ _ | Get b _ | Head b _ | List b | Delete b _ => b
  end.

Definition set_object (b k : string) (d : option bytes) (O : Objects) : Objects :=
  λ b' k', if decide (b' = b ∧ k' = k) then d else O b' k'.

Section s3_properties.
Context {P : Type} `{ServiceLaws P} `{!HashOrder}.
Context (uuid_text : bytes → string) (u64_text : Z → string) (format_http_date : Z → string).
Implicit Types s : S3View (P := P).

Definition serve (req : Request) : M S3View Error Response :=
  match req with
  | Put id now ts b k body => handle_put uuid_text id now ts b k body
  | Get b k => handle_get b k
  | Head b k => handle_head uuid_text u64_text format_http_date b k
  | List b => handle_list uuid_text b
  | Delete b k => handle_delete b k
  end.

(** Every entry sits at the key of its bucket, says so, and has a live capsule. *)
Record s3_inv (G : gmap CapsuleId bytes) s : Prop := {
  si_holds : holds G (s3_pipeline s);
  si_keys : ∀ k m, key_map s !! k = Some m →
    ∃ b key d, has_char SLASH b = false ∧ k = full_key b key ∧ km_key m = k ∧
      km_content_type m = detect_content_type key ∧ G !! km_capsule_id m = Some d ∧ km_size m = lenZ d;
}.

Definition objects (G : gmap CapsuleId bytes) s : Objects := λ b k,
  m ← key_map s !! full_key b k; G !! km_capsule_id m.

(** Equal in the buckets a request can name. *)
Definition same_objects (O O' : Objects) : Prop := ∀ b k, has_char SLASH b = false → O' b k = O b k.

(** The metadata of an object as a response shows it. *)
Definition describes (b k : string) (d : bytes) (m : ObjectMetadata) : Prop :=
  om_key m = full_key b k ∧ om_size m = lenZ d ∧ om_content_type m = detect_content_type k.

(** The response to a request on the objects [O], and the objects it leaves.
    [able]: the pipeline has no reason to refuse. *)
Definition s3_spec (O : Objects) (able : Prop) (req : Request) (r : Response) (O' : Objects) : Prop :=
  match req with
  | Put id _ _ b k body =>
      r = mkResponse OK [("ETag", etag uuid_text id)] Empty ∧ same_objects (set_object b k (Some body) O) O' ∨
      status r = INTERNAL_SERVER_ERROR ∧ ¬ able ∧ same_objects O O'
  | Get b k =>
      same_objects O O' ∧
      match O b k with
      | Some d => r = mkResponse OK [("Content-Type", detect_content_type k)] (Data d) ∨
                  status r = NOT_FOUND ∧ ¬ able
      | None => status r = NOT_FOUND
      end
  | Head b k =>
      same_objects O O' ∧
      match O b k with
      | Some d => ∃ tag date, r = mkResponse OK
          [("Content-Length", u64_text (lenZ d)); ("Content-Type", detect_content_type k);
           ("ETag", tag); ("Last-Modified", date)] Empty
      | None => status r = NOT_FOUND
      end
  | List b =>
      same_objects O O' ∧
      ∃ ms, r = mkResponse OK [] (Json (mkListResponse b None ms)) ∧ NoDup (om_key <$> ms) ∧
        (∀ m, m ∈ ms → ∃ k d, O b k = Some d ∧ describes b k d m) ∧
        (∀ k d, O b k = Some d → ∃ m, m ∈ ms ∧ describes b k d m)
  | Delete b k =>
      match O b k with
      | Some _ => r = mkResponse NO_CONTENT [] Empty ∧ same_objects (set_object b k None O) O'
      | None => status r = NOT_FOUND ∧ same_objects O O'
      end
  end.

(** A put can be stored now; a read meets no failure. *)
Definition able (G : gmap CapsuleId bytes) s (req : Request) : Prop :=
  match req with
  | Put id now ts _ _ body =>
      ready body (s3_pipeline s) ∧ is_Some now ∧ is_Some ts ∧ G !! id = None
  | _ => healthy (s3_pipeline s)
  end.

Definition s3_fits s (req : Request) : Prop :=
  has_char SLASH (req_bucket req) = false ∧
  match req with
  | Put _ _ _ _ _ body => accepts body (s3_pipeline s)
  | _ => True
  end.

Lemma wp_spawn {A : Type} (m : M P Error A) Q R s :
  wp m (λ a p, Q a (set_s3_pipeline p s)) (λ e p, R e (set_s3_pipeline p s)) (s3_pipeline s) →
  wp (spawn_blocking m) Q R s.
Proof. unfold wp, spawn_blocking. by destruct (m (s3_pipeline s)) as [[a|e| ] p]. Qed.

Lemma wp_answer {A : Type} (m : M S3View Error A) code yes Q R s :
  wp m (λ a s', wp (yes a) Q R s') (λ e s', Q (error_response code e) s') s →
  wp (answer m code yes) Q R s.
Proof. unfold wp, answer. by destruct (m s) as [[a|e| ] s']. Qed.

(** A capsule more changes no object. *)
Lemma s3_inv_insert G s c d :
  s3_inv G s → G !! c = None → ∀ p, holds (<[c := d]> G) p →
  s3_inv (<[c := d]> G) (set_s3_pipeline p s) ∧
  ∀ b k, objects (<[c := d]> G) (set_s3_pipeline p s) b k = objects G s b k.
Proof.
  intros [Hh Hk] Hc p Hp.
  assert (∀ k m d', key_map s !! k = Some m → G !! km_capsule_id m = Some d' → km_capsule_id m ≠ c) as Hne
    by (intros k m d' _ Hm Heq; congruence).
  split.
  - constructor; [done|]. intros k m Hm. destruct (Hk k m Hm) as (b & key & d' & ? & ? & ? & ? & Hd & ?).
    exists b, key, d'. rewrite lookup_insert_ne; [done|]. apply not_eq_sym. by eapply Hne.
  - intros b k. unfold objects. cbn [key_map set_s3_pipeline].
    destruct (key_map s !! full_key b k) as [m|] eqn:Hm; [|done]. cbn.
    destruct (Hk _ m Hm) as (? & ? & d' & _ & _ & _ & _ & Hd & _).
    rewrite lookup_insert_ne; [done|]. apply not_eq_sym. by eapply Hne.
Qed.

Lemma s3_inv_same G s p :
  s3_inv G s → holds G p → s3_inv G (set_s3_pipeline p s) ∧ objects G (set_s3_pipeline p s) = objects G s.
Proof. intros [Hh Hk] Hp. split; [by constructor|done]. Qed.

(** The entry of an object. *)
Lemma object_entry G s b k :
  s3_inv G s → has_char SLASH b = false →
  match key_map s !! full_key b k with
  | Some m => ∃ d, objects G s b k = Some d ∧ G !! km_capsule_id m = Some d ∧ km_size m = lenZ d ∧
      km_key m = full_key b k ∧ km_content_type m = detect_content_type k
  | None => objects G s b k = None
  end.
Proof.
  intros Hi Hb. unfold objects. destruct (key_map s !! full_key b k) as [m|] eqn:Hm; [|done].
  destruct (si_keys G s Hi _ m Hm) as (b' & k' & d & Hb' & He & Hkey & Hct & Hd & Hsz).
  destruct (full_key_inj b k b' k' Hb Hb' He) as [-> ->]. by exists d.
Qed.

(** What a handler leaves: a response, a sound view and its objects. *)
Definition served (G : gmap CapsuleId bytes) s (able : Prop) (req : Request) (r : Response) s' : Prop :=
  ∃ G', s3_inv G' s' ∧ s3_spec (objects G s) able req r (objects G' s').

Lemma put_entry G s id b k body t :
  s3_inv G s → has_char SLASH b = false → G !! id = Some body →
  let m := mkKeyMapping (full_key b k) id (lenZ body) t (detect_content_type k) in
  let s' := mkS3View (s3_pipeline s) (<[full_key b k := m]> (key_map s)) in
  s3_inv G s' ∧ same_objects (set_object b k (Some body) (objects G s)) (objects G s').
Proof.
  intros [Hh Hk] Hb Hid m s'. split.
  - constructor; [done|]. intros k' m'. unfold s'. cbn [key_map].
    intros [[<- <-]|[_ Hm']]%lookup_insert_Some; [|by apply Hk]. by exists b, k, body.
  - intros b' k' Hb'. unfold objects, set_object, s'. cbn [key_map]. case_decide as Hd.
    + destruct Hd as [-> ->]. by rewrite lookup_insert_eq.
    + rewrite lookup_insert_ne; [done|]. intros He. apply Hd. by apply full_key_inj.
Qed.

Lemma put_served G s id now ts b k body :
  s3_inv G s → s3_fits s (Put id now ts b k body) →
  wp (serve (Put id now ts b k body))
    (served G s (able G s (Put id now ts b k body)) (Put id now ts b k body)) (λ _ _, False) s.
Proof.
  intros Hi [Hb Ha]. cbn [req_bucket] in Hb.
  assert (∀ e s' G', s3_inv G' s' → (∀ b k, objects G' s' b k = objects G s b k) →
    ¬ able G s (Put id now ts b k body) →
    served G s (able G s (Put id now ts b k body)) (Put id now ts b k body)
      (error_response INTERNAL_SERVER_ERROR e) s') as Hrefused.
  { intros e s' G' Hi' Ho Hna. exists G'. split; [done|]. right. split_and!; [done|done|]. intros b' k' _. apply Ho. }
  cbn [serve]. apply wp_answer. unfold put_object. apply wp_bind, wp_spawn.
  assert (wp (svc_write id now body) (λ c' p', c' = id ∧ G !! id = None ∧ holds (<[id:=body]> G) p')
    (λ _ p', (holds G p' ∨ G !! id = None ∧ holds (<[id:=body]> G) p') ∧
       ¬ able G s (Put id now ts b k body)) (s3_pipeline s)) as Hw.
  { pose proof (svc_write_spec G (s3_pipeline s) id now body (si_holds _ _ Hi) Ha) as Hw.
    pose proof (svc_write_ready G (s3_pipeline s) id) as Hready.
    unfold wp in *. destruct (svc_write id now body (s3_pipeline s)) as [[c|e| ] p'] eqn:Hrun; [done| |done].
    split; [done|]. intros (Hr & [t ->] & _ & Hid). specialize (Hready t body (si_holds _ _ Hi) Ha Hr Hid).
    by rewrite Hrun in Hready. }
  eapply wp_mono; [exact Hw|..].
  - intros c p' (-> & Hid & Hp'). destruct (s3_inv_insert G s id body Hi Hid p' Hp') as [Hi' Ho'].
    apply wp_bind. unfold wp at 1, lift. destruct ts as [t|]; cbn [ok_or].
    + cbv [bind modify ret]. unfold wp. cbn [s3_pipeline key_map set_s3_pipeline].
      destruct (put_entry (<[id := body]> G) (set_s3_pipeline p' s) id b k body t Hi' Hb) as [Hi2 Ho2].
      { by rewrite lookup_insert_eq. }
      eexists. split; [exact Hi2|]. left. split; [done|]. intros b' k' Hb'. rewrite Ho2 by done.
      unfold set_object. by rewrite Ho'.
    + eapply Hrefused; [done|done|]. by intros (_ & _ & [t [=]] & _).
  - intros e p' [[Hp'|[Hid Hp']] Hna].
    + destruct (s3_inv_same G s p' Hi Hp') as [Hi' Ho']. eapply Hrefused; [done|by rewrite Ho'|done].
    + destruct (s3_inv_insert G s id body Hi Hid p' Hp') as [Hi' Ho']. by eapply Hrefused.
Qed.

Lemma get_served G s b k :
  s3_inv G s → has_char SLASH b = false →
  wp (serve (Get b k)) (served G s (healthy (s3_pipeline s)) (Get b k)) (λ _ _, False) s.
Proof.
  intros Hi Hb. pose proof (object_entry G s b k Hi Hb) as He. cbn [serve]. apply wp_answer.
  unfold get_object. apply wp_bind. unfold wp at 1, gets. apply wp_bind. unfold wp at 1, lift.
  destruct (key_map s !! full_key b k) as [m|] eqn:Hm; cbn [ok_or].
  2:{ exists G. split; [done|]. split; [done|]. by rewrite He. }
  destruct He as (d & Hd & HG & _ & _ & Hct). apply wp_spawn.
  eapply wp_mono; [by apply (svc_read_spec G); [apply Hi|]|..].
  - intros d' p' (-> & Hp' & _). destruct (s3_inv_same G s p' Hi Hp') as [Hi' Ho'].
    unfold wp, head_object. cbv [bind attempt gets lift ret]. cbn [key_map set_s3_pipeline]. rewrite Hm.
    cbn [ok_or]. exists G. split; [done|]. split; [by rewrite Ho'|]. rewrite Hd, Hct. by left.
  - intros e p' [Hp' Hnh]. destruct (s3_inv_same G s p' Hi Hp') as [Hi' Ho'].
    exists G. split; [done|]. split; [by rewrite Ho'|]. rewrite Hd. by right.
Qed.

Lemma head_served G s b k :
  s3_inv G s → has_char SLASH b = false →
  wp (serve (Head b k)) (served G s (healthy (s3_pipeline s)) (Head b k)) (λ _ _, False) s.
Proof.
  intros Hi Hb. pose proof (object_entry G s b k Hi Hb) as He. cbn [serve]. apply wp_answer.
  unfold wp at 1, head_object. cbv [bind gets lift].
  destruct (key_map s !! full_key b k) as [m|] eqn:Hm; cbn [ok_or]; exists G; (split; [done|]); (split; [done|]).
  - destruct He as (d & -> & _ & Hsz & _ & Hct). eexists _, _. by rewrite Hsz, Hct.
  - by rewrite He.
Qed.

Lemma delete_served G s b k :
  s3_inv G s → has_char SLASH b = false →
  wp (serve (Delete b k)) (served G s (healthy (s3_pipeline s)) (Delete b k)) (λ _ _, False) s.
Proof.
  intros Hi Hb. pose proof (object_entry G s b k Hi Hb) as He. cbn [serve]. apply wp_answer.
  unfold wp at 1, delete_object. cbv [bind gets lift modify].
  destruct (key_map s !! full_key b k) as [m|] eqn:Hm; cbn [ok_or]; exists G.
  - destruct He as (d & Hd & _). split.
    + destruct Hi as [Hh Hk]. constructor; [done|]. intros k' m'. cbn [key_map].
      intros [_ Hm']%lookup_delete_Some. by apply Hk.
    + cbn [s3_spec]. rewrite Hd. split; [done|]. intros b' k' Hb'. unfold objects, set_object. cbn [key_map].
      case_decide as Hdec; [destruct Hdec as [-> ->]; by rewrite lookup_delete_eq|].
      rewrite lookup_delete_ne; [done|]. intros Heq. apply Hdec. by apply full_key_inj.
  - split; [done|]. cbn [s3_spec]. by rewrite He.
Qed.

Lemma list_entry s b k m :
  (k, m) ∈ filter (λ kv, str_prefix (b +:+ "/") kv.1) (hash_iter (key_map s)) ↔
  key_map s !! k = Some m ∧ str_prefix (b +:+ "/") k = true.
Proof. rewrite list_elem_of_filter, hash_iter_elem. cbn [fst]. rewrite Is_true_true. tauto. Qed.

Lemma list_served G s b :
  s3_inv G s → has_char SLASH b = false →
  wp (serve (List b)) (served G s (healthy (s3_pipeline s)) (List b)) (λ _ _, False) s.
Proof.
  intros Hi Hb. cbn [serve]. apply wp_answer. unfold wp, list_objects. cbv [bind gets ret].
  exists G. split; [done|]. split; [done|]. eexists. split; [done|].
  set (kvs := filter (λ kv, str_prefix (b +:+ "/") kv.1) (hash_iter (key_map s))).
  assert (∀ k m, (k, m) ∈ kvs → ∃ key d, k = full_key b key ∧ om_key (object_metadata uuid_text m) = k ∧
    objects G s b key = Some d ∧ describes b key d (object_metadata uuid_text m)) as Hin.
  { intros k m [Hm Hp]%list_entry.
    destruct (si_keys G s Hi k m Hm) as (b' & key & d & Hb' & -> & Hkey & Hct & Hd & Hsz).
    apply prefix_full_key_iff in Hp as ->; [|done..]. exists key, d. split_and!; try done.
    unfold objects. by rewrite Hm. }
  split; [|split].
  - rewrite <- !list_fmap_compose. replace ((om_key ∘ object_metadata uuid_text ∘ snd) <$> kvs) with kvs.*1.
    + eapply sublist_NoDup; [exact (hash_iter_NoDup (key_map s))|]. apply fmap_sublist, sublist_filter.
    + apply list_fmap_ext. intros i [k m] Hl. destruct (Hin k m (list_elem_of_lookup_2 _ _ _ Hl)) as (? & ? & _ & Hk & _).
      by rewrite <- Hk at 1.
  - intros om (m & -> & ([k m'] & -> & Hkm)%list_elem_of_fmap)%list_elem_of_fmap.
    destruct (Hin k m' Hkm) as (key & d & _ & _ & Ho & Hdesc). by exists key, d.
  - intros k d Ho. pose proof (object_entry G s b k Hi Hb) as He.
    destruct (key_map s !! full_key b k) as [m|] eqn:Hm; [|congruence].
    destruct He as (d' & Ho' & _ & Hsz & Hkey & Hct). rewrite Ho in Ho'. injection Ho' as <-.
    exists (object_metadata uuid_text m). split; [|by split_and!].
    apply list_elem_of_fmap. exists m. split; [done|]. apply list_elem_of_fmap.
    exists (full_key b k, m). split; [done|]. apply list_entry. split; [done|apply prefix_full_key].
Qed.

End s3_properties.

(** ** Witness: an object store over a table in memory *)
#[local] Existing Instance listed_order.

Definition s3_start : S3View := mkS3View (∅ : gmap CapsuleId bytes) ∅.
Definition object_id : CapsuleId := mkCapsuleId (replicate 16 x0a).
Definition put_page : Request := Put object_id (Some 5) (Some 6) "site" "index.html" [x68; x69].

Lemma s3_start_inv : s3_inv ∅ s3_start.
Proof. constructor; [done|]. intros k m. cbn [key_map s3_start]. by rewrite lookup_empty. Qed.


(** A separator in the bucket (sent as %2F) makes two objects one. *)
Example slash_in_bucket_collides :
  let run req s := (serve (λ _, "") (λ _, "") (λ _, "") req s).2 in
  let s := run (Put object_id (Some 5) (Some 6) "a/b" "c" [x62]) s3_start in
  (get_object "a" "b/c" s).1 = Ok [x62].
Proof. vm_compute. reflexivity. Qed.

(** An object that is put again, or deleted, leaves its capsule in the pipeline. *)
Example overwritten_capsule_stays :
  let run req s := (serve (λ _, "") (λ _, "") (λ _, "") req s).2 in
  let s := run (Put (mkCapsuleId []) (Some 5) (Some 6) "a" "b" [x63]) (run (Put object_id (Some 5) (Some 6) "a" "b" [x62]) s3_start) in
  (get_object "a" "b" s).1 = Ok [x63] ∧ s3_pipeline s !! object_id = Some [x62].
Proof. vm_compute. split; reflexivity. Qed.
