(* ===== verification/Guard.v ===== *)
(** What a front end leaves alone: a pipeline guards a capsule [keep] if no call but its
    deletion takes it away, and then neither do the calls of the block, NFS and S3 views, as
    long as their tables do not name it. *)
From S2P Require Import Prelude Errors Common Externals CapsuleService BlockView NfsView S3View.
From S2P Require Nvram Compression KeyManager Encryption Dedup Registry Gc WritePipeline.
From S2P Require PipelineInvariant Recovery.
Import Recovery.

(** [guards p]: the capsule is safe.  [roomy d p]: [p] can take [d]; reading keeps both, a
    write may use the room up. *)
Class Guard (P : Type) `{CapsuleService P} (keep : CapsuleId) := {
  guards : P → Prop;
  roomy : bytes → P → Prop;
  guard_write c now d p :
    c ≠ keep → roomy d p → guards p → wpc (svc_write c now d) (λ c' q, c' = c ∧ guards q) guards p;
  guard_read c p :
    guards p → wpc (svc_read c) (λ _ q, guards q ∧ ∀ d, roomy d p → roomy d q) guards p;
  guard_range c off len p : guards p → wpc (svc_range c off len) (λ _, guards) guards p;
  guard_delete c p : c ≠ keep → guards p → wpc (svc_delete c) (λ _, guards) guards p;
}.

Section frames.
Context {P : Type} `{CapsuleService P} (keep : CapsuleId) {GP : Guard P keep}.
Context {JN : JsonDoc Nodes} {JV : JsonDoc Volumes} `{!TornDoc Nodes} `{!TornDoc Volumes}.
#[local] Arguments guards {P H} keep {Guard} p : rename.
#[local] Arguments roomy {P H} keep {Guard} d p : rename.

Lemma wpc_pure {S A : Type} (r : Res Error A) (Q : A → S → Prop) (I : S → Prop) s :
  (∀ a, r = Ok a → Q a s) → I s → wpc (lift r) Q I s.
Proof. unfold wpc, lift. destruct r; auto. Qed.

Lemma wpc_zoom {S S' A : Type} (get : S' → S) (put : S → S' → S') (m : M S Error A) (Q : A → S' → Prop) I s :
  wpc m (λ a x, Q a (put x s)) (λ x, I (put x s)) (get s) → wpc (zoom get put m) Q I s.
Proof. unfold wpc, zoom. by destruct (m (get s)) as [[a|e| ] x]. Qed.

Lemma wpc_attempt {S A B : Type} (m : M S Error A) (k : A + Error → M S Error B) Q I s :
  wpc m (λ a s', wpc (k (inl a)) Q I s') (λ s', (∀ e, wpc (k (inr e)) Q I s') ∧ I s') s →
  wpc (bind (attempt m) k) Q I s.
Proof. unfold wpc, bind, attempt. destruct (m s) as [[a|e| ] s']; [done|intros [Hk _]; apply Hk|by intros [_ ?]]. Qed.

(** What is in a document after it was written, or partly. *)
Definition holds_all {T : Type} {J : JsonDoc T} (F : T → Prop) (o : option (doc T)) : Prop :=
  ∀ d x, o = Some d → of_doc d = Some x → F x.

Lemma write_doc_holds {T : Type} {J : JsonDoc T} `{!TornDoc T} (F : T → Prop) f t old :
  F t → holds_all F old → holds_all F (write_doc f (to_doc t) old).
Proof.
  intros Ht Hold d x. destruct f as [k|]; simpl.
  - destruct (k <? 0); [apply Hold|]. intros [= <-] Hx. destruct (torn_doc k t) as [Hn|Hs]; congruence.
  - intros [= <-]. rewrite of_to_doc. by intros [= <-].
Qed.

(** ** The NFS view *)
Definition unnamed (ns : Nodes) : Prop := ∀ path n size, ns !! path = Some n → node_kind n ≠ File keep size.

Record safe_nfs (v : NfsView (P := P)) : Prop := {
  sn_pipe : guards keep (nfs_pipeline v);
  sn_nodes : unnamed (nodes v);
  sn_file : ∀ o, nfs_namespace v = Some o → holds_all unnamed o;
}.

Lemma unnamed_insert ns path n :
  unnamed ns → (∀ size, node_kind n ≠ File keep size) → unnamed (<[path := n]> ns).
Proof. intros Hns Hn p m size [[<- <-]|[_ Hm]]%lookup_insert_Some; [apply Hn|by eapply Hns]. Qed.

Lemma unnamed_delete ns path : unnamed ns → unnamed (delete path ns).
Proof. intros Hns p m size [_ Hm]%lookup_delete_Some. by eapply Hns. Qed.

Lemma unnamed_touch ns path t : unnamed ns → unnamed (touch_path path t ns).
Proof.
  intros Hns. unfold touch_path. destruct (ns !! path) as [n|] eqn:Hn; [|done].
  apply unnamed_insert; [done|]. intros size. exact (Hns path n size Hn).
Qed.

Lemma unnamed_root t ns : unnamed ns → unnamed (ensure_root_node t ns).
Proof.
  intros Hns. unfold ensure_root_node. destruct (ns !! "/") as [n|] eqn:Hn; apply unnamed_insert; try done.
  intros size. exact (Hns _ n size Hn).
Qed.

Lemma unnamed_ensure path t ns : unnamed ns → wpc (ensure_directory path t) (λ _, unnamed) unnamed ns.
Proof.
  intros Hns. unfold ensure_directory. apply wpc_bind. unfold modify at 1, wpc at 1. apply wpc_bind.
  eapply wpc_mono; [apply (wpc_foldM (λ _ _, unnamed))| |done]; [|by apply unnamed_root|done].
  intros cur part _ m _ Hm. unfold ensure_part. apply wpc_bind. unfold gets, wpc at 1.
  destruct (m !! _) as [n|] eqn:Hn; [destruct (is_directory n)|].
  - apply wpc_bind. unfold modify, wpc. apply unnamed_insert; [done|]. intros size. exact (Hm _ n size Hn).
  - done.
  - apply wpc_bind. unfold modify, wpc. by apply unnamed_insert.
Qed.

Lemma safe_set_nodes v ns : safe_nfs v → unnamed ns → safe_nfs (set_nodes ns v).
Proof. intros [] ?. by split. Qed.

Lemma safe_set_pipe v p : safe_nfs v → guards keep p → safe_nfs (set_nfs_pipeline p v).
Proof. intros [] ?. by split. Qed.

Lemma safe_nfs_persist v : safe_nfs v → wpc nfs_persist (λ _, safe_nfs) safe_nfs v.
Proof.
  intros [Hp Hn Hf]. unfold wpc, nfs_persist. destruct (nfs_namespace v) as [old|] eqn:Hns; [|by split; [..|intros o; rewrite Hns]].
  destruct (next_fault (nfs_faults v)) as [f fs].
  assert (holds_all unnamed (write_doc f (to_doc (nodes v)) old)) as Hw by (apply write_doc_holds; auto).
  destruct f; split; try done; by intros o [= <-].
Qed.

Lemma safe_drop c v : c ≠ Some keep → safe_nfs v → wpc (drop_capsule c) (λ _, safe_nfs) safe_nfs v.
Proof.
  intros Hc Hv. destruct c as [c|]; [|done]. unfold drop_capsule. apply wpc_attempt, wpc_zoom.
  eapply wpc_mono; [apply guard_delete, Hv; congruence|..].
  - intros u q Hq. by apply safe_set_pipe.
  - intros q Hq. split; [intros e|]; by apply safe_set_pipe.
Qed.

Lemma safe_mkdir ts path v : safe_nfs v → wpc (mkdir ts path) (λ _, safe_nfs) safe_nfs v.
Proof.
  intros Hv. unfold mkdir. apply wpc_bind, wpc_pure; [|done]. intros pi _. apply wpc_bind, wpc_zoom.
  eapply wpc_mono; [apply unnamed_ensure, Hv|..].
  - intros u ns Hns. by apply safe_nfs_persist, safe_set_nodes.
  - intros ns Hns. by apply safe_set_nodes.
Qed.

Lemma safe_write_file id now ts path data v :
  id ≠ keep → roomy keep data (nfs_pipeline v) → safe_nfs v →
  wpc (write_file id now ts path data) (λ _, safe_nfs) safe_nfs v.
Proof.
  intros Hid Hroom Hv. unfold write_file. apply wpc_bind. unfold write_file_store.
  apply wpc_bind, wpc_pure; [|done]. intros pi _. destruct (is_root pi); [done|].
  apply wpc_bind, wpc_pure; [|done]. intros parent _. apply wpc_bind, wpc_pure; [|done]. intros parent_info _.
  apply wpc_bind. unfold preflight. apply wpc_bind. unfold gets, wpc at 1.
  assert (wpc (let! c := on_capsules (svc_write id now data) in ret (pi, parent_info, c))
    (λ a v', safe_nfs v' ∧ a.2 = id) safe_nfs v) as Hstore.
  { apply wpc_bind, wpc_zoom. eapply wpc_mono; [by apply guard_write, Hv|..].
    - intros c q [-> Hq]. split; [by apply safe_set_pipe|done].
    - intros q Hq. by apply safe_set_pipe. }
  assert (wpc (let! c := on_capsules (svc_write id now data) in ret (pi, parent_info, c))
    (λ a, wpc (let '(path_info, parent_info, capsule_id) := a in
       write_file_link path_info parent_info capsule_id (lenZ data) (unix_timestamp ts)) (λ _, safe_nfs) safe_nfs)
    safe_nfs v) as Hlink.
  { eapply wpc_mono; [exact Hstore| |done]. intros [[pi' parent'] c] v1 [Hv1 Hc]. cbn [snd] in Hc. subst c.
    unfold write_file_link. apply wpc_bind.
    eapply wpc_mono with (Q := λ old v2, safe_nfs v2 ∧ old ≠ Some keep) (I := safe_nfs); [| |done].
    - unfold link_file. apply wpc_bind, wpc_zoom.
      eapply wpc_mono; [apply unnamed_ensure, Hv1|..]; [|intros ns Hns; by apply safe_set_nodes].
      intros u ns Hns. pose proof (safe_set_nodes v1 ns Hv1 Hns) as Hv2. apply wpc_bind. unfold gets, wpc at 1.
      apply wpc_bind, wpc_pure; [|done]. intros file_name _. apply wpc_bind, wpc_zoom. unfold modify, wpc, ret. split.
      + apply safe_set_nodes; [done|]. apply unnamed_touch, unnamed_insert; [done|]. cbn [node_kind file_node]. congruence.
      + cbn [nodes set_nodes]. destruct (ns !! _) as [n|] eqn:Hn; [|done].
        destruct (node_kind n) as [|c0 size] eqn:Hk; [done|]. intros [= ->]. by apply (Hns _ _ size Hn).
    - intros old v2 [Hv2 Hold]. apply wpc_bind. eapply wpc_mono; [by apply safe_drop| |done].
      intros u v3 Hv3. apply wpc_bind. eapply wpc_mono; [by apply safe_nfs_persist|done|done]. }
  destruct (nodes v !! _) as [n|]; [destruct (is_directory n)|]; [done|exact Hlink..].
Qed.

Lemma safe_find path msg v : safe_nfs v → wpc (find_node path msg) (λ _ v', v' = v) safe_nfs v.
Proof.
  intros Hv. unfold find_node. apply wpc_bind, wpc_pure; [|done]. intros pi _. apply wpc_bind. unfold gets, wpc at 1.
  by apply wpc_pure.
Qed.

Lemma safe_read_file path v : safe_nfs v → wpc (read_file path) (λ _, safe_nfs) safe_nfs v.
Proof.
  intros Hv. unfold read_file. apply wpc_bind. eapply wpc_mono; [by apply safe_find| |done]. intros n v' ->.
  destruct (node_kind n) as [|c size]; [done|]. apply wpc_zoom. eapply wpc_mono; [apply guard_read, Hv|..].
  - intros d q [Hq _]. by apply safe_set_pipe.
  - intros q Hq. by apply safe_set_pipe.
Qed.

Lemma safe_metadata path v : safe_nfs v → wpc (metadata path) (λ _, safe_nfs) safe_nfs v.
Proof.
  intros Hv. unfold metadata. apply wpc_bind. eapply wpc_mono; [by apply safe_find| |done]. by intros n v' ->.
Qed.

Lemma safe_list path v : safe_nfs v → wpc (list_directory path) (λ _, safe_nfs) safe_nfs v.
Proof.
  intros Hv. unfold list_directory. apply wpc_bind, wpc_pure; [|done]. intros pi _. apply wpc_bind. unfold gets, wpc at 1.
  apply wpc_bind, wpc_pure; [|done]. intros n _. by destruct (negb (is_directory n)).
Qed.

Lemma safe_nfs_delete ts path v : safe_nfs v → wpc (nfs_delete ts path) (λ _, safe_nfs) safe_nfs v.
Proof.
  intros Hv. unfold nfs_delete. apply wpc_bind, wpc_pure; [|done]. intros pi _. destruct (is_root pi); [done|].
  apply wpc_bind. eapply wpc_mono with (Q := λ old v', safe_nfs v' ∧ old ≠ Some keep) (I := safe_nfs); [| |done].
  - unfold unlink. apply wpc_bind. unfold gets, wpc at 1. apply wpc_bind, wpc_pure; [|done]. intros n Hn. apply wpc_bind.
    assert (∀ old, old ≠ Some keep → wpc (on_nodes (modify (λ ns,
      let ns := delete (np_full pi) ns in
      match parent_path pi with Some parent => touch_path parent (unix_timestamp ts) ns | None => ns end)) ;;; ret old)
      (λ old v', safe_nfs v' ∧ old ≠ Some keep) safe_nfs v) as Hrm.
    { intros old Hold. apply wpc_bind, wpc_zoom. unfold modify, wpc, ret. split; [|done].
      apply safe_set_nodes; [done|]. pose proof (unnamed_delete _ (np_full pi) (sn_nodes v Hv)) as Hd.
      destruct (parent_path pi); [by apply unnamed_touch|done]. }
    destruct (node_kind n) as [|c size] eqn:Hk.
    + destruct (existsb _ _); [done|]. by apply (Hrm None).
    + apply (Hrm (Some c)). intros [= ->]. destruct (nodes v !! np_full pi) as [n'|] eqn:Hl; [|done].
      injection Hn as <-. by apply (sn_nodes v Hv _ _ size Hl).
  - intros old v' [Hv' Hold]. apply wpc_bind. eapply wpc_mono; [by apply safe_drop| |done]. intros u v2 Hv2. by apply safe_nfs_persist.
Qed.

(** ** The block view *)
Definition unbacked (vs : Volumes) : Prop := ∀ name v, vs !! name = Some v → vol_capsule_id v ≠ keep.

Record safe_block (b : BlockView (P := P)) : Prop := {
  sb_pipe : guards keep (bv_pipeline b);
  sb_volumes : unbacked (volumes b);
  sb_file : ∀ o, bv_metadata b = Some o → holds_all unbacked o;
}.

Lemma unbacked_insert vs name v : unbacked vs → vol_capsule_id v ≠ keep → unbacked (<[name := v]> vs).
Proof. intros Hvs Hv n w [[<- <-]|[_ Hw]]%lookup_insert_Some; [done|by eapply Hvs]. Qed.

Lemma unbacked_delete vs name : unbacked vs → unbacked (delete name vs).
Proof. intros Hvs n w [_ Hw]%lookup_delete_Some. by eapply Hvs. Qed.

Lemma safe_set_volumes b vs : safe_block b → unbacked vs → safe_block (set_volumes vs b).
Proof. intros [] ?. by split. Qed.

Lemma safe_set_pipeline b p : safe_block b → guards keep p → safe_block (set_pipeline p b).
Proof. intros [] ?. by split. Qed.

Lemma safe_block_persist b : safe_block b → wpc persist (λ _, safe_block) safe_block b.
Proof.
  intros [Hp Hn Hf]. unfold wpc, persist. destruct (bv_metadata b) as [old|] eqn:Hns; [|by split; [..|intros o; rewrite Hns]].
  destruct (next_fault (bv_faults b)) as [f fs].
  assert (holds_all unbacked (write_doc f (to_doc (volumes b)) old)) as Hw by (apply write_doc_holds; auto).
  destruct f; split; try done; by intros o [= <-].
Qed.

(** [let _ = self.pipeline.delete_capsule(..)] and what follows. *)
Lemma safe_forget {A : Type} c (k : M (BlockView (P := P)) Error A) b :
  c ≠ keep → safe_block b → (∀ b', safe_block b' → wpc k (λ _, safe_block) safe_block b') →
  wpc (attempt (E' := Error) (on_pipeline (svc_delete c)) ;;; k) (λ _, safe_block) safe_block b.
Proof.
  intros Hc Hb Hk. apply wpc_attempt, wpc_zoom. eapply wpc_mono; [by apply guard_delete, Hb|..].
  - intros u q Hq. by apply Hk, safe_set_pipeline.
  - intros q Hq. split; [intros e; apply Hk|]; by apply safe_set_pipeline.
Qed.

Lemma safe_volume name b : safe_block b → wpc (volume name) (λ v b', b' = b ∧ volumes b !! name = Some v) safe_block b.
Proof.
  intros Hb. unfold volume. apply wpc_bind. unfold gets, wpc at 1. apply wpc_pure; [|done].
  intros v Hv. split; [done|]. by destruct (volumes b !! name); [injection Hv as ->|].
Qed.

Lemma safe_create id now ts name size bs b :
  id ≠ keep → (∀ d, zeroed size = Ok d → roomy keep d (bv_pipeline b)) → safe_block b →
  wpc (create_volume_with_block_size id now ts name size bs) (λ _, safe_block) safe_block b.
Proof.
  intros Hid Hroom Hb. unfold create_volume_with_block_size. apply wpc_bind, wpc_pure; [|done]. intros u _.
  apply wpc_bind. eapply wpc_mono with (Q := λ _ b', b' = b) (I := safe_block); [| |done].
  { unfold check_absent. apply wpc_bind. unfold gets, wpc at 1. by case_bool_decide. }
  intros u' b' ->. apply wpc_bind, wpc_pure; [|done]. intros d Hd. apply wpc_bind, wpc_zoom.
  eapply wpc_mono; [apply guard_write; [done|by apply Hroom|apply Hb]|..]; [|intros q Hq; by apply safe_set_pipeline].
  intros c q [-> Hq]. pose proof (safe_set_pipeline b q Hb Hq) as Hb1. apply wpc_bind.
  eapply wpc_mono with (Q := λ _, safe_block) (I := safe_block); [| |done].
  - unfold insert_volume. apply wpc_bind. unfold gets, wpc at 1. case_bool_decide; [done|].
    apply wpc_bind. unfold modify, wpc, ret. apply safe_set_volumes; [done|]. by apply unbacked_insert, Hid; apply Hb1.
  - intros ins b2 Hb2. destruct ins.
    + apply wpc_bind. by eapply wpc_mono; [apply safe_block_persist|..].
    + by apply safe_forget.
Qed.

Lemma safe_delete_volume name b : safe_block b → wpc (delete_volume name) (λ _, safe_block) safe_block b.
Proof.
  intros Hb. unfold delete_volume. apply wpc_bind.
  eapply wpc_mono with (Q := λ c b', c ≠ keep ∧ safe_block b') (I := safe_block); [| |done].
  - unfold remove_volume. apply wpc_bind. eapply wpc_mono; [by apply safe_volume| |done]. intros v b' [-> Hv].
    apply wpc_bind. unfold modify, wpc, ret. split; [by eapply (sb_volumes b Hb)|].
    apply safe_set_volumes; [done|]. by apply unbacked_delete, Hb.
  - intros c b1 [Hc Hb1]. apply wpc_bind. eapply wpc_mono; [by apply safe_block_persist| |done].
    intros u b2 Hb2. by apply safe_forget.
Qed.

Lemma safe_block_read name off len b : safe_block b → wpc (block_read name off len) (λ _, safe_block) safe_block b.
Proof.
  intros Hb. unfold block_read. apply wpc_bind. eapply wpc_mono; [by apply safe_volume| |done]. intros v b' [-> _].
  case_match; [done|]. apply wpc_zoom.
  eapply wpc_mono; [apply guard_range, Hb|..]; intros; by apply safe_set_pipeline.
Qed.

Lemma safe_block_write id now ts name off data b :
  id ≠ keep → safe_block b →
  (∀ v buffer q d, volumes b !! name = Some v → svc_read (vol_capsule_id v) (bv_pipeline b) = (Ok buffer, q) →
     copy_into buffer off data = Ok d → roomy keep d (bv_pipeline b)) →
  wpc (block_write id now ts name off data) (λ _, safe_block) safe_block b.
Proof.
  intros Hid Hb Hroom. unfold block_write. destruct data as [|x data']; [done|]. set (data := x :: data').
  apply wpc_bind. eapply wpc_mono with (Q := λ cv b', b' = b ∧ ∃ v, volumes b !! name = Some v ∧ cv.1 = vol_capsule_id v)
    (I := safe_block); [| |done].
  { unfold snapshot. apply wpc_bind. eapply wpc_mono; [by apply safe_volume| |done]. intros v b' [-> Hv].
    case_match; [done|]. split; [done|]. by exists v. }
  intros [c ver] b' (-> & v & Hv & Hc). cbn [fst] in Hc. subst c. pose proof (sb_volumes b Hb name v Hv) as Hvk.
  apply wpc_bind, wpc_zoom.
  pose proof (guard_read (vol_capsule_id v) (bv_pipeline b) (sb_pipe b Hb)) as Hr. unfold wpc in Hr |- * at 1.
  destruct (svc_read (vol_capsule_id v) (bv_pipeline b)) as [[buffer|e| ] q] eqn:Hread; [|by apply safe_set_pipeline..].
  destruct Hr as [Hq Hkeep]. pose proof (safe_set_pipeline b q Hb Hq) as Hb1.
  apply wpc_bind, wpc_pure; [|done]. intros buffer' Hcopy. apply wpc_bind, wpc_zoom.
  assert (roomy keep buffer' q) as Hr.
  { apply Hkeep. by eapply Hroom. }
  eapply wpc_mono; [by apply guard_write|..]; [|intros q2 Hq2; by apply safe_set_pipeline].
  intros c q2 [-> Hq2]. pose proof (safe_set_pipeline _ q2 Hb1 Hq2) as Hb2. apply wpc_bind.
  eapply wpc_mono with (Q := λ _, safe_block) (I := safe_block); [| |done].
  - unfold swap_capsule. apply wpc_bind. eapply wpc_mono; [by apply safe_volume| |done]. intros w b' [-> Hw].
    case_match; [done|]. apply wpc_bind. unfold modify, wpc, ret. apply safe_set_volumes; [done|].
    by apply unbacked_insert, Hid; apply Hb2.
  - intros swapped b3 Hb3. destruct swapped.
    + apply wpc_bind. eapply wpc_mono; [by apply safe_block_persist| |done]. intros u b4 Hb4. by apply safe_forget.
    + by apply safe_forget.
Qed.

(** ** The S3 view *)
Context `{HashOrder}.
Context (uuid_text : bytes → string) (u64_text : Z → string) (format_http_date : Z → string).

Lemma safe_spawn {A : Type} (m : M P Error A) (Q : A → S3View (P := P) → Prop) v :
  wpc m (λ a p, Q a (set_s3_pipeline p v)) (λ p, guards keep p) (s3_pipeline v) →
  wpc (spawn_blocking m) Q (λ v', guards keep (s3_pipeline v')) v.
Proof. unfold wpc, spawn_blocking. by destruct (m (s3_pipeline v)) as [[a|e| ] p]. Qed.

Lemma safe_answer {A : Type} (m : M (S3View (P := P)) Error A) code yes v (I : S3View (P := P) → Prop) :
  wpc m (λ a, wpc (yes a) (λ _, I) I) I v → wpc (answer m code yes) (λ _, I) I v.
Proof. unfold wpc, answer. by destruct (m v) as [[a|e| ] v']. Qed.

Definition put_fits (req : Request) (v : S3View (P := P)) : Prop :=
  match req with
  | Put id _ _ _ _ body => id ≠ keep ∧ roomy keep body (s3_pipeline v)
  | _ => True
  end.

Definition guarded_view (v : S3View (P := P)) : Prop := guards keep (s3_pipeline v).

Lemma safe_serve req v :
  put_fits req v → guarded_view v →
  guarded_view (serve uuid_text u64_text format_http_date req v).2.
Proof.
  intros Hfit Hv.
  assert (wpc (serve uuid_text u64_text format_http_date req) (λ _, guarded_view) guarded_view v) as Hw.
  { destruct req as [id now ts b k body|b k|b k|b|b k]; cbn [serve]; apply safe_answer.
    - destruct Hfit as [Hid Hroom]. unfold put_object. apply wpc_bind, safe_spawn.
      eapply wpc_mono; [by apply guard_write|..]; [|by intros q Hq].
      intros c q [-> Hq]. apply wpc_bind, wpc_pure; [|done]. intros t _. apply wpc_bind. by unfold modify, wpc, ret.
    - unfold get_object. apply wpc_bind. unfold gets, wpc at 1. apply wpc_bind, wpc_pure; [|done]. intros m _.
      apply safe_spawn. eapply wpc_mono; [by apply guard_read|..]; [|by intros q Hq].
      intros d q [Hq _]. unfold handle_get, head_object, attempt, bind, gets, lift, ret, wpc.
      by destruct (ok_or _ _).
    - unfold head_object. apply wpc_bind. unfold gets, wpc at 1. by apply wpc_pure.
    - done.
    - unfold delete_object. apply wpc_bind. unfold gets, wpc at 1. apply wpc_bind, wpc_pure; [|done]. intros m _. done. }
  unfold wpc in Hw. by destruct (serve _ _ _ req v) as [[r|e| ] v'].
Qed.
End frames.
