(* ===== verification/SpaceCtl.v ===== *)
(** Crate [spacectl] (crates/spacectl/src/main.rs, default features): the command-line tool.
    Each run is a process: it opens the files, does one command and ends, and the next one
    finds what it left ([Disk]).

    The outcomes of its file operations, the keys and the clock it meets and the id it draws
    are an argument ([Env]); a local file is given by its name and the outcome of
    reading it.
    Parsing and printing a UUID, and the texts of errors, are parameters.  Printing is taken
    to succeed; what a failed command printed before is left out.  The server of [ServeS3] is
    run on the requests it gets until it is killed. *)
From S2P Require Import Prelude Errors Common Externals CapsuleService BlockView NfsView S3View.
From S2P Require Nvram Compression KeyManager Encryption Dedup Registry Gc WritePipeline PipelineInvariant.
Import Nvram KeyManager Registry Gc WritePipeline.

Class UuidText := {
  uuid_text : bytes → string;
  parse_uuid : string → option bytes;
}.

(** What is printed parses back. *)
Class UuidLaws `{UuidText} : Prop := parse_uuid_text u : lenZ u = 16 → parse_uuid (uuid_text u) = Some u.

(** ** Texts *)
Definition NL : string := String (Ascii.ascii_of_nat 10) EmptyString.
Definition TAB : string := String (Ascii.ascii_of_nat 9) EmptyString.
Definition println (s : string) : bytes := string_bytes (s +:+ NL).
Definition dec (n : Z) : string := pretty (Z.to_N n).

(** [{:>w}] *)
Definition pad_left (w : nat) (s : string) : string :=
  String.concat EmptyString (replicate (w - String.length s) (" " : string)) +:+ s.

Section spacectl.
Context {JR : JsonDoc RegistryState} {JN : JsonDoc SegmentMap} {JD : JsonDoc Nodes} {JV : JsonDoc Volumes}.
Context `{Crates} `{UuidText} `{HashOrder}.
Context (error_text : Error → string) (u64_text : Z → string) (format_http_date : Z → string).

(** "space.metadata", "space.nvram" with its segment map, "space.nfs.json",
    "space.block.json". *)
Record Disk := mkDisk {
  d_registry : option (doc RegistryState);
  d_log : bytes;
  d_map : option (doc SegmentMap);
  d_namespace : option (doc Nodes);
  d_volumes : option (doc Volumes);
}.

Record Env := mkEnv {
  e_registry : faults;
  e_nvram : faults;
  e_view : faults;
  e_keys : option KeyManager;
  e_id : CapsuleId;
  e_now : option Z;
  e_ts : option Z;
}.

(** *** Opening and closing *)

(** [open_registry_and_nvram]: [CapsuleRegistry::new] panics when the file does not open. *)
Definition open_registry_and_nvram (env : Env) (d : Disk) : Res Error (CapsuleRegistry * NvramLog) :=
  match reg_open (d_registry d) (e_registry env) with
  | Ok r =>
      let? l := nv_open (d_log d) (d_map d) (e_nvram env) in
      Ok (r, l)
  | _ => Panic
  end.

(** The files a process with the pipeline [p] leaves. *)
Definition files_of (p : WritePipeline) (d : Disk) : Disk :=
  {| d_registry := reg_metadata (registry (store p)); d_log := nv_file (nvram (store p));
     d_map := nv_metadata (nvram (store p)); d_namespace := d_namespace d; d_volumes := d_volumes d |}.

(** [let (registry, nvram) = open_registry_and_nvram()?; let pipeline = WritePipeline::new(..);] *)
Definition with_pipeline {A : Type} (env : Env) (k : WritePipeline → Res Error A * Disk) : M Disk Error A := λ d,
  match open_registry_and_nvram env d with
  | Ok (r, l) =>
      match WritePipeline_new r l (e_keys env) with
      | (Ok _, p) => k p
      | (Err e, p) => (Err e, files_of p d)
      | (Panic, p) => (Panic, files_of p d)
      end
  | Err e => (Err e, d)
  | Panic => (Panic, d)
  end.

Definition run_pipeline {A : Type} (env : Env) (m : M WritePipeline Error A) : M Disk Error A := λ d,
  with_pipeline env (λ p, let '(r, p) := m p in (r, files_of p d)) d.

(** [NfsView::open(registry, nvram, NFS_NAMESPACE_FILE)?] *)
Definition on_nfs {A : Type} (env : Env) (m : M (NfsView (P := WritePipeline)) Error A) : M Disk Error A := λ d,
  with_pipeline env (λ p,
    match NfsView_open p (d_namespace d) (e_ts env) (e_view env) with
    | Ok v =>
        let '(r, v) := m v in
        (r, let d' := files_of (nfs_pipeline v) d in
            mkDisk (d_registry d') (d_log d') (d_map d') (default (d_namespace d) (nfs_namespace v)) (d_volumes d))
    | Err e => (Err e, files_of p d)
    | Panic => (Panic, files_of p d)
    end) d.

(** [BlockView::open(registry, nvram, BLOCK_METADATA_FILE)?] *)
Definition on_block {A : Type} (env : Env) (m : M (BlockView (P := WritePipeline)) Error A) : M Disk Error A := λ d,
  with_pipeline env (λ p,
    match BlockView_open p (d_volumes d) (e_view env) with
    | Ok b =>
        let '(r, b) := m b in
        (r, let d' := files_of (bv_pipeline b) d in
            mkDisk (d_registry d') (d_log d') (d_map d') (d_namespace d) (default (d_volumes d) (bv_metadata b)))
    | Err e => (Err e, files_of p d)
    | Panic => (Panic, files_of p d)
    end) d.

(** *** Commands *)
Inductive NfsCommands :=
| NfsMkdir (path : string)
| NfsWrite (path file : string) (content : Res Error bytes)
| NfsRead (path : string)
| NfsList (path : string)
| NfsDelete (path : string)
| NfsMetadata (path : string).

Inductive BlockCommands :=
| BlockCreate (name : string) (size : Z) (block_size : option Z)
| BlockDelete (name : string)
| BlockList
| BlockInfo (name : string)
| BlockRead (name : string) (offset length : Z)
| BlockWrite (name : string) (offset : Z) (file : string) (content : Res Error bytes).

(** [requests]: what the server is asked, with the id and the clocks of a put in it. *)
Inductive Commands :=
| Create (content : Res Error bytes)
| ReadCapsule (capsule_id : string)
| ListCapsules
| ServeS3 (requests : list Request)
| Nfs (command : NfsCommands)
| Block (command : BlockCommands).

Definition entry_line (e : NfsEntry) : bytes :=
  println ((match entry_kind e with EntryDirectory => "dir " | EntryFile => "file" end) +:+ TAB +:+
    pad_left 12 (dec (entry_size e)) +:+ TAB +:+ entry_path e +:+ TAB +:+
    (match entry_capsule_id e with Some id => uuid_text (as_uuid id) | None => "-" end)).

Definition entry_report (e : NfsEntry) : bytes :=
  println ("Path: " +:+ entry_path e) ++
  println ("Type: " +:+ match entry_kind e with EntryDirectory => "directory" | EntryFile => "file" end) ++
  println ("Size: " +:+ dec (entry_size e)) ++
  println ("Created: " +:+ dec (entry_created_at e)) ++
  println ("Modified: " +:+ dec (entry_modified_at e)) ++
  match entry_capsule_id e with Some id => println ("Capsule: " +:+ uuid_text (as_uuid id)) | None => [] end.

Definition nfs_command (env : Env) (command : NfsCommands) : M (NfsView (P := WritePipeline)) Error bytes :=
  match command with
  | NfsMkdir path =>
      mkdir (e_ts env) path ;;;
      ret (println ("Created directory tree: " +:+ path))
  | NfsWrite path file content =>
      let! data := lift content in
      let! capsule := write_file (e_id env) (e_now env) (e_ts env) path data in
      ret (println ("Wrote " +:+ path +:+ " (capsule " +:+ uuid_text (as_uuid capsule) +:+ ") from " +:+ file))
  | NfsRead path => read_file path
  | NfsList path =>
      let! entries := list_directory path in
      ret (match entries with
           | [] => println "(empty directory)"
           | _ => println ("Type" +:+ TAB +:+ "Size (bytes)" +:+ TAB +:+ "Path" +:+ TAB +:+ "Capsule") ++
                  (entries ≫= entry_line)
           end)
  | NfsDelete path =>
      nfs_delete (e_ts env) path ;;;
      ret (println ("Deleted " +:+ path))
  | NfsMetadata path =>
      let! entry := metadata path in
      ret (entry_report entry)
  end.

Definition run_nfs_command (env : Env) (command : NfsCommands) : M Disk Error bytes :=
  on_nfs env (nfs_command env command).

Definition volume_line (v : BlockVolume) : bytes :=
  println (vol_name v +:+ TAB +:+ pad_left 12 (dec (vol_size v)) +:+ TAB +:+ pad_left 10 (dec (vol_block_size v)) +:+
    TAB +:+ uuid_text (as_uuid (vol_capsule_id v))).

Definition volume_report (v : BlockVolume) : bytes :=
  println ("Name: " +:+ vol_name v) ++
  println ("Size: " +:+ dec (vol_size v)) ++
  println ("Block Size: " +:+ dec (vol_block_size v)) ++
  println ("Capsule: " +:+ uuid_text (as_uuid (vol_capsule_id v))) ++
  println ("Created: " +:+ dec (vol_created_at v)) ++
  println ("Updated: " +:+ dec (vol_updated_at v)) ++
  println ("Version: " +:+ dec (vol_version v)).

Definition block_command (env : Env) (command : BlockCommands) : M (BlockView (P := WritePipeline)) Error bytes :=
  match command with
  | BlockCreate name size block_size =>
      let! v := match block_size with
                | Some block_size =>
                    create_volume_with_block_size (e_id env) (e_now env) (e_ts env) name size block_size
                | None => create_volume (e_id env) (e_now env) (e_ts env) name size
                end in
      ret (println ("Created volume " +:+ vol_name v +:+ " (size=" +:+ dec (vol_size v) +:+ " bytes, block_size=" +:+
                    dec (vol_block_size v) +:+ ")"))
  | BlockDelete name =>
      delete_volume name ;;;
      ret (println ("Deleted volume " +:+ name))
  | BlockList =>
      let! volumes := list_volumes in
      ret (match volumes with
           | [] => println "(no volumes)"
           | _ => println ("Name" +:+ TAB +:+ "Size (bytes)" +:+ TAB +:+ "Block Size" +:+ TAB +:+ "Capsule") ++
                  (volumes ≫= volume_line)
           end)
  | BlockInfo name =>
      let! v := volume name in
      ret (volume_report v)
  | BlockRead name offset length => block_read name offset length
  | BlockWrite name offset file content =>
      let! data := lift content in
      block_write (e_id env) (e_now env) (e_ts env) name offset data ;;;
      ret (println ("Wrote " +:+ dec (lenZ data) +:+ " bytes to volume " +:+ name +:+ " from " +:+ file))
  end.

Definition run_block_command (env : Env) (command : BlockCommands) : M Disk Error bytes :=
  on_block env (block_command env command).

Definition capsule_line (r : CapsuleRegistry) (id : CapsuleId) : bytes :=
  match lookup id r with
  | (Ok capsule, _) =>
      println (uuid_text (as_uuid (cap_id capsule)) +:+ TAB +:+ pad_left 12 (dec (cap_size capsule)) +:+ TAB +:+
        pad_left 3 (dec (lenZ (cap_segments capsule))))
  | (Err err, _) => println (uuid_text (as_uuid id) +:+ " " +:+ TAB +:+ "<error: " +:+ error_text err +:+ ">")
  | (Panic, _) => []
  end.

(** Only the registry is opened, and nothing is written. *)
Definition list_all (env : Env) : M Disk Error bytes := λ d,
  match reg_open (d_registry d) (e_registry env) with
  | Ok r =>
      match list_capsules r with
      | (Ok [], _) => (Ok (println "(no capsules)"), d)
      | (Ok ids, _) =>
          (Ok (println ("Capsule ID" +:+ TAB +:+ "Size (bytes)" +:+ TAB +:+ "Segments") ++ (ids ≫= capsule_line r)), d)
      | (Err e, _) => (Err e, d)
      | (Panic, _) => (Panic, d)
      end
  | _ => (Panic, d)
  end.

(** The server on its requests, over a view whose table of keys is new. *)
Fixpoint serve_all (requests : list Request) (s : S3View (P := WritePipeline)) : S3View (P := WritePipeline) :=
  match requests with
  | [] => s
  | req :: requests => serve_all requests (serve uuid_text u64_text format_http_date req s).2
  end.

Definition run_server (env : Env) (requests : list Request) : M Disk Error bytes := λ d,
  with_pipeline env (λ p,
    (Ok (println "Starting SPACE S3 Protocol View..."), files_of (s3_pipeline (serve_all requests (mkS3View p ∅))) d)) d.

Definition spacectl (env : Env) (command : Commands) : M Disk Error bytes :=
  match command with
  | Create content =>
      let! data := lift content in
      let! id := run_pipeline env (write_capsule (e_id env) (e_now env) data) in
      ret (println ("Capsule created: " +:+ uuid_text (as_uuid id)) ++ println ("Size: " +:+ dec (lenZ data) +:+ " bytes"))
  | ReadCapsule capsule_id =>
      let! uuid := lift (ok_or (parse_uuid capsule_id) (Msg "invalid UUID")) in
      run_pipeline env (read_capsule (mkCapsuleId uuid))
  | ListCapsules => list_all env
  | ServeS3 requests => run_server env requests
  | Nfs command => run_nfs_command env command
  | Block command => run_block_command env command
  end.

(** One process after the other. *)
Fixpoint sessions (runs : list (Env * Commands)) (d : Disk) : list (Res Error bytes) * Disk :=
  match runs with
  | [] => ([], d)
  | (env, command) :: runs =>
      let '(r, d) := spacectl env command d in
      let '(rs, d) := sessions runs d in
      (r :: rs, d)
  end.
End spacectl.
