(* ===== verification/SpaceCtlTheorems.v ===== *)
(** The command-line tool from one process to the next: what one command stored, a later one
    prints. *)
From S2P Require Import Prelude Errors Common Externals CapsuleService BlockView NfsView S3View.
From S2P Require Nvram Compression KeyManager Encryption Dedup Registry Gc WritePipeline.
From S2P Require PipelineInvariant PipelineTheorems Recovery RecoveryTheorems Guard SpaceCtl.
Import Nvram Compression KeyManager Encryption Registry Gc WritePipeline PipelineInvariant.
Import PipelineTheorems Recovery Guard SpaceCtl.

Section pipeline_guard.
Context {JR : JsonDoc RegistryState} {JN : JsonDoc SegmentMap}.
Context `{!TornDoc RegistryState} `{!TornDoc SegmentMap} `{Crates} `{!XtsLaws} `{HashOrder}.
Context (K : gmap SegmentId (Segment * bytes)) (c : CapsuleId) (cap : Capsule) (km : option KeyManager).
Context (HK : ∀ id, is_Some (K !! id) ↔ id ∈ cap_segments cap).
Implicit Types p : WritePipeline.

Lemma after_read_wpc {A : Type} (m : M WritePipeline Error A) p :
  framed m → kept K c cap km [] p →
  wpc m (λ _ q, kept K c cap km [] q ∧ ∀ d, fits d p → fits d q) (kept K c cap km [] ) p.
Proof.
  intros Hf Hp. pose proof (Hf p (proj2 (sv_keys _ _ _ _ _ (proj1 Hp)))) as Hw.
  eapply wpc_mono; [exact Hw|..].
  - intros a q Hq. split; [by eapply kept_after|]. intros d. apply fits_read_only, Hq.
  - intros q Hq. by eapply kept_after.
Qed.

Lemma range_wpc id off len p :
  kept K c cap km [] p → wpc (read_range id off len) (λ _, kept K c cap km []) (kept K c cap km []) p.
Proof.
  intros Hp. unfold wpc. destruct (read_range id off len p) as [r q] eqn:Hr.
  assert (kept K c cap km [] q) as Hq.
  { apply read_range_state in Hr as [->|[r' Hr]]; [done|].
    pose proof (after_read_wpc _ p (framed_read_capsule id) Hp) as Hw. unfold wpc in Hw. rewrite Hr in Hw.
    by destruct r'; destruct Hw. }
  by destruct r.
Qed.

Lemma write_returns id now d policy p a q :
  write_capsule_with_policy id now d policy p = (Ok a, q) → a = id.
Proof.
  unfold write_capsule_with_policy.
  by intros (k & p1 & _ & ([[i ids] st] & p2 & _ & (u & p3 & _ & (v & p4 & _ & [= <- _])%bind_Ok)%bind_Ok)%bind_Ok)%bind_Ok.
Qed.

#[export] Program Instance pipeline_guard : Guard WritePipeline c :=
  {| guards := kept K c cap km []; roomy := fits |}.
Next Obligation.
  intros id now d p Hid Hf Hp. simpl. unfold write_capsule.
  pose proof (write_kept K c cap km HK id now d Policy_default p Hf Hp) as Hw. unfold wpc in *.
  destruct (write_capsule_with_policy id now d Policy_default p) as [[a|e| ] q] eqn:Hr; [|done..].
  split; [by eapply write_returns|done].
Qed.
Next Obligation. intros id p Hp. by apply (after_read_wpc _ p (framed_read_capsule id)). Qed.
Next Obligation. intros id off len p Hp. by apply range_wpc. Qed.
Next Obligation. intros id p Hid Hp. by apply (delete_kept K c cap km HK p id). Qed.
End pipeline_guard.

(** ** The keys *)
Section keys.
Context {JR : JsonDoc RegistryState} {JN : JsonDoc SegmentMap} `{Crates} `{HashOrder}.

(** A call changes the cache of the key manager at most. *)
Definition keeps_keys {A : Type} (m : M WritePipeline Error A) : Prop :=
  ∀ p, keys_ok p → let q := snd (m p) in same_keys (key_manager p) (key_manager q) ∧ keys_ok q.

Lemma keeps_keys_bind {A B : Type} (m : M WritePipeline Error A) (k : A → M WritePipeline Error B) :
  keeps_keys m → (∀ a, keeps_keys (k a)) → keeps_keys (bind m k).
Proof.
  intros Hm Hk p Hp. specialize (Hm p Hp). unfold bind. destruct (m p) as [[a|e| ] q]; cbn [snd] in *; [|done..].
  destruct Hm as [Hs Hq]. destruct (Hk a q Hq) as [Hs' Hq']. split; [|done].
  destruct (key_manager p), (key_manager q), (key_manager (snd (k a q))); try done.
  destruct Hs, Hs'. split; congruence.
Qed.

Lemma keeps_keys_same {A : Type} (m : M WritePipeline Error A) :
  (∀ p, key_manager (snd (m p)) = key_manager p) → keeps_keys m.
Proof. intros Hm p Hp. cbn zeta. unfold keys_ok. rewrite (Hm p). split; [apply same_keys_refl|done]. Qed.

Lemma keeps_keys_store {A : Type} (m : M Store Error A) : keeps_keys (on_store m).
Proof. apply keeps_keys_same. intros p. unfold on_store, zoom. by destruct (m (store p)). Qed.

Lemma keeps_keys_map_err {A E : Type} (g : E → Error) (m : M WritePipeline E A) :
  (∀ p, key_manager (snd (m p)) = key_manager p) → keeps_keys (map_err g m).
Proof. intros Hm. apply keeps_keys_same. intros p. rewrite <- (Hm p). unfold map_err. by destruct (m p). Qed.

Lemma keeps_keys_foldM {A B : Type} (f : B → A → M WritePipeline Error B) l :
  (∀ b x, keeps_keys (f b x)) → ∀ b, keeps_keys (foldM f b l).
Proof.
  intros Hf. induction l as [|x l IH]; intros b; [by apply keeps_keys_same|]. cbn [foldM].
  apply keeps_keys_bind; [apply Hf|apply IH].
Qed.

Lemma keeps_keys_km {A : Type} (mm : M KeyManager EncryptionError A) :
  (∀ m, cache_coherent m → let q := snd (mm m) in
     cache_coherent q ∧ master_key q = master_key m ∧ hkdf_salt q = hkdf_salt m) → keeps_keys (on_km mm).
Proof.
  intros Hm p Hp. unfold on_km. destruct (key_manager p) as [m|] eqn:Hk; [|cbn [snd]; by rewrite Hk].
  specialize (Hm m (Hp m Hk)). destruct (mm m) as [r m']. cbn [snd key_manager] in *.
  destruct Hm as (Hc & ? & ?). split; [done|]. by intros ? [= <-].
Qed.

Lemma keeps_keys_write id now d policy : keeps_keys (write_capsule_with_policy id now d policy).
Proof.
  assert (∀ A (m : M NvramLog Error A) g, keeps_keys (map_err g (nv m))) as Hnv.
  { intros A m g. apply keeps_keys_map_err. intros p. unfold nv, on_store, zoom. by destruct (on_nvram m (store p)). }
  assert (∀ A (m : M CapsuleRegistry Error A) g, keeps_keys (map_err g (reg m))) as Hreg.
  { intros A m g. apply keeps_keys_map_err. intros p. unfold reg, on_store, zoom. by destruct (on_registry m (store p)). }
  assert (∀ f cr h m, keeps_keys (write_new_segment f cr h m)) as Hnew.
  { intros f cr h m. unfold write_new_segment. apply keeps_keys_bind; [apply keeps_keys_store|]. intros n.
    apply keeps_keys_bind; [apply Hnv|]. intros sg. apply keeps_keys_bind; [apply Hnv|]. intros u. by apply keeps_keys_same. }
  unfold write_capsule_with_policy. apply keeps_keys_bind; [by apply keeps_keys_same|]. intros k.
  apply keeps_keys_bind.
  - apply keeps_keys_foldM. intros [[i ids] st] chunk. unfold write_chunk.
    apply keeps_keys_bind; [by apply keeps_keys_same|]. intros [view r]. apply keeps_keys_bind.
    + destruct (is_enabled _ && _); [|by apply keeps_keys_same]. apply keeps_keys_bind; [|intros [ct m]; by apply keeps_keys_same].
      unfold encrypt_chunk. apply keeps_keys_bind.
      { apply keeps_keys_km. intros m Hm. cbv [bind gets ret]. pose proof (get_key_eq m (current_version m) Hm) as Hg.
        destruct (get_key (current_version m) m) as [[kp|e| ] m']; cbn [snd]; tauto. }
      intros [v kp]. apply keeps_keys_bind; [by apply keeps_keys_same|]. intros [ct m].
      apply keeps_keys_bind; [by apply keeps_keys_same|]. intros tag. by apply keeps_keys_same.
    + intros [f m]. apply keeps_keys_bind; [|intros [sg st']; by apply keeps_keys_same]. unfold place_segment.
      destruct (dedupe policy).
      * apply keeps_keys_bind; [apply keeps_keys_store|]. intros [sg|].
        -- apply keeps_keys_bind; [apply Hnv|]. intros sg'. by apply keeps_keys_same.
        -- apply keeps_keys_bind; [apply Hnew|]. intros n. apply keeps_keys_bind; [apply Hreg|]. intros u. by apply keeps_keys_same.
      * apply keeps_keys_bind; [apply Hnew|]. intros n. by apply keeps_keys_same.
  - intros [[i ids] st]. apply keeps_keys_bind; [case_if; [apply Hreg|by apply keeps_keys_same]|]. intros u.
    apply keeps_keys_bind; [apply Hreg|]. intros u'. by apply keeps_keys_same.
Qed.

Lemma keeps_keys_reconcile : keeps_keys reconcile_refcounts.
Proof.
  unfold reconcile_refcounts. apply keeps_keys_bind; [by apply keeps_keys_same|]. intros p.
  apply keeps_keys_bind; [apply keeps_keys_store|]. intros l. apply keeps_keys_bind.
  - apply keeps_keys_foldM. intros u sg. cbv zeta. case_if; [apply keeps_keys_store|by apply keeps_keys_same].
  - intros u. apply keeps_keys_bind; [apply keeps_keys_store|]. intros n. by apply keeps_keys_same.
Qed.
End keys.

(** ** A start never panics on its own *)
Section calm.
Context {JR : JsonDoc RegistryState} {JN : JsonDoc SegmentMap} `{Crates} `{HashOrder}.

Definition calm {S E A : Type} (m : M S E A) : Prop := ∀ s, fst (m s) ≠ Panic.

Lemma calm_bind {S E A B : Type} (m : M S E A) (k : A → M S E B) : calm m → (∀ a, calm (k a)) → calm (bind m k).
Proof. intros Hm Hk s. specialize (Hm s). unfold bind. destruct (m s) as [[a|e| ] s']; [apply Hk|done..]. Qed.

Lemma calm_zoom {S S' E A : Type} (get : S' → S) (put : S → S' → S') (m : M S E A) : calm m → calm (zoom get put m).
Proof. intros Hm s. specialize (Hm (get s)). unfold zoom. by destruct (m (get s)). Qed.

Lemma calm_foldM {S E A B : Type} (f : B → A → M S E B) l : (∀ b x, calm (f b x)) → ∀ b, calm (foldM f b l).
Proof. intros Hf. induction l as [|x l IH]; intros b; [done|]. cbn [foldM]. by apply calm_bind. Qed.

Lemma calm_save_map : calm save_segment_map.
Proof. intros l. unfold save_segment_map. by destruct (next_fault _) as [[k|] fs]. Qed.

Lemma calm_save : calm save.
Proof. intros r. unfold save. by destruct (next_fault _) as [[k|] fs]. Qed.

Lemma calm_reclaim sg : calm (Gc.reclaim_segment sg).
Proof.
  unfold Gc.reclaim_segment. apply calm_bind.
  - destruct (seg_content_hash sg) as [h|]; [|done]. apply calm_bind; [|done]. apply calm_zoom.
    unfold deregister_content. apply calm_bind; [done|]. intros cur. case_match; [|done].
    apply calm_bind; [done|]. intros u. apply calm_bind; [apply calm_save|done].
  - intros u. apply calm_bind; [|by intros [x|]]. apply calm_zoom. unfold remove_segment. apply calm_bind; [done|].
    intros o. apply calm_bind; [done|]. intros u'. destruct o; [|done]. apply calm_bind; [apply calm_save_map|done].
Qed.

Lemma calm_reconcile : calm reconcile_refcounts.
Proof.
  unfold reconcile_refcounts. apply calm_bind; [done|]. intros p. apply calm_bind; [by do 2 apply calm_zoom|]. intros l.
  apply calm_bind.
  - apply calm_foldM. intros u sg. cbv zeta. case_if; [|done]. do 2 apply calm_zoom.
    unfold update_segment_metadata. apply calm_bind; [done|]. intros u'. apply calm_save_map.
  - intros u. apply calm_bind; [|done]. apply calm_zoom. unfold sweep. apply calm_bind; [by apply calm_zoom|]. intros l'.
    apply calm_foldM. intros n sg. case_match; [|done]. apply calm_bind; [apply calm_reclaim|done].
Qed.

Lemma start_ok r l k : ∃ p, WritePipeline_new r l k = (Ok tt, p).
Proof.
  unfold WritePipeline_new, bind, attempt, ret. pose proof (calm_reconcile (mkWritePipeline (mkStore r l) k)) as Hc.
  destruct (reconcile_refcounts _) as [[u|e| ] p]; [by exists p..|done].
Qed.
End calm.

(** ** From process to process *)
Section disk.
Context {JR : JsonDoc RegistryState} {JN : JsonDoc SegmentMap} {JD : JsonDoc Nodes} {JV : JsonDoc Volumes}.
Context `{!TornDoc RegistryState} `{!TornDoc SegmentMap} `{!TornDoc Nodes} `{!TornDoc Volumes}.
Context `{Crates} `{!XtsLaws} `{UuidText} `{HashOrder}.
Context (error_text : Error → string) (u64_text : Z → string) (format_http_date : Z → string).
Implicit Types d : Disk.
Implicit Types p : WritePipeline.

(** What a start finds: the outcome of the reconciliation, and the pipeline. *)
Definition opened (env : Env) d : option (Res Error unit * WritePipeline) :=
  match open_registry_and_nvram env d with
  | Ok (r, l) =>
      Some (fst (reconcile_refcounts (mkWritePipeline (mkStore r l) (e_keys env))), snd (WritePipeline_new r l (e_keys env)))
  | _ => None
  end.

(** The keys of the process derive what those of the first one did. *)
Definition keyed (km : option KeyManager) (env : Env) : Prop :=
  same_keys km (e_keys env) ∧ ∀ m, e_keys env = Some m → cache_coherent m.

(** The machine integers have room for what the command writes over [p], under new ids. *)
Fixpoint requests_fit (keep : CapsuleId) (requests : list Request) (v : S3View (P := WritePipeline)) : Prop :=
  match requests with
  | [] => True
  | req :: rest =>
      match req with
      | Put id _ _ _ _ body => id ≠ keep ∧ fits body (s3_pipeline v)
      | _ => True
      end ∧ requests_fit keep rest (serve uuid_text u64_text format_http_date req v).2
  end.

Definition has_room (keep : CapsuleId) (env : Env) (cmd : Commands) d p : Prop :=
  match cmd with
  | Create (Ok data) => fits data p
  | Nfs (NfsWrite _ _ (Ok data)) => fits data p
  | Block (BlockCreate _ size _) => ∀ z, zeroed size = Ok z → fits z p
  | Block (BlockWrite name off _ (Ok data)) =>
      ∀ b v buffer q z, BlockView_open p (d_volumes d) (e_view env) = Ok b → volumes b !! name = Some v →
        read_capsule (vol_capsule_id v) p = (Ok buffer, q) → copy_into buffer off data = Ok z → fits z p
  | ServeS3 requests => requests_fit keep requests (mkS3View p ∅)
  | _ => True
  end.

(** One process: it does a command, whatever its file operations return, after a
    reconciliation that succeeded; or it dies before its command, at any point of its start.
    No id it draws is [keep]. *)
Inductive process (km : option KeyManager) (keep : CapsuleId) : Disk → Disk → Prop :=
| process_command env cmd d r d' :
    keyed km env → e_id env ≠ keep →
    (∀ res p, opened env d = Some (res, p) → res = Ok tt ∧ has_room keep env cmd d p) →
    spacectl error_text u64_text format_http_date env cmd d = (r, d') → process km keep d d'
| process_killed env d res p :
    keyed km env → opened env d = Some (res, p) → process km keep d (files_of p d).

Section kept_disk.
Context (K : gmap SegmentId (Segment * bytes)) (c : CapsuleId) (cap : Capsule) (km : option KeyManager).
Context (HK : ∀ id, is_Some (K !! id) ↔ id ∈ cap_segments cap).

Record disk_saved d : Prop := {
  ds_files : ∃ p, saved K c cap km p ∧ reg_metadata (rg p) = d_registry d ∧ nv_file (lg p) = d_log d ∧
    nv_metadata (lg p) = d_map d;
  ds_namespace : holds_all (unnamed c) (d_namespace d);
  ds_volumes : holds_all (unbacked c) (d_volumes d);
}.

Lemma files_saved p d : saved K c cap km p → disk_saved d → disk_saved (files_of p d).
Proof. intros Hp [_ Hn Hv]. split; [by exists p|done|done]. Qed.

Lemma keyed_trans a b env : same_keys a b → keyed a env → same_keys b (e_keys env).
Proof. intros Hab [Hb _]. destruct a, b, (e_keys env); try done. destruct Hab, Hb. split; congruence. Qed.

Lemma start_saved env d r l :
  disk_saved d → keyed km env → open_registry_and_nvram env d = Ok (r, l) →
  match WritePipeline_new r l (e_keys env) with
  | (_, p) => saved K c cap km p ∧
      (fst (reconcile_refcounts (mkWritePipeline (mkStore r l) (e_keys env))) = Ok tt → kept K c cap km [] p)
  end.
Proof.
  intros [(p & Hs & Hr & Hl & Hm) _ _] Hk. unfold open_registry_and_nvram. rewrite <- Hr, <- Hl, <- Hm.
  destruct (reg_open _ _) as [r'|e| ] eqn:Hro; [|done..].
  destruct (nv_open _ _ _) as [l'|e| ] eqn:Hno; [|done..]. cbn [res_bind]. intros [= -> ->].
  pose proof (saved_reopen K c cap km p _ _ r l (e_keys env) Hs Hro Hno) as Hs'.
  specialize (Hs' (keyed_trans _ _ _ (proj1 (sv_keys _ _ _ _ _ Hs)) Hk) (proj2 Hk)).
  pose proof (reconcile_kept K c cap km HK _ Hs') as Hw. unfold wpc in Hw.
  unfold WritePipeline_new, bind, attempt, ret.
  destruct (reconcile_refcounts _) as [[[]|e| ] q]; cbn [fst]; [by split; [apply Hw|]|by split; [apply Hw|]..].
Qed.

Lemma opened_saved env d res p :
  disk_saved d → keyed km env → opened env d = Some (res, p) →
  saved K c cap km p ∧ (res = Ok tt → kept K c cap km [] p).
Proof.
  intros Hd Hk. unfold opened. destruct (open_registry_and_nvram env d) as [[r l]|e| ] eqn:Ho; [|done..].
  pose proof (start_saved env d r l Hd Hk Ho) as Hs. destruct (WritePipeline_new r l (e_keys env)) as [x q].
  by intros [= <- <-].
Qed.

Lemma with_pipeline_saved {A : Type} env (k : WritePipeline → Res Error A * Disk) d :
  disk_saved d → keyed km env →
  (∀ res p, opened env d = Some (res, p) → disk_saved (snd (k p))) →
  disk_saved (snd (with_pipeline env k d)).
Proof.
  intros Hd Hk Hc. unfold with_pipeline, opened in *.
  destruct (open_registry_and_nvram env d) as [[r l]|e| ] eqn:Ho; [|done..].
  pose proof (start_saved env d r l Hd Hk Ho) as Hs.
  destruct (WritePipeline_new r l (e_keys env)) as [[u|e| ] q]; [exact (Hc _ q eq_refl)|apply files_saved; [exact (proj1 Hs)|done]..].
Qed.

#[local] Instance disk_guard : Guard WritePipeline c := pipeline_guard K c cap km HK.

(** A command that meets an exact pipeline leaves the capsule on disk. *)
Lemma run_pipeline_saved {A : Type} env (m : M WritePipeline Error A) d :
  disk_saved d → keyed km env →
  (∀ res p, opened env d = Some (res, p) → saved K c cap km p → saved K c cap km (snd (m p))) →
  disk_saved (snd (run_pipeline env m d)).
Proof.
  intros Hd Hk Hm. apply with_pipeline_saved; [done..|]. intros res p Ho.
  specialize (Hm res p Ho (proj1 (opened_saved env d res p Hd Hk Ho))).
  destruct (m p) as [r q]. by apply files_saved.
Qed.

Lemma on_nfs_saved {A : Type} env (m : M (NfsView (P := WritePipeline)) Error A) d :
  disk_saved d → keyed km env →
  (∀ res p, opened env d = Some (res, p) → res = Ok tt) →
  (∀ res p v, opened env d = Some (res, p) → NfsView_open p (d_namespace d) (e_ts env) (e_view env) = Ok v →
     safe_nfs c v → wpc m (λ _, safe_nfs c) (safe_nfs c) v) →
  disk_saved (snd (on_nfs env m d)).
Proof.
  intros Hd Hk Hok Hm. apply with_pipeline_saved; [done..|]. intros res p Ho.
  destruct (opened_saved env d res p Hd Hk Ho) as [Hs Hkept]. specialize (Hkept (Hok res p Ho)).
  destruct (NfsView_open _ _ _ _) as [v|e| ] eqn:Hv; [|by apply files_saved..].
  assert (safe_nfs c v) as Hsv.
  { unfold NfsView_open in Hv. pose proof (ds_namespace d Hd) as Hn. destruct (d_namespace d) as [dn|] eqn:Hdn.
    - destruct (next_fault (e_view env)) as [[k|] fs]; [done|]. unfold ok_or, res_bind in Hv.
      destruct (of_doc dn) as [ns|] eqn:Hns; [|done]. injection Hv as <-. split; [done| |].
      + apply unnamed_root. by eapply Hn.
      + intros o [= <-]. exact Hn.
    - injection Hv as <-. split; [done| |].
      + apply unnamed_root. intros path n size. cbn [nodes]. by rewrite lookup_empty.
      + by intros o [= <-]. }
  specialize (Hm res p v Ho Hv Hsv).
  assert (safe_nfs c (snd (m v))) as [Hp Hn Hf] by (unfold wpc in Hm; by destruct (m v) as [[a|e| ] v']).
  destruct (m v) as [r v']. cbn [snd] in *. destruct Hd as [_ Hdn Hdv]. split; [|cbn [d_namespace files_of]|done].
  - exists (nfs_pipeline v'). split; [apply Hp|done].
  - destruct (nfs_namespace v') as [o|] eqn:Ho'; [by apply Hf|done].
Qed.

Lemma on_block_saved {A : Type} env (m : M (BlockView (P := WritePipeline)) Error A) d :
  disk_saved d → keyed km env →
  (∀ res p, opened env d = Some (res, p) → res = Ok tt) →
  (∀ res p b, opened env d = Some (res, p) → BlockView_open p (d_volumes d) (e_view env) = Ok b →
     safe_block c b → wpc m (λ _, safe_block c) (safe_block c) b) →
  disk_saved (snd (on_block env m d)).
Proof.
  intros Hd Hk Hok Hm. apply with_pipeline_saved; [done..|]. intros res p Ho.
  destruct (opened_saved env d res p Hd Hk Ho) as [Hs Hkept]. specialize (Hkept (Hok res p Ho)).
  destruct (BlockView_open _ _ _) as [b|e| ] eqn:Hb; [|by apply files_saved..].
  assert (safe_block c b) as Hsb.
  { unfold BlockView_open in Hb. pose proof (ds_volumes d Hd) as Hv. destruct (d_volumes d) as [dv|] eqn:Hdv.
    - destruct (next_fault (e_view env)) as [[k|] fs]; [done|]. unfold ok_or, res_bind in Hb.
      destruct (of_doc dv) as [vs|] eqn:Hvs; [|done]. injection Hb as <-. split; [done|by eapply Hv|].
      intros o [= <-]. exact Hv.
    - injection Hb as <-. split; [done| |by intros o [= <-]]. intros name v. cbn [volumes]. by rewrite lookup_empty. }
  specialize (Hm res p b Ho Hb Hsb).
  assert (safe_block c (snd (m b))) as [Hp Hn Hf] by (unfold wpc in Hm; by destruct (m b) as [[a|e| ] b']).
  destruct (m b) as [r b']. cbn [snd] in *. destruct Hd as [_ Hdn Hdv]. split; [|done|cbn [d_volumes files_of]].
  - exists (bv_pipeline b'). split; [apply Hp|done].
  - destruct (bv_metadata b') as [o|] eqn:Ho'; [by apply Hf|done].
Qed.

Lemma wpc_then {S A B : Type} (m : M S Error A) (f : A → B) I s :
  wpc m (λ _, I) I s → wpc (let! a := m in ret (f a)) (λ _, I) I s.
Proof. intros Hm. apply wpc_bind. by eapply wpc_mono; [exact Hm|..]. Qed.

Lemma nfs_command_saved env cmd d v p :
  e_id env ≠ c → has_room c env (Nfs cmd) d p → NfsView_open p (d_namespace d) (e_ts env) (e_view env) = Ok v →
  safe_nfs c v → wpc (nfs_command env cmd) (λ _, safe_nfs c) (safe_nfs c) v.
Proof.
  intros Hid Hroom Hv Hs. assert (nfs_pipeline v = p) as Hp.
  { unfold NfsView_open in Hv. destruct (d_namespace d) as [dn|]; [|by injection Hv as <-].
    destruct (next_fault _) as [[k|] fs]; [done|]. unfold ok_or, res_bind in Hv. destruct (of_doc dn); [|done].
    by injection Hv as <-. }
  destruct cmd as [path|path file content|path|path|path|path]; cbn [nfs_command].
  - by apply wpc_then, safe_mkdir.
  - apply wpc_bind, wpc_pure; [|done]. intros data ->. apply wpc_then, safe_write_file; [done..| |done].
    by rewrite Hp.
  - by apply safe_read_file.
  - by apply wpc_then, safe_list.
  - by apply wpc_then, safe_nfs_delete.
  - by apply wpc_then, safe_metadata.
Qed.

Lemma block_open_pipeline p o fs b : BlockView_open p o fs = Ok b → bv_pipeline b = p.
Proof.
  unfold BlockView_open. destruct o as [dv|]; [|by intros [= <-]].
  destruct (next_fault _) as [[k|] fs']; [done|]. unfold ok_or, res_bind. destruct (of_doc dv); [|done].
  by intros [= <-].
Qed.

Lemma block_command_saved env cmd d b p :
  e_id env ≠ c → has_room c env (Block cmd) d p → BlockView_open p (d_volumes d) (e_view env) = Ok b →
  safe_block c b → wpc (block_command env cmd) (λ _, safe_block c) (safe_block c) b.
Proof.
  intros Hid Hroom Hb Hs. pose proof (block_open_pipeline _ _ _ _ Hb) as Hp.
  destruct cmd as [name size bs|name| |name|name off len|name off file content]; cbn [block_command].
  - apply wpc_then. unfold create_volume.
    destruct bs as [bs|]; (apply safe_create; [done..| |done]; intros z Hz; rewrite Hp; by apply Hroom).
  - by apply wpc_then, safe_delete_volume.
  - by apply wpc_then.
  - apply wpc_then. eapply wpc_mono; [by apply safe_volume| |done]. by intros v b' [-> _].
  - by apply safe_block_read.
  - apply wpc_bind, wpc_pure; [|done]. intros data ->. apply wpc_then, safe_block_write; [done..|].
    intros v buffer q z Hv Hr Hz. rewrite Hp in *. by eapply Hroom.
Qed.

Lemma serve_all_saved requests v :
  requests_fit c requests v → guarded_view c v → guarded_view c (serve_all u64_text format_http_date requests v).
Proof.
  revert v. induction requests as [|req rest IH]; intros v Hf Hv; [done|]. destruct Hf as [Hreq Hrest].
  cbn [serve_all]. apply IH; [done|]. apply safe_serve; [|done]. by destruct req.
Qed.

Lemma command_saved env cmd d :
  disk_saved d → keyed km env → e_id env ≠ c →
  (∀ res p, opened env d = Some (res, p) → res = Ok tt ∧ has_room c env cmd d p) →
  disk_saved (snd (spacectl error_text u64_text format_http_date env cmd d)).
Proof.
  intros Hd Hk Hid Hok.
  assert (∀ A B (m : M Disk Error A) (k : A → M Disk Error B), disk_saved (snd (m d)) →
    (∀ a d', snd (k a d') = d') → disk_saved (snd (bind m k d))) as Hbind.
  { intros A B m k Hm Hkk. unfold bind. destruct (m d) as [[a|e| ] d']; [by rewrite Hkk|done..]. }
  destruct cmd as [content|text| |requests|cmd|cmd]; cbn [spacectl].
  - unfold bind at 1, lift. destruct content as [data|e| ]; [|done..]. apply Hbind; [|done].
    apply run_pipeline_saved; [done..|]. intros res p Ho _. destruct (Hok res p Ho) as [-> Hroom].
    destruct (opened_saved env d _ p Hd Hk Ho) as [_ Hkept].
    eapply (wpc_state _ (saved K c cap km)); [|apply surjective_pairing].
    eapply wpc_mono; [by apply (write_kept K c cap km HK), Hkept| |]; [intros a q [? _]|intros q [? _]]; done.
  - unfold bind, lift. destruct (ok_or _ _) as [u|e| ]; [|done..].
    apply run_pipeline_saved; [done..|]. intros res p Ho _. destruct (Hok res p Ho) as [-> Hroom].
    destruct (opened_saved env d _ p Hd Hk Ho) as [_ Hkept].
    eapply (wpc_state _ (saved K c cap km)); [|apply surjective_pairing].
    eapply wpc_mono; [apply after_read_wpc; [apply framed_read_capsule|by apply Hkept]|..]; [intros a q [[? _] _]|intros q [? _]]; done.
  - unfold list_all. destruct (reg_open _ _) as [r|e| ]; [|done..].
    by destruct (list_capsules r) as [[[|i ids]|e| ] r'].
  - apply with_pipeline_saved; [done..|]. intros res p Ho. destruct (Hok res p Ho) as [-> Hroom].
    destruct (opened_saved env d _ p Hd Hk Ho) as [_ Hkept]. apply files_saved; [|done].
    by apply (serve_all_saved requests (mkS3View p ∅) Hroom), Hkept.
  - apply on_nfs_saved; [done..|intros res p Ho; by apply (Hok res p Ho)|].
    intros res p v Ho Hv Hs. by eapply nfs_command_saved; [done|apply (Hok res p Ho)|..].
  - apply on_block_saved; [done..|intros res p Ho; by apply (Hok res p Ho)|].
    intros res p b Ho Hb Hs. by eapply block_command_saved; [done|apply (Hok res p Ho)|..].
Qed.

Lemma process_saved d d' : disk_saved d → process km c d d' → disk_saved d'.
Proof.
  intros Hd Hp. destruct Hp as [env cmd d r d' Hk Hid Hok Hrun|env d res p Hk Ho].
  - pose proof (command_saved env cmd d Hd Hk Hid Hok) as Hs. by rewrite Hrun in Hs.
  - apply files_saved; [|done]. exact (proj1 (opened_saved env d res p Hd Hk Ho)).
Qed.

Lemma processes_saved d d' : disk_saved d → rtc (process km c) d d' → disk_saved d'.
Proof. intros Hd Hp. induction Hp as [|d d1 d2 Hstep _ IH]; [done|]. apply IH. by eapply process_saved. Qed.

(** Reading it in a new process. *)
Lemma read_saved env d data :
  disk_saved d → keyed km env → seals_as K cap km data →
  match run_pipeline env (read_capsule c) d with
  | (Ok out, _) => out = data
  | (Err _, _) => ∀ res p, opened env d = Some (res, p) → nv_faults (lg p) ≠ []
  | (Panic, _) => opened env d = None
  end.
Proof.
  intros Hd Hk Hseal. unfold run_pipeline, with_pipeline, opened.
  destruct (open_registry_and_nvram env d) as [[r l]|e| ] eqn:Ho; [|done..].
  pose proof (start_saved env d r l Hd Hk Ho) as Hs. destruct (start_ok r l (e_keys env)) as [p Hp]. rewrite Hp in *.
  pose proof (saved_read K c cap km p data (proj1 Hs) Hseal) as Hr. unfold wp in Hr.
  destruct (read_capsule c p) as [[out|e| ] q]; [done| |done]. intros res p' [= _ <-]. exact Hr.
Qed.
End kept_disk.
End disk.

Section spacectl_properties.
Context {JR : JsonDoc RegistryState} {JN : JsonDoc SegmentMap} {JD : JsonDoc Nodes} {JV : JsonDoc Volumes}.
Context `{!TornDoc RegistryState} `{!TornDoc SegmentMap} `{!TornDoc Nodes} `{!TornDoc Volumes}.
Context `{Crates} `{!XtsLaws} `{UuidText} `{!UuidLaws} `{HashOrder}.
Context (error_text : Error → string) (u64_text : Z → string) (format_http_date : Z → string).
Implicit Types d : Disk.
Implicit Types p : WritePipeline.

Lemma process_same_keys a b keep d d' :
  same_keys a b → process error_text u64_text format_http_date a keep d d' →
  process error_text u64_text format_http_date b keep d d'.
Proof.
  intros Hab Hp. assert (∀ env, keyed a env → keyed b env) as Hk.
  { intros env Hk. split; [by eapply keyed_trans|apply Hk]. }
  destruct Hp as [env cmd d r d' Hkey Hid Hok Hrun|env d res p Hkey Ho].
  - eapply process_command; [by apply Hk|done..].
  - eapply process_killed; [by apply Hk|done].
Qed.

Lemma start_keys env d res p :
  opened env d = Some (res, p) → (∀ m, e_keys env = Some m → cache_coherent m) →
  same_keys (e_keys env) (key_manager p) ∧ keys_ok p.
Proof.
  unfold opened. destruct (open_registry_and_nvram env d) as [[r l]|e| ]; [|done..]. intros Ho Hk.
  pose proof (keeps_keys_reconcile (mkWritePipeline (mkStore r l) (e_keys env)) Hk) as Hq. cbn zeta in Hq.
  destruct (start_ok r l (e_keys env)) as [q Hq']. rewrite Hq' in Ho. injection Ho as _ <-. revert Hq'.
  unfold WritePipeline_new, bind, attempt, ret. destruct (reconcile_refcounts _) as [[u|e| ] q']; by intros [= <-].
Qed.

(** The process of a successful [create]. *)
Lemma create_process env data d out d' res p :
  opened env d = Some (res, p) →
  spacectl error_text u64_text format_http_date env (Create (Ok data)) d = (Ok out, d') →
  ∃ p', write_capsule (e_id env) (e_now env) data p = (Ok (e_id env), p') ∧ d' = files_of p' d ∧
    out = println ("Capsule created: " +:+ uuid_text (as_uuid (e_id env))) ++ println ("Size: " +:+ dec (lenZ data) +:+ " bytes").
Proof.
  intros Ho. cbn [spacectl]. unfold bind, lift, run_pipeline, with_pipeline, opened, ret in *.
  destruct (open_registry_and_nvram env d) as [[r l]|e| ]; [|done..].
  destruct (start_ok r l (e_keys env)) as [q Hq]. rewrite Hq in *. injection Ho as _ <-. cbn zeta.
  destruct (write_capsule (e_id env) (e_now env) data q) as [[id|e| ] q'] eqn:Hw; [|done..].
  assert (id = e_id env) as -> by exact (write_returns _ _ _ Policy_default _ _ _ Hw).
  intros [= <- <-]. by exists q'.
Qed.

(** C2: what [spacectl create] stored, [spacectl read] prints in a later process.  In
    between, any number of processes ran over the same files: commands of every kind whose
    file operations return anything, deletions and an S3 server included, and starts that died at any point.
    The read prints exactly the bytes of the input file, unless the files do not open
    (a registry that does not is a panic) or its own reads of the log fail.  Assumed: the
    first start finds a sound store, machine integers have room, hashes do not collide, the
    next processes derive the same keys and draw other ids, and a command runs only where
    the reconciliation of its start succeeded. *)
Theorem created_capsule_is_printed D env0 data d0 res p0 out d1 d2 env :
  hash_injective_on D → chunks_ok D (compression Policy_default) data →
  opened env0 d0 = Some (res, p0) → pipe_ok D p0 → fits data p0 → keyed (e_keys env0) env0 →
  lenZ (as_uuid (e_id env0)) = 16 →
  holds_all (unnamed (e_id env0)) (d_namespace d0) → holds_all (unbacked (e_id env0)) (d_volumes d0) →
  spacectl error_text u64_text format_http_date env0 (Create (Ok data)) d0 = (Ok out, d1) →
  rtc (process error_text u64_text format_http_date (e_keys env0) (e_id env0)) d1 d2 →
  keyed (e_keys env0) env →
  out = println ("Capsule created: " +:+ uuid_text (as_uuid (e_id env0))) ++
    println ("Size: " +:+ dec (lenZ data) +:+ " bytes") ∧
  match spacectl error_text u64_text format_http_date env (ReadCapsule (uuid_text (as_uuid (e_id env0)))) d2 with
  | (Ok printed, _) => printed = data
  | (Err _, _) => ∀ res p, opened env d2 = Some (res, p) → nv_faults (lg p) ≠ []
  | (Panic, _) => opened env d2 = None
  end.
Proof.
  intros Hinj Hok Ho [G Hi] Hf Hk0 Hlen Hn Hv Hcr Hps Hk.
  destruct (create_process env0 data d0 out d1 res p0 Ho Hcr) as (p1 & Hw & -> & ->). split; [done|].
  destruct (start_keys env0 d0 res p0 Ho (proj2 Hk0)) as [Hsame Hco].
  pose proof (keeps_keys_write (e_id env0) (e_now env0) data Policy_default p0 Hco) as Hkw. cbn zeta in Hkw.
  unfold write_capsule in Hw. rewrite Hw in Hkw. cbn [snd] in Hkw. destruct Hkw as [Hsame1 _].
  assert (same_keys (e_keys env0) (key_manager p1)) as Hs.
  { destruct (e_keys env0), (key_manager p0), (key_manager p1); try done. destruct Hsame, Hsame1. split; congruence. }
  pose proof (wp_run _ _ _ _ _ _ (write_spec D G _ _ data Policy_default p0 Hinj Hok Hf Hi) Hw) as (_ & _ & Hi1).
  destruct (write_synced _ _ _ _ _ _ _ Hw) as (cap & Hc & Hrs & Hns).
  destruct (pi_caps _ _ _ _ Hi1 _ cap Hc) as (data' & Hd & Hr).
  rewrite lookup_insert_eq in Hd. injection Hd as <-.
  destruct (kept_start D _ p1 _ cap data Hi1 Hc Hr Hrs Hns) as (HK & Hkept & Hseals).
  assert (disk_saved (kept_of p1 cap) (e_id env0) cap (key_manager p1) d2) as Hd2.
  { eapply processes_saved; [done| |eapply rtc_congruence with (f := id); [|exact Hps]].
    - split; [|done..]. exists p1. split; [apply Hkept|done].
    - intros a b. by apply process_same_keys. }
  assert (keyed (key_manager p1) env) as Hke by (split; [by eapply keyed_trans|apply Hk]).
  cbn [spacectl]. unfold bind at 1, lift. rewrite (parse_uuid_text _ Hlen). cbn [ok_or].
  replace (mkCapsuleId (as_uuid (e_id env0))) with (e_id env0) by (by destruct (e_id env0)).
  exact (read_saved _ _ cap _ HK env d2 data Hd2 Hke Hseals).
Qed.
End spacectl_properties.

(** ** Witness and examples on the toy crates *)
Section spacectl_witnesses.
#[local] Existing Instance toy_crates.
#[local] Existing Instance toy_XtsLaws.
#[local] Existing Instance listed_order.
#[local] Existing Instance toy_state_doc.
#[local] Existing Instance toy_map_doc.
#[local] Instance tool_nodes_doc : JsonDoc Nodes := plain_doc Nodes.
#[local] Instance tool_volumes_doc : JsonDoc Volumes := plain_doc Volumes.
#[local] Existing Instance RecoveryTheorems.toy_torn_state.
#[local] Existing Instance RecoveryTheorems.toy_torn_map.
#[local] Instance toy_torn_nodes : TornDoc Nodes := RecoveryTheorems.toy_torn Nodes.
#[local] Instance toy_torn_volumes : TornDoc Volumes := RecoveryTheorems.toy_torn Volumes.

(** A UUID is shown as its bytes. *)
#[local] Instance toy_uuid : UuidText :=
  {| uuid_text := String.string_of_list_byte; parse_uuid := λ s, Some (string_bytes s) |}.
#[local] Instance toy_UuidLaws : UuidLaws.
Proof. intros u _. cbn. f_equal. apply String.list_byte_of_string_of_list_byte. Qed.

Definition no_disk : Disk := mkDisk None [] None None None.
Definition plain_env (id : CapsuleId) (nvram : faults) : Env := mkEnv [] nvram [] None id (Some 1) (Some 1).
#[local] Abbreviation tool := (spacectl (λ _, EmptyString) dec (λ _, EmptyString)).

Definition env_a : Env := plain_env cap_a [].
Definition env_b : Env := plain_env cap_b [].
Definition ctl1 := tool env_a (Create (Ok text)) no_disk.
(** A second process stores the same bytes under a path; a third dies while it starts. *)
Definition ctl2 := tool env_b (Nfs (NfsWrite "/notes" "local" (Ok text))) (snd ctl1).
Definition killed_env : Env := plain_env cap_b [None; None; None; Some 2].
Definition killed_disk (env : Env) (d : Disk) : Disk :=
  match opened env d with
  | Some (_, p) => files_of p d
  | None => d
  end.
Definition ctl3 : Disk := killed_disk killed_env (snd ctl2).

Lemma killed_disk_process env keep d :
  keyed None env → bool_decide (is_Some (opened env d)) = true →
  process (λ _, EmptyString) dec (λ _, EmptyString) None keep d (killed_disk env d).
Proof.
  intros Hk [[res p] Ho]%bool_decide_eq_true. unfold killed_disk. rewrite Ho. by eapply process_killed.
Qed.

Lemma start_of_nothing : opened env_a no_disk = Some (Ok tt, empty_pipeline None []).
Proof. vm_compute; reflexivity. Qed.

Definition start_room (env : Env) (data : bytes) (d : Disk) : bool :=
  match opened env d with
  | Some (Ok _, p) =>
      (next_offset (lg p) + lenZ data <? 2 ^ 64) &&
      (next_segment_id (rg p) + lenZ (chunks SEGMENT_SIZE data) <? 2 ^ 64) &&
      (lenZ (chunks SEGMENT_SIZE data) <=? 1000) &&
      bool_decide (map_Forall (λ _ s, seg_ref_count s ≤ 1000) (segment_map (lg p)))
  | _ => false
  end.

Lemma start_room_fits env data d res p :
  start_room env data d = true → opened env d = Some (res, p) → res = Ok tt ∧ fits data p.
Proof.
  unfold start_room. intros Hr Ho. rewrite Ho in Hr. destruct res as [[]|e| ]; [|done..]. split; [done|].
  apply andb_prop in Hr as [[[Ha Hb]%andb_prop Hc]%andb_prop Hd]. apply fits_by; [lia..|done].
Qed.

Lemma keyless env : e_keys env = None → keyed None env.
Proof. intros Hk. unfold keyed. by rewrite Hk. Qed.

Lemma created_capsule_is_printed_witness :
  is_ok (fst ctl2) = true ∧
  fst ctl1 = Ok (println ("Capsule created: " +:+ uuid_text (as_uuid cap_a)) ++ println "Size: 40 bytes") ∧
  match tool env_b (ReadCapsule (uuid_text (as_uuid (e_id env_a)))) ctl3 with
  | (Ok printed, _) => printed = text
  | (Err _, _) => ∀ res p, opened env_b ctl3 = Some (res, p) → nv_faults (lg p) ≠ []
  | (Panic, _) => opened env_b ctl3 = None
  end.
Proof.
  split; [vm_compute; reflexivity|]. split; [vm_compute; reflexivity|].
  pose (out := match fst ctl1 with Ok out => out | _ => [] end).
  assert (rtc (process (λ _, EmptyString) dec (λ _, EmptyString) None cap_a) (snd ctl1) ctl3) as Hlater.
  { apply rtc_l with (snd ctl2); [|apply rtc_once].
    - apply (process_command _ _ _ None cap_a env_b (Nfs (NfsWrite "/notes" "local" (Ok text)))
        (snd ctl1) (fst ctl2)); [by apply keyless|by vm_compute| |apply surjective_pairing].
      intros res2 p2. apply start_room_fits; vm_compute; reflexivity.
    - apply killed_disk_process; [by apply keyless|vm_compute; reflexivity]. }
  assert (tool env_a (Create (Ok text)) no_disk = (Ok out, snd ctl1)) as Hcreate by (vm_compute; reflexivity).
  assert (pipe_ok only_frame (empty_pipeline None [])) as Hempty by (exists ∅; by apply empty_ok).
  pose proof (created_capsule_is_printed (λ _, EmptyString) dec (λ _, EmptyString) only_frame env_a text no_disk
    (Ok tt) (empty_pipeline None []) out (snd ctl1) ctl3 env_b only_frame_injective text_chunks_ok start_of_nothing
    Hempty (text_fits _ _) (keyless env_a eq_refl) eq_refl ltac:(by intros d x [= <-]) ltac:(by intros d x [= <-])
    Hcreate Hlater (keyless env_b eq_refl)) as Hmain.
  destruct Hmain as [_ Hmain]. exact Hmain.
Defined.

(** The table of keys of the S3 server lives in memory: a server that was restarted has no
    objects, while the capsules of the objects of the first one are still stored. *)
Definition served := tool env_a (ServeS3 [Put cap_a (Some 1) (Some 1) "b" "k" text]) no_disk.

Example restart_loses_the_objects :
  fst (tool env_b (ReadCapsule (uuid_text (as_uuid cap_a))) (snd served)) = Ok text ∧
  match opened env_b (snd served) with
  | Some (_, p) =>
      match serve uuid_text dec (λ _, EmptyString) (Get "b" "k") (mkS3View p ∅) with
      | (Ok r, _) => status r = NOT_FOUND
      | _ => False
      end
  | None => False
  end.
Proof. split; vm_compute; reflexivity. Qed.
End spacectl_witnesses.
