(* ===== verification/AuditLog.v ===== *)
(** The audit log (crates/common/src/security/audit_log.rs): an append-only file of
    JSON lines chained by blake3.

    The file system holds the log and its rotated copy, as bytes; a failing write
    leaves a prefix of its line.  The clock and the answer of the time-stamping
    authority are arguments of [append]; syncing does not change what a file holds and
    is left out.  The environment and the HTTP client are in AuditEnv. *)
From S2P Require Import Prelude Errors Common Externals.

Record TsaProof := mkTsaProof { authority : string; tsa_timestamp : Z; token : string }.

Record AuditRecord := mkAuditRecord {
  ar_event : Event;
  ar_timestamp : Z;
  ar_prev_hash : string;
  ar_hash : string;
  ar_tsa_proof : option TsaProof;
}.

(** [serde_json] on events and records. *)
Class AuditJson := {
  event_json : Event → bytes;
  record_json : AuditRecord → bytes;
  record_of_json : bytes → option AuditRecord;
}.

(** ** Lines of text *)
Definition LF : byte := x0a.
Definition CR : byte := x0d.

(** The pieces between line feeds; the last one is what follows the last of them. *)
Fixpoint split_lines (data : bytes) : list bytes * bytes :=
  match data with
  | [] => ([], [])
  | b :: r =>
      let '(ls, rest) := split_lines r in
      if Byte.eqb b LF then ([] :: ls, rest)
      else match ls with
           | l :: ls => ((b :: l) :: ls, rest)
           | [] => ([], b :: rest)
           end
  end.

Fixpoint strip_cr (l : bytes) : bytes :=
  match l with
  | [] => []
  | [b] => if Byte.eqb b CR then [] else [b]
  | b :: r => b :: strip_cr r
  end.

(** [BufRead::lines]: a carriage return before a line feed goes with it. *)
Definition text_lines (data : bytes) : list bytes :=
  let '(ls, rest) := split_lines data in
  (strip_cr <$> ls) ++ (if bool_decide (rest = []) then [] else [rest]).

Definition cont : byte → bool := in_range 128 191.

(** Well-formed UTF-8 (the table of the Unicode standard). *)
Fixpoint utf8_valid (d : bytes) : bool :=
  match d with
  | [] => true
  | a :: r =>
      if in_range 0 127 a then utf8_valid r
      else match r with
      | [] => false
      | b :: r =>
          if in_range 194 223 a then cont b && utf8_valid r
          else match r with
          | [] => false
          | c :: r =>
              if in_range 224 224 a then in_range 160 191 b && cont c && utf8_valid r
              else if in_range 237 237 a then in_range 128 159 b && cont c && utf8_valid r
              else if in_range 225 239 a then cont b && cont c && utf8_valid r
              else match r with
              | [] => false
              | d :: r =>
                  if in_range 240 240 a then in_range 144 191 b && cont c && cont d && utf8_valid r
                  else if in_range 241 243 a then cont b && cont c && cont d && utf8_valid r
                  else if in_range 244 244 a then in_range 128 143 b && cont c && cont d && utf8_valid r
                  else false
              end
          end
      end
  end.

Section audit.
Context `{Crates} {AJ : AuditJson}.

(** ** Options *)
Record AuditOptions := mkAuditOptions {
  flush_interval : Z;
  max_file_bytes : Z;
  tsa_batch_size : Z;
  tsa_client : bool;
}.

Definition AuditOptions_default : AuditOptions := mkAuditOptions 1 (1024 * 1024 * 1024) 100 false.

Definition builder_flush_interval (every : Z) (o : AuditOptions) : AuditOptions :=
  mkAuditOptions (Z.max every 1) (max_file_bytes o) (tsa_batch_size o) (tsa_client o).
Definition builder_max_file_bytes (n : Z) (o : AuditOptions) : AuditOptions :=
  mkAuditOptions (flush_interval o) n (tsa_batch_size o) (tsa_client o).
Definition builder_tsa_batch_size (batch : Z) (o : AuditOptions) : AuditOptions :=
  mkAuditOptions (flush_interval o) (max_file_bytes o) (Z.max batch 1) (tsa_client o).
Definition builder_tsa_client (o : AuditOptions) : AuditOptions :=
  mkAuditOptions (flush_interval o) (max_file_bytes o) (tsa_batch_size o) true.

(** ** State *)

(** The open file is the one at the path or, after a rotation that could not open a
    new one, the one it was renamed to. *)
Inductive Handle := AtPath | AtRotated.

Record AuditState := mkAuditState {
  at_path : option bytes;
  at_rotated : option bytes;
  handle : Handle;
  last_hash : bytes;
  events_since_flush : Z;
  events_since_tsa : Z;
  last_tsa : option TsaProof;
  audit_faults : faults;
}.

Definition file_of (s : AuditState) : bytes :=
  default [] (match handle s with AtPath => at_path s | AtRotated => at_rotated s end).

Definition set_file (d : bytes) (s : AuditState) : AuditState :=
  match handle s with
  | AtPath => mkAuditState (Some d) (at_rotated s) AtPath (last_hash s) (events_since_flush s)
                (events_since_tsa s) (last_tsa s) (audit_faults s)
  | AtRotated => mkAuditState (at_path s) (Some d) AtRotated (last_hash s) (events_since_flush s)
                   (events_since_tsa s) (last_tsa s) (audit_faults s)
  end.

Definition set_last_hash (h : bytes) (s : AuditState) : AuditState :=
  mkAuditState (at_path s) (at_rotated s) (handle s) h (events_since_flush s) (events_since_tsa s)
    (last_tsa s) (audit_faults s).
Definition set_since_flush (n : Z) (s : AuditState) : AuditState :=
  mkAuditState (at_path s) (at_rotated s) (handle s) (last_hash s) n (events_since_tsa s)
    (last_tsa s) (audit_faults s).
Definition set_tsa (n : Z) (p : option TsaProof) (s : AuditState) : AuditState :=
  mkAuditState (at_path s) (at_rotated s) (handle s) (last_hash s) (events_since_flush s) n p
    (audit_faults s).
Definition set_disk (p r : option bytes) (h : Handle) (s : AuditState) : AuditState :=
  mkAuditState p r h (last_hash s) (events_since_flush s) (events_since_tsa s) (last_tsa s)
    (audit_faults s).

(** One I/O call: its outcome. *)
Definition io : M AuditState Error (option Z) := λ s,
  let '(f, fs) := next_fault (audit_faults s) in
  (Ok f, mkAuditState (at_path s) (at_rotated s) (handle s) (last_hash s) (events_since_flush s)
           (events_since_tsa s) (last_tsa s) fs).

(** [writeln!(file, "{line}")] *)
Definition write_record (r : AuditRecord) : M AuditState Error unit :=
  let line := record_json r ++ [LF] in
  let! f := io in
  match f with
  | None => modify (λ s, set_file (file_of s ++ line) s)
  | Some k => modify (λ s, set_file (file_of s ++ takeZ k line) s) ;;; fail (IoFailed "write")
  end.

(** [fs::rename], whose failure is dropped. *)
Definition rename_log : M AuditState Error unit :=
  let! f := io in
  match f with
  | Some _ => ret tt
  | None => modify (λ s,
      match at_path s with
      | Some d => set_disk None (Some d) AtRotated s
      | None => s
      end)
  end.

Definition rotate_file : M AuditState Error unit :=
  rename_log ;;;
  let! f := io in
  match f with
  | Some _ => fail (IoFailed "open")
  | None => modify (λ s, set_disk (Some (default [] (at_path s))) (at_rotated s) AtPath s)
  end.

(** The digest of a record, over the one before. *)
Definition link (prev : bytes) (event : Event) (timestamp : Z) : bytes :=
  blake3_hash (prev ++ event_json event ++ to_le_bytes 8 timestamp).

(** The authority's answer [reply] is asked for once in a batch. *)
Definition stamp (options : AuditOptions) (reply : TsaProof + Error) (record : AuditRecord) :
    M AuditState Error AuditRecord :=
  if tsa_client options then
    modify (λ s, set_tsa (u32_add (events_since_tsa s) 1) (last_tsa s) s) ;;;
    let! n := gets events_since_tsa in
    if tsa_batch_size options <=? n then
      let! proof := lift (match reply with inl proof => Ok proof | inr e => Err e end) in
      modify (set_tsa 0 (Some proof)) ;;;
      ret (mkAuditRecord (ar_event record) (ar_timestamp record) (ar_prev_hash record)
             (ar_hash record) (Some proof))
    else ret record
  else ret record.

(** [sync_data] when due. *)
Definition count_flush (options : AuditOptions) : M AuditState Error unit :=
  modify (λ s,
    let n := u32_add (events_since_flush s) 1 in
    set_since_flush (if flush_interval options <=? n then 0 else n) s).

Definition rotate_if_full (options : AuditOptions) : M AuditState Error unit :=
  if 0 <? max_file_bytes options then
    let! meta := io in
    let! s := gets (λ s, s) in
    match meta with
    | None => if max_file_bytes options <=? lenZ (file_of s) then rotate_file else ret tt
    | Some _ => ret tt
    end
  else ret tt.

Definition append (options : AuditOptions) (event : Event) (timestamp : Z)
    (reply : TsaProof + Error) : M AuditState Error AuditRecord :=
  let! prev := gets last_hash in
  let next_hash := link prev event timestamp in
  let! record := stamp options reply
    (mkAuditRecord event timestamp (hex_encode prev) (hex_encode next_hash) None) in
  write_record record ;;;
  modify (set_last_hash next_hash) ;;;
  count_flush options ;;;
  rotate_if_full options ;;;
  ret record.

(** ** Opening *)
Definition ZERO_HASH : bytes := replicate 32 x00.

(** One line: the hash it carries, or the one before. *)
Definition recover_line (last : bytes) (line : bytes) : bytes :=
  if is_blank line then last
  else match record_of_json line with
       | Some record =>
           match hex_decode (ar_hash record) with
           | Some b => if lenZ b =? 32 then b else last
           | None => last
           end
       | None => last
       end.

(** [f]: the outcome of opening the file for reading; a line that is no text ends it. *)
Definition recover_last_hash (f : option Z) (file : option bytes) : Res Error bytes :=
  match file with
  | None => Ok ZERO_HASH
  | Some d =>
      match f with
      | Some _ => Err (IoFailed "open")
      | None =>
          fold_res (λ last line, if utf8_valid line then Ok (recover_line last line)
                                 else Err (IoFailed "stream did not contain valid UTF-8"))
            ZERO_HASH (text_lines d)
      end
  end.

(** [with_options] on the files [path] and [rotated]. *)
Definition with_options (path rotated : option bytes) (fs : faults) : Res Error AuditState :=
  let '(f1, fs) := next_fault fs in
  match f1 with
  | Some _ => Err (Context "unable to open audit log" (IoFailed "open"))
  | None =>
      let path := Some (default [] path) in
      let '(f2, fs) := next_fault fs in
      let? last := recover_last_hash f2 path in
      Ok (mkAuditState path rotated AtPath last 0 0 None fs)
  end.

Definition last_trail (s : AuditState) : string * option TsaProof := (hex_encode (last_hash s), last_tsa s).
End audit.

(** ** Laws of the crates the log relies on *)

(** Text of records: one line of UTF-8 that does not look blank; events in [D] (those
    without a float JSON cannot name) survive the round trip. *)
Class AuditJsonLaws `{AuditJson} (D : Event → Prop) : Prop := {
  record_round r : D (ar_event r) → record_of_json (record_json r) = Some r;
  record_line r : (LF ∉ record_json r) ∧ strip_cr (record_json r) = record_json r ∧
    utf8_valid (record_json r) = true ∧ is_blank (record_json r) = false;
  event_json_inj e e' : D e → D e' → event_json e = event_json e' → e = e';
}.

(** ** Lines *)
Lemma split_lines_line l r :
  LF ∉ l → split_lines (l ++ LF :: r) = (let '(ls, rest) := split_lines r in (l :: ls, rest)).
Proof.
  induction l as [|b l IH]; intros Hl; cbn [app split_lines].
  - destruct (split_lines r). by replace (Byte.eqb LF LF) with true.
  - apply not_elem_of_cons in Hl as [Hb Hl]. rewrite IH by done. destruct (split_lines r) as [ls rest].
    destruct (Byte.eqb b LF) eqn:He; [|done]. apply Byte.byte_dec_bl in He. congruence.
Qed.

Section audit_properties.
Context `{Crates} `{AuditJson}.
Implicit Types s : AuditState.
Implicit Types rs : list AuditRecord.

Definition render rs : bytes := rs ≫= λ r, record_json r ++ [LF].

(** [rs] is a chain of records from the hash [h] to [h']. *)
Fixpoint chain (h : bytes) rs (h' : bytes) : Prop :=
  match rs with
  | [] => h' = h
  | r :: rs =>
      let next := link h (ar_event r) (ar_timestamp r) in
      ar_prev_hash r = hex_encode h ∧ ar_hash r = hex_encode next ∧ chain next rs h'
  end.

Lemma chain_app h rs1 rs2 h' : chain h (rs1 ++ rs2) h' ↔ ∃ h1, chain h rs1 h1 ∧ chain h1 rs2 h'.
Proof.
  revert h. induction rs1 as [|r rs1 IH]; intros h; simpl; split.
  - intros Hc. by exists h.
  - by intros (h1 & -> & Hc).
  - intros (Hp & Hh & (h1 & H1 & H2)%IH). by exists h1.
  - intros (h1 & (Hp & Hh & H1) & H2). split; [done|]. split; [done|]. apply IH. by exists h1.
Qed.

(** A call of [append]: its event, its clock, the authority's answer. *)
Abbreviation Call := (Event * Z * (TsaProof + Error))%type.

Fixpoint run_audit (o : AuditOptions) (calls : list Call) s : list (Res Error AuditRecord) * AuditState :=
  match calls with
  | [] => ([], s)
  | (e, t, reply) :: calls =>
      let '(r, s1) := append o e t reply s in
      let '(rs, s2) := run_audit o calls s1 in
      (r :: rs, s2)
  end.

Fixpoint oks {A : Type} (l : list (Res Error A)) : list A :=
  match l with
  | Ok a :: l => a :: oks l
  | _ :: l => oks l
  | [] => []
  end.

(** What one call did to the chain: nothing, or one link for its event - which a
    failing rotation may still report as an error. *)
Definition linked_step s (e : Event) (t : Z) (r : Res Error AuditRecord) s' : Prop :=
  last_hash s' = last_hash s ∧ (∃ err, r = Err err) ∨
  ∃ rec, ar_event rec = e ∧ ar_timestamp rec = t ∧ chain (last_hash s) [rec] (last_hash s') ∧
    (r = Ok rec ∨ ∃ err, r = Err err).

Lemma rotate_keeps s : wp rotate_file (λ _ s', last_hash s' = last_hash s) (λ _ s', last_hash s' = last_hash s) s.
Proof.
  unfold wp, rotate_file, rename_log, io. mred.
  destruct (next_fault (audit_faults s)) as [[k|] fs]; cbn.
  - by destruct (next_fault fs) as [[k'|] fs'].
  - destruct (at_path s); cbn; by destruct (next_fault fs) as [[k'|] fs'].
Qed.

Lemma rotate_if_full_keeps o s :
  wp (rotate_if_full o) (λ _ s', last_hash s' = last_hash s) (λ _ s', last_hash s' = last_hash s) s.
Proof.
  unfold rotate_if_full. case_match; [|done]. apply wp_bind. unfold wp at 1, io.
  destruct (next_fault (audit_faults s)) as [f fs]. apply wp_bind. unfold wp at 1, gets.
  destruct f; [done|]. case_match; [|done].
  eapply wp_mono; [apply rotate_keeps|done|done].
Qed.

(** A record is written whole, at the end of the open file, or the write fails. *)
Lemma write_record_spec rec s :
  wp (write_record rec)
    (λ _ s', last_hash s' = last_hash s ∧ handle s' = handle s ∧
       file_of s' = file_of s ++ record_json rec ++ [LF] ∧
       audit_faults s' = (next_fault (audit_faults s)).2)
    (λ _ s', last_hash s' = last_hash s ∧ (next_fault (audit_faults s)).1 ≠ None) s.
Proof.
  unfold wp, write_record, io. mred. destruct (next_fault (audit_faults s)) as [[k|] fs]; cbn.
  - split; [|done]. unfold set_file. by destruct (handle _).
  - unfold file_of, set_file. cbn. by destruct (handle s).
Qed.

Lemma stamp_spec o reply rec s :
  wp (stamp o reply rec)
    (λ rec' s', last_hash s' = last_hash s ∧ ar_event rec' = ar_event rec ∧
       ar_timestamp rec' = ar_timestamp rec ∧ ar_prev_hash rec' = ar_prev_hash rec ∧ ar_hash rec' = ar_hash rec ∧
       at_path s' = at_path s ∧ at_rotated s' = at_rotated s ∧ handle s' = handle s ∧ audit_faults s' = audit_faults s)
    (λ _ s', last_hash s' = last_hash s ∧
       at_path s' = at_path s ∧ at_rotated s' = at_rotated s ∧ handle s' = handle s ∧ audit_faults s' = audit_faults s) s.
Proof.
  unfold wp, stamp. destruct (tsa_client o); mred; [|done]. cbn.
  destruct (tsa_batch_size o <=? _); [|done]. by destruct reply.
Qed.

Lemma append_links o e t reply s :
  let '(r, s') := append o e t reply s in linked_step s e t r s'.
Proof.
  assert (wp (append o e t reply)
    (λ rec s', ar_event rec = e ∧ ar_timestamp rec = t ∧ chain (last_hash s) [rec] (last_hash s'))
    (λ _ s', last_hash s' = last_hash s ∨
       ∃ rec, ar_event rec = e ∧ ar_timestamp rec = t ∧ chain (last_hash s) [rec] (last_hash s')) s) as Hw.
  { unfold append. apply wp_bind. unfold wp at 1, gets. apply wp_bind.
    eapply wp_mono; [apply stamp_spec| |intros err s1 Hs1; by left; apply Hs1].
    intros rec s1 (Hl1 & He & Ht & Hp & Hh & _). cbn [ar_event ar_timestamp ar_prev_hash ar_hash] in *.
    assert (chain (last_hash s) [rec] (link (last_hash s) e t)) as Hc by (simpl; by rewrite Hp, He, Ht, Hh).
    apply wp_bind. eapply wp_mono; [apply write_record_spec| |intros err s2 Hs2; left; by rewrite (proj1 Hs2)].
    intros u s2 _. apply wp_bind. unfold wp at 1, modify. apply wp_bind. unfold wp at 1, count_flush.
    apply wp_bind. eapply wp_mono; [apply rotate_if_full_keeps|..]; intros u' s3 Hs3.
    - unfold wp, ret. rewrite Hs3. by split_and!.
    - right. exists rec. rewrite Hs3. by split_and!. }
  unfold wp in Hw. unfold linked_step. destruct (append o e t reply s) as [[rec|err| ] s']; [| |done].
  - right. exists rec. destruct Hw as (? & ? & ?). split_and!; [done..|by left].
  - destruct Hw as [Hw|(rec & ? & ? & ?)]; [left; eauto|right; exists rec; eauto 7].
Qed.

Lemma run_audit_cons o e t reply calls s :
  run_audit o ((e, t, reply) :: calls) s =
    (let '(r, s1) := append o e t reply s in let '(rs, s2) := run_audit o calls s1 in (r :: rs, s2)).
Proof. done. Qed.

(** C20: the log never loses its thread.  Through any run of [append]s - writes that
    fail, authorities that refuse, rotations that go wrong - the hash the log holds is
    the end of one chain of records from the hash it held: every record that a call
    returned is in that chain, in order, and the chain holds only events that were
    asked for. *)
Theorem audit_chain_is_kept o calls s results s' :
  run_audit o calls s = (results, s') →
  ∃ rs, chain (last_hash s) rs (last_hash s') ∧ oks results `sublist_of` rs ∧
    ((λ r, (ar_event r, ar_timestamp r)) <$> rs) `sublist_of` calls.*1.
Proof.
  revert s results. induction calls as [|[[e t] reply] calls IH]; intros s results.
  - intros [= <- <-]. by exists [].
  - rewrite run_audit_cons. pose proof (append_links o e t reply s) as Hstep.
    destruct (append o e t reply s) as [r s1]. destruct (run_audit o calls s1) as [results' s2] eqn:Hrun.
    intros [= <- <-]. destruct (IH s1 results' Hrun) as (rs & Hc & Hsub & Hev).
    destruct Hstep as [[Hl [err ->]]|(rec & He & Ht & (Hp & Hh & Hl) & Hr)].
    + exists rs. rewrite <- Hl. split; [done|]. split; [done|]. by apply sublist_cons.
    + exists (rec :: rs). split; [|split].
      * split; [done|]. split; [done|]. by rewrite <- Hl.
      * destruct Hr as [->|[err ->]]; [by apply sublist_skip|by apply sublist_cons].
      * cbn. rewrite He, Ht. by apply sublist_skip.
Qed.

(** ** Recovery *)
Section recovery.
Context (D : Event → Prop) `{!AuditJsonLaws D} `{!HexLaws} `{!Blake3Length}.

Lemma text_lines_render rs : text_lines (render rs) = record_json <$> rs.
Proof.
  assert (split_lines (render rs) = (record_json <$> rs, [])) as Hs.
  { induction rs as [|r rs IH]; [done|]. unfold render. rewrite bind_cons, <- app_assoc. cbn [app].
    rewrite split_lines_line by apply record_line. change (rs ≫= _) with (render rs). by rewrite IH. }
  unfold text_lines. rewrite Hs. rewrite bool_decide_true by done. rewrite app_nil_r, <- list_fmap_compose.
  apply list_fmap_ext. intros i r _. cbn. apply record_line.
Qed.

Lemma recover_lines rs h0 h :
  Forall (λ r, D (ar_event r)) rs → chain h0 rs h →
  fold_res (λ last line, if utf8_valid line then Ok (recover_line last line)
                         else Err (IoFailed "stream did not contain valid UTF-8"))
    h0 (record_json <$> rs) = Ok h.
Proof.
  intros Hf. revert h0. induction Hf as [|r rs Hd Hf IH]; intros h0; simpl.
  - by intros ->.
  - intros (_ & Hh & Hc). destruct (record_line r) as (_ & _ & -> & Hb). cbn [res_bind].
    unfold recover_line. rewrite Hb, record_round by done. rewrite Hh, hex_decode_encode.
    rewrite (proj2 (Z.eqb_eq _ _)); [by apply IH|]. unfold lenZ, link. by rewrite blake3_hash_length.
Qed.

(** The log with the records [rs]; the next call meets no failure. *)
Definition log_of rs s : Prop :=
  handle s = AtPath ∧ at_path s = Some (render rs) ∧ chain ZERO_HASH rs (last_hash s) ∧
  Forall (λ r, D (ar_event r)) rs ∧ audit_faults s = [].

Lemma open_log rs rot h :
  Forall (λ r, D (ar_event r)) rs → chain ZERO_HASH rs h →
  ∃ s, with_options (Some (render rs)) rot [] = Ok s ∧ last_hash s = h ∧ log_of rs s.
Proof.
  intros Hf Hc. unfold with_options, recover_last_hash. cbn [next_fault res_bind from_option id].
  rewrite text_lines_render, (recover_lines rs _ h) by done. eexists. split; [done|]. by split_and!.
Qed.

Lemma render_snoc rs r : render (rs ++ [r]) = render rs ++ record_json r ++ [LF].
Proof. unfold render. rewrite bind_app. cbn. by rewrite app_nil_r. Qed.

Lemma append_extends o rs e t reply s :
  max_file_bytes o ≤ 0 → D e → log_of rs s →
  let '(r, s') := append o e t reply s in
  match r with
  | Ok rec => log_of (rs ++ [rec]) s'
  | Err _ => log_of rs s'
  | Panic => False
  end.
Proof.
  intros Hmax Hd (Hh & Hp & Hc & Hf & Hfs).
  assert (wp (append o e t reply) (λ rec, log_of (rs ++ [rec])) (λ _, log_of rs) s) as Hw.
  { unfold append. apply wp_bind. unfold wp at 1, gets. apply wp_bind.
    eapply wp_mono; [apply stamp_spec| |].
    2:{ intros err s1 (Hl1 & Hp1 & _ & Hh1 & Hfs1). unfold log_of.
        rewrite Hh1, Hp1, Hl1, Hfs1. by split_and!. }
    intros rec s1 (Hl1 & He & Ht & Hph & Hhash & Hp1 & _ & Hh1 & Hfs1).
    cbn [ar_event ar_timestamp ar_prev_hash ar_hash] in *. apply wp_bind.
    eapply wp_mono; [apply write_record_spec| |].
    2:{ intros err s2 [_ Hno]. rewrite Hfs1, Hfs in Hno. done. }
    intros u s2 (Hl2 & Hh2 & Hfile & Hfs2). rewrite Hfs1, Hfs in Hfs2.
    unfold file_of in Hfile. rewrite Hh2, Hh1, Hh, Hp1, Hp in Hfile. cbn [from_option id] in Hfile.
    apply wp_bind. unfold wp at 1, modify. apply wp_bind. unfold wp at 1, count_flush. apply wp_bind.
    unfold rotate_if_full. rewrite (proj2 (Z.ltb_ge 0 _)) by done. unfold wp, ret.
    unfold log_of. cbn. rewrite Hh2, Hh1, Hh. destruct (at_path s2) as [d|]; cbn in Hfile.
    - subst d. split_and!; [done|by rewrite render_snoc| | |done].
      + apply chain_app. exists (last_hash s). split; [done|]. simpl. by rewrite Hph, Hhash, He, Ht.
      + apply Forall_app. split; [done|]. constructor; [by rewrite He|done].
    - by destruct (render rs), (record_json rec). }
  unfold wp in Hw. by destruct (append o e t reply s) as [[rec|err| ] s'].
Qed.

Lemma run_extends o calls rs s results s' :
  max_file_bytes o ≤ 0 → Forall (λ c, D c.1.1) calls → log_of rs s →
  run_audit o calls s = (results, s') → log_of (rs ++ oks results) s'.
Proof.
  intros Hmax Hf. revert rs s results. induction Hf as [|[[e t] reply] calls Hd Hf IH]; intros rs s results Hl.
  - intros [= <- <-]. by rewrite app_nil_r.
  - rewrite run_audit_cons. pose proof (append_extends o rs e t reply s Hmax Hd Hl) as Hstep.
    destruct (append o e t reply s) as [r s1]. destruct (run_audit o calls s1) as [results' s2] eqn:Hrun.
    intros [= <- <-]. destruct r as [rec|err| ]; [| |done].
    + cbn [oks]. rewrite cons_middle, app_assoc. by eapply IH.
    + exact (IH rs s1 results' Hstep Hrun).
Qed.

(** A log that is opened again goes on where it stopped.  With rotation off and no
    failing write, after any calls - refusals of the authority included - the file holds
    the old records and the returned ones, one line each, and opening it recovers the
    hash the running log held. *)
Theorem audit_log_recovers o calls rs rot s results s' :
  max_file_bytes o ≤ 0 → Forall (λ c, D c.1.1) calls →
  Forall (λ r, D (ar_event r)) rs → (∃ h, chain ZERO_HASH rs h) →
  with_options (Some (render rs)) rot [] = Ok s → run_audit o calls s = (results, s') →
  at_path s' = Some (render (rs ++ oks results)) ∧
  ∃ s'', with_options (at_path s') (at_rotated s') [] = Ok s'' ∧ last_hash s'' = last_hash s'.
Proof.
  intros Hmax Hcalls Hrs [h Hc] Hopen Hrun. destruct (open_log rs rot h Hrs Hc) as (s1 & Hs1 & _ & Hlog).
  rewrite Hopen in Hs1. injection Hs1 as <-.
  destruct (run_extends o calls rs s results s' Hmax Hcalls Hlog Hrun) as (_ & Hp & Hc' & Hf' & _).
  split; [done|]. rewrite Hp. destruct (open_log _ (at_rotated s') _ Hf' Hc') as (s'' & Hs'' & Hl'' & _).
  by exists s''.
Qed.

(** ** Tamper evidence *)
Definition in_u64 (t : Z) : Prop := 0 ≤ t < 2 ^ 64.

Lemma link_inj p e t p' e' t' :
  length p = 32%nat → length p' = 32%nat → D e → D e' → in_u64 t → in_u64 t' →
  p ++ event_json e ++ to_le_bytes 8 t = p' ++ event_json e' ++ to_le_bytes 8 t' → p = p' ∧ e = e' ∧ t = t'.
Proof.
  intros Hp Hp' He He' Ht Ht' Heq. apply app_inj_1 in Heq as [-> Heq]; [|lia].
  apply app_inj_2 in Heq as [Hev Hts]; [|by rewrite !length_to_le_bytes].
  apply event_json_inj in Hev as ->; [|done..]. apply to_le_bytes_inj in Hts as ->; [done|done|done].
Qed.

(** Two inputs with one digest, or an input whose digest is [h]. *)
Definition hash_broken (h : bytes) : Prop :=
  (∃ x y, x ≠ y ∧ blake3_hash x = blake3_hash y) ∨ ∃ x, blake3_hash x = h.

Lemma chain_length h rs h' : length h = 32%nat → chain h rs h' → length h' = 32%nat.
Proof.
  revert h. induction rs as [|r rs IH]; intros h Hl; simpl; [by intros ->|]. intros (_ & _ & Hc).
  eapply IH; [|exact Hc]. apply blake3_hash_length.
Qed.

(** C21: the last hash stands for the whole log.  Two logs that end in the same hash
    hold the same events with the same times, in the same order - or blake3 has been
    broken: there is a collision, or something that hashes to the initial hash. *)
Theorem audit_log_is_tamper_evident rs rs' h0 h :
  length h0 = 32%nat → Forall (λ r, D (ar_event r) ∧ in_u64 (ar_timestamp r)) (rs ++ rs') →
  chain h0 rs h → chain h0 rs' h →
  ((λ r, (ar_event r, ar_timestamp r)) <$> rs) = ((λ r, (ar_event r, ar_timestamp r)) <$> rs') ∨ hash_broken h0.
Proof.
  intros Hlen Hf Hc Hc'. apply Forall_app in Hf as [Hf Hf']. revert rs' h Hf' Hc Hc'.
  induction rs as [|r rs IH] using rev_ind; intros rs' h Hf' Hc Hc';
    destruct rs' as [|r' rs' _] using rev_ind.
  - by left.
  - right. right. apply chain_app in Hc' as (h1 & _ & _ & _ & Hl). simpl in Hc, Hl. subst h. eexists. symmetry. exact Hl.
  - right. right. apply chain_app in Hc as (h1 & _ & _ & _ & Hl). simpl in Hc', Hl. rewrite Hc' in Hl. eexists. symmetry. exact Hl.
  - apply chain_app in Hc as (h1 & Hc1 & _ & _ & Hl), Hc' as (h1' & Hc1' & _ & _ & Hl'). simpl in Hl, Hl'.
    apply Forall_app in Hf as [Hf [[Hd Ht] _]%Forall_cons], Hf' as [Hf' [[Hd' Ht'] _]%Forall_cons].
    rewrite Hl in Hl'. unfold link in Hl'.
    match type of Hl' with blake3_hash ?x = blake3_hash ?y => destruct (decide (x = y)) as [Heq|Hne] end.
    2:{ right. left. by eexists _, _. }
    apply link_inj in Heq as (-> & He & Hts); [|by eapply chain_length..|done|done|done|done].
    rewrite !fmap_app. cbn. rewrite He, Hts.
    destruct (IH Hf rs' h1' Hf' Hc1 Hc1') as [->|Hbad]; [by left|by right].
Qed.
End recovery.
End audit_properties.

(** ** Witnesses: heartbeats, written as bits *)
Fixpoint bits (p : positive) : bytes :=
  match p with
  | xH => []
  | xO p => x30 :: bits p
  | xI p => x31 :: bits p
  end.

Fixpoint bits_value (l : bytes) : positive :=
  match l with
  | [] => xH
  | x31 :: l => xI (bits_value l)
  | _ :: l => xO (bits_value l)
  end.

Lemma bits_round p : bits_value (bits p) = p.
Proof. induction p as [p IH|p IH|]; simpl; by rewrite ?IH. Qed.

Abbreviation RecordTuple := (Z * Z * Z * Z * string * string * option (string * Z * string))%type.

Definition is_heartbeat (e : Event) : Prop := ∃ t c s, e = AuditHeartbeat t c s.

Definition heartbeat_tuple (e : Event) : Z * Z * Z :=
  match e with AuditHeartbeat t c s => (t, c, s) | _ => (0, 0, 0) end.

Definition tsa_tuple (p : TsaProof) : string * Z * string := (authority p, tsa_timestamp p, token p).

Definition record_tuple (r : AuditRecord) : RecordTuple :=
  (heartbeat_tuple (ar_event r), ar_timestamp r, ar_prev_hash r, ar_hash r, tsa_tuple <$> ar_tsa_proof r).

Definition tuple_record (t : RecordTuple) : AuditRecord :=
  let '(t, c, s, ts, p, h, tsa) := t in
  mkAuditRecord (AuditHeartbeat t c s) ts p h ((λ '(a, n, k), mkTsaProof a n k) <$> tsa).

#[local] Instance toy_audit_json : AuditJson :=
  {| event_json := λ e, bits (encode (heartbeat_tuple e));
     record_json := λ r, x7b :: bits (encode (record_tuple r));
     record_of_json := λ d, match d with
       | x7b :: d => tuple_record <$> decode (bits_value d)
       | _ => None
       end |}.

(** Lines of plain ASCII. *)
Definition plain (b : byte) : Prop := b ≠ LF ∧ b ≠ CR ∧ in_range 0 127 b = true.

Lemma plain_line l : Forall plain l → (LF ∉ l) ∧ strip_cr l = l ∧ utf8_valid l = true.
Proof.
  induction 1 as [|b l (H1 & H2 & H3) Hl (IH1 & IH2 & IH3)]; [split; [apply not_elem_of_nil|done]|].
  split; [by apply not_elem_of_cons|]. cbn [strip_cr utf8_valid]. rewrite H3, IH2.
  split; [|done]. destruct l; [|done]. destruct (Byte.eqb b CR) eqn:He; [|done].
  by apply Byte.byte_dec_bl in He.
Qed.

Lemma bits_plain p : Forall plain (bits p).
Proof. induction p; simpl; constructor; done. Qed.

#[local] Instance toy_audit_laws : AuditJsonLaws is_heartbeat.
Proof.
  split.
  - intros [e ts p h tsa] (t & c & s & He). cbn [ar_event] in He. subst e. cbn [record_of_json record_json toy_audit_json].
    rewrite bits_round, decode_encode. cbn. do 2 f_equal. by destruct tsa as [[]|].
  - intros r. destruct (plain_line (x7b :: bits (encode (record_tuple r)))) as (H1 & H2 & H3).
    { constructor; [done|apply bits_plain]. }
    split_and!; try done.
  - intros e e' (t & c & s & ->) (t' & c' & s' & ->) He%(f_equal bits_value). cbn in He.
    rewrite !bits_round in He. apply (inj encode) in He. by injection He as -> -> ->.
Qed.

#[local] Existing Instance toy_crates.
#[local] Existing Instance toy_Blake3Length.

#[local] Instance toy_HexLaws : HexLaws.
Proof.
  intros d. change (Some (String.list_byte_of_string (String.string_of_list_byte d)) = Some d).
  by rewrite String.list_byte_of_string_of_list_byte.
Qed.

Definition beat (n : Z) : Event := AuditHeartbeat n 1 1.
Definition no_rotation : AuditOptions := builder_tsa_batch_size 2 (builder_tsa_client (builder_max_file_bytes 0 AuditOptions_default)).
Definition refusal : TsaProof + Error := inr (IoFailed "tsa request failed").
Definition three_beats : list (Event * Z * (TsaProof + Error)) :=
  [(beat 1, 5, refusal); (beat 2, 6, refusal); (beat 3, 7, inl (mkTsaProof "tsa" 8 "t"))].

(** A new log, its writes failing as [fs] says. *)
Definition new_log (fs : faults) : AuditState := mkAuditState (Some []) None AtPath ZERO_HASH 0 0 None fs.

Lemma audit_chain_is_kept_witness :
  let run := run_audit no_rotation three_beats (new_log [Some 4]) in
  length (oks run.1) = 1%nat ∧
  ∃ rs, chain ZERO_HASH rs (last_hash run.2) ∧ oks run.1 `sublist_of` rs ∧
    ((λ r, (ar_event r, ar_timestamp r)) <$> rs) `sublist_of` three_beats.*1.
Proof.
  split; [vm_compute; reflexivity|].
  exact (audit_chain_is_kept no_rotation three_beats (new_log [Some 4]) _ _ (surjective_pairing _)).
Defined.

Definition three_run := run_audit no_rotation three_beats (new_log []).

Lemma three_run_eq : run_audit no_rotation three_beats (new_log []) = (three_run.1, three_run.2).
Proof. unfold three_run. apply surjective_pairing. Qed.

Lemma three_beats_beat : Forall (λ c : Event * Z * (TsaProof + Error), is_heartbeat c.1.1) three_beats.
Proof. repeat constructor; by eexists _, _, _. Qed.

Lemma new_log_opens : with_options (Some (render [])) None [] = Ok (new_log []).
Proof. reflexivity. Qed.

Lemma audit_log_recovers_witness :
  length (oks three_run.1) = 2%nat ∧
  at_path three_run.2 = Some (render ([] ++ oks three_run.1)) ∧
  ∃ s'', with_options (at_path three_run.2) (at_rotated three_run.2) [] = Ok s'' ∧
    last_hash s'' = last_hash three_run.2.
Proof.
  split; [vm_compute; reflexivity|].
  exact (audit_log_recovers is_heartbeat no_rotation three_beats [] None (new_log []) three_run.1 three_run.2
    (Z.le_refl 0) three_beats_beat (List.Forall_nil _) (ex_intro _ ZERO_HASH eq_refl) new_log_opens
    three_run_eq).
Defined.

(** The records of that run. *)
Definition two_records : list AuditRecord :=
  [mkAuditRecord (beat 2) 6 (hex_encode ZERO_HASH) (hex_encode (link ZERO_HASH (beat 2) 6)) None;
   mkAuditRecord (beat 3) 7 (hex_encode (link ZERO_HASH (beat 2) 6))
     (hex_encode (link (link ZERO_HASH (beat 2) 6) (beat 3) 7)) (Some (mkTsaProof "tsa" 8 "t"))].

Lemma audit_log_is_tamper_evident_witness :
  ((λ r, (ar_event r, ar_timestamp r)) <$> two_records) = ((λ r, (ar_event r, ar_timestamp r)) <$> two_records) ∨
  hash_broken ZERO_HASH.
Proof.
  apply (audit_log_is_tamper_evident is_heartbeat two_records two_records ZERO_HASH
    (link (link ZERO_HASH (beat 2) 6) (beat 3) 7)); [reflexivity| |by repeat split|by repeat split].
  repeat constructor; try (by eexists _, _, _); discriminate.
Defined.

(** After a rotation the log in memory goes on with its chain, but the new file does not
    say where it started: opened again, the log starts over from zero. *)
Example rotation_forgets_the_chain :
  let run := run_audit (builder_max_file_bytes 1 AuditOptions_default) [(beat 1, 5, refusal)] (new_log []) in
  last_hash run.2 ≠ ZERO_HASH ∧
  match with_options (at_path run.2) (at_rotated run.2) [] with
  | Ok s => last_hash s = ZERO_HASH
  | _ => False
  end.
Proof. vm_compute. split; [discriminate|reflexivity]. Qed.

(** A second rotation overwrites the first: its records are gone. *)
Example second_rotation_overwrites :
  let run := run_audit (builder_max_file_bytes 1 AuditOptions_default) [(beat 1, 5, refusal); (beat 2, 6, refusal)] (new_log []) in
  at_path run.2 = Some [] ∧ at_rotated run.2 = Some (render (drop 1 (oks run.1))).
Proof. vm_compute. split; reflexivity. Qed.

(** The record after a torn write shares its line: it was reported as logged, and cannot
    be read back. *)
Example torn_write_spoils_the_next :
  let run := run_audit no_rotation [(beat 1, 5, refusal); (beat 2, 6, inl (mkTsaProof "tsa" 8 "t"))] (new_log [Some 4]) in
  length (oks run.1) = 1%nat ∧
  match with_options (at_path run.2) None [] with
  | Ok s => last_hash s = ZERO_HASH ∧ last_hash run.2 ≠ ZERO_HASH
  | _ => False
  end.
Proof. vm_compute. split; [reflexivity|]. split; [reflexivity|discriminate]. Qed.
