(* ===== verification/Bloom.v ===== *)
(** The counting Bloom filter that accelerates deduplication
    (crates/common/src/security/bloom_dedup.rs): 8-bit counters that stop at 255, double
    hashing of the content hash, and the sizing formula.

    [f64::ln] and [f64::powi], whose precision Rust leaves open, are arguments.  An atomic
    update of one counter is one step; the calls are sequences of them. *)
From S2P Require Import Prelude Errors Common Externals.
From Stdlib Require Import Floats.SpecFloat.

(** ** [f64] *)
Definition f64_sub : f64 → f64 → f64 := SFsub 53 1024.
Definition f64_neg : f64 → f64 := SFopp.
Definition f64_lit (num den : Z) : f64 := f64_div (f64_of_Z num) (f64_of_Z den).
(** [std::f64::consts::LN_2], 0x1.62e42fefa39efp-1, and 2^-1022 *)
Definition LN_2 : f64 := S754_finite false 6243314768165359 (-53).
Definition MIN_POSITIVE : f64 := S754_finite false 4503599627370496 (-1074).

Definition f64_clamp (x lo hi : f64) : f64 :=
  let x := if SFltb x lo then lo else x in
  if SFltb hi x then hi else x.

(** A NaN gives way to the other operand. *)
Definition f64_max (a b : f64) : f64 :=
  match a, b with
  | S754_nan, _ => b
  | _, S754_nan => a
  | _, _ => if SFltb a b then b else a
  end.

Definition f64_ceil (x : f64) : f64 :=
  match x with
  | S754_finite s m e =>
      if 0 <=? e then x
      else
        let q := Zpos m / 2 ^ (- e) in
        if s then (if q =? 0 then S754_zero true else f64_of_Z (- q))
        else f64_of_Z (if Zpos m mod 2 ^ (- e) =? 0 then q else q + 1)
  | _ => x
  end.

(** [x as usize], [x as u32]: truncated, saturating, NaN is 0. *)
Definition f64_to_uint (max : Z) (x : f64) : Z :=
  match x with
  | S754_finite false m e =>
      Z.min max (if 0 <=? e then Zpos m * 2 ^ e else Zpos m / 2 ^ (- e))
  | S754_infinity false => max
  | _ => 0
  end.

Section bloom.
Context `{Crates}.
Context (f64_ln : f64 → f64) (f64_powi : f64 → Z → f64).

Record CountingBloomFilter := mkCountingBloomFilter {
  counters : list Z;
  bucket_count : Z;
  num_hashes : Z;
  items : Z;
}.

Definition CountingBloomFilter_new (expected_items : Z) (false_positive_rate : f64) : CountingBloomFilter :=
  let expected := f64_of_Z (Z.max expected_items 1) in
  let fp := f64_max (f64_clamp false_positive_rate (f64_lit 1 10000000) (f64_lit 1 4)) MIN_POSITIVE in
  let ln2_sq := f64_powi LN_2 2 in
  let bucket_count :=
    f64_to_uint U64_MAX (f64_ceil (f64_div (f64_mul (f64_neg expected) (f64_ln fp)) ln2_sq)) in
  let bucket_count := Z.max bucket_count 1024 in
  let num_hashes :=
    f64_to_uint U32_MAX
      (f64_max (f64_ceil (f64_mul (f64_div (f64_of_Z bucket_count) expected) LN_2)) (f64_of_Z 1)) in
  mkCountingBloomFilter (replicate (Z.to_nat bucket_count) 0) bucket_count num_hashes 0.

(** The first 16 bytes of the extended output are those of the digest. *)
Definition hash_pair (data : bytes) : Z * Z :=
  let out := take 16 (blake3_hash data) in
  (from_le_bytes (take 8 out), from_le_bytes (drop 8 out)).

Definition indexes (f : CountingBloomFilter) (data : bytes) : list Z :=
  let '(h1, h2) := hash_pair data in
  (λ i, u64_add h1 (u64_mul (Z.of_nat i) h2) `mod` bucket_count f) <$> seq 0 (Z.to_nat (num_hashes f)).

Definition set_counters (cs : list Z) (f : CountingBloomFilter) : CountingBloomFilter :=
  mkCountingBloomFilter cs (bucket_count f) (num_hashes f) (items f).
Definition set_items (n : Z) (f : CountingBloomFilter) : CountingBloomFilter :=
  mkCountingBloomFilter (counters f) (bucket_count f) (num_hashes f) n.

Definition cell_incr (val : Z) : Z := if val =? U8_MAX then U8_MAX else val + 1.
Definition cell_decr (val : Z) : Z := if val =? 0 then 0 else val - 1.

(** [fetch_update] of the counter at [idx]. *)
Definition update_cell (g : Z → Z) (idx : Z) : M CountingBloomFilter Error unit := λ f,
  match counters f !! Z.to_nat idx with
  | Some val => (Ok tt, set_counters (<[Z.to_nat idx := g val]> (counters f)) f)
  | None => (Err (Msg "index out of range"), f)
  end.

Definition update_cells (g : Z → Z) (data : bytes) : M CountingBloomFilter Error unit :=
  let! f := gets (λ f, f) in
  foldM (λ _ idx, update_cell g idx) tt (indexes f data).

Definition bloom_insert (data : bytes) : M CountingBloomFilter Error unit :=
  update_cells cell_incr data ;;;
  modify (λ f, set_items (wrap 64 (items f + 1)) f).

Definition bloom_remove (data : bytes) : M CountingBloomFilter Error unit :=
  update_cells cell_decr data ;;;
  modify (λ f, set_items (saturating_sub (items f) 1) f).

(** The loop of [might_contain]; an index out of range ends it with [true]. *)
Fixpoint all_nonzero (cs : list Z) (idxs : list Z) : bool :=
  match idxs with
  | [] => true
  | idx :: idxs =>
      match cs !! Z.to_nat idx with
      | Some val => if val =? 0 then false else all_nonzero cs idxs
      | None => true
      end
  end.

Definition might_contain_bytes (data : bytes) (f : CountingBloomFilter) : bool :=
  all_nonzero (counters f) (indexes f data).

(** ** [BloomFilterWrapper], the [DedupOptimizer] *)
Definition hash_bytes (h : ContentHash) : bytes := string_bytes (as_str h).

Definition might_contain (hash : ContentHash) (f : CountingBloomFilter) : bool :=
  might_contain_bytes (hash_bytes hash) f.

(** [.expect(..)]: an error is a panic. *)
Definition expect {S A : Type} (m : M S Error A) : M S Error A := λ s,
  match m s with
  | (Err _, s) => (Panic, s)
  | r => r
  end.

Definition record_insertion (hash : ContentHash) : M CountingBloomFilter Error unit :=
  expect (bloom_insert (hash_bytes hash)).
Definition record_removal (hash : ContentHash) : M CountingBloomFilter Error unit :=
  expect (bloom_remove (hash_bytes hash)).

Definition with_existing (expected_items : Z) (false_positive_rate : f64) (hashes : list ContentHash) :
    Res Error unit * CountingBloomFilter :=
  foldM (λ _ hash, record_insertion hash) tt hashes
    (CountingBloomFilter_new expected_items false_positive_rate).

Record BloomStats := mkBloomStats { bs_buckets : Z; bs_num_hashes : Z; bs_insertions : Z }.
Definition bloom_stats (f : CountingBloomFilter) : BloomStats :=
  mkBloomStats (bucket_count f) (num_hashes f) (items f).
End bloom.

(** ** Lemmas *)
Section bloom_properties.
Context `{Crates}.
Implicit Types f : CountingBloomFilter.
Implicit Types live : list bytes.

(** The updates of the counters [idxs], on the counters alone. *)
Definition apply_cells (g : Z → Z) (idxs : list Z) (cs : list Z) : list Z :=
  foldl (λ cs idx, alter g (Z.to_nat idx) cs) cs idxs.

Lemma countZ_perm (x : Z) l l' : l ≡ₚ l' → countZ x l = countZ x l'.
Proof. induction 1; rewrite ?countZ_cons; lia. Qed.

(** As many counters as the record says, and an index for every hash. *)
Definition well_sized f : Prop := lenZ (counters f) = bucket_count f ∧ 0 < bucket_count f.

Lemma new_well_sized ln powi n rate : well_sized (CountingBloomFilter_new ln powi n rate).
Proof.
  unfold well_sized, CountingBloomFilter_new. cbn [counters bucket_count].
  unfold lenZ. rewrite length_replicate. lia.
Qed.

Lemma indexes_in_range f data : well_sized f → Forall (λ idx, 0 ≤ idx < lenZ (counters f)) (indexes f data).
Proof.
  intros [Hl Hp]. unfold indexes. destruct (hash_pair data) as [h1 h2]. apply Forall_fmap, Forall_forall.
  intros i _. rewrite Hl. simpl. by apply Z.mod_pos_bound.
Qed.

Lemma length_apply_cells g idxs cs : length (apply_cells g idxs cs) = length cs.
Proof. revert cs. induction idxs as [|i idxs IH]; intros cs; [done|]. simpl. rewrite IH. apply length_alter. Qed.

(** On a filter of the right size the updates reach their counters. *)
Lemma update_cells_run g data f :
  well_sized f → update_cells g data f = (Ok tt, set_counters (apply_cells g (indexes f data) (counters f)) f).
Proof.
  intros Hw. unfold update_cells. mred. pose proof (indexes_in_range f data Hw) as Hr.
  assert (∀ cs, length cs = length (counters f) → foldM (λ _ idx, update_cell g idx) tt (indexes f data) (set_counters cs f)
    = (Ok tt, set_counters (apply_cells g (indexes f data) cs) f)) as Hrun.
  { induction Hr as [|i idxs Hi Hr IH]; intros cs Hcs; [done|]. cbn [foldM]. unfold bind, update_cell at 1.
    cbn [counters set_counters]. destruct (lookup_lt_is_Some_2 cs (Z.to_nat i)) as [val Hval]; [unfold lenZ in Hi; lia|].
    rewrite Hval. etrans; [exact (IH (<[Z.to_nat i := g val]> cs) ltac:(by rewrite length_insert))|].
    unfold apply_cells. cbn [foldl]. do 3 f_equal. rewrite list_insert_alter. apply list_alter_ext; [|done]. intros v Hv. congruence. }
  specialize (Hrun (counters f) eq_refl). by destruct f.
Qed.

(** How often the counter [n] is among the indexes. *)
Definition load f live (n : nat) : Z := countZ (Z.of_nat n) (live ≫= indexes f).

Lemma lookup_apply_incr idxs cs n v :
  Forall (λ idx, 0 ≤ idx) idxs → cs !! n = Some v → 0 ≤ v ≤ U8_MAX →
  apply_cells cell_incr idxs cs !! n = Some (Z.min U8_MAX (v + countZ (Z.of_nat n) idxs)).
Proof.
  intros Hf. revert cs v. induction Hf as [|i idxs Hi Hf IH]; intros cs v Hv Hb; cbn [apply_cells foldl].
  - rewrite Hv. f_equal. rewrite countZ_nil. lia.
  - rewrite countZ_cons. pose proof (countZ_nonneg (Z.of_nat n) idxs). case_bool_decide as Hd.
    + subst i. rewrite Nat2Z.id. unfold apply_cells in IH. rewrite (IH _ (cell_incr v)).
      * f_equal. unfold cell_incr, U8_MAX in *. case_match; lia.
      * by rewrite list_lookup_alter_eq, Hv.
      * unfold cell_incr, U8_MAX in *. case_match; lia.
    + unfold apply_cells in IH. rewrite (IH _ v); [f_equal; lia| |done].
      rewrite list_lookup_alter_ne; [done|]. intros <-. apply Hd. lia.
Qed.

Lemma lookup_apply_decr idxs cs n v :
  Forall (λ idx, 0 ≤ idx) idxs → cs !! n = Some v → 0 ≤ v →
  apply_cells cell_decr idxs cs !! n = Some (Z.max 0 (v - countZ (Z.of_nat n) idxs)).
Proof.
  intros Hf. revert cs v. induction Hf as [|i idxs Hi Hf IH]; intros cs v Hv Hb; cbn [apply_cells foldl].
  - rewrite Hv. f_equal. rewrite countZ_nil. lia.
  - rewrite countZ_cons. pose proof (countZ_nonneg (Z.of_nat n) idxs). case_bool_decide as Hd.
    + subst i. rewrite Nat2Z.id. unfold apply_cells in IH. rewrite (IH _ (cell_decr v)).
      * f_equal. unfold cell_decr. case_match; lia.
      * by rewrite list_lookup_alter_eq, Hv.
      * unfold cell_decr. case_match; lia.
    + unfold apply_cells in IH. rewrite (IH _ v); [f_equal; lia| |done].
      rewrite list_lookup_alter_ne; [done|]. intros <-. apply Hd. lia.
Qed.

Lemma indexes_nonneg f data : well_sized f → Forall (λ idx, 0 ≤ idx) (indexes f data).
Proof. intros Hw. eapply Forall_impl; [by apply indexes_in_range|]. simpl. lia. Qed.

(** Two filters that hash alike. *)
Lemma indexes_same f f' data :
  bucket_count f' = bucket_count f → num_hashes f' = num_hashes f → indexes f' data = indexes f data.
Proof. unfold indexes. by intros -> ->. Qed.

(** [might_contain] by the counters: no index has a zero. *)
Lemma all_nonzero_true cs idxs :
  Forall (λ idx, ∀ v, cs !! Z.to_nat idx = Some v → v ≠ 0) idxs → all_nonzero cs idxs = true.
Proof.
  induction 1 as [|i idxs Hi Hf IH]; [done|]. simpl. destruct (cs !! Z.to_nat i) as [v|]; [|done].
  specialize (Hi v eq_refl). by rewrite (proj2 (Z.eqb_neq v 0)).
Qed.

(** The filters that come from a new one by insertions that saturate no counter and
    removals of what is present, and what they hold. *)
Inductive holds_items : CountingBloomFilter → list bytes → Prop :=
| holds_new ln powi n rate : holds_items (CountingBloomFilter_new ln powi n rate) []
| holds_insert f f' live x :
    holds_items f live → (∀ n, load f (x :: live) n ≤ U8_MAX) →
    bloom_insert x f = (Ok tt, f') → holds_items f' (x :: live)
| holds_remove f f' live x live' :
    holds_items f live → live ≡ₚ x :: live' →
    bloom_remove x f = (Ok tt, f') → holds_items f' live'.

(** Each counter is the number of times the items hash to it. *)
Definition counts f live : Prop :=
  well_sized f ∧ ∀ n, (n < length (counters f))%nat → counters f !! n = Some (load f live n).

Lemma load_cons f x live n : load f (x :: live) n = countZ (Z.of_nat n) (indexes f x) + load f live n.
Proof. unfold load. by rewrite bind_cons, countZ_app. Qed.

Lemma load_nonneg f live n : 0 ≤ load f live n.
Proof. apply countZ_nonneg. Qed.

Lemma load_perm f live live' n : live ≡ₚ live' → load f live n = load f live' n.
Proof. intros Hp. apply countZ_perm. by rewrite Hp. Qed.

Lemma load_same f f' live n :
  bucket_count f' = bucket_count f → num_hashes f' = num_hashes f → load f' live n = load f live n.
Proof.
  intros Hb Hn. unfold load. induction live as [|x live IH]; [done|].
  by rewrite !bind_cons, !countZ_app, IH, (indexes_same f f').
Qed.

Lemma set_well_sized f cs n : well_sized f → length cs = length (counters f) → well_sized (set_items n (set_counters cs f)).
Proof. intros [Hl Hp] Hc. split; [|done]. cbn. unfold lenZ in *. by rewrite Hc. Qed.

Lemma counts_insert f live x :
  counts f live → (∀ n, load f (x :: live) n ≤ U8_MAX) →
  ∃ f', bloom_insert x f = (Ok tt, f') ∧ counts f' (x :: live) ∧
    bucket_count f' = bucket_count f ∧ num_hashes f' = num_hashes f.
Proof.
  intros [Hw Hc] Hfit. unfold bloom_insert, bind. rewrite update_cells_run by done.
  eexists. split; [reflexivity|]. split; [|done].
  split; [apply set_well_sized; [done|apply length_apply_cells]|]. cbn [counters set_items set_counters].
  intros n. rewrite length_apply_cells. intros Hn. specialize (Hfit n). rewrite load_cons in Hfit.
  pose proof (load_nonneg f live n). pose proof (countZ_nonneg (Z.of_nat n) (indexes f x)).
  rewrite (lookup_apply_incr _ _ n (load f live n)); [|by apply indexes_nonneg|by apply Hc|lia].
  rewrite (load_same f (set_items _ _) (x :: live)) by done. rewrite load_cons. f_equal. lia.
Qed.

Lemma counts_remove f live x live' :
  counts f live → live ≡ₚ x :: live' →
  ∃ f', bloom_remove x f = (Ok tt, f') ∧ counts f' live' ∧
    bucket_count f' = bucket_count f ∧ num_hashes f' = num_hashes f.
Proof.
  intros [Hw Hc] Hperm. unfold bloom_remove, bind. rewrite update_cells_run by done.
  eexists. split; [reflexivity|]. split; [|done].
  split; [apply set_well_sized; [done|apply length_apply_cells]|]. cbn [counters set_items set_counters].
  intros n. rewrite length_apply_cells. intros Hn.
  assert (load f live n = load f (x :: live') n) as Hl by by apply load_perm. rewrite load_cons in Hl.
  pose proof (load_nonneg f live n). pose proof (load_nonneg f live' n).
  rewrite (lookup_apply_decr _ _ n (load f live n)); [|by apply indexes_nonneg|by apply Hc|lia].
  rewrite (load_same f (set_items _ _) live') by done. f_equal. lia.
Qed.

Lemma counts_new ln powi n rate : counts (CountingBloomFilter_new ln powi n rate) [].
Proof.
  split; [apply new_well_sized|]. intros k. unfold CountingBloomFilter_new. cbn [counters].
  rewrite length_replicate. intros Hk. by rewrite lookup_replicate_2.
Qed.

(** What is counted is reported. *)
Lemma counts_might_contain f live x : counts f live → x ∈ live → might_contain_bytes x f = true.
Proof.
  intros [Hw Hc] Hx. apply all_nonzero_true. pose proof (indexes_in_range f x Hw) as Hr.
  rewrite Forall_forall in Hr |- *. intros i Hi v Hv. specialize (Hr i Hi).
  rewrite (Hc (Z.to_nat i)) in Hv by (unfold lenZ in Hr; lia). injection Hv as <-.
  assert (0 < countZ (Z.of_nat (Z.to_nat i)) (live ≫= indexes f)) as Hp; [|unfold load; lia].
  apply countZ_elem. rewrite Z2Nat.id by lia. apply list_elem_of_bind. by exists x.
Qed.

Lemma holds_counts f live : holds_items f live → counts f live.
Proof.
  induction 1 as [ln powi n rate|f f' live x Hh Hc Hfit Hrun|f f' live x live' Hh Hc Hperm Hrun].
  - apply counts_new.
  - destruct (counts_insert f live x Hc Hfit) as (g & Hg & Hgc & _). congruence.
  - destruct (counts_remove f live x live' Hc Hperm) as (g & Hg & Hgc & _). congruence.
Qed.

(** No false negatives.  However items come and go, as long as no counter is
    pushed past 255 and only items that are present are removed, the filter - of any
    size, whatever the logarithm gives - says yes to every item it holds, holds exact
    counts, and is empty again when the last item is gone; no call panics. *)
Theorem bloom_has_no_false_negatives f live :
  holds_items f live →
  (∀ x, x ∈ live → might_contain_bytes x f = true) ∧
  (live = [] → Forall (λ c, c = 0) (counters f)) ∧
  ∀ x, ∃ f1 f2, expect (bloom_insert x) f = (Ok tt, f1) ∧ expect (bloom_remove x) f = (Ok tt, f2).
Proof.
  intros Hh. destruct (holds_counts f live Hh) as [Hw Hc]. split; [|split].
  - intros x Hx. by apply (counts_might_contain f live).
  - intros ->. apply Forall_lookup. intros n v Hv. pose proof (lookup_lt_Some _ _ _ Hv) as Hn.
    rewrite (Hc n Hn) in Hv. by injection Hv as <-.
  - intros x. unfold expect, bloom_insert, bloom_remove, bind. rewrite !update_cells_run by done. by eexists _, _.
Qed.

(** ** Concurrent insertions *)
Lemma apply_cells_perm idxs idxs' cs :
  Forall (λ idx, 0 ≤ idx) idxs → Forall (λ v, 0 ≤ v ≤ U8_MAX) cs → idxs ≡ₚ idxs' →
  apply_cells cell_incr idxs cs = apply_cells cell_incr idxs' cs.
Proof.
  intros Hi Hcs Hp. apply list_eq. intros n. destruct (cs !! n) as [v|] eqn:Hv.
  - pose proof (Forall_lookup_1 _ _ _ _ Hcs Hv) as Hb. simpl in Hb.
    rewrite (lookup_apply_incr idxs _ n v), (lookup_apply_incr idxs' _ n v); [|by rewrite <- Hp|done|done|done..].
    assert (countZ (Z.of_nat n) idxs = countZ (Z.of_nat n) idxs') as ->; [|done]. by apply countZ_perm.
  - pose proof (lookup_ge_None_1 _ _ Hv). rewrite !lookup_ge_None_2; [done|by rewrite length_apply_cells..].
Qed.

(** Insertions can race.  However the counter updates of concurrent insertions are
    interleaved, the counters end as if the insertions had run one after the other, and
    every inserted item is reported - saturated counters included. *)
Theorem bloom_insertions_commute f xs steps :
  well_sized f → Forall (λ v, 0 ≤ v ≤ U8_MAX) (counters f) → steps ≡ₚ (xs ≫= indexes f) →
  let f' := set_counters (apply_cells cell_incr steps (counters f)) f in
  counters (foldl (λ f x, (bloom_insert x f).2) f xs) = counters f' ∧
  ∀ x, x ∈ xs → might_contain_bytes x f' = true.
Proof.
  intros Hw Hb Hp f'. assert (Forall (λ idx, 0 ≤ idx) (xs ≫= indexes f)) as Hall.
  { apply Forall_bind, Forall_forall. intros x _. by apply indexes_nonneg. }
  assert (Forall (λ idx, 0 ≤ idx) steps) as Hs by by rewrite Hp. split.
  - unfold f'. cbn [counters set_counters]. rewrite (apply_cells_perm steps _ (counters f) Hs Hb Hp). clear - Hw.
    assert (∀ f0, well_sized f0 → bucket_count f0 = bucket_count f → num_hashes f0 = num_hashes f →
      counters (foldl (λ f x, (bloom_insert x f).2) f0 xs) = apply_cells cell_incr (xs ≫= indexes f) (counters f0)) as Hrun;
      [|by apply Hrun].
    induction xs as [|x xs IH]; intros f0 Hw0 Hb Hn; [done|]. cbn [foldl]. rewrite bind_cons.
    unfold apply_cells. rewrite foldl_app. unfold bloom_insert, bind. rewrite update_cells_run by done.
    cbn [snd modify]. rewrite IH; [by rewrite (indexes_same f f0)|apply set_well_sized; [done|apply length_apply_cells]|done|done].
  - intros x Hx. apply all_nonzero_true. change (indexes f' x) with (indexes f x).
    pose proof (indexes_in_range f x Hw) as Hr. rewrite Forall_forall in Hr |- *. intros i Hi v.
    specialize (Hr i Hi). unfold f'. cbn [counters set_counters].
    destruct (lookup_lt_is_Some_2 (counters f) (Z.to_nat i)) as [v0 Hv0]; [unfold lenZ in Hr; lia|].
    pose proof (Forall_lookup_1 _ _ _ _ Hb Hv0) as Hb0. simpl in Hb0.
    rewrite (lookup_apply_incr steps _ _ v0) by done. intros [= <-].
    assert (0 < countZ (Z.of_nat (Z.to_nat i)) steps) as Hpos; [|unfold U8_MAX in *; lia].
    apply countZ_elem. rewrite Hp, Z2Nat.id by lia. apply list_elem_of_bind. by exists x.
Qed.
End bloom_properties.

(** ** Witnesses *)
#[local] Existing Instance toy_crates.

(** With a logarithm that always says 0 the filter has the least size. *)
Definition small_filter : CountingBloomFilter :=
  CountingBloomFilter_new (λ _, f64_of_Z 0) (λ x _, f64_mul x x) 256 (f64_lit 1 100).

Example small_filter_size : bucket_count small_filter = 1024 ∧ num_hashes small_filter = 3.
Proof. vm_compute. split; reflexivity. Qed.

Definition item_a : bytes := [x61].
Definition item_b : bytes := [x62; x63].
Definition filter_a : CountingBloomFilter := (bloom_insert item_a small_filter).2.

Lemma countZ_le_length (x : Z) l : countZ x l ≤ lenZ l.
Proof.
  unfold lenZ. induction l as [|y l IH]; [done|]. rewrite countZ_cons. simpl. case_bool_decide; lia.
Qed.

Lemma filter_a_holds : holds_items filter_a [item_a].
Proof.
  apply (holds_insert small_filter filter_a [] item_a).
  - apply holds_new.
  - intros n. etrans; [apply countZ_le_length|]. vm_compute. discriminate.
  - vm_compute. reflexivity.
Qed.

Lemma bloom_has_no_false_negatives_witness :
  might_contain_bytes item_b filter_a = false ∧ might_contain_bytes item_a filter_a = true.
Proof.
  split; [vm_compute; reflexivity|].
  apply (proj1 (bloom_has_no_false_negatives filter_a [item_a] filter_a_holds)). apply list_elem_of_here.
Defined.

Lemma bloom_insertions_commute_witness :
  let steps := reverse ([item_a; item_b] ≫= indexes small_filter) in
  let f' := set_counters (apply_cells cell_incr steps (counters small_filter)) small_filter in
  counters (foldl (λ f x, (bloom_insert x f).2) small_filter [item_a; item_b]) = counters f' ∧
  ∀ x, x ∈ [item_a; item_b] → might_contain_bytes x f' = true.
Proof.
  intros steps. apply (bloom_insertions_commute small_filter [item_a; item_b] steps).
  - apply new_well_sized.
  - apply Forall_replicate. done.
  - apply reverse_Permutation.
Defined.

(** A counter that reached 255 forgets: 256 insertions of an item and 255 removals leave
    one, which the filter denies. *)
Example saturation_gives_a_false_negative :
  let add f (_ : nat) := (bloom_insert item_a f).2 in
  let del f (_ : nat) := (bloom_remove item_a f).2 in
  let f := foldl del (foldl add small_filter (seq 0 256)) (seq 0 255) in
  items f = 1 ∧ might_contain_bytes item_a f = false.
Proof. vm_compute. split; reflexivity. Qed.
