(* ===== verification/Hybrid.v ===== *)
(** The hybrid post-quantum key profile (crates/common/src/security/crypto_profiles.rs, build
    [advanced-security]): the ML-KEM key pair kept on disk, and the XTS keys a chunk is sealed
    with, derived from the key manager's pair, a fresh shared secret and the place of the
    chunk.

    ML-KEM-768 and the extended output of blake3 are parameters; the coins of a key
    generation or an encapsulation are arguments.  Paths and messages are left out. *)
From S2P Require Import Prelude Errors Common Externals KeyManager.

(** [pqcrypto_mlkem::mlkem768] on the byte forms of its keys and ciphertexts, and
    [Hasher::finalize_xof]. *)
Class MlKem := {
  mlkem_keypair : bytes → bytes * bytes;
  encapsulate : bytes → bytes → bytes * bytes;
  decapsulate : bytes → bytes → bytes;
  public_valid : bytes → bool;
  secret_valid : bytes → bool;
  ciphertext_valid : bytes → bool;
  blake3_xof : bytes → Z → bytes;
}.

(** A generated pair is well formed and opens what is sealed for it; shared secrets have 32
    bytes, ciphertexts 1088. *)
Class MlKemLaws `{MlKem} : Prop := {
  keypair_valid coins : let '(pk, sk) := mlkem_keypair coins in public_valid pk = true ∧ secret_valid sk = true;
  decapsulate_encapsulate coins coins' :
    let '(pk, sk) := mlkem_keypair coins in
    let '(shared, ct) := encapsulate pk coins' in
    ciphertext_valid ct = true ∧ decapsulate ct sk = shared ∧ lenZ shared = 32 ∧ lenZ ct = 1088;
  blake3_xof_length d n : 0 ≤ n → lenZ (blake3_xof d n) = n;
}.

Record MlkemKeyMaterialState := mkMlkemKeyMaterialState { ml_public : bytes; ml_secret : bytes }.

Record HybridKeyMaterial := mkHybridKeyMaterial {
  wrapped_key : bytes;
  nonce : bytes;
  hm_ciphertext : bytes;
}.

Record StoredMlkemKey := mkStoredMlkemKey { stored_public : string; stored_secret : string }.

Section hybrid.
Context `{Crates} `{MlKem} {JK : JsonDoc StoredMlkemKey}.

(** [self.mix_with(base)] *)
Definition mix_with (self base : bytes) : bytes := blake3_xof (base ++ self) 16.

(** *** The key file *)

(** [hex::decode(..)?] *)
Definition hex_decode_err (s : string) : Res Error bytes := ok_or (hex_decode s) (Msg "invalid hex").

Definition load_keys (f : option Z) (file : doc StoredMlkemKey) : Res Error MlkemKeyMaterialState :=
  match f with
  | Some _ => Err (Context "unable to read" (IoFailed "read_to_string"))
  | None =>
      let? disk := ok_or (of_doc file) JsonFailed in
      let? public := hex_decode_err (stored_public disk) in
      if public_valid public then
        let? secret := hex_decode_err (stored_secret disk) in
        if secret_valid secret then Ok (mkMlkemKeyMaterialState public secret)
        else Err (Msg "invalid secret key")
      else Err (Msg "invalid public key")
  end.

(** [File::create] leaves an empty file, [write_all] a prefix when it fails. *)
Definition store_keys (f1 f2 : option Z) (public secret : bytes) (file : option (doc StoredMlkemKey)) :
    Res Error unit * option (doc StoredMlkemKey) :=
  let text := to_doc (mkStoredMlkemKey (hex_encode public) (hex_encode secret)) in
  match f1 with
  | Some _ => (Err (IoFailed "create"), file)
  | None =>
      match f2 with
      | Some k => (Err (IoFailed "write_all"), Some (prefix_doc (Z.max k 0) text))
      | None => (Ok tt, Some text)
      end
  end.

Definition load_or_generate (fs : faults) (coins : bytes) (file : option (doc StoredMlkemKey)) :
    Res Error MlkemKeyMaterialState * option (doc StoredMlkemKey) :=
  let '(f1, fs) := next_fault fs in
  match file with
  | Some d => (load_keys f1 d, file)
  | None =>
      let '(f2, _) := next_fault fs in
      let '(public, secret) := mlkem_keypair coins in
      match store_keys f1 f2 public secret None with
      | (Ok _, file) => (Ok (mkMlkemKeyMaterialState public secret), file)
      | (Err e, file) => (Err e, file)
      | (Panic, file) => (Panic, file)
      end
  end.

(** *** The keys of a chunk *)
Definition material_input (base_key : bytes) (capsule : CapsuleId) (segment : SegmentId) (hash : ContentHash)
    (shared ciphertext : bytes) : bytes :=
  base_key ++ shared ++ as_uuid capsule ++ to_le_bytes 8 (seg_u64 segment) ++ string_bytes (as_str hash) ++
  ciphertext.

Definition derive_material (base_key : bytes) (capsule : CapsuleId) (segment : SegmentId) (hash : ContentHash)
    (shared ciphertext : bytes) : HybridKeyMaterial :=
  let out := blake3_xof (material_input base_key capsule segment hash shared ciphertext) 80 in
  mkHybridKeyMaterial (takeZ 64 out) (takeZ 16 (dropZ 64 out)) ciphertext.

Definition wrap_xts_key (m : MlkemKeyMaterialState) (coins : bytes) (profile : CryptoProfile) (base_key : bytes)
    (capsule : CapsuleId) (segment : SegmentId) (hash : ContentHash) : option HybridKeyMaterial :=
  match profile with
  | Classical => None
  | HybridKyber =>
      let '(shared, ciphertext) := encapsulate (ml_public m) coins in
      Some (derive_material base_key capsule segment hash shared ciphertext)
  end.

Definition unwrap_xts_key (m : MlkemKeyMaterialState) (profile : CryptoProfile) (base_key : bytes)
    (capsule : CapsuleId) (segment : SegmentId) (hash : ContentHash) (ciphertext_hex : string) :
    Res Error (option HybridKeyMaterial) :=
  match profile with
  | Classical => Ok None
  | HybridKyber =>
      let? cipher := hex_decode_err ciphertext_hex in
      if ciphertext_valid cipher then
        Ok (Some (derive_material base_key capsule segment hash (decapsulate cipher (ml_secret m)) cipher))
      else Err (Msg "invalid ML-KEM ciphertext")
  end.

Definition collect_base_material (pair : XtsKeyPair) : bytes := key1 pair ++ key2 pair.

Definition serialize_ciphertext (b : bytes) : string := hex_encode b.
End hybrid.

(** ** Lemmas *)
Section hybrid_lemmas.
Context `{Crates} `{!HexLaws} `{MlKem} `{!MlKemLaws} {JK : JsonDoc StoredMlkemKey}.

(** The key pairs [load_or_generate] makes. *)
Definition generated (m : MlkemKeyMaterialState) : Prop :=
  ∃ coins, mlkem_keypair coins = (ml_public m, ml_secret m).

Lemma unwrap_wrap_eq m coins base c s h mat :
  generated m → wrap_xts_key m coins HybridKyber base c s h = Some mat →
  unwrap_xts_key m HybridKyber base c s h (serialize_ciphertext (hm_ciphertext mat)) = Ok (Some mat).
Proof.
  intros [coins' Hk]. unfold wrap_xts_key, unwrap_xts_key, serialize_ciphertext.
  pose proof (decapsulate_encapsulate coins' coins) as Hl. rewrite Hk in Hl.
  destruct (encapsulate (ml_public m) coins) as [shared ct]. destruct Hl as (Hv & Hd & _).
  intros [= <-]. unfold derive_material at 1. cbn [hm_ciphertext]. unfold hex_decode_err. rewrite hex_decode_encode. cbn [ok_or res_bind].
  by rewrite Hv, Hd.
Qed.

Lemma wrap_lengths m coins base c s h mat :
  wrap_xts_key m coins HybridKyber base c s h = Some mat → lenZ (wrapped_key mat) = 64 ∧ lenZ (nonce mat) = 16.
Proof.
  unfold wrap_xts_key. destruct (encapsulate _ _) as [shared ct]. intros [= <-]. unfold derive_material.
  cbn [wrapped_key nonce]. set (out := blake3_xof _ 80).
  assert (lenZ out = 80) as Hlen by by apply blake3_xof_length.
  rewrite !lenZ_takeZ, lenZ_dropZ by lia. lia.
Qed.
End hybrid_lemmas.

(** A key manager that was started keeps its pair for every later start that can read the
    file. *)
Section key_file.
Context `{Crates} `{!HexLaws} `{MlKem} `{!MlKemLaws} {JK : JsonDoc StoredMlkemKey}.

Lemma load_or_generate_fresh fs coins m file :
  load_or_generate fs coins None = (Ok m, file) →
  generated m ∧ file = Some (to_doc (mkStoredMlkemKey (hex_encode (ml_public m)) (hex_encode (ml_secret m)))).
Proof.
  unfold load_or_generate, store_keys. destruct (next_fault fs) as [f1 fs1]. destruct (next_fault fs1) as [f2 fs2].
  destruct (mlkem_keypair coins) as [pk sk] eqn:Hk. destruct f1; [done|]. destruct f2; [done|].
  intros [= <- <-]. split; [by exists coins|done].
Qed.

Lemma load_or_generate_again m fs coins m' file' :
  generated m →
  load_or_generate fs coins (Some (to_doc (mkStoredMlkemKey (hex_encode (ml_public m)) (hex_encode (ml_secret m))))) =
    (Ok m', file') → m' = m.
Proof.
  intros [coins' Hk]. pose proof (keypair_valid coins') as Hv. rewrite Hk in Hv. destruct Hv as [Hp Hs].
  unfold load_or_generate, load_keys, hex_decode_err. destruct (next_fault fs) as [[z|] fs1]; [done|].
  rewrite of_to_doc. cbn [ok_or res_bind stored_public stored_secret]. rewrite !hex_decode_encode.
  cbn [ok_or res_bind]. rewrite Hp, Hs. destruct m. by intros [= <- <-].
Qed.
End key_file.

(** ** Toy instances *)
Definition byte_sum (d : bytes) : byte := byte_of_Z (foldl (λ n b, n + Z_of_byte b) 0 d).

Definition toy_mlkem : MlKem :=
  {| mlkem_keypair := λ coins, (coins, x73 :: coins);
     encapsulate := λ pk coins,
       let ct := replicate 1088 (byte_sum coins) in (byte_sum pk :: replicate 31 (byte_sum coins), ct);
     decapsulate := λ ct sk, byte_sum (drop 1 sk) :: replicate 31 (default x00 (head ct));
     public_valid := λ _, true;
     secret_valid := λ sk, negb (lenZ sk =? 0);
     ciphertext_valid := λ ct, lenZ ct =? 1088;
     blake3_xof := λ d n, takeZ n (byte_sum d :: replicate (Z.to_nat n) x00) |}.

Lemma toy_mlkem_laws : @MlKemLaws toy_mlkem.
Proof.
  split; simpl.
  - intros coins. split; [done|]. by destruct (lenZ (x73 :: coins)) eqn:Hl; [unfold lenZ in Hl; simpl in Hl; lia|..].
  - intros coins coins'. by split_and!.
  - intros d n Hn. change (lenZ (takeZ n (byte_sum d :: replicate (Z.to_nat n) x00)) = n).
    rewrite lenZ_takeZ. unfold lenZ. cbn [length]. rewrite length_replicate. lia.
Qed.
