(* ===== verification/SecuredPipeline.v ===== *)
(** The synchronous pipeline of the build [advanced-security]
    (crates/capsule-registry/src/pipeline.rs and lib.rs): the registry asks a counting Bloom
    filter before its content store, chunks of a hybrid policy are sealed with keys of their
    own, and what happens is written to the audit log, whose errors are dropped.

    The coins of the encapsulations, the clock of the audit log and the answers of its
    time-stamping authority are arguments or part of the state. *)
From S2P Require Import Prelude Errors Common Externals.
From S2P Require Nvram Compression KeyManager Encryption Dedup Registry Gc WritePipeline.
From S2P Require AuditLog Bloom Hybrid.
Import Nvram Compression KeyManager Encryption Registry Gc WritePipeline.
Import AuditLog Bloom Hybrid.

Section secured.
Context {JR : JsonDoc RegistryState} {JN : JsonDoc SegmentMap} `{Crates} `{AuditJson} `{MlKem}.

Record SecuredPipeline := mkSecuredPipeline {
  sp_base : WritePipeline;
  bloom_filter : option CountingBloomFilter;
  audit_log : option (AuditOptions * AuditState);
  audit_clock : nat → Z * (TsaProof + Error);
  mlkem_manager : option MlkemKeyMaterialState;
}.

Definition set_base (p : WritePipeline) (s : SecuredPipeline) : SecuredPipeline :=
  mkSecuredPipeline p (bloom_filter s) (audit_log s) (audit_clock s) (mlkem_manager s).
Definition set_bloom (f : option CountingBloomFilter) (s : SecuredPipeline) : SecuredPipeline :=
  mkSecuredPipeline (sp_base s) f (audit_log s) (audit_clock s) (mlkem_manager s).

Definition on_base {A : Type} (m : M WritePipeline Error A) : M SecuredPipeline Error A :=
  zoom sp_base set_base m.

Definition on_bloom (m : M CountingBloomFilter Error unit) : M SecuredPipeline Error unit := λ s,
  match bloom_filter s with
  | None => (Ok tt, s)
  | Some f => let '(r, f') := m f in (r, set_bloom (Some f') s)
  end.

(** [audit_event]: the result of the append is only logged. *)
Definition audit_event (event : Event) : M SecuredPipeline Error unit := λ s,
  match audit_log s with
  | None => (Ok tt, s)
  | Some (options, log) =>
      let '(now, reply) := audit_clock s 0 in
      let log := snd (append options event now reply log) in
      (Ok tt, mkSecuredPipeline (sp_base s) (bloom_filter s) (Some (options, log))
                (λ n, audit_clock s (S n)) (mlkem_manager s))
  end.

(** *** The registry with its filter *)
Definition configure_bloom `{HashOrder} (ln : f64 → f64) (powi : f64 → Z → f64) (capacity : Z) (fp_rate : f64)
    (existing : gmap ContentHash SegmentId) : Res Error unit * CountingBloomFilter :=
  with_existing ln powi capacity fp_rate (hash_iter existing).*1.

Definition lookup_content (h : ContentHash) : M SecuredPipeline Error (option SegmentId) :=
  let! filter := gets bloom_filter in
  match filter with
  | Some f => if might_contain h f then on_base (reg (Registry.lookup_content h)) else ret None
  | None => on_base (reg (Registry.lookup_content h))
  end.

Definition register_content (h : ContentHash) (id : SegmentId) : M SecuredPipeline Error unit :=
  on_base (reg (modify (λ r, set_content_store (<[h := id]> (content_store r)) r))) ;;;
  on_bloom (record_insertion h) ;;;
  on_base (reg save).

Definition deregister_content (h : ContentHash) (id : SegmentId) : M SecuredPipeline Error bool :=
  let! current := on_base (reg (gets (λ r, content_store r !! h))) in
  if bool_decide (current = Some id) then
    on_base (reg (modify (λ r, set_content_store (delete h (content_store r)) r))) ;;;
    on_bloom (record_removal h) ;;;
    on_base (reg save) ;;;
    ret true
  else ret false.

(** The log's [increment_refcount] with its audit record. *)
Definition increment_refcount (id : SegmentId) : M SecuredPipeline Error Segment :=
  let! updated := on_base (map_err (map_nvram_error "increment_refcount") (nv (Nvram.increment_refcount id))) in
  audit_event (SegmentAppended (seg_id updated) (seg_len updated) (seg_content_hash updated) (seg_encrypted updated)) ;;;
  ret updated.

(** *** Writing *)

(** The keys a hybrid policy derives for a chunk, when there is a manager. *)
Definition hybrid_state (policy : Policy) (mlkem : option MlkemKeyMaterialState) (coins : bytes)
    (key_pair : XtsKeyPair) (capsule_id : CapsuleId) (index : Z) (h : ContentHash) : option HybridKeyMaterial :=
  match crypto_profile policy, mlkem with
  | HybridKyber, Some manager =>
      wrap_xts_key manager coins HybridKyber (collect_base_material key_pair) capsule_id (mkSegmentId index) h
  | _, _ => None
  end.

Definition pair_for_use (material : option HybridKeyMaterial) (key_pair : XtsKeyPair) : XtsKeyPair :=
  match material with
  | Some m => XtsKeyPair_from_bytes (wrapped_key m)
  | None => key_pair
  end.

Definition mixed_tweak (material : option HybridKeyMaterial) (tweak : bytes) : bytes :=
  match material with
  | Some m => mix_with (nonce m) tweak
  | None => tweak
  end.

Definition encrypt_chunk (policy : Policy) (capsule_id : CapsuleId) (index : Z) (coins : bytes)
    (h : ContentHash) (compressed_data : bytes) :
    M SecuredPipeline Error (bytes * EncryptionMetadata * option HybridKeyMaterial) :=
  let! (key_version, key_pair) := on_base (on_km (
    let! key_version := gets current_version in
    let! key_pair := get_key key_version in
    ret (key_version, key_pair))) in
  let! mlkem := gets mlkem_manager in
  let material := hybrid_state policy mlkem coins key_pair capsule_id index h in
  let tweak := mixed_tweak material (derive_tweak_from_hash (string_bytes (as_str h))) in
  let pair := pair_for_use material key_pair in
  let! (ciphertext, enc_meta) := lift (res_map_err OfEncryption
    (encrypt_segment compressed_data pair key_version tweak)) in
  let! mac_tag := lift (res_map_err OfEncryption
    (compute_mac ciphertext enc_meta (key1 pair) (key2 pair))) in
  ret (ciphertext, set_integrity_tag mac_tag enc_meta, material).

Definition set_pq (material : option HybridKeyMaterial) (s : Segment) : Segment :=
  match material with
  | Some m =>
      mkSegment (seg_id s) (seg_offset s) (seg_len s) (seg_compressed s) (seg_compression_algo s)
        (seg_content_hash s) (seg_ref_count s) (seg_deduplicated s) (seg_access_count s)
        (seg_encryption_version s) (seg_key_version s) (seg_tweak_nonce s) (seg_integrity_tag s)
        (seg_encrypted s) (Some (serialize_ciphertext (hm_ciphertext m))) (Some (nonce m))
  | None => s
  end.

Definition write_new_segment (final_data : bytes) (comp_result : CompressionResult)
    (hash : option ContentHash) (encryption_meta : option EncryptionMetadata)
    (material : option HybridKeyMaterial) : M WritePipeline Error SegmentId :=
  let! new_seg_id := reg alloc_segment in
  let! segment := map_err (map_nvram_error "append") (nv (Nvram.append new_seg_id final_data)) in
  map_err (map_nvram_error "update_segment_metadata")
    (nv (update_segment_metadata new_seg_id
           (set_pq material (describe_segment comp_result hash encryption_meta segment)))) ;;;
  ret new_seg_id.

Definition place_segment (policy : Policy) (capsule_id : CapsuleId) (content_hash : ContentHash)
    (final_data : bytes) (comp_result : CompressionResult) (encryption_meta : option EncryptionMetadata)
    (material : option HybridKeyMaterial) (dedup_stats : DedupStats) :
    M SecuredPipeline Error (SegmentId * DedupStats) :=
  if dedupe policy then
    let! existing := lookup_content content_hash in
    match existing with
    | Some existing_seg_id =>
        let! updated_segment := increment_refcount existing_seg_id in
        audit_event (DedupHit existing_seg_id capsule_id content_hash) ;;;
        ret (existing_seg_id, Common.add_segment (seg_len updated_segment) true dedup_stats)
    | None =>
        let! new_seg_id := on_base
          (write_new_segment final_data comp_result (Some content_hash) encryption_meta material) in
        map_err (map_registry_error "register_content") (register_content content_hash new_seg_id) ;;;
        ret (new_seg_id, Common.add_segment (lenZ final_data) false dedup_stats)
    end
  else
    let! new_seg_id := on_base (write_new_segment final_data comp_result None encryption_meta material) in
    ret (new_seg_id, Common.add_segment (lenZ final_data) false dedup_stats).

(** [coins]: the randomness of the chunk with a given index. *)
Definition write_chunk (policy : Policy) (encryption_enabled : bool) (capsule_id : CapsuleId)
    (coins : Z → bytes) (acc : Z * list SegmentId * DedupStats) (chunk : bytes) :
    M SecuredPipeline Error (Z * list SegmentId * DedupStats) :=
  let '(index, segment_ids, dedup_stats) := acc in
  let! (view, comp_result) := lift (res_map_err (map_compression_error index)
    (compress_segment chunk (compression policy))) in
  let compressed_data := as_ref view in
  let content_hash := Dedup.hash_content compressed_data in
  let! (final_data, encryption_meta, material) :=
    (if encryption_enabled then
       let! (ciphertext, m, material) :=
         encrypt_chunk policy capsule_id index (coins index) content_hash compressed_data in
       ret (ciphertext, Some m, material)
     else ret (compressed_data, None, None)) in
  let! (seg_id, dedup_stats) :=
    place_segment policy capsule_id content_hash final_data comp_result encryption_meta material dedup_stats in
  ret (index + 1, segment_ids ++ [seg_id], dedup_stats).

Definition write_capsule_with_policy (capsule_id : CapsuleId) (now : option Z) (coins : Z → bytes)
    (data : bytes) (policy : Policy) : M SecuredPipeline Error CapsuleId :=
  let! km := gets (λ s, key_manager (sp_base s)) in
  let encryption_enabled := is_enabled (encryption policy) && bool_decide (is_Some km) in
  let! (_, segment_ids, dedup_stats) :=
    foldM (write_chunk policy encryption_enabled capsule_id coins) (0, [], DedupStats_new)
      (chunks SEGMENT_SIZE data) in
  on_base (if 0 <? bytes_saved dedup_stats
   then map_err (map_registry_error "add_deduped_bytes")
          (reg (add_deduped_bytes capsule_id (bytes_saved dedup_stats)))
   else ret tt) ;;;
  on_base (map_err (map_registry_error "create_capsule_with_segments")
    (reg (create_capsule_with_segments now capsule_id (lenZ data) segment_ids policy))) ;;;
  audit_event (CapsuleCreated capsule_id (lenZ data) (lenZ segment_ids) policy) ;;;
  ret capsule_id.

(** *** Reading *)

(** The keys the reader derives from the segment's record and the place of the segment in
    the capsule; a failure to unwrap is only logged. *)
Definition read_material (capsule : Capsule) (index : Z) (mlkem : option MlkemKeyMaterialState)
    (key_pair : XtsKeyPair) (segment : Segment) : option HybridKeyMaterial :=
  match crypto_profile (cap_policy capsule), mlkem, seg_pq_ciphertext segment, seg_content_hash segment with
  | HybridKyber, Some manager, Some cipher_hex, Some h =>
      match unwrap_xts_key manager HybridKyber (collect_base_material key_pair) (cap_id capsule)
              (mkSegmentId index) h cipher_hex with
      | Ok material => material
      | _ => None
      end
  | _, _, _, _ => None
  end.

Definition decrypt_raw (capsule : Capsule) (index : Z) (segment : Segment) (raw_data : bytes) :
    M SecuredPipeline Error bytes :=
  if seg_encrypted segment then
    let! km := gets (λ s, key_manager (sp_base s)) in
    let! _ := lift (ok_or km (Msg "Cannot decrypt: key manager not initialized")) in
    let! key_version := lift (ok_or (seg_key_version segment)
      (Msg "Missing key version in encrypted segment")) in
    let! key_pair := on_base (on_km (get_key key_version)) in
    let! mlkem := gets mlkem_manager in
    let pair := pair_for_use (read_material capsule index mlkem key_pair segment) key_pair in
    let enc_meta :=
      {| md_encryption_version := seg_encryption_version segment;
         md_key_version := seg_key_version segment;
         md_tweak_nonce := seg_tweak_nonce segment;
         md_integrity_tag := seg_integrity_tag segment;
         md_ciphertext_len := Some (wrap 32 (lenZ raw_data)) |} in
    lift (res_map_err OfEncryption (verify_mac raw_data enc_meta (key1 pair) (key2 pair))) ;;;
    lift (res_map_err OfEncryption (decrypt_segment raw_data pair enc_meta))
  else ret raw_data.

Definition read_segment (capsule : Capsule) (index : Z) (id : SegmentId) : M SecuredPipeline Error bytes :=
  let! raw_data := on_base (nv (read id)) in
  let! segment := on_base (nv (get_segment_metadata id)) in
  let! decrypted_data := decrypt_raw capsule index segment raw_data in
  lift (decompress_for (compression (cap_policy capsule)) decrypted_data).

Definition read_capsule (id : CapsuleId) : M SecuredPipeline Error bytes :=
  let! capsule := on_base (reg (lookup id)) in
  let! (_, result) := foldM (λ '(index, result) seg_id,
    let! data := read_segment capsule index seg_id in
    ret (index + 1, result ++ data)) (0, []) (cap_segments capsule) in
  audit_event (CapsuleRead id (cap_size capsule)) ;;;
  ret result.

(** *** Deleting, collecting, reconciling *)
Definition delete_capsule (capsule_id : CapsuleId) : M SecuredPipeline Error unit :=
  let! capsule := on_base (reg (Registry.delete_capsule capsule_id)) in
  foldM (λ _ seg_id,
    let! segment := on_base (nv (decrement_refcount seg_id)) in
    if seg_ref_count segment =? 0 then
      (match seg_content_hash segment with
       | Some h => deregister_content h seg_id ;;; ret tt
       | None => ret tt
       end) ;;;
      on_base (nv (remove_segment seg_id)) ;;; ret tt
    else ret tt) tt (cap_segments capsule) ;;;
  audit_event (CapsuleDeleted capsule_id (cap_size capsule)).

Definition reclaim_segment (segment : Segment) : M SecuredPipeline Error unit :=
  (match seg_content_hash segment with
   | Some h => deregister_content h (seg_id segment) ;;; ret tt
   | None => ret tt
   end) ;;;
  let! removed := on_base (nv (remove_segment (seg_id segment))) in
  match removed with
  | None => fail (MsgSegment "vanished during GC" (seg_id segment))
  | Some _ => ret tt
  end.

Definition garbage_collect `{HashOrder} : M SecuredPipeline Error Z :=
  let! segments := on_base (nv list_segments) in
  foldM (λ reclaimed segment,
    if seg_ref_count segment =? 0
    then reclaim_segment segment ;;; ret (reclaimed + 1)
    else ret reclaimed) 0 segments.

Definition reconcile_refcounts `{HashOrder} : M SecuredPipeline Error unit :=
  let! p := gets sp_base in
  let counts := count_refs (registry (store p)) in
  let! segments := on_base (nv list_segments) in
  foldM (λ _ segment,
    let expected := default 0 (counts !! seg_id segment) in
    if negb (seg_ref_count segment =? expected) then
      on_base (nv (update_segment_metadata (seg_id segment)
            (set_refs expected (seg_access_count segment) segment)))
    else ret tt) tt segments ;;;
  garbage_collect ;;;
  ret tt.

(** [new] after the key managers and the audit log were looked up. *)
Definition SecuredPipeline_new `{HashOrder} (r : CapsuleRegistry) (l : NvramLog) (km : option KeyManager)
    (filter : option CountingBloomFilter) (audit : option (AuditOptions * AuditState))
    (clock : nat → Z * (TsaProof + Error)) (mlkem : option MlkemKeyMaterialState) :
    Res Error unit * SecuredPipeline :=
  (attempt reconcile_refcounts ;;; ret tt)
    (mkSecuredPipeline (mkWritePipeline (mkStore r l) km) filter audit clock mlkem).
End secured.
