(* ===== verification/SecuredTheorems.v ===== *)
(** The build [advanced-security] against the default one.

    The filter is exact while it holds each registered hash once and no counter saturates;
    then, for policies without hybrid keys, the two builds do the same ([agrees]). *)
From S2P Require Import Prelude Errors Common Externals.
From S2P Require Nvram Compression KeyManager Encryption Dedup Registry Gc WritePipeline.
From S2P Require PipelineInvariant PipelineTheorems AuditLog Bloom Hybrid SecuredPipeline.
Import Nvram Compression KeyManager Encryption Registry Gc WritePipeline PipelineInvariant PipelineTheorems.
Import AuditLog Bloom Hybrid SecuredPipeline.

(** ** The filter *)
Section filter.
Context `{Crates}.
Implicit Types f : CountingBloomFilter.

#[export] Instance hash_bytes_inj : Inj (=) (=) hash_bytes.
Proof. intros [s] [s'] Hs%(inj string_bytes). simpl in Hs. by subst. Qed.

(** [f] holds the keys of [m], each once. *)
Definition keys_of (m : gmap ContentHash SegmentId) : list bytes := hash_bytes <$> (map_to_list m).*1.

Definition mirrors f (m : gmap ContentHash SegmentId) : Prop := counts f (keys_of m).

(** The counters of a filter this size never pass 255 on hashes in [U]. *)
Definition roomy f (U : list ContentHash) : Prop := ∀ n, load f (hash_bytes <$> U) n ≤ U8_MAX.

Lemma counts_perm f live live' : live ≡ₚ live' → counts f live → counts f live'.
Proof. intros Hp [Hw Hc]. split; [done|]. intros n Hn. rewrite (Hc n Hn). f_equal. by apply load_perm. Qed.

Lemma load_submseteq f live live' n : live ⊆+ live' → load f live n ≤ load f live' n.
Proof.
  intros [rest Hp]%submseteq_Permutation. rewrite (load_perm f live' _ n Hp). unfold load.
  rewrite bind_app, countZ_app. pose proof (countZ_nonneg (Z.of_nat n) (rest ≫= indexes f)). lia.
Qed.

Lemma keys_of_insert m h id : m !! h = None → keys_of (<[h := id]> m) ≡ₚ hash_bytes h :: keys_of m.
Proof. intros Hn. unfold keys_of. by rewrite map_to_list_insert. Qed.

Lemma keys_of_delete m h id : m !! h = Some id → keys_of m ≡ₚ hash_bytes h :: keys_of (delete h m).
Proof. intros Hh. rewrite <- (keys_of_insert (delete h m) h id), insert_delete_id; [done..|]. apply lookup_delete_eq. Qed.

Lemma keys_of_within m U n f :
  (∀ h id, m !! h = Some id → h ∈ U) → load f (keys_of m) n ≤ load f (hash_bytes <$> U) n.
Proof.
  intros Hm. apply load_submseteq. unfold keys_of. apply fmap_submseteq, NoDup_submseteq.
  - apply NoDup_fst_map_to_list.
  - intros h ([h' id] & -> & Hel)%list_elem_of_fmap. apply elem_of_map_to_list in Hel. by eapply Hm.
Qed.

Lemma mirrors_lookup f m h : mirrors f m → might_contain h f = false → m !! h = None.
Proof.
  intros Hm Hf. destruct (m !! h) as [id|] eqn:Hh; [|done].
  unfold might_contain in Hf. rewrite (counts_might_contain f (keys_of m)) in Hf; [done..|].
  apply list_elem_of_fmap. exists h. split; [done|]. apply list_elem_of_fmap. exists (h, id).
  split; [done|]. by apply elem_of_map_to_list.
Qed.

Lemma roomy_same f f' U :
  bucket_count f' = bucket_count f → num_hashes f' = num_hashes f → roomy f U → roomy f' U.
Proof. intros Hb Hn Hr n. rewrite (load_same f f') by done. apply Hr. Qed.

Lemma mirrors_insert f m h id U :
  mirrors f m → roomy f U → h ∈ U → (∀ h id, m !! h = Some id → h ∈ U) →
  m !! h = None →
  ∃ f', record_insertion h f = (Ok tt, f') ∧ mirrors f' (<[h := id]> m) ∧ roomy f' U.
Proof.
  intros Hm Hr Hh HU Hn.
  destruct (counts_insert f (keys_of m) (hash_bytes h) Hm) as (f' & Hrun & Hc & Hb & Hk).
  { intros n. rewrite <- (load_perm f _ _ n (keys_of_insert m h id Hn)). etrans; [apply keys_of_within|apply Hr].
    intros h' id' [[<- _]|[_ ?]]%lookup_insert_Some; [done|by eapply HU]. }
  exists f'. unfold record_insertion, expect. rewrite Hrun. split; [done|]. split; [|by apply (roomy_same f)].
  unfold mirrors. eapply counts_perm; [symmetry; by apply keys_of_insert|done].
Qed.

Lemma mirrors_delete f m h id U :
  mirrors f m → roomy f U → m !! h = Some id →
  ∃ f', record_removal h f = (Ok tt, f') ∧ mirrors f' (delete h m) ∧ roomy f' U.
Proof.
  intros Hm Hr Hh.
  destruct (counts_remove f (keys_of m) (hash_bytes h) (keys_of (delete h m)) Hm) as (f' & Hrun & Hc & Hb & Hk).
  { by eapply keys_of_delete. }
  exists f'. unfold record_removal, expect. rewrite Hrun. split; [done|]. split; [done|by apply (roomy_same f)].
Qed.

(** The filter built over the stored hashes mirrors them. *)
Lemma configured_mirrors `{HashOrder} ln powi n rate m U :
  (∀ h id, m !! h = Some id → h ∈ U) →
  roomy (CountingBloomFilter_new ln powi n rate) U →
  ∃ f, configure_bloom ln powi n rate m = (Ok tt, f) ∧ mirrors f m ∧ roomy f U.
Proof.
  intros HU Hr. unfold configure_bloom, with_existing.
  set (f0 := CountingBloomFilter_new ln powi n rate) in *.
  assert (∀ hs live f, NoDup (hs ++ live) → (∀ h, h ∈ hs ++ live → h ∈ U) → counts f (hash_bytes <$> live) → roomy f U →
    ∃ f', foldM (λ _ h, record_insertion h) tt hs f = (Ok tt, f') ∧
      counts f' (hash_bytes <$> (reverse hs ++ live)) ∧ roomy f' U) as Hgen.
  { intros hs. induction hs as [|h hs IH]; intros live f Hnd Hin Hc Hrf; [by exists f|].
    assert (NoDup (hs ++ h :: live)) as Hnd' by by rewrite <- Permutation_middle.
    assert (∀ h', h' ∈ hs ++ h :: live → h' ∈ U) as Hin'.
    { intros h' Hh'. apply Hin. rewrite <- Permutation_middle in Hh'. exact Hh'. }
    destruct (counts_insert f (hash_bytes <$> live) (hash_bytes h) Hc) as (f1 & Hrun & Hc1 & Hb & Hk).
    { intros k. etrans; [|exact (Hrf k)]. apply load_submseteq.
      change (hash_bytes <$> (h :: live) ⊆+ hash_bytes <$> U). apply fmap_submseteq, NoDup_submseteq.
      - apply NoDup_app in Hnd' as (_ & _ & ?). done.
      - intros h' Hh'. apply Hin'. apply elem_of_app. by right. }
    destruct (IH (h :: live) f1 Hnd' Hin' Hc1 (roomy_same f f1 U Hb Hk Hrf)) as (f2 & Hf2 & Hc2 & Hr2).
    exists f2. split; [|split; [|done]].
    - cbn [foldM]. unfold bind. unfold record_insertion at 1, expect. rewrite Hrun. exact Hf2.
    - by rewrite reverse_cons, <- app_assoc. }
  destruct (Hgen (hash_iter m).*1 [] f0) as (f & Hf & Hc & Hrf).
  - rewrite app_nil_r. apply hash_iter_NoDup.
  - intros h. rewrite app_nil_r. intros ([h' id] & -> & Hel)%list_elem_of_fmap. apply hash_iter_elem in Hel. by eapply HU.
  - apply counts_new.
  - done.
  - exists f. split; [done|]. split; [|done]. eapply counts_perm; [|exact Hc]. unfold keys_of.
    rewrite app_nil_r, reverse_Permutation. by rewrite hash_iter_perm.
Qed.
End filter.

(** ** Agreement of the two builds *)
Section agreement.
Context {JR : JsonDoc RegistryState} {JN : JsonDoc SegmentMap} `{Crates} `{AuditJson} `{MlKem}.
Context (U : list ContentHash) (ml : option MlkemKeyMaterialState).
Implicit Types s : SecuredPipeline.
Implicit Types p : WritePipeline.

(** The filter mirrors the content store and has room for the hashes in [U]; no capsule
    has hybrid keys, or there is no manager for them. *)
Record exact s : Prop := {
  ex_filter f : SecuredPipeline.bloom_filter s = Some f →
    mirrors f (content_store (rg (sp_base s))) ∧ roomy f U;
  ex_store h id : content_store (rg (sp_base s)) !! h = Some id → h ∈ U;
  ex_manager : mlkem_manager s = ml;
  ex_plain : ml = None ∨
    ∀ c cap, capsules (rg (sp_base s)) !! c = Some cap → crypto_profile (cap_policy cap) = Classical;
}.

(** The secured call [ms] returns what the default call [mb] returns on the same store,
    and leaves the same store. *)
Definition agrees {A : Type} (ms : M SecuredPipeline Error A) (mb : M WritePipeline Error A)
    (Q : A → SecuredPipeline → Prop) (I : SecuredPipeline → Prop) s : Prop :=
  let '(r, s') := ms s in
  mb (sp_base s) = (r, sp_base s') ∧ match r with Ok a => Q a s' | _ => I s' end.

Lemma agrees_bind {A B : Type} (ms : M SecuredPipeline Error A) mb
    (ks : A → M SecuredPipeline Error B) kb Q I s :
  agrees ms mb (λ a, agrees (ks a) (kb a) Q I) I s → agrees (bind ms ks) (bind mb kb) Q I s.
Proof.
  unfold agrees, bind. destruct (ms s) as [[a|e| ] s']; intros [Hb Hk]; rewrite Hb; [|done..]. done.
Qed.

(** The results correspond by [g]. *)
Definition agrees_by {A A' : Type} (g : A → A') (ms : M SecuredPipeline Error A) (mb : M WritePipeline Error A')
    (Q : A → SecuredPipeline → Prop) (I : SecuredPipeline → Prop) s : Prop :=
  let '(r, s') := ms s in
  mb (sp_base s) = (res_bind r (λ a, Ok (g a)), sp_base s') ∧ match r with Ok a => Q a s' | _ => I s' end.

Lemma agrees_bind_by {A A' B B' : Type} (g : A → A') (g' : B → B') (ms : M SecuredPipeline Error A) mb
    (ks : A → M SecuredPipeline Error B) kb Q I s :
  agrees_by g ms mb (λ a, agrees_by g' (ks a) (kb (g a)) Q I) I s → agrees_by g' (bind ms ks) (bind mb kb) Q I s.
Proof.
  unfold agrees_by, bind. destruct (ms s) as [[a|e| ] s']; intros [Hb Hk]; rewrite Hb; [|done..]. done.
Qed.

Lemma agrees_by_id {A : Type} (ms : M SecuredPipeline Error A) mb Q I s :
  agrees_by id ms mb Q I s ↔ agrees ms mb Q I s.
Proof. unfold agrees, agrees_by. by destruct (ms s) as [[a|e| ] s']. Qed.

Lemma agrees_by_mono {A A' : Type} (g : A → A') (ms : M SecuredPipeline Error A) mb (Q Q' : A → _) (I I' : _ → Prop) s :
  agrees_by g ms mb Q I s → (∀ a s', Q a s' → Q' a s') → (∀ s', I s' → I' s') → agrees_by g ms mb Q' I' s.
Proof. unfold agrees_by. destruct (ms s) as [[a|e| ] s']; intros [? ?] HQ HI; (split; [done|]); auto. Qed.

Lemma agrees_by_foldM {A B B' : Type} (g : B → B') (J : B → SecuredPipeline → Prop) (I : SecuredPipeline → Prop)
    fs fb (l : list A) b s :
  (∀ b x s, J b s → agrees_by g (fs b x) (fb (g b) x) J I s) →
  J b s → agrees_by g (foldM fs b l) (foldM fb (g b) l) J I s.
Proof.
  intros Hf. revert b s. induction l as [|x l IH]; intros b s Hj; [done|].
  cbn [foldM]. apply (agrees_bind_by g g). eapply agrees_by_mono; [by apply Hf|apply IH|done].
Qed.

Lemma agrees_lift {A B : Type} (r : Res Error A) (ks : A → M SecuredPipeline Error B) kb Q (I : _ → Prop) s :
  (∀ a, r = Ok a → agrees (ks a) (kb a) Q I s) → I s → agrees (bind (lift r) ks) (bind (lift r) kb) Q I s.
Proof. intros Hk Hi. unfold agrees, bind, lift. destruct r as [a|e| ]; [by apply Hk|done..]. Qed.

Lemma agrees_gets {A B : Type} (f : SecuredPipeline → A) g (ks : A → M SecuredPipeline Error B) kb Q I s :
  g (sp_base s) = f s → agrees (ks (f s)) (kb (f s)) Q I s → agrees (bind (gets f) ks) (bind (gets g) kb) Q I s.
Proof. intros Hg. unfold agrees, bind, gets. by rewrite Hg. Qed.

Lemma agrees_mono {A : Type} (ms : M SecuredPipeline Error A) mb (Q Q' : A → _) (I I' : _ → Prop) s :
  agrees ms mb Q I s → (∀ a s', Q a s' → Q' a s') → (∀ s', I s' → I' s') → agrees ms mb Q' I' s.
Proof. unfold agrees. destruct (ms s) as [[a|e| ] s']; intros [? ?] HQ HI; (split; [done|]); auto. Qed.

Lemma agrees_pure {A : Type} (r : Res Error A) (Q : A → _) (I : _ → Prop) s :
  match r with Ok a => Q a s | _ => I s end → agrees (lift r) (lift r) Q I s.
Proof. by unfold agrees, lift. Qed.

Lemma agrees_map_err {A : Type} (g : Error → Error) (ms : M SecuredPipeline Error A) mb Q I s :
  agrees ms mb Q I s → agrees (map_err g ms) (map_err g mb) Q I s.
Proof.
  unfold agrees, map_err. destruct (ms s) as [[a|e| ] s']; intros [Hb Hq]; rewrite Hb; done.
Qed.

Lemma agrees_foldM {A B : Type} (J : B → SecuredPipeline → Prop) (I : SecuredPipeline → Prop) fs fb (l : list A) b s :
  (∀ b x s, x ∈ l → J b s → agrees (fs b x) (fb b x) J I s) →
  J b s → agrees (foldM fs b l) (foldM fb b l) J I s.
Proof.
  revert b s. induction l as [|x l IH]; intros b s Hf Hj; [by apply (agrees_pure (Ok b))|].
  cbn [foldM]. apply agrees_bind. eapply agrees_mono; [apply Hf; [by left|done]| |done].
  intros b' s' Hj'. apply IH; [|done]. intros b1 y s1 Hy. apply Hf. by right.
Qed.

(** What the base pipeline does on its own. *)
Lemma agrees_base {A : Type} (m : M WritePipeline Error A) (Q : A → _) (I : _ → Prop) s :
  match m (sp_base s) with
  | (Ok a, p') => Q a (set_base p' s)
  | (_, p') => I (set_base p' s)
  end → agrees (on_base m) m Q I s.
Proof. unfold agrees, on_base, zoom. by destruct (m (sp_base s)) as [[a|e| ] p']. Qed.

Lemma exact_audit event s : exact s → exact (snd (audit_event event s)).
Proof.
  intros [] . unfold audit_event. destruct (audit_log s) as [[o a]|]; [|by split].
  by destruct (audit_clock s 0) as [t r].
Qed.

Lemma agrees_audit {B : Type} event (ks : M SecuredPipeline Error B) kb Q I s :
  exact s → (∀ s', exact s' → sp_base s' = sp_base s → agrees ks kb Q I s') →
  agrees (audit_event event ;;; ks) kb Q I s.
Proof.
  intros Hs Hk. assert (sp_base (snd (audit_event event s)) = sp_base s) as Hb.
  { unfold audit_event. destruct (audit_log s) as [[o a]|]; [|done]. by destruct (audit_clock s 0). }
  specialize (Hk _ (exact_audit event s Hs) Hb).
  unfold agrees, bind in *. assert (audit_event event s = (Ok tt, snd (audit_event event s))) as ->.
  { unfold audit_event. destruct (audit_log s) as [[o a]|]; [|done]. by destruct (audit_clock s 0). }
  rewrite Hb in Hk. exact Hk.
Qed.

(** *** Calls that leave the content store and the policies *)
Definition tables_kept p p' : Prop :=
  content_store (rg p') = content_store (rg p) ∧
  ∀ c cap', capsules (rg p') !! c = Some cap' →
    ∃ cap, capsules (rg p) !! c = Some cap ∧ cap_policy cap' = cap_policy cap.

#[local] Instance tables_kept_preorder : PreOrder tables_kept.
Proof.
  split.
  - intros p. split; [done|]. intros c cap Hc. by exists cap.
  - intros p q r [Hs1 Hc1] [Hs2 Hc2]. split; [congruence|]. intros c cap Hc.
    destruct (Hc2 c cap Hc) as (cap1 & Hcap & ->). by apply Hc1.
Qed.

Lemma tables_rg p p' : rg p' = rg p → tables_kept p p'.
Proof. intros Hr. split; rewrite Hr; [done|]. intros c cap Hc. by exists cap. Qed.

Definition keeps_tables {A : Type} (m : M WritePipeline Error A) : Prop :=
  ∀ p, tables_kept p (snd (m p)).

Lemma keeps_tables_bind {A B : Type} (m : M WritePipeline Error A) (k : A → M WritePipeline Error B) :
  keeps_tables m → (∀ a, keeps_tables (k a)) → keeps_tables (bind m k).
Proof.
  intros Hm Hk p. specialize (Hm p). unfold bind. destruct (m p) as [[a|e| ] q]; cbn [snd] in *; [|done..].
  trans q; [done|]. apply Hk.
Qed.

Lemma keeps_tables_map_err {E A : Type} (g : E → Error) (m : M WritePipeline E A) :
  (∀ p, tables_kept p (snd (m p))) → keeps_tables (map_err g m).
Proof. intros Hm p. specialize (Hm p). unfold map_err. by destruct (m p) as [r q]. Qed.

Lemma keeps_nv {A : Type} (m : M NvramLog Error A) : keeps_tables (nv m).
Proof.
  intros p. apply tables_rg. unfold nv, on_store, on_nvram, zoom. by destruct (m (nvram (store p))).
Qed.

Lemma keeps_reg {A : Type} (m : M CapsuleRegistry Error A) :
  (∀ r, state_of (snd (m r)) = state_of r ∨ snd (m r) = set_next_segment_id (next_segment_id (snd (m r))) r) →
  keeps_tables (reg m).
Proof.
  intros Hm p. specialize (Hm (rg p)). unfold reg, on_store, on_registry, zoom. fold (rg p).
  destruct (m (rg p)) as [x r']. cbn [snd] in *. unfold tables_kept, rg at 1 3. cbn [store registry].
  destruct Hm as [(Hc & _ & Hs)%state_of_eq| ->].
  - rewrite Hc, Hs. split; [done|]. intros c cap ?. by exists cap.
  - split; [done|]. intros c cap ?. by exists cap.
Qed.

Lemma keeps_pure {A : Type} (r : Res Error A) : keeps_tables (lift r).
Proof. by intros p. Qed.

Lemma keeps_km {A : Type} (m : M KeyManager EncryptionError A) : keeps_tables (on_km m).
Proof.
  intros p. apply tables_rg. unfold on_km. destruct (key_manager p); [|done]. by destruct (m k) as [r k'].
Qed.

Lemma exact_kept s p : exact s → tables_kept (sp_base s) p → exact (set_base p s).
Proof.
  intros [Hf Hu Hml Hp] [Hs Hc]. split; cbn [sp_base set_base SecuredPipeline.bloom_filter mlkem_manager]; rewrite ?Hs; [done..|].
  destruct Hp as [?|Hp]; [by left|right]. intros c cap (cap0 & Hc0 & ->)%Hc. by eapply Hp.
Qed.

(** A base call that keeps the tables agrees with itself. *)
Lemma agrees_keeps {A : Type} (m : M WritePipeline Error A) s :
  keeps_tables m → exact s → agrees (on_base m) m (λ _, exact) exact s.
Proof.
  intros Hm Hs. apply agrees_base. specialize (Hm (sp_base s)).
  destruct (m (sp_base s)) as [[a|e| ] p']; by apply exact_kept.
Qed.

(** *** The registry *)
Lemma agrees_lookup h s :
  exact s →
  agrees (lookup_content h) (reg (Registry.lookup_content h))
    (λ o s', s' = s ∧ o = content_store (rg (sp_base s)) !! h) exact s.
Proof.
  intros Hs. unfold lookup_content, agrees. cbv [bind gets].
  assert (set_base (sp_base s) s = s) as Hid by by destruct s.
  assert (reg (Registry.lookup_content h) (sp_base s) = (Ok (content_store (rg (sp_base s)) !! h), sp_base s)) as Hl.
  { unfold reg, on_store, on_registry, zoom, Registry.lookup_content, gets. by destruct (sp_base s) as [[r l] k]. }
  destruct (SecuredPipeline.bloom_filter s) as [f|] eqn:Hf.
  - destruct (might_contain h f) eqn:Hm; [unfold on_base, zoom; by rewrite Hl, Hid|].
    rewrite Hl. cbv [ret]. destruct (ex_filter s Hs f Hf) as [Hmir _].
    by rewrite (mirrors_lookup f _ h Hmir Hm).
  - unfold on_base, zoom. by rewrite Hl, Hid.
Qed.

(** [reg] distributes over [bind]. *)
Lemma reg_bind {A B : Type} (m : M CapsuleRegistry Error A) (k : A → M CapsuleRegistry Error B) p :
  reg (bind m k) p = bind (reg m) (λ a, reg (k a)) p.
Proof.
  unfold reg, on_store, on_registry, zoom, bind. destruct (m (registry (store p))) as [[a|e| ] r]; done.
Qed.

Lemma agrees_reg_bind {A B C : Type} (ms : M SecuredPipeline Error C) (m : M CapsuleRegistry Error A)
    (k : A → M CapsuleRegistry Error B) (g : Res Error B → Res Error C) Q I s :
  agrees ms (λ p, let '(r, p') := bind (reg m) (λ a, reg (k a)) p in (g r, p')) Q I s →
  agrees ms (λ p, let '(r, p') := reg (bind m k) p in (g r, p')) Q I s.
Proof. unfold agrees. destruct (ms s) as [r s']. by rewrite reg_bind. Qed.

(** Changing the content store and telling the filter. *)
Lemma agrees_update {A : Type} (m : gmap ContentHash SegmentId) (bf : M CountingBloomFilter Error unit)
    (ks : M SecuredPipeline Error A) (kb : M CapsuleRegistry Error A) Q I s :
  exact s → (∀ h id, m !! h = Some id → h ∈ U) →
  (∀ f, SecuredPipeline.bloom_filter s = Some f →
     ∃ f', bf f = (Ok tt, f') ∧ mirrors f' m ∧ roomy f' U) →
  (∀ s', exact s' → agrees ks (reg kb) Q I s') →
  agrees (on_base (reg (modify (λ r, set_content_store m r))) ;;; on_bloom bf ;;; ks)
    (reg (modify (λ r, set_content_store m r) ;;; kb)) Q I s.
Proof.
  intros Hs Hm Hbf Hk. set (p1 := set_rg (set_content_store m (rg (sp_base s))) (sp_base s)).
  assert (∃ s1, (on_base (reg (modify (λ r, set_content_store m r))) ;;; on_bloom bf ;;; ks) s = ks s1 ∧
    sp_base s1 = p1 ∧ exact s1) as (s1 & Hrun & Hb1 & Hs1).
  { unfold bind, on_base, zoom, on_bloom, reg, on_store, on_registry, zoom, modify. fold p1.
    destruct Hs as [Hf Hu Hml Hp]. cbn [SecuredPipeline.bloom_filter set_base].
    destruct (SecuredPipeline.bloom_filter s) as [f|] eqn:Hfs.
    - destruct (Hbf f eq_refl) as (f' & Hrun & Hmir & Hroom). rewrite Hrun.
      eexists. split; [reflexivity|]. split; [done|]. split; [|done|done|done].
      intros f1 [= <-]. by split.
    - eexists. split; [reflexivity|]. split; [done|]. split; [|done|done|done].
      intros f1. cbn. by rewrite Hfs. }
  specialize (Hk s1 Hs1). unfold agrees in *. rewrite Hrun, reg_bind.
  assert (bind (reg (modify (λ r, set_content_store m r))) (λ _, reg kb) (sp_base s) = reg kb (sp_base s1)) as ->;
    [|done].
  rewrite Hb1. done.
Qed.

Lemma agrees_save s : exact s → agrees (on_base (reg save)) (reg save) (λ _, exact) exact s.
Proof.
  intros Hs. apply agrees_keeps; [|done]. apply keeps_reg. intros r. left.
  destruct (save r) as [x r'] eqn:Hsv. by apply save_frame in Hsv as (? & _).
Qed.

Lemma agrees_register h id s :
  exact s → h ∈ U → content_store (rg (sp_base s)) !! h = None →
  agrees (register_content h id) (reg (Registry.register_content h id)) (λ _, exact) exact s.
Proof.
  intros Hs HhU Hn. unfold register_content, Registry.register_content.
  pose proof (agrees_update (<[h := id]> (content_store (rg (sp_base s)))) (record_insertion h)
    (on_base (reg save)) save (λ _, exact) exact s Hs) as Ha.
  apply Ha.
  - intros h' id' [[<- _]|[_ ?]]%lookup_insert_Some; [done|]. by eapply (ex_store s Hs).
  - intros f Hf. destruct (ex_filter s Hs f Hf) as [Hm Hr].
    eapply mirrors_insert; [done..|apply (ex_store s Hs)|done].
  - apply agrees_save.
Qed.

Lemma agrees_deregister h id s :
  exact s → agrees (deregister_content h id) (reg (Registry.deregister_content h id)) (λ _, exact) exact s.
Proof.
  intros Hs. set (cur := content_store (rg (sp_base s)) !! h).
  assert (set_base (sp_base s) s = s) as Hid by by destruct s.
  assert (∀ b : bool, agrees (if b then on_base (reg (modify (λ r : CapsuleRegistry, set_content_store (delete h (content_store r)) r))) ;;;
      on_bloom (record_removal h) ;;; on_base (reg save) ;;; ret true else ret false)
    (reg (if b then modify (λ r : CapsuleRegistry, set_content_store (delete h (content_store r)) r) ;;; save ;;; ret true
          else ret false)) (λ _, exact) exact s → b = bool_decide (cur = Some id) →
    agrees (deregister_content h id) (reg (Registry.deregister_content h id)) (λ _, exact) exact s) as Hcase.
  { intros b Ha ->. unfold agrees, deregister_content, Registry.deregister_content in *.
    rewrite reg_bind. unfold bind at 1, on_base at 1, zoom at 1.
    assert (reg (gets (λ r, content_store r !! h)) (sp_base s) = (Ok cur, sp_base s)) as Hg.
    { unfold reg, on_store, on_registry, zoom, gets. by destruct (sp_base s) as [[r l] k]. }
    rewrite Hg, Hid. destruct (_ s) as [r s'] in Ha |- *. destruct Ha as [Ha Hr]. split; [|done].
    unfold bind at 1. rewrite Hg. exact Ha. }
  apply (Hcase (bool_decide (cur = Some id))); [|done]. case_bool_decide as Hd.
  - pose proof (agrees_update (delete h (content_store (rg (sp_base s)))) (record_removal h)
      (on_base (reg save) ;;; ret true) (save ;;; ret true) (λ _, exact) exact s Hs) as Ha. apply Ha.
    + intros h' id' [_ Hh']%lookup_delete_Some. by eapply (ex_store s Hs).
    + intros f Hf. destruct (ex_filter s Hs f Hf) as [Hm Hr]. by eapply mirrors_delete.
    + intros s1 Hs1. unfold agrees. rewrite reg_bind. apply agrees_bind.
      eapply agrees_mono; [by apply agrees_save| |done]. intros u s2 Hs2. unfold agrees, ret, reg, on_store, on_registry, zoom.
      split; [|done]. by destruct (sp_base s2) as [[r l] k].
  - unfold agrees, ret, reg, on_store, on_registry, zoom. split; [|done]. by destruct (sp_base s) as [[r l] k].
Qed.

(** *** Writing *)
Lemma agrees_increment id s :
  exact s →
  agrees (increment_refcount id) (map_err (map_nvram_error "increment_refcount") (nv (Nvram.increment_refcount id)))
    (λ _, exact) exact s.
Proof.
  intros Hs. unfold agrees, increment_refcount, bind.
  pose proof (agrees_keeps (map_err (map_nvram_error "increment_refcount") (nv (Nvram.increment_refcount id))) s
    (keeps_tables_map_err _ _ (keeps_nv _)) Hs) as Ha. unfold agrees in Ha.
  destruct (on_base _ s) as [[x|e| ] s1]; [|done..]. destruct Ha as [Ha Hs1].
  pose proof (agrees_audit (SegmentAppended (seg_id x) (seg_len x) (seg_content_hash x) (seg_encrypted x))
    (ret x) (ret x) (λ _, exact) exact s1 Hs1) as Hau. unfold agrees, bind in Hau.
  destruct (audit_event _ s1) as [[u|e| ] s2].
  - destruct Hau as [Hau ?]; [by intros s' ? ?|]. unfold ret in *. split; [|done]. rewrite Ha. congruence.
  - destruct Hau as [Hau _]; [by intros s' ? ?|]. done.
  - destruct Hau as [Hau _]; [by intros s' ? ?|]. done.
Qed.

(** The policy asks for no hybrid keys, or there is nobody to derive them. *)
Definition plain (policy : Policy) : Prop := crypto_profile policy = Classical ∨ ml = None.

Lemma plain_state policy s coins kp c i h :
  plain policy → exact s → hybrid_state policy (mlkem_manager s) coins kp c i h = None.
Proof.
  unfold hybrid_state. intros Hp ->%ex_manager. destruct Hp as [->| ->]; [done|]. by destruct (crypto_profile policy).
Qed.

Lemma agrees_encrypt policy c i coins h d s :
  exact s → plain policy →
  agrees_by fst (encrypt_chunk policy c i coins h d) (WritePipeline.encrypt_chunk h d)
    (λ cmm s', exact s' ∧ cmm.2 = None) exact s.
Proof.
  intros Hs Hp. unfold encrypt_chunk, WritePipeline.encrypt_chunk.
  apply (agrees_bind_by id fst). apply agrees_by_id. eapply agrees_mono; [by apply agrees_keeps, Hs; apply keeps_km| |done].
  intros [v kp] s1 Hs1. unfold agrees_by, bind, gets. cbn [id].
  rewrite (plain_state policy s1 coins kp c i h Hp Hs1). cbn [pair_for_use mixed_tweak]. unfold lift, ret.
  destruct (encrypt_segment _ _ _ _) as [[ct md]|e| ]; cbn [res_map_err]; [|done..].
  by destruct (compute_mac _ _ _ _) as [tag|e| ]; cbn [res_map_err].
Qed.

Lemma keeps_write_new data cr hash meta :
  keeps_tables (WritePipeline.write_new_segment data cr hash meta).
Proof.
  unfold WritePipeline.write_new_segment. apply keeps_tables_bind.
  { apply keeps_reg. intros r. right. done. }
  intros id. apply keeps_tables_bind; [apply keeps_tables_map_err, keeps_nv|]. intros x.
  apply keeps_tables_bind; [apply keeps_tables_map_err, keeps_nv|]. intros u. apply (keeps_pure (Ok id)).
Qed.

Lemma agrees_place policy c h final cr meta st s :
  exact s → h ∈ U →
  agrees (place_segment policy c h final cr meta None st)
    (WritePipeline.place_segment policy h final cr meta st) (λ _, exact) exact s.
Proof.
  intros Hs HhU. unfold place_segment, WritePipeline.place_segment.
  assert (∀ hash, write_new_segment final cr hash meta None = WritePipeline.write_new_segment final cr hash meta) as Hnew by done.
  destruct (dedupe policy).
  2:{ rewrite Hnew. apply agrees_bind. eapply agrees_mono; [by apply agrees_keeps, Hs; apply keeps_write_new| |done].
      intros id s1 Hs1. by apply (agrees_pure (Ok _)). }
  apply agrees_bind. eapply agrees_mono; [by apply agrees_lookup| |done].
  intros o s1 [-> Ho]. destruct o as [id|].
  - apply agrees_bind. eapply agrees_mono; [by apply agrees_increment| |done].
    intros x s2 Hs2.
    pose proof (agrees_audit (DedupHit id c h) (ret (id, Common.add_segment (seg_len x) true st))
      (ret (id, Common.add_segment (seg_len x) true st)) (λ _, exact) exact s2 Hs2) as Ha.
    apply Ha. intros s3 Hs3 _. by apply (agrees_pure (Ok _)).
  - rewrite Hnew. apply agrees_bind.
    assert (agrees (on_base (WritePipeline.write_new_segment final cr (Some h) meta))
      (WritePipeline.write_new_segment final cr (Some h) meta)
      (λ _ s', exact s' ∧ content_store (rg (sp_base s')) !! h = None) exact s) as Ha.
    { apply agrees_base. pose proof (keeps_write_new final cr (Some h) meta (sp_base s)) as Hk.
      destruct (WritePipeline.write_new_segment _ _ _ _ _) as [[id|e| ] p']; cbn [snd] in Hk; [|by apply exact_kept..].
      split; [by apply exact_kept|]. cbn [sp_base set_base]. by rewrite (proj1 Hk). }
    eapply agrees_mono; [exact Ha| |done]. intros id s2 [Hs2 Hn].
    apply agrees_bind, agrees_map_err. eapply agrees_mono; [by apply agrees_register| |done].
    intros u s3 Hs3. by apply (agrees_pure (Ok _)).
Qed.

(** The hashes of the chunks of [data] are among those the filter has room for. *)
Definition covers (policy : Policy) (data : bytes) : Prop :=
  ∀ chunk view r, chunk ∈ chunks SEGMENT_SIZE data →
    compress_segment chunk (compression policy) = Ok (view, r) → Dedup.hash_content (as_ref view) ∈ U.

Lemma agrees_chunk policy enc c coins acc chunk data s :
  covers policy data → chunk ∈ chunks SEGMENT_SIZE data → plain policy → exact s →
  agrees (write_chunk policy enc c coins acc chunk) (WritePipeline.write_chunk policy enc acc chunk)
    (λ _, exact) exact s.
Proof.
  intros Hcov Hin Hp Hs. destruct acc as [[i ids] st]. unfold write_chunk, WritePipeline.write_chunk.
  apply agrees_lift; [|done]. intros [view r] Hc.
  assert (compress_segment chunk (compression policy) = Ok (view, r)) as Hc'
    by by destruct (compress_segment chunk (compression policy)).
  specialize (Hcov chunk view r Hin Hc'). set (d := as_ref view) in *.
  apply agrees_by_id.
  apply (agrees_bind_by (λ x : bytes * option EncryptionMetadata * option HybridKeyMaterial, x.1) id).
  assert (∀ final meta s1, exact s1 →
    agrees_by id (let! (seg_id, dedup_stats) := place_segment policy c (Dedup.hash_content d) final r meta None st in
            ret (i + 1, ids ++ [seg_id], dedup_stats))
      (let! (seg_id, dedup_stats) := WritePipeline.place_segment policy (Dedup.hash_content d) final r meta st in
       ret (i + 1, ids ++ [seg_id], dedup_stats)) (λ _, exact) exact s1) as Hplace.
  { intros final meta s1 Hs1. apply agrees_by_id, agrees_bind. eapply agrees_mono; [by apply agrees_place| |done].
    intros [id st'] s2 Hs2. by apply (agrees_pure (Ok _)). }
  destruct enc; [|by split; [done|apply Hplace]].
  apply (agrees_bind_by fst). eapply agrees_by_mono; [by apply agrees_encrypt| |done].
  intros [[ct m] mat] s1 [Hs1 Hmat]. cbn [snd] in Hmat. subst mat. split; [done|]. by apply Hplace.
Qed.

Lemma agrees_write id now coins data policy s :
  covers policy data → plain policy → exact s →
  agrees (write_capsule_with_policy id now coins data policy)
    (WritePipeline.write_capsule_with_policy id now data policy) (λ _, exact) exact s.
Proof.
  intros Hcov Hp Hs. unfold write_capsule_with_policy, WritePipeline.write_capsule_with_policy.
  apply agrees_gets; [done|]. cbv zeta. set (enc := is_enabled _ && _).
  apply agrees_bind. eapply agrees_mono; [apply (agrees_foldM (λ _, exact) exact); [|done]| |done].
  { intros acc chunk s1 Hin Hs1. by apply (agrees_chunk policy enc id coins acc chunk data s1). }
  intros [[i ids] st] s1 Hs1. apply agrees_bind. eapply agrees_mono; [apply agrees_keeps; [|done]| |done].
  { case_if; [|apply (keeps_pure (Ok tt))]. apply keeps_tables_map_err. intros p.
    unfold reg, on_store, on_registry, zoom, add_deduped_bytes, modify. cbn [snd]. fold (rg p).
    unfold tables_kept, rg at 1 3. cbn [store registry].
    destruct (capsules (rg p) !! id) as [x|] eqn:Hx; [|by split; [|intros c cap ?; exists cap]].
    split; [done|]. unfold rg at 1; cbn [store registry capsules set_capsules]. intros c cap' [[<- <-]|[_ Hc]]%lookup_insert_Some; [by exists x|by exists cap']. }
  intros [] s2 Hs2. apply agrees_bind.
  assert (agrees (on_base (map_err (map_registry_error "create_capsule_with_segments")
      (reg (create_capsule_with_segments now id (lenZ data) ids policy))))
    (map_err (map_registry_error "create_capsule_with_segments")
      (reg (create_capsule_with_segments now id (lenZ data) ids policy))) (λ _, exact) exact s2) as Hcreate.
  { apply agrees_base. unfold map_err, reg, on_store, on_registry, zoom. fold (rg (sp_base s2)).
    pose proof (create_spec now id (lenZ data) ids policy (rg (sp_base s2))) as Hc.
    assert (∀ r' t, state_of r' = state_of (set_capsules (<[id := mkCapsule id (lenZ data) ids t policy 0]>
        (capsules (rg (sp_base s2)))) (rg (sp_base s2))) →
      exact (set_base (mkWritePipeline (mkStore r' (nvram (store (sp_base s2)))) (key_manager (sp_base s2))) s2)) as Hin.
    { intros r' t (Hcaps & _ & Hst)%state_of_eq. simpl in Hcaps, Hst. destruct Hs2 as [Hf Hu Hml Hpl].
      split; cbn [sp_base set_base SecuredPipeline.bloom_filter mlkem_manager]; unfold rg; cbn [store registry]; rewrite ?Hst; [done..|].
      destruct Hp as [Hp|?]; [|by left]. destruct Hpl as [?|Hpl]; [by left|right].
      intros c cap. rewrite Hcaps. intros [[<- <-]|[_ Hc']]%lookup_insert_Some; [done|by eapply Hpl]. }
    assert (∀ r', state_of r' = state_of (rg (sp_base s2)) →
      exact (set_base (mkWritePipeline (mkStore r' (nvram (store (sp_base s2)))) (key_manager (sp_base s2))) s2)) as Hsame.
    { intros r' (Hcaps & _ & Hst)%state_of_eq. apply exact_kept; [done|]. unfold tables_kept, rg at 1 3. cbn [store registry].
      rewrite Hcaps, Hst. split; [done|]. intros c cap ?. by exists cap. }
    destruct (create_capsule_with_segments _ _ _ _ _ _) as [[u|e| ] r']; [| |done].
    - destruct Hc as (t & _ & _ & _ & Hst). by eapply Hin.
    - destruct Hc as [Hst|(_ & t & Hst)]; [by apply Hsame|by eapply Hin]. }
  eapply agrees_mono; [exact Hcreate| |done]. intros [] s3 Hs3.
  pose proof (agrees_audit (CapsuleCreated id (lenZ data) (lenZ ids) policy) (ret id) (ret id) (λ _, exact) exact s3 Hs3) as Ha.
  apply Ha. intros s4 Hs4 _. by apply (agrees_pure (Ok _)).
Qed.

(** *** Reading *)
Lemma agrees_decrypt cap i sg raw s :
  plain (cap_policy cap) → exact s →
  agrees (decrypt_raw cap i sg raw) (WritePipeline.decrypt_raw sg raw) (λ _, exact) exact s.
Proof.
  intros Hp Hs. unfold decrypt_raw, WritePipeline.decrypt_raw.
  destruct (seg_encrypted sg); [|by apply (agrees_pure (Ok raw))].
  apply agrees_gets; [done|]. cbv beta. apply agrees_lift; [|done]. intros k _.
  apply agrees_lift; [|done]. intros v _. apply agrees_bind.
  eapply agrees_mono; [by apply agrees_keeps, Hs; apply keeps_km| |done]. intros kp s1 Hs1. cbv beta.
  assert (∀ mlk, mlk = ml → read_material cap i mlk kp sg = None) as Hmat.
  { intros mlk ->. unfold read_material. destruct Hp as [->| ->]; [done|]. by destruct (crypto_profile (cap_policy cap)). }
  unfold agrees, bind, gets. rewrite (Hmat _ (ex_manager s1 Hs1)). cbn [pair_for_use]. unfold lift.
  destruct (verify_mac _ _ _ _) as [u|e| ]; cbn [res_map_err]; [|done..].
  by destruct (decrypt_segment _ _ _) as [d|e| ]; cbn [res_map_err].
Qed.

Lemma agrees_read c s :
  exact s → agrees (read_capsule c) (WritePipeline.read_capsule c) (λ _, exact) exact s.
Proof.
  intros Hs. unfold read_capsule, WritePipeline.read_capsule. apply agrees_bind.
  assert (agrees (on_base (reg (lookup c))) (reg (lookup c)) (λ cap s', exact s' ∧ plain (cap_policy cap)) exact s) as Hl.
  { apply agrees_base. unfold reg, on_store, on_registry, zoom, lookup, bind, gets, lift. fold (rg (sp_base s)).
    assert (set_base (mkWritePipeline (mkStore (rg (sp_base s)) (nvram (store (sp_base s)))) (key_manager (sp_base s))) s = s)
      as -> by by destruct s as [[[r l] k] f a clk m].
    destruct (capsules (rg (sp_base s)) !! c) as [cap|] eqn:Hc; cbn [ok_or]; [|done].
    split; [done|]. destruct (ex_plain s Hs) as [?|Hp]; [by right|left; by eapply Hp]. }
  eapply agrees_mono; [exact Hl| |done]. intros cap s1 [Hs1 Hp]. apply agrees_by_id.
  assert (agrees_by snd (foldM (λ '(index, result) seg_id,
      let! data := read_segment cap index seg_id in ret (index + 1, result ++ data)) (0, []) (cap_segments cap))
    (foldM (λ result seg_id,
      let! data := WritePipeline.read_segment (compression (cap_policy cap)) seg_id in
      ret (result ++ data)) [] (cap_segments cap)) (λ _, exact) exact s1) as Hfold.
  { apply (agrees_by_foldM snd (λ _, exact) exact); [|done]. intros [i out] j s2 Hs2. cbn [snd].
    apply (agrees_bind_by id snd). apply agrees_by_id. unfold read_segment, WritePipeline.read_segment.
    apply agrees_bind. eapply agrees_mono; [by apply agrees_keeps, Hs2; apply keeps_nv| |done]. intros raw s3 Hs3.
    apply agrees_bind. eapply agrees_mono; [by apply agrees_keeps, Hs3; apply keeps_nv| |done]. intros sg s4 Hs4.
    apply agrees_bind. eapply agrees_mono; [by apply agrees_decrypt| |done]. intros d s5 Hs5.
    unfold agrees, lift. by destruct (decompress_for _ _). }
  unfold agrees_by, bind in *.
  destruct (foldM _ (0, []) (cap_segments cap) s1) as [[[i out]|e| ] s2]; destruct Hfold as [Hb Hs2];
    rewrite Hb; cbn [res_bind snd]; [|done..].
  pose proof (agrees_audit (CapsuleRead c (cap_size cap)) (ret out) (ret out) (λ _, exact) exact s2 Hs2) as Ha.
  unfold agrees, bind in Ha. destruct (audit_event _ s2) as [[u|e| ] s3];
    (destruct Ha as [Ha Hs3]; [by intros s' ? ?|]); [|done..].
  unfold ret in *. split; [|done]. cbn [id res_bind]. exact Ha.
Qed.

(** *** Deleting and collecting *)
Lemma agrees_drop {B : Type} id h (ks : option Segment → M SecuredPipeline Error B) kb Q s :
  exact s → (∀ o s', exact s' → agrees (ks o) (kb o) Q exact s') →
  agrees ((match h with Some hash => deregister_content hash id ;;; ret tt | None => ret tt end) ;;;
          bind (on_base (nv (remove_segment id))) ks)
    ((match h with Some hash => reg (Registry.deregister_content hash id) ;;; ret tt | None => ret tt end) ;;;
     bind (nv (remove_segment id)) kb) Q exact s.
Proof.
  intros Hs Hk. apply agrees_bind. eapply agrees_mono with (Q := λ _, exact) (I := exact); [| |done].
  - destruct h as [hash|]; [|by apply (agrees_pure (Ok tt))].
    apply agrees_bind. eapply agrees_mono; [by apply agrees_deregister| |done]. intros b s1 Hs1. by apply (agrees_pure (Ok tt)).
  - intros u s1 Hs1. apply agrees_bind. eapply agrees_mono; [by apply agrees_keeps, Hs1; apply keeps_nv|apply Hk|done].
Qed.

Lemma agrees_then_audit (ms : M SecuredPipeline Error unit) mb event s :
  agrees ms mb (λ _, exact) exact s → agrees (ms ;;; audit_event event) mb (λ _, exact) exact s.
Proof.
  unfold agrees, bind. destruct (ms s) as [[[]|e| ] s1]; intros [Hb Hs1]; [|done..].
  pose proof (exact_audit event s1 Hs1) as He.
  assert (sp_base (snd (audit_event event s1)) = sp_base s1 ∧ fst (audit_event event s1) = Ok tt) as [Hbase Hr].
  { unfold audit_event. destruct (audit_log s1) as [[o a]|]; [|done]. by destruct (audit_clock s1 0). }
  destruct (audit_event event s1) as [r s2]. cbn [fst snd] in *. subst r. by rewrite Hb, Hbase.
Qed.

Lemma agrees_delete id s :
  exact s → agrees (delete_capsule id) (WritePipeline.delete_capsule id) (λ _, exact) exact s.
Proof.
  intros Hs. unfold delete_capsule, WritePipeline.delete_capsule. apply agrees_bind.
  eapply agrees_mono with (Q := λ _, exact) (I := exact); [| |done].
  - apply agrees_base. unfold reg, on_store, on_registry, zoom. fold (rg (sp_base s)).
    pose proof (delete_spec id (rg (sp_base s))) as Hd.
    assert (∀ r', state_of r' = state_of (set_capsules (delete id (capsules (rg (sp_base s)))) (rg (sp_base s))) →
      exact (set_base (mkWritePipeline (mkStore r' (nvram (store (sp_base s)))) (key_manager (sp_base s))) s)) as Hk.
    { intros r' (Hcaps & _ & Hst)%state_of_eq. simpl in Hcaps, Hst. apply exact_kept; [done|].
      unfold tables_kept, rg at 1 3. cbn [store registry]. rewrite Hcaps, Hst. split; [done|].
      intros c cap [_ Hc]%lookup_delete_Some. by exists cap. }
    destruct (Registry.delete_capsule id (rg (sp_base s))) as [[cap|e| ] r']; [|by apply Hk|done].
    apply Hk. apply Hd.
  - intros cap s1 Hs1. apply agrees_then_audit. apply (agrees_foldM (λ _, exact) exact); [|done].
    intros [] j s2 _ Hs2. apply agrees_bind. eapply agrees_mono; [by apply agrees_keeps, Hs2; apply keeps_nv| |done].
    intros sg s3 Hs3. cbv beta. destruct (seg_ref_count sg =? 0); [|by apply (agrees_pure (Ok tt))].
    apply agrees_drop; [done|]. intros o s4 Hs4. by apply (agrees_pure (Ok tt)).
Qed.

(** [on_store] distributes over [bind] and loops. *)
Lemma on_store_bind {A B : Type} (m : M Store Error A) (k : A → M Store Error B) p :
  on_store (bind m k) p = bind (on_store m) (λ a, on_store (k a)) p.
Proof. unfold on_store, zoom, bind. by destruct (m (store p)) as [[a|e| ] st]. Qed.

Lemma on_store_foldM {A B : Type} (f : B → A → M Store Error B) l b p :
  on_store (foldM f b l) p = foldM (λ b x, on_store (f b x)) b l p.
Proof.
  revert b p. induction l as [|x l IH]; intros b p; cbn [foldM]; [by destruct p|].
  rewrite on_store_bind. unfold bind. destruct (on_store (f b x) p) as [[b'|e| ] q]; [apply IH|done..].
Qed.

Lemma agrees_eq {A : Type} (ms : M SecuredPipeline Error A) mb mb' Q I s :
  (∀ p, mb' p = mb p) → agrees ms mb Q I s → agrees ms mb' Q I s.
Proof. unfold agrees. destruct (ms s) as [r s']. intros Heq. by rewrite Heq. Qed.

Context `{HashOrder}.

Lemma agrees_reclaim sg s :
  exact s → agrees (reclaim_segment sg) (on_store (Gc.reclaim_segment sg)) (λ _, exact) exact s.
Proof.
  intros Hs. eapply agrees_eq;
    [|unfold reclaim_segment;
      apply (agrees_drop (seg_id sg) (seg_content_hash sg) _
        (λ removed, match removed with
                    | None => fail (MsgSegment "vanished during GC" (seg_id sg))
                    | Some _ => ret tt
                    end)); [done|]].
  - intros p. unfold Gc.reclaim_segment, reg, nv, on_store, on_registry, on_nvram, zoom, bind, ret, fail.
    destruct (seg_content_hash sg) as [h|].
    + destruct (Registry.deregister_content h (seg_id sg) (registry (store p))) as [[b|e| ] r']; [|done..].
      cbn [store registry nvram]. by destruct (remove_segment (seg_id sg) (nvram (store p))) as [[[x|]|e| ] l'].
    + by destruct (remove_segment (seg_id sg) (nvram (store p))) as [[[x|]|e| ] l'].
  - intros [x|] s1 Hs1; [by apply (agrees_pure (Ok tt))|]. by apply (agrees_pure (Err _)).
Qed.

Lemma agrees_collect s :
  exact s → agrees garbage_collect WritePipeline.garbage_collect (λ _, exact) exact s.
Proof.
  intros Hs. eapply agrees_eq with (mb := bind (nv list_segments) (λ segments, foldM (λ reclaimed segment,
    on_store (if seg_ref_count segment =? 0
              then Gc.reclaim_segment segment ;;; ret (reclaimed + 1)
              else ret reclaimed)) 0 segments)).
  { intros p. unfold WritePipeline.garbage_collect, sweep. rewrite on_store_bind. unfold bind at 1 3.
    change (on_store (on_nvram list_segments)) with (nv list_segments).
    destruct (nv list_segments p) as [[l|e| ] q]; [|done..]. apply on_store_foldM. }
  apply agrees_bind. eapply agrees_mono; [by apply agrees_keeps, Hs; apply keeps_nv| |done]. intros l s1 Hs1.
  apply (agrees_foldM (λ _, exact) exact); [|done]. intros n sg s2 _ Hs2.
  destruct (seg_ref_count sg =? 0).
  - eapply agrees_eq; [intros p; apply on_store_bind|]. apply agrees_bind.
    eapply agrees_mono; [by apply agrees_reclaim| |done]. intros u s3 Hs3.
    unfold agrees, ret, on_store, zoom. split; [|done]. by destruct (sp_base s3).
  - unfold agrees, ret, on_store, zoom. split; [|done]. by destruct (sp_base s2).
Qed.

Lemma agrees_reconcile s :
  exact s → agrees reconcile_refcounts WritePipeline.reconcile_refcounts (λ _, exact) exact s.
Proof.
  intros Hs. unfold reconcile_refcounts, WritePipeline.reconcile_refcounts.
  apply agrees_gets; [done|]. apply agrees_bind. eapply agrees_mono; [by apply agrees_keeps, Hs; apply keeps_nv| |done].
  intros l s1 Hs1. apply agrees_bind. eapply agrees_mono; [apply (agrees_foldM (λ _, exact) exact); [|done]| |done].
  - intros [] sg s2 _ Hs2. cbv zeta. case_if; [|by apply (agrees_pure (Ok tt))].
    apply agrees_keeps; [apply keeps_nv|done].
  - intros [] s2 Hs2. change (on_store sweep) with (WritePipeline.garbage_collect).
    apply agrees_bind. eapply agrees_mono; [by apply agrees_collect| |done]. intros n s3 Hs3. by apply (agrees_pure (Ok tt)).
Qed.
End agreement.

(** ** The property *)
Section equivalence.
Context {JR : JsonDoc RegistryState} {JN : JsonDoc SegmentMap} `{Crates} `{AuditJson} `{MlKem} `{HashOrder}.

(** What a client asks for, and the answers; the id, the clock and the coins are those the
    call draws. *)
Inductive command :=
| CmdWrite (id : CapsuleId) (now : option Z) (coins : Z → bytes) (data : bytes) (policy : Policy)
| CmdRead (id : CapsuleId)
| CmdDelete (id : CapsuleId)
| CmdCollect
| CmdReconcile.

Inductive answer :=
| AnsWrite (r : Res Error CapsuleId)
| AnsRead (r : Res Error bytes)
| AnsDone (r : Res Error unit)
| AnsCollect (r : Res Error Z).

Definition answering {S A : Type} (f : Res Error A → answer) (m : M S Error A) (s : S) : answer * S :=
  let '(r, s') := m s in (f r, s').

Definition run_secured (cmd : command) : SecuredPipeline → answer * SecuredPipeline :=
  match cmd with
  | CmdWrite id now coins data policy => answering AnsWrite (write_capsule_with_policy id now coins data policy)
  | CmdRead id => answering AnsRead (read_capsule id)
  | CmdDelete id => answering AnsDone (delete_capsule id)
  | CmdCollect => answering AnsCollect garbage_collect
  | CmdReconcile => answering AnsDone reconcile_refcounts
  end.

Definition run_default (cmd : command) : WritePipeline → answer * WritePipeline :=
  match cmd with
  | CmdWrite id now _ data policy => answering AnsWrite (WritePipeline.write_capsule_with_policy id now data policy)
  | CmdRead id => answering AnsRead (WritePipeline.read_capsule id)
  | CmdDelete id => answering AnsDone (WritePipeline.delete_capsule id)
  | CmdCollect => answering AnsCollect WritePipeline.garbage_collect
  | CmdReconcile => answering AnsDone WritePipeline.reconcile_refcounts
  end.

Fixpoint run_all {S : Type} (run : command → S → answer * S) (cmds : list command) (s : S) : list answer * S :=
  match cmds with
  | [] => ([], s)
  | cmd :: cmds =>
      let '(a, s) := run cmd s in
      let '(l, s) := run_all run cmds s in
      (a :: l, s)
  end.

(** A write under a policy that gets no hybrid keys, of content the filter has room for. *)
Definition ordinary (U : list ContentHash) (ml : option MlkemKeyMaterialState) (cmd : command) : Prop :=
  match cmd with
  | CmdWrite _ _ _ data policy => plain ml policy ∧ covers U policy data
  | _ => True
  end.

Lemma run_one_agrees U ml cmd s :
  ordinary U ml cmd → exact U ml s →
  let '(a, s') := run_secured cmd s in run_default cmd (sp_base s) = (a, sp_base s') ∧ exact U ml s'.
Proof.
  intros Ho Hs.
  assert (∀ A (f : Res Error A → answer) ms mb, agrees ms mb (λ _, exact U ml) (exact U ml) s →
    let '(a, s') := answering f ms s in answering f mb (sp_base s) = (a, sp_base s') ∧ exact U ml s') as Hgen.
  { intros A f ms mb. unfold agrees, answering. destruct (ms s) as [r s']. intros [-> Hr]. by destruct r. }
  destruct cmd as [id now coins data policy|id|id| |]; cbn [run_secured run_default]; apply Hgen.
  - destruct Ho. by apply agrees_write.
  - by apply agrees_read.
  - by apply agrees_delete.
  - by apply agrees_collect.
  - by apply agrees_reconcile.
Qed.

(** C3: the security features change nothing for ordinary capsules.  As long as the Bloom
    filter has room for the hashes in play and no policy gets hybrid keys, any sequence of
    writes, reads, deletions, collections and reconciliations, each of which may fail at any
    I/O call, gives in the build with the filter and the audit log the answers of the default
    build, and leaves the same registry, log and keys, whatever the audit log does. *)
Theorem secured_build_agrees U ml cmds s :
  Forall (ordinary U ml) cmds → exact U ml s →
  let '(answers, s') := run_all run_secured cmds s in
  run_all run_default cmds (sp_base s) = (answers, sp_base s') ∧ exact U ml s'.
Proof.
  intros Hc. revert s. induction Hc as [|cmd cmds Ho Hc IH]; intros s Hs; [done|]. cbn [run_all].
  pose proof (run_one_agrees U ml cmd s Ho Hs) as Ha. destruct (run_secured cmd s) as [a s1]. destruct Ha as [-> Hs1].
  specialize (IH s1 Hs1). destruct (run_all run_secured cmds s1) as [l s2]. by destruct IH as [-> ?].
Qed.
End equivalence.

(** ** Witness and counterexamples on the toy crates *)
Section secured_witnesses.
#[local] Existing Instance toy_crates.
#[local] Existing Instance toy_audit_json.
#[local] Existing Instance toy_mlkem.
#[local] Existing Instance listed_order.
#[local] Existing Instance toy_state_doc.
#[local] Existing Instance toy_map_doc.

(** A filter of 1024 counters, an audit log whose second write fails, no key manager. *)
Definition secured_store (nfs : faults) : SecuredPipeline :=
  mkSecuredPipeline (empty_pipeline None nfs) (Some small_filter) (Some (no_rotation, new_log [None; Some 3]))
    (λ n, (Z.of_nat n, refusal)) None.

Definition frame_hashes : list ContentHash := [Dedup.hash_content frame].

(** Two writes of the same text, the second of which meets a failure, and what follows. *)
Definition session : list command :=
  [CmdWrite cap_a (Some 1) (λ _, []) text Policy_default;
   CmdWrite cap_b (Some 2) (λ _, []) text Policy_default;
   CmdRead cap_a; CmdDelete cap_a; CmdReconcile; CmdCollect; CmdRead cap_a].

Lemma frame_covers : covers frame_hashes Policy_default text.
Proof.
  intros chunk view r Hc Hcomp. destruct (text_chunks_ok chunk Hc view r Hcomp) as [-> _].
  apply list_elem_of_here.
Qed.

Lemma small_filter_roomy : roomy small_filter frame_hashes.
Proof. intros n. etrans; [apply countZ_le_length|]. vm_compute. discriminate. Qed.

Lemma secured_store_exact nfs : exact frame_hashes None (secured_store nfs).
Proof.
  split; [|done|done|by left].
  intros f [= <-]. split; [apply counts_new|apply small_filter_roomy].
Qed.

Definition answered (a : answer) : bool :=
  match a with
  | AnsWrite r => is_ok r
  | AnsRead r => is_ok r
  | AnsDone r => is_ok r
  | AnsCollect r => is_ok r
  end.

Definition session_store : SecuredPipeline := secured_store (replicate 5 None ++ [Some 1]).
Definition session_end : SecuredPipeline := (run_all run_secured session session_store).2.

Lemma secured_build_agrees_witness :
  let '(answers, s') := run_all run_secured session session_store in
  run_all run_default session (sp_base session_store) = (answers, sp_base s') ∧ exact frame_hashes None s'.
Proof.
  apply (secured_build_agrees frame_hashes None session session_store).
  - assert (plain None Policy_default ∧ covers frame_hashes Policy_default text) as Hp.
    { split; [by left|exact frame_covers]. }
    by repeat (apply Forall_cons; split; [done|]).
  - apply secured_store_exact.
Defined.

Example session_answers :
  answered <$> (run_all run_secured session session_store).1 = [true; false; true; true; true; true; false].
Proof. vm_compute. reflexivity. Qed.
End secured_witnesses.
