(* ===== verification/HybridTheorems.v ===== *)
(** The hybrid keys in the pipeline: a chunk opens at its place, from any later start of the
    store, and the keys of different places come from different inputs; what happens to a
    chunk that is read at another place. *)
From S2P Require Import Prelude Errors Common Externals.
From S2P Require Nvram Compression KeyManager Encryption Dedup Registry Gc WritePipeline.
From S2P Require PipelineInvariant PipelineTheorems AuditLog Bloom Hybrid SecuredPipeline.
Import Nvram Compression KeyManager Encryption Registry Gc WritePipeline PipelineInvariant PipelineTheorems.
Import AuditLog Bloom Hybrid SecuredPipeline.

Section hybrid_chunk.
Context {JR : JsonDoc RegistryState} {JN : JsonDoc SegmentMap} {JK : JsonDoc StoredMlkemKey}.
Context `{Crates} `{!HexLaws} `{!XtsLaws} `{AuditJson} `{MlKem} `{!MlKemLaws}.

(** The key manager answers the key of the version, from any manager with the same master
    key. *)
Lemma secured_get_key s km v m0 :
  key_manager (sp_base s) = Some km → cache_coherent km →
  master_key km = master_key m0 → hkdf_salt km = hkdf_salt m0 →
  ∃ km', on_base (on_km (get_key v)) s =
    (res_map_err OfEncryption (derive_key m0 v), set_base (mkWritePipeline (store (sp_base s)) (Some km')) s).
Proof.
  intros Hk Hco Hm Hs. pose proof (get_key_eq km v Hco) as Hg. rewrite (derive_key_ext km m0 v) in Hg by done.
  unfold on_base, zoom, on_km. rewrite Hk. destruct (get_key v km) as [r km']. destruct Hg as [-> _].
  by exists km'.
Qed.

Lemma secured_current_key s km :
  key_manager (sp_base s) = Some km → cache_coherent km →
  ∃ km', on_base (on_km (let! v := gets current_version in let! kp := get_key v in ret (v, kp))) s =
    (res_map_err OfEncryption (let? kp := derive_key km (current_version km) in Ok (current_version km, kp)),
     set_base (mkWritePipeline (store (sp_base s)) (Some km')) s).
Proof.
  intros Hk Hco. pose proof (get_key_eq km (current_version km) Hco) as Hg.
  unfold on_base, zoom, on_km. rewrite Hk. cbv [bind gets ret].
  destruct (get_key (current_version km) km) as [r km']. destruct Hg as [-> _]. exists km'.
  by destruct (derive_key km (current_version km)).
Qed.

(** C24: a hybrid chunk opens at its place.  The key pair generated at the first start is the
    one every later start reads back; a chunk that was encrypted with the keys derived from a
    fresh shared secret opens, when its segment is read at the same index of the same capsule,
    in any later state whose managers were started from the same key file and master key, to
    exactly the compressed bytes, and the record carries the ciphertext it needs. *)
Theorem hybrid_chunk_opens fs kcoins m file fs' kcoins' m' file' policy c i coins h d s km ct meta mat s1
    cr seg0 cap s2 km2 :
  load_or_generate fs kcoins None = (Ok m, file) →
  load_or_generate fs' kcoins' file = (Ok m', file') →
  crypto_profile policy = HybridKyber → cap_policy cap = policy → cap_id cap = c →
  mlkem_manager s = Some m → key_manager (sp_base s) = Some km → cache_coherent km →
  mlkem_manager s2 = Some m' → key_manager (sp_base s2) = Some km2 → cache_coherent km2 →
  master_key km2 = master_key km → hkdf_salt km2 = hkdf_salt km →
  lenZ d < 2 ^ 32 →
  encrypt_chunk policy c i coins h d s = (Ok (ct, meta, mat), s1) →
  let seg := set_pq mat (describe_segment cr (Some h) (Some meta) seg0) in
  is_Some (seg_pq_ciphertext seg) ∧ lenZ ct = lenZ d ∧ fst (decrypt_raw cap i seg ct s2) = Ok d.
Proof.
  intros Hgen Hload Hpol Hcpol Hcid Hml Hkm Hco Hml2 Hkm2 Hco2 Hmk Hsalt Hlen Henc seg.
  destruct (load_or_generate_fresh _ _ _ _ Hgen) as [Hg ->].
  apply load_or_generate_again in Hload as ->; [|done].
  destruct (secured_current_key s km Hkm Hco) as [km' Hcur].
  unfold encrypt_chunk in Henc. unfold bind at 1 in Henc. rewrite Hcur in Henc.
  destruct (derive_key km (current_version km)) as [kp|e| ] eqn:Hkp; [|done..].
  cbn [res_bind res_map_err] in Henc. unfold bind, gets, lift in Henc. cbn [mlkem_manager set_base] in Henc.
  rewrite Hml in Henc. unfold hybrid_state in Henc. rewrite Hpol in Henc.
  destruct (wrap_xts_key m coins HybridKyber (collect_base_material kp) c (mkSegmentId i) h) as [hm|] eqn:Hw;
    [|unfold wrap_xts_key in Hw; by destruct (encapsulate (ml_public m) coins)].
  cbn [pair_for_use mixed_tweak] in Henc.
  set (kp2 := XtsKeyPair_from_bytes (wrapped_key hm)) in *.
  destruct (encrypt_segment d kp2 _ _) as [[ct' md]|e| ] eqn:He; [|done..]. cbn [res_map_err] in Henc.
  destruct (compute_mac ct' md (key1 kp2) (key2 kp2)) as [tag|e| ] eqn:Ht; [|done..].
  cbn [res_map_err] in Henc. unfold ret in Henc. simplify_eq.
  destruct (sealed_record d kp2 _ _ _ md tag cr (Some h) seg0 He Ht Hlen) as (Hl & Hse & Hsv & Hmd & Hvm & Hdec).
  split; [by eexists|]. split; [done|].
  fold (describe_segment cr (Some h) (Some (set_integrity_tag tag md)) seg0) in *.
  destruct (secured_get_key s2 km2 (current_version km) km Hkm2 Hco2 Hmk Hsalt) as [km2' Hget].
  set (base := describe_segment cr (Some h) (Some (set_integrity_tag tag md)) seg0) in *.
  assert (read_material cap i (Some m) kp seg = Some hm) as Hmat.
  { unfold read_material. rewrite Hpol. unfold seg. cbn [set_pq seg_pq_ciphertext seg_content_hash].
    change (seg_content_hash base) with (Some h).
    cbv iota. by rewrite (unwrap_wrap_eq _ _ _ _ _ _ _ Hg Hw). }
  unfold decrypt_raw. change (seg_encrypted seg) with (seg_encrypted base). rewrite Hse.
  unfold bind at 1, gets. rewrite Hkm2. unfold bind at 1, lift. cbn [ok_or].
  change (seg_key_version seg) with (seg_key_version base). rewrite Hsv. cbn [ok_or].
  unfold bind at 1. cbv beta iota. unfold bind at 1. rewrite Hget, Hkp. cbn [res_map_err].
  unfold bind at 1, gets. cbn [mlkem_manager set_base]. rewrite Hml2, Hmat. cbn [pair_for_use].
  fold kp2. cbv zeta. rewrite <- Hsv. change (seg_key_version base) with (seg_key_version seg).
  change (mkEncryptionMetadata (seg_encryption_version seg) (seg_key_version seg) (seg_tweak_nonce seg)
    (seg_integrity_tag seg) (Some (wrap 32 (lenZ ct)))) with (stored_metadata base ct).
  rewrite Hmd. unfold bind. by rewrite Hvm, Hdec.
Qed.
(** What a chunk's keys depend on. *)
Lemma material_input_inj b c i h sh ct b' c' i' h' sh' ct' :
  lenZ b' = lenZ b → lenZ sh' = lenZ sh → lenZ (as_uuid c') = lenZ (as_uuid c) → lenZ ct' = lenZ ct →
  0 ≤ i ≤ U64_MAX → 0 ≤ i' ≤ U64_MAX →
  material_input b c (mkSegmentId i) h sh ct = material_input b' c' (mkSegmentId i') h' sh' ct' →
  b' = b ∧ c' = c ∧ i' = i ∧ h' = h ∧ sh' = sh ∧ ct' = ct.
Proof.
  unfold material_input, lenZ. intros Hb Hs Hc Ht Hi Hi' Heq.
  apply app_inj_1 in Heq as [-> Heq]; [|lia]. apply app_inj_1 in Heq as [-> Heq]; [|lia].
  apply app_inj_1 in Heq as [Hu Heq]; [|lia].
  apply app_inj_1 in Heq as [Hid Heq]; [|by rewrite !length_to_le_bytes].
  apply app_inj_2 in Heq as [Hh ->]; [|lia].
  cbn [seg_u64] in Hid.
  apply to_le_bytes_inj in Hid; [|change (256 ^ Z.of_nat 8) with (U64_MAX + 1); lia..]. apply (inj string_bytes) in Hh.
  destruct c, c', h, h'. simpl in *. by subst.
Qed.

(** C25: the keys of a hybrid chunk are bound to its place.  Two chunks get the same keys and
    nonce only if everything they were derived from is the same: the classical key pair, the
    capsule, the index of the chunk in it, the content hash, the shared secret and the
    ciphertext; otherwise two different inputs of blake3 have the same extended output. *)
Theorem hybrid_keys_are_bound m1 coins1 b1 c1 i1 h1 mat1 m2 coins2 b2 c2 i2 h2 mat2 :
  generated m1 → generated m2 →
  wrap_xts_key m1 coins1 HybridKyber b1 c1 (mkSegmentId i1) h1 = Some mat1 →
  wrap_xts_key m2 coins2 HybridKyber b2 c2 (mkSegmentId i2) h2 = Some mat2 →
  lenZ b2 = lenZ b1 → lenZ (as_uuid c2) = lenZ (as_uuid c1) → 0 ≤ i1 ≤ U64_MAX → 0 ≤ i2 ≤ U64_MAX →
  wrapped_key mat1 = wrapped_key mat2 → nonce mat1 = nonce mat2 →
  (b1 = b2 ∧ c1 = c2 ∧ i1 = i2 ∧ h1 = h2 ∧ hm_ciphertext mat1 = hm_ciphertext mat2) ∨
  ∃ x y, x ≠ y ∧ blake3_xof x 80 = blake3_xof y 80.
Proof.
  intros [k1 Hg1] [k2 Hg2] Hw1 Hw2 Hb Hc Hi1 Hi2 Hk Hn. unfold wrap_xts_key in Hw1, Hw2.
  pose proof (decapsulate_encapsulate k1 coins1) as Hd1. rewrite Hg1 in Hd1.
  pose proof (decapsulate_encapsulate k2 coins2) as Hd2. rewrite Hg2 in Hd2.
  destruct (encapsulate (ml_public m1) coins1) as [sh1 ct1]. destruct Hd1 as (_ & _ & Hs1 & Ht1).
  destruct (encapsulate (ml_public m2) coins2) as [sh2 ct2]. destruct Hd2 as (_ & _ & Hs2 & Ht2).
  simplify_eq. unfold derive_material in Hk, Hn. cbn [wrapped_key nonce derive_material hm_ciphertext] in *.
  set (x := material_input b1 _ _ _ _ _) in *. set (y := material_input b2 _ _ _ _ _) in *.
  destruct (decide (x = y)) as [Hxy|Hne].
  - left. apply material_input_inj in Hxy as (-> & -> & -> & -> & _ & ->); [done|congruence..|done|done].
  - right. exists x, y. split; [done|].
    assert (∀ z, lenZ (blake3_xof z 80) = 80) as Hlen by (intros z; by apply blake3_xof_length).
    rewrite <- (takeZ_dropZ 64 (blake3_xof x 80)), <- (takeZ_dropZ 64 (blake3_xof y 80)), Hk. f_equal.
    rewrite !takeZ_ge in Hn; [done|rewrite lenZ_dropZ, Hlen; lia..].
Qed.
End hybrid_chunk.

(** ** Witnesses and counterexamples on the toy crates *)
Section hybrid_witnesses.

(** The toy crates with a keyed hash that depends on all of the key. *)
#[local] Instance keyed_crates : Crates :=
  {| blake3_hash := toy_hash;
     blake3_keyed := λ k d, byte_sum (k ++ d) :: replicate 31 x00;
     hex_encode := @hex_encode toy_crates;
     hex_decode := @hex_decode toy_crates;
     lz4_encode := toy_lz4_encode;
     lz4_decode := toy_lz4_decode;
     zstd_encode := @zstd_encode toy_crates;
     zstd_decode := @zstd_decode toy_crates;
     xts_encrypt_sector := toy_xts;
     xts_decrypt_sector := toy_xts;
     hmac_sha256 := @hmac_sha256 toy_crates;
     f32_log2 := λ x, x |}.
#[local] Instance keyed_XtsLaws : XtsLaws.
Proof. destruct toy_XtsLaws as [He Hl]. by split. Qed.
#[local] Instance keyed_HexLaws : HexLaws.
Proof. exact toy_HexLaws. Qed.

#[local] Existing Instance toy_audit_json.
#[local] Existing Instance toy_mlkem.
#[local] Existing Instance toy_mlkem_laws.
#[local] Existing Instance listed_order.
#[local] Existing Instance toy_state_doc.
#[local] Existing Instance toy_map_doc.
#[local] Instance toy_key_doc : JsonDoc StoredMlkemKey := plain_doc StoredMlkemKey.

(** [Policy::encrypted()] with the hybrid profile, and with or without deduplication. *)
Definition hybrid_policy (dedup : bool) : Policy :=
  {| compression := compression encrypted; dedupe := dedup;
     compact_interval_secs := compact_interval_secs encrypted; erasure_profile := erasure_profile encrypted;
     encryption := encryption encrypted; crypto_profile := HybridKyber; layout := layout encrypted;
     rpo := rpo encrypted; latency_target := latency_target encrypted; sovereignty := sovereignty encrypted |}.

(** A store whose ML-KEM keys were generated at its start. *)
Definition first_start := load_or_generate [] [x21; x22] None.
Definition the_keys : MlkemKeyMaterialState := mkMlkemKeyMaterialState [x21; x22] [x73; x21; x22].
Definition hybrid_store : SecuredPipeline :=
  mkSecuredPipeline (empty_pipeline (Some toy_km) []) None None (λ _, (0, inr (IoFailed "tsa"))) (Some the_keys).
Definition pattern : bytes := (λ n, byte_of_Z (Z.of_nat n)) <$> seq 1 32.
Definition fresh_coins (i : Z) : bytes := [byte_of_Z (i + 7)].

Definition sealed_chunk :=
  encrypt_chunk (hybrid_policy true) cap_a 0 [x05] (mkContentHash "h") pattern hybrid_store.
Definition capsule_of_a : Capsule :=
  {| cap_id := cap_a; cap_size := 32; cap_segments := [mkSegmentId 0]; cap_created_at := 0;
     cap_policy := hybrid_policy true; cap_deduped_bytes := 0 |}.

Definition sealed_ct : bytes := match sealed_chunk with (Ok (ct, _, _), _) => ct | _ => [] end.
Definition sealed_meta : EncryptionMetadata :=
  match sealed_chunk with (Ok (_, m, _), _) => m | _ => mkEncryptionMetadata None None None None None end.
Definition sealed_material : option HybridKeyMaterial :=
  match sealed_chunk with (Ok (_, _, m), _) => m | _ => None end.

Lemma hybrid_chunk_opens_witness :
  let seg := set_pq sealed_material (describe_segment (mkCompressionResult 32 32 false false "none" None)
    (Some (mkContentHash "h")) (Some sealed_meta) (fresh_segment (mkSegmentId 0) 0 32)) in
  is_Some (seg_pq_ciphertext seg) ∧ lenZ sealed_ct = lenZ pattern ∧
  fst (decrypt_raw capsule_of_a 0 seg sealed_ct hybrid_store) = Ok pattern.
Proof.
  assert (first_start = (Ok the_keys, snd first_start)) as Hgen by (vm_compute; reflexivity).
  assert (load_or_generate [] [] (snd first_start) = (Ok the_keys, snd first_start)) as Hload
    by (vm_compute; reflexivity).
  assert (sealed_chunk = (Ok (sealed_ct, sealed_meta, sealed_material), snd sealed_chunk)) as Hs
    by (vm_compute; reflexivity).
  exact (hybrid_chunk_opens [] [x21; x22] the_keys (snd first_start) [] [] the_keys (snd first_start)
    (hybrid_policy true) cap_a 0 [x05] (mkContentHash "h") pattern hybrid_store toy_km sealed_ct sealed_meta
    sealed_material (snd sealed_chunk) (mkCompressionResult 32 32 false false "none" None)
    (fresh_segment (mkSegmentId 0) 0 32) capsule_of_a hybrid_store toy_km
    Hgen Hload eq_refl eq_refl eq_refl eq_refl eq_refl (KeyManager_new_coherent _) eq_refl eq_refl
    (KeyManager_new_coherent _) eq_refl eq_refl ltac:(by vm_compute) Hs).
Defined.

(** The chunks with index 0 and 1 of one capsule. *)
Definition material_at (i : Z) : HybridKeyMaterial :=
  default (mkHybridKeyMaterial [] [] [])
    (wrap_xts_key the_keys [x05] HybridKyber (replicate 64 x11) cap_a (mkSegmentId i) (mkContentHash "h")).

Lemma hybrid_keys_are_bound_witness :
  ((replicate 64 x11 = replicate 64 x11 ∧ cap_a = cap_a ∧ 1 = 1 ∧ mkContentHash "h" = mkContentHash "h" ∧
    hm_ciphertext (material_at 1) = hm_ciphertext (material_at 1)) ∨
   ∃ x y, x ≠ y ∧ blake3_xof x 80 = blake3_xof y 80) ∧ wrapped_key (material_at 0) ≠ wrapped_key (material_at 1).
Proof.
  split; [|vm_compute; discriminate].
  assert (generated the_keys) as Hg by by exists [x21; x22].
  exact (hybrid_keys_are_bound the_keys [x05] (replicate 64 x11) cap_a 1 (mkContentHash "h") (material_at 1)
    the_keys [x05] (replicate 64 x11) cap_a 1 (mkContentHash "h") (material_at 1) Hg Hg eq_refl eq_refl
    eq_refl eq_refl ltac:(by vm_compute) ltac:(by vm_compute) eq_refl eq_refl).
Defined.

(** *** Whole capsules *)
Definition written_hybrid (dedup : bool) (id : CapsuleId) (s : SecuredPipeline) :=
  write_capsule_with_policy id (Some 1) fresh_coins pattern (hybrid_policy dedup) s.

(** With deduplication a hybrid capsule reads back; without it the record of a segment has no
    content hash, the reader falls back to the classical keys, and no read ever succeeds. *)
Example hybrid_capsule_reads_back :
  let s := snd (written_hybrid true cap_a hybrid_store) in
  fst (written_hybrid true cap_a hybrid_store) = Ok cap_a ∧ fst (read_capsule cap_a s) = Ok pattern.
Proof. split; vm_compute; reflexivity. Qed.

Example hybrid_without_dedupe_never_reads :
  let s := snd (written_hybrid false cap_a hybrid_store) in
  fst (written_hybrid false cap_a hybrid_store) = Ok cap_a ∧ is_ok (fst (read_capsule cap_a s)) = false.
Proof. split; vm_compute; reflexivity. Qed.

(** A second capsule with the same content shares the segment, whose keys are those of the
    first capsule: it is stored without an error and never opens. *)
Example hybrid_shared_chunk_does_not_open :
  let s1 := snd (written_hybrid true cap_a hybrid_store) in
  let s2 := snd (written_hybrid true cap_b s1) in
  fst (written_hybrid true cap_b s1) = Ok cap_b ∧ fst (read_capsule cap_a s2) = Ok pattern ∧
  is_ok (fst (read_capsule cap_b s2)) = false.
Proof. split; [|split]; vm_compute; reflexivity. Qed.

(** A first start that dies while it writes the key file leaves a file no later start can
    load: the profile stays off. *)
Example torn_key_file_disables_the_profile :
  let '(r, file) := load_or_generate [None; Some 9] [x21; x22] None in
  is_ok r = false ∧ load_or_generate [] [x23] file = (Err JsonFailed, file).
Proof. vm_compute. split; reflexivity. Qed.
End hybrid_witnesses.
