(* ===== verification/Gateway.v ===== *)
(** The zero-trust gateway (crates/common/src/security/ebpf_gateway.rs) in front of the S3
    server (crates/protocol-s3/src/server.rs, build [advanced-security]): which requests reach
    the handlers, and how the list of allowed identities changes while the server runs.

    The environment is a function from names to values.  The crate [http] (names and values of
    headers) and the parser of a payload are parameters; so are the answers of the workload
    API, whose socket a refresh reads, and whether an eBPF program loads (it filters packets
    before they get here, and nothing below looks at it).  Durations are seconds. *)
From S2P Require Import Prelude Errors Common Externals CapsuleService BlockView S3View.

(** [HeaderName::from_bytes], [HeaderValue::to_str] and
    [serde_json::from_str::<IdentitiesPayload>]. *)
Class Http := {
  HeaderName_from_bytes : string → option string;
  HeaderValue_to_str : bytes → option string;
  identities_of_json : string → option (list string);
}.

Section gateway.
Context `{Http}.

Record ZeroTrustConfig := mkZeroTrustConfig {
  bpf_program : option string;
  allowed_spiffe_ids : list string;
  spiffe_endpoint : option string;
  cfg_header_name : string;
  refresh_interval_secs : Z;
}.

Definition ZeroTrustConfig_default : ZeroTrustConfig :=
  {| bpf_program := None;
     allowed_spiffe_ids := [];
     spiffe_endpoint := None;
     cfg_header_name := "x-spiffe-id";
     refresh_interval_secs := 30 |}.

Record SpiffeWorkloadClient := mkSpiffeWorkloadClient { endpoint : string }.

Record EbpfGateway := mkEbpfGateway {
  allowed : gset string;
  header_name : string;
  workload_client : option SpiffeWorkloadClient;
  refresh_interval : Z;
}.

Definition EbpfGateway_new (config : ZeroTrustConfig) : EbpfGateway :=
  {| allowed := list_to_set (allowed_spiffe_ids config);
     header_name := cfg_header_name config;
     workload_client := mkSpiffeWorkloadClient <$> spiffe_endpoint config;
     refresh_interval := Z.max (refresh_interval_secs config) 5 |}.

Definition update_allow_list (ids : list string) (g : EbpfGateway) : EbpfGateway :=
  {| allowed := list_to_set ids;
     header_name := header_name g;
     workload_client := workload_client g;
     refresh_interval := refresh_interval g |}.

Definition workload_source (g : EbpfGateway) : option (SpiffeWorkloadClient * Z) :=
  (λ client, (client, refresh_interval g)) <$> workload_client g.

(** *** Requests *)
Inductive MtlsRejection :=
| missing_identity
| invalid_identity
| unauthorized (identity : string).

Definition rejection_status (r : MtlsRejection) : Z :=
  match r with
  | missing_identity => 401
  | invalid_identity => 400
  | unauthorized _ => 403
  end.

(** [MtlsLayer::new]: the name of the header; the list is shared with the gateway. *)
Definition layer_header (g : EbpfGateway) : string :=
  default "x-spiffe-id" (HeaderName_from_bytes (header_name g)).

(** [headers]: [HeaderMap::get] of the request. *)
Definition authorize (header : string) (allowed : gset string) (headers : string → option bytes) :
    Res MtlsRejection string :=
  let? header_value := ok_or (headers header) missing_identity in
  let? spiffe := ok_or (HeaderValue_to_str header_value) invalid_identity in
  if negb (bool_decide (allowed = ∅)) && negb (bool_decide (spiffe ∈ allowed))
  then Err (unauthorized spiffe)
  else Ok spiffe.

(** *** The workload API *)
Inductive Message := MsgText (payload : string) | MsgBinary | MsgClose | MsgOther.

(** The loop over the messages of the socket; a stream error ends it, as its end does. *)
Fixpoint read_identities (stream : list (Message + Error)) : Res Error (list string) :=
  match stream with
  | [] => Ok []
  | inl (MsgText payload) :: _ => ok_or (identities_of_json payload) (Context "invalid SPIFFE payload" JsonFailed)
  | inl MsgBinary :: rest => read_identities rest
  | inl MsgClose :: _ => Ok []
  | inl MsgOther :: rest => read_identities rest
  | inr _ :: _ => Ok []
  end.

(** [socket]: the connection, or why there is none. *)
Definition fetch_allowed (socket : Res Error (list (Message + Error))) : Res Error (list string) :=
  let? stream := res_map_err (Context "failed to connect") socket in
  read_identities stream.

(** One turn of the refresh loop. *)
Definition refresh (socket : Res Error (list (Message + Error))) (g : EbpfGateway) : EbpfGateway :=
  match fetch_allowed socket with
  | Ok [] => g
  | Ok ids => update_allow_list ids g
  | _ => g
  end.

(** *** The server *)

Definition COMMA : Ascii.ascii := Ascii.Ascii false false true true false true false false.

(** [init_gateway]: the settings from the environment ([None]: not set). *)
Definition allowed_of_env (v : option string) : list string :=
  omap (λ id, if String.eqb (trim id) EmptyString then None else Some (trim id))
    (split_on COMMA (default EmptyString v)).

Definition init_gateway (env : string → option string) : EbpfGateway :=
  EbpfGateway_new
    {| bpf_program := env "SPACE_BPF_PROGRAM";
       allowed_spiffe_ids := allowed_of_env (env "SPACE_ALLOWED_SPIFFE_IDS");
       spiffe_endpoint := env "SPACE_SPIFFE_ENDPOINT";
       cfg_header_name := default "x-spiffe-id" (env "SPACE_SPIFFE_HEADER");
       refresh_interval_secs := default 30 (v ← env "SPACE_SPIFFE_REFRESH_SECS"; parse_u64 v) |}.

(** What the router dispatches: [/health] and the requests of S3View.v. *)
Inductive Routed :=
| Health
| Object (req : S3View.Request).

Inductive ServerResponse :=
| Healthy
| Served (r : S3View.Response)
| Rejected (code : Z) (why : MtlsRejection).
End gateway.

Section server.
Context `{Http} {P : Type} `{CapsuleService P} `{HashOrder}.
Context (uuid_text : bytes → string) (u64_text : Z → string) (format_http_date : Z → string).

Record S3Server := mkS3Server { s3_view : S3View (P := P); gateway : EbpfGateway }.

Definition S3Server_new (s3_view : S3View) (env : string → option string) : S3Server :=
  mkS3Server s3_view (init_gateway env).

(** The routes without the middleware. *)
Definition dispatch (req : Routed) : M S3View Error ServerResponse :=
  match req with
  | Health => ret Healthy
  | Object req =>
      let! r := serve uuid_text u64_text format_http_date req in
      ret (Served r)
  end.

Definition enforce_mtls (headers : string → option bytes) (req : Routed) : M S3Server Error ServerResponse := λ s,
  match authorize (layer_header (gateway s)) (allowed (gateway s)) headers with
  | Ok _ => let '(r, v) := dispatch req (s3_view s) in (r, mkS3Server v (gateway s))
  | Err why => (Ok (Rejected (rejection_status why) why), s)
  | Panic => (Panic, s)
  end.

(** What happens while the server runs: the refresh task takes a turn, when there is one, and
    requests come in. *)
Inductive ServerEvent :=
| Refresh (socket : Res Error (list (Message + Error)))
| Arrive (headers : string → option bytes) (req : Routed).

Definition server_step (e : ServerEvent) (s : S3Server) : option (Res Error ServerResponse) * S3Server :=
  match e with
  | Refresh socket =>
      match workload_source (gateway s) with
      | Some _ => (None, mkS3Server (s3_view s) (refresh socket (gateway s)))
      | None => (None, s)
      end
  | Arrive headers req => let '(r, s) := enforce_mtls headers req s in (Some r, s)
  end.

Fixpoint run_server (es : list ServerEvent) (s : S3Server) : list (Res Error ServerResponse) * S3Server :=
  match es with
  | [] => ([], s)
  | e :: es =>
      let '(r, s) := server_step e s in
      let '(rs, s) := run_server es s in
      (match r with Some r => r :: rs | None => rs end, s)
  end.
End server.

(** ** What the gateway promises *)
Section gateway_spec.
Context `{Http} {P : Type} `{CapsuleService P} `{HashOrder}.
Context (uuid_text : bytes → string) (u64_text : Z → string) (format_http_date : Z → string).
Implicit Types s : S3Server (P := P).

(** Why a request with these headers is refused under the list [A]: it names nobody, or
    unreadably, or somebody else; an empty list lets everybody in. *)
Definition verdict (h : string) (A : gset string) (headers : string → option bytes) : option Z :=
  match headers h with
  | None => Some 401
  | Some v =>
      match HeaderValue_to_str v with
      | None => Some 400
      | Some i => if decide (A = ∅ ∨ i ∈ A) then None else Some 403
      end
  end.

(** The last list that was fetched and is not empty, or the one before. *)
Fixpoint in_force (A : gset string) (lists : list (list string)) : gset string :=
  match lists with
  | [] => A
  | [] :: rest => in_force A rest
  | ids :: rest => in_force (list_to_set ids) rest
  end.

Definition fetched (e : ServerEvent) : list (list string) :=
  match e with
  | Refresh socket => match fetch_allowed socket with Ok ids => [ids] | _ => [] end
  | Arrive _ _ => []
  end.

(** The requests with their verdicts; [polls]: there is a refresh task. *)
Fixpoint verdicts (h : string) (polls : bool) (A : gset string) (es : list ServerEvent) : list (option Z * Routed) :=
  match es with
  | [] => []
  | Refresh socket :: es => verdicts h polls (if polls then in_force A (fetched (Refresh socket)) else A) es
  | Arrive headers req :: es => (verdict h A headers, req) :: verdicts h polls A es
  end.

(** The server without the gateway. *)
Fixpoint run_plain (reqs : list Routed) (v : S3View (P := P)) : list (Res Error ServerResponse) * S3View :=
  match reqs with
  | [] => ([], v)
  | req :: reqs =>
      let '(r, v) := dispatch uuid_text u64_text format_http_date req v in
      let '(rs, v) := run_plain reqs v in
      (r :: rs, v)
  end.

Definition refused (r : Res Error ServerResponse) : option Z :=
  match r with
  | Ok (Rejected code _) => Some code
  | _ => None
  end.

Definition admitted (l : list (option Z * Routed)) : list Routed :=
  omap (λ '(why, req), match why with None => Some req | Some _ => None end) l.

Lemma refresh_in_force socket g :
  allowed (refresh socket g) = in_force (allowed g) (fetched (Refresh socket)) ∧
  header_name (refresh socket g) = header_name g ∧ workload_client (refresh socket g) = workload_client g.
Proof. unfold refresh, fetched. by destruct (fetch_allowed socket) as [[|i ids]|e| ]. Qed.

Lemma authorize_verdict h A headers :
  verdict h A headers =
  match authorize h A headers with
  | Ok _ => None
  | Err why => Some (rejection_status why)
  | Panic => None
  end ∧ authorize h A headers ≠ Panic.
Proof.
  unfold verdict, authorize. destruct (headers h) as [v|]; [|done]. cbn [ok_or res_bind].
  destruct (HeaderValue_to_str v) as [i|]; [|done]. cbn [ok_or res_bind].
  destruct (decide (A = ∅ ∨ i ∈ A)) as [Hd|Hd].
  - by rewrite !bool_decide_decide; repeat destruct (decide _); destruct Hd.
  - rewrite !bool_decide_false by tauto. done.
Qed.

Lemma in_force_nonempty A lists : A ≠ ∅ → in_force A lists ≠ ∅.
Proof.
  revert A. induction lists as [|[|i ids] rest IH]; intros A HA; cbn [in_force]; [done|by apply IH|].
  apply IH. rewrite list_to_set_cons. set_solver.
Qed.

Lemma in_force_app A l1 l2 : in_force A (l1 ++ l2) = in_force (in_force A l1) l2.
Proof. revert A. induction l1 as [|[|i ids] l1 IH]; intros A; cbn [app in_force]; auto. Qed.

Lemma dispatch_serves req v r v' :
  dispatch uuid_text u64_text format_http_date req v = (r, v') → refused r = None.
Proof.
  destruct req as [|req]; [by intros [= <- <-]|]. cbn [dispatch]. unfold bind, ret.
  by destruct (serve _ _ _ req v) as [[x|e| ] v1]; intros [= <- <-].
Qed.

(** C34: once there is a list, the gateway lets exactly the listed identities through.  Whatever
    requests come in and whatever the workload API answers, a request is refused with 401 for a
    missing, 400 for an unreadable and, while the list in force is not empty, 403 for an
    unlisted identity, and changes nothing; the others get the answers, and leave the store,
    that the server without the gateway gives for them alone.  While the list is empty, as
    it is at the start unless it is configured, every readable identity is among the others
    ([empty_list_admits_anybody]).  With a workload API the list in force is the last
    non-empty one the API gave, and once it is not empty it never is again. *)
Theorem gateway_admits_only_listed es s :
  let '(rs, s') := run_server uuid_text u64_text format_http_date es s in
  let polls := bool_decide (is_Some (workload_client (gateway s))) in
  let vs := verdicts (layer_header (gateway s)) polls (allowed (gateway s)) es in
  refused <$> rs = vs.*1 ∧
  run_plain (admitted vs) (s3_view s) = (filter (λ r, refused r = None) rs, s3_view s') ∧
  (polls = true → allowed (gateway s') = in_force (allowed (gateway s)) (es ≫= fetched)) ∧
  (allowed (gateway s) ≠ ∅ → allowed (gateway s') ≠ ∅).
Proof.
  revert s. induction es as [|e es IH]; intros s; [done|].
  cbn [run_server]. destruct e as [socket|headers req]; cbn [server_step verdicts mbind list_bind].
  - pose proof (refresh_in_force socket (gateway s)) as (Ha & Hh & Hw).
    unfold workload_source. destruct (workload_client (gateway s)) as [client|] eqn:Hc; cbn [fmap option_fmap option_map].
    + specialize (IH (mkS3Server (s3_view s) (refresh socket (gateway s)))). cbn [gateway s3_view] in IH.
      unfold layer_header in *. rewrite Hh, Hw, Ha in IH.
      destruct (run_server _ _ _ es _) as [rs s']. destruct IH as (Hr & Hp & Hf & Hn).
      split; [exact Hr|]. split; [exact Hp|]. split; [intros _; rewrite in_force_app; by apply Hf|].
      intros Hne. by apply Hn, in_force_nonempty.
    + specialize (IH s). rewrite Hc in IH. destruct (run_server _ _ _ es s) as [rs s'].
      destruct IH as (Hr & Hp & _ & Hn). done.
  - pose proof (authorize_verdict (layer_header (gateway s)) (allowed (gateway s)) headers) as [Hv Hnp].
    unfold enforce_mtls. rewrite Hv. destruct (authorize _ _ headers) as [i|why| ]; [|..|done].
    + destruct (dispatch _ _ _ req (s3_view s)) as [r v] eqn:Hd. pose proof (dispatch_serves _ _ _ _ Hd) as Href.
      specialize (IH (mkS3Server v (gateway s))). cbn [gateway s3_view] in IH.
      destruct (run_server _ _ _ es _) as [rs s']. destruct IH as (Hr & Hp & Hf & Hn).
      cbn [fmap list_fmap fst admitted omap list_omap run_plain]. rewrite Hd, Hr, Href.
      unfold admitted in Hp. rewrite Hp. rewrite filter_cons_True by done. done.
    + specialize (IH s). destruct (run_server _ _ _ es s) as [rs s']. destruct IH as (Hr & Hp & Hf & Hn).
      cbn [fmap list_fmap fst admitted omap list_omap]. rewrite Hr. by rewrite filter_cons_False.
Qed.
End gateway_spec.

(** ** Witness and examples *)
Section gateway_witnesses.
#[local] Existing Instance listed_order.

(** Header names without a slash are taken as they are; a value is text if it is printable; a payload is a
    list of names between commas. *)
#[local] Instance toy_http : Http :=
  {| HeaderName_from_bytes := λ s, if has_char SLASH s then None else Some s;
     HeaderValue_to_str := λ b, if forallb (in_range 32 126) b then Some (String.string_of_list_byte b) else None;
     identities_of_json := λ s, Some (filter (λ i, i ≠ "") (split_on COMMA s)) |}.

Definition server_env (name : string) : option string :=
  if String.eqb name "SPACE_ALLOWED_SPIFFE_IDS" then Some " spiffe://a , ,spiffe://b"
  else if String.eqb name "SPACE_SPIFFE_ENDPOINT" then Some "ws://127.0.0.1:9001"
  else if String.eqb name "SPACE_SPIFFE_REFRESH_SECS" then Some "2"
  else None.
Definition guarded : S3Server := S3Server_new s3_start server_env.
Definition as_client (id : string) : string → option bytes := λ h,
  if String.eqb h "x-spiffe-id" then Some (string_bytes id) else None.
Definition visits : list ServerEvent :=
  [Arrive (as_client "spiffe://a") (Object put_page); Arrive (as_client "spiffe://c") (Object (Delete "site" "index.html"));
   Arrive (λ _, None) Health; Refresh (Ok [inl MsgBinary; inl (MsgText "spiffe://c,")]);
   Refresh (Ok [inl MsgClose]); Arrive (as_client "spiffe://a") Health;
   Arrive (as_client "spiffe://c") (Object (Get "site" "index.html"))].

Example settings_are_read :
  elements (allowed (gateway guarded)) = ["spiffe://a"; "spiffe://b"] ∧ refresh_interval (gateway guarded) = 5.
Proof. split; vm_compute; reflexivity. Qed.

Example visits_answered :
  refused <$> (run_server (λ _, "") (λ _, "") (λ _, "") visits guarded).1 =
  [None; Some 403; Some 401; Some 403; None].
Proof. vm_compute. reflexivity. Qed.

Lemma gateway_admits_only_listed_witness :
  let '(rs, s') := run_server (λ _, "") (λ _, "") (λ _, "") visits guarded in
  allowed (gateway s') = {["spiffe://c"]} ∧ allowed (gateway s') ≠ ∅ ∧
  refused <$> rs = (verdicts "x-spiffe-id" true (allowed (gateway guarded)) visits).*1.
Proof.
  pose proof (gateway_admits_only_listed (λ _, "") (λ _, "") (λ _, "") visits guarded) as Hg.
  destruct (run_server _ _ _ visits guarded) as [rs s'] eqn:Hr. destruct Hg as (Hv & _ & Hf & Hn).
  split; [|split; [|exact Hv]].
  - rewrite Hf by reflexivity. vm_compute. reflexivity.
  - apply Hn. intros He%(f_equal size). vm_compute in He. discriminate.
Defined.

(** A server that is started without a list lets in whoever names an identity, until the API
    has answered. *)
Example empty_list_admits_anybody :
  let s := S3Server_new s3_start (λ name, if String.eqb name "SPACE_SPIFFE_ENDPOINT" then Some "ws://x" else None) in
  refused <$> (run_server (λ _, "") (λ _, "") (λ _, "")
    [Refresh (Err (IoFailed "connect")); Arrive (as_client "anybody") (Object put_page)] s).1 = [None].
Proof. vm_compute. reflexivity. Qed.
End gateway_witnesses.
