(* ===== verification/Layout.v ===== *)
(** Crate [layout-engine] (crates/layout-engine/src): zone plans, the CPU offloads and
    the compiler that selects one, in the default build (feature [cpu]: no [zns],
    [ml] or [pq]).

    The inner loop of [build_plan] advances by the policy's segment size and so does
    not terminate when that is zero; it is written with fuel, one unit per test of
    the loop, and [None] is fuel exhausted.  [build_plan] gives each slice one more
    unit than it has bytes, which is enough for every positive segment size. *)
From S2P Require Import Prelude Errors Common Externals Dedup.

Record SegmentRef := mkSegmentRef {
  ref_capsule_id : CapsuleId;
  ref_offset : Z;
  ref_length : Z;
  compressed_hash : ContentHash;
}.

Record PlanZone := mkZone {
  zone_id : Z;
  iv_seed : Z;
  zone_segments : list SegmentRef;
}.

Record ZonePlan := mkZonePlan {
  zones : list PlanZone;
  merkle_root : option ContentHash;
}.

(** The offload [compile] boxes. *)
Inductive Offload :=
| CpuFixed (policy : Policy)
| CpuEntropy (policy : Policy)
| CpuQuantumReady (policy : Policy) (merkle_algo : MerkleAlgo).

(** The mutable variables of [build_plan]. *)
Record PlanState := mkPlanState {
  ps_zones : list PlanZone;
  ps_zone_id : Z;
  current_zone : PlanZone;
  zone_usage : Z;
  cursor : Z;
}.

Section layout.
Context `{Crates}.

Definition hash_chunk (data : bytes) : ContentHash := ContentHash_from_bytes (blake3_hash data).

(** [fresh] is the id a default [CapsuleId] would draw. *)
Definition capsule_id_for (fresh : CapsuleId) (capsules : list CapsuleId) : CapsuleId :=
  match capsules with
  | c :: _ => c
  | [] => fresh
  end.

(** One round: push the segment, and close the zone once it is full. *)
Definition plan_step (segment_size : Z) (capsule : CapsuleId) (slice : bytes) (start : Z)
    (st : PlanState) : Z * PlanState :=
  let take := Z.min (lenZ slice - start) segment_size in
  let chunk := takeZ take (dropZ start slice) in
  let segment := mkSegmentRef capsule (u64_add (cursor st) start) take (hash_chunk chunk) in
  let z := current_zone st in
  let z := mkZone (zone_id z) (iv_seed z) (zone_segments z ++ [segment]) in
  let usage := u64_add (zone_usage st) take in
  (start + take,
   if (segment_size <=? usage) && negb (bool_decide (zone_segments z = []))
   then
     let id := u64_add (ps_zone_id st) 1 in
     mkPlanState (ps_zones st ++ [z]) id (mkZone id id []) 0 (cursor st)
   else mkPlanState (ps_zones st) (ps_zone_id st) z usage (cursor st)).

(** [while start < slice.len()] *)
Fixpoint slice_loop (fuel : nat) (segment_size : Z) (capsule : CapsuleId) (slice : bytes)
    (start : Z) (st : PlanState) : option PlanState :=
  match fuel with
  | O => None
  | S fuel' =>
      if start <? lenZ slice then
        let '(start, st) := plan_step segment_size capsule slice start st in
        slice_loop fuel' segment_size capsule slice start st
      else Some st
  end.

(** [for slice in data_slices], each with [extra] units more than its length. *)
Fixpoint slices_loop (extra : nat) (segment_size : Z) (capsule : CapsuleId)
    (data_slices : list bytes) (st : PlanState) : option PlanState :=
  match data_slices with
  | [] => Some st
  | slice :: r =>
      match slice_loop (length slice + extra) segment_size capsule slice 0 st with
      | None => None
      | Some st =>
          slices_loop extra segment_size capsule r
            (mkPlanState (ps_zones st) (ps_zone_id st) (current_zone st) (zone_usage st)
               (u64_add (cursor st) (lenZ slice)))
      end
  end.

(** The open zone is kept unless it is empty. *)
Definition final_zones (st : PlanState) : list PlanZone :=
  if bool_decide (zone_segments (current_zone st) = []) then ps_zones st
  else ps_zones st ++ [current_zone st].

Definition build_plan_fuel (extra : nat) (policy : Policy) (fresh : CapsuleId)
    (capsules : list CapsuleId) (data_slices : list bytes) : option ZonePlan :=
  let segment_size := default_segment_size (strategy (layout policy)) in
  match slices_loop extra segment_size (capsule_id_for fresh capsules) data_slices
          (mkPlanState [] 0 (mkZone 0 0 []) 0 0) with
  | None => None
  | Some st => Some (mkZonePlan (final_zones st) None)
  end.

Definition build_plan : Policy → CapsuleId → list CapsuleId → list bytes → option ZonePlan :=
  build_plan_fuel 1.

Definition compute_merkle_root (algo : MerkleAlgo) (data_slices : list bytes) : ContentHash :=
  match algo with
  | Blake3 => ContentHash_from_bytes (blake3_hash (concat data_slices))
  | SphincsPlus => hash_chunk (concat data_slices)
  end.

(** [LayoutOffload::synthesize] of the three offloads. *)
Definition offload_synthesize (o : Offload) (fresh : CapsuleId) (capsules : list CapsuleId)
    (data_slices : list bytes) (policy : Policy) : option ZonePlan :=
  match o with
  | CpuFixed own => build_plan own fresh capsules data_slices
  | CpuEntropy own => build_plan own fresh capsules data_slices
  | CpuQuantumReady own algo =>
      match build_plan own fresh capsules data_slices with
      | None => None
      | Some plan =>
          Some (mkZonePlan (zones plan) (Some (compute_merkle_root algo data_slices)))
      end
  end.

(** [compiler::compile]; [Panic] is the [panic!] of a disabled feature. *)
Definition compile (policy : Policy) : Res Error Offload :=
  match strategy (layout policy) with
  | Fixed _ => Ok (CpuFixed policy)
  | AdaptiveEntropy => Ok (CpuEntropy policy)
  | ZnsGraph _ _ => Panic
  | Learned _ => Panic
  | QuantumReady merkle_algo => Ok (CpuQuantumReady policy merkle_algo)
  end.

Definition LayoutEngine_new (policy : Policy) : Res Error Offload := compile policy.

Definition synthesize (engine : Offload) (fresh : CapsuleId) (capsules : list CapsuleId)
    (data_slices : list bytes) (policy : Policy) : option ZonePlan :=
  offload_synthesize engine fresh capsules data_slices policy.

(** ** Specification *)

(** The references cover [data] from [a] to [b] without gap or overlap, each with the
    hash of its own bytes. *)
Fixpoint tiles (size : Z) (capsule : CapsuleId) (data : bytes) (a : Z) (refs : list SegmentRef)
    (b : Z) : Prop :=
  match refs with
  | [] => a = b
  | r :: rest =>
      ref_capsule_id r = capsule ∧ ref_offset r = a ∧ 0 < ref_length r ≤ size ∧
      a + ref_length r ≤ lenZ data ∧
      compressed_hash r = hash_content (takeZ (ref_length r) (dropZ a data)) ∧
      tiles size capsule data (a + ref_length r) rest b
  end.

Definition zone_bytes (z : PlanZone) : Z := sumZ (ref_length <$> zone_segments z).

(** Zones are numbered in order and seeded by their number. *)
Definition numbered (zs : list PlanZone) : Prop :=
  ∀ i z, zs !! i = Some z → zone_id z = Z.of_nat i ∧ iv_seed z = Z.of_nat i.

Definition zone_closed (size : Z) (z : PlanZone) : Prop := size ≤ zone_bytes z < 2 * size.

(** The loop's invariant: the closed zones and the open one cover the data so far. *)
Record plan_inv (size : Z) (capsule : CapsuleId) (data : bytes) (a : Z) (st : PlanState) : Prop := {
  pv_tiles : tiles size capsule data 0
    (concat (zone_segments <$> ps_zones st) ++ zone_segments (current_zone st)) a;
  pv_closed : Forall (zone_closed size) (ps_zones st);
  pv_numbered : numbered (ps_zones st ++ [current_zone st]);
  pv_id : ps_zone_id st = Z.of_nat (length (ps_zones st));
  pv_usage : zone_usage st = zone_bytes (current_zone st);
  pv_open : zone_bytes (current_zone st) < size;
}.
End layout.

(** ** Lemmas *)
Section layout_lemmas.
Context `{Crates}.

Lemma tiles_snoc size capsule data a refs b r :
  tiles size capsule data a refs b → ref_capsule_id r = capsule → ref_offset r = b →
  0 < ref_length r ≤ size → b + ref_length r ≤ lenZ data →
  compressed_hash r = hash_content (takeZ (ref_length r) (dropZ b data)) →
  tiles size capsule data a (refs ++ [r]) (b + ref_length r).
Proof.
  revert a. induction refs as [|x refs IH]; simpl; intros a.
  - by intros -> ?????.
  - intros (? & ? & ? & ? & ? & Ht) ?????. split_and!; try done; try lia. by apply IH.
Qed.

Lemma sum_lengths_cons x refs :
  sumZ (ref_length <$> x :: refs) = ref_length x + sumZ (ref_length <$> refs).
Proof. done. Qed.

Lemma tiles_bytes size capsule data a refs b :
  tiles size capsule data a refs b → sumZ (ref_length <$> refs) = b - a.
Proof.
  revert a. induction refs as [|x refs IH]; intros a; [intros ->; unfold sumZ; simpl; lia|].
  intros (_ & _ & _ & _ & _ & Ht). apply IH in Ht. rewrite sum_lengths_cons. lia.
Qed.

Lemma tiles_le size capsule data a refs b : tiles size capsule data a refs b → a ≤ b.
Proof.
  revert a. induction refs as [|x refs IH]; simpl; intros a; [lia|].
  intros (_ & _ & ? & _ & _ & Ht). apply IH in Ht. lia.
Qed.

Lemma zone_bytes_snoc z r : zone_bytes (mkZone (zone_id z) (iv_seed z) (zone_segments z ++ [r])) =
  zone_bytes z + ref_length r.
Proof. unfold zone_bytes. simpl. rewrite fmap_app, sumZ_app. unfold sumZ at 2. simpl. lia. Qed.

Lemma numbered_snoc zs z :
  numbered zs → zone_id z = Z.of_nat (length zs) → iv_seed z = Z.of_nat (length zs) →
  numbered (zs ++ [z]).
Proof.
  intros Hn Hi Hv i x Hx. apply lookup_app_Some in Hx as [Hx|[Hl Hx]]; [by apply Hn|].
  apply list_lookup_singleton_Some in Hx as [Hz <-]. replace i with (length zs) by lia. done.
Qed.

Lemma numbered_replace zs z z' :
  numbered (zs ++ [z]) → zone_id z' = zone_id z → iv_seed z' = iv_seed z → numbered (zs ++ [z']).
Proof.
  intros Hn Hi Hv. destruct (Hn (length zs) z) as [Hz Hs].
  { rewrite lookup_app_r, Nat.sub_diag; [done|lia]. }
  apply numbered_snoc; [|congruence..]. intros i x Hx. apply Hn.
  rewrite lookup_app_l; [done|]. by apply lookup_lt_Some in Hx.
Qed.

(** The bytes of a slice inside the concatenation. *)
Lemma chunk_in_concat (pre slice post : bytes) start n :
  0 ≤ start → start + n ≤ lenZ slice →
  takeZ n (dropZ start slice) = takeZ n (dropZ (lenZ pre + start) (pre ++ slice ++ post)).
Proof.
  intros Hs Hn. pose proof (lenZ_nonneg pre). rewrite !takeZ_take, !dropZ_drop.
  unfold lenZ in *. rewrite drop_app_ge by lia.
  replace (Z.to_nat (Z.of_nat (length pre) + start) - length pre)%nat with (Z.to_nat start) by lia.
  destruct (decide (n ≤ 0)) as [Hn0|Hn0]; [by replace (Z.to_nat n) with O by lia|].
  rewrite drop_app_le by lia. rewrite take_app_le; [done|]. rewrite length_drop. lia.
Qed.

(** Bounds on what has been planned, from the tiling. *)
Lemma tiles_positive size capsule data a l b :
  tiles size capsule data a l b → Forall (λ x, 0 < ref_length x) l ∧ 0 ≤ sumZ (ref_length <$> l).
Proof.
  revert a. induction l as [|x l IH]; cbn [tiles]; intros a.
  - intros _. by split; [constructor|].
  - intros (_ & _ & ? & _ & _ & Hl). destruct (IH _ Hl). split; [constructor; [lia|done]|].
    rewrite sum_lengths_cons. lia.
Qed.

Lemma sum_lengths_nonneg l : Forall (λ x, 0 < ref_length x) l → 0 ≤ sumZ (ref_length <$> l).
Proof. induction 1; [done|]. rewrite sum_lengths_cons. lia. Qed.

Lemma zone_bytes_le size capsule data zs z b :
  tiles size capsule data 0 (concat (zone_segments <$> zs) ++ zone_segments z) b →
  0 ≤ zone_bytes z ≤ b.
Proof.
  intros Ht. pose proof (tiles_bytes _ _ _ _ _ _ Ht) as Hb. rewrite fmap_app, sumZ_app in Hb.
  destruct (tiles_positive _ _ _ _ _ _ Ht) as [[Hf1 Hf2]%Forall_app _].
  pose proof (sum_lengths_nonneg _ Hf1). pose proof (sum_lengths_nonneg _ Hf2).
  unfold zone_bytes. lia.
Qed.

Lemma closed_zones_le size capsule data zs z b :
  tiles size capsule data 0 (concat (zone_segments <$> zs) ++ zone_segments z) b →
  Forall (zone_closed size) zs → Z.of_nat (length zs) * size + zone_bytes z ≤ b.
Proof.
  intros Ht Hcl. pose proof (tiles_bytes _ _ _ _ _ _ Ht) as Hb. rewrite fmap_app, sumZ_app in Hb.
  fold (zone_bytes z) in Hb.
  assert (Z.of_nat (length zs) * size ≤ sumZ (ref_length <$> concat (zone_segments <$> zs))); [|lia].
  clear Ht Hb. induction Hcl as [|x zs [Hx _] _ IH]; [done|]. rewrite fmap_cons. cbn [concat length].
  rewrite fmap_app, sumZ_app, Nat2Z.inj_succ, Z.mul_succ_l. unfold zone_bytes in Hx. lia.
Qed.

(** One round keeps the invariant and advances. *)
Lemma plan_step_inv size capsule pre slice post start st :
  0 < size → lenZ (pre ++ slice ++ post) < 2 ^ 64 →
  0 ≤ start < lenZ slice → cursor st = lenZ pre →
  plan_inv size capsule (pre ++ slice ++ post) (lenZ pre + start) st →
  let '(start', st') := plan_step size capsule slice start st in
  start < start' ≤ lenZ slice ∧ cursor st' = lenZ pre ∧
  plan_inv size capsule (pre ++ slice ++ post) (lenZ pre + start') st'.
Proof.
  intros Hsize Htot Hstart Hcur [Ht Hcl Hnum Hid Hus Hop].
  set (data := pre ++ slice ++ post) in *.
  pose proof (lenZ_nonneg pre). pose proof (lenZ_nonneg post).
  assert (lenZ data = lenZ pre + lenZ slice + lenZ post) as Hlen.
  { unfold data. rewrite !lenZ_app. lia. }
  unfold plan_step. set (take := Z.min (lenZ slice - start) size).
  assert (0 < take ≤ size ∧ start + take ≤ lenZ slice) as [Htake Hend] by lia.
  assert (u64_add (cursor st) start = lenZ pre + start) as ->.
  { rewrite Hcur. unfold u64_add, wrap. apply Z.mod_small. lia. }
  set (r := mkSegmentRef _ _ _ _).
  set (z := mkZone (zone_id (current_zone st)) (iv_seed (current_zone st))
              (zone_segments (current_zone st) ++ [r])).
  assert (tiles size capsule data 0
    (concat (zone_segments <$> ps_zones st) ++ zone_segments z) (lenZ pre + start + take)) as Ht'.
  { simpl. rewrite app_assoc. apply (tiles_snoc _ _ _ _ _ _ r Ht); simpl; try done; [lia|].
    rewrite (chunk_in_concat pre slice post) by lia. done. }
  assert (zone_bytes z = zone_bytes (current_zone st) + take) as Hzb by apply zone_bytes_snoc.
  pose proof (zone_bytes_le _ _ _ _ _ _ Ht').
  assert (u64_add (zone_usage st) take = zone_bytes z) as ->.
  { rewrite Hus, Hzb. unfold u64_add, wrap. apply Z.mod_small. lia. }
  assert (bool_decide (zone_segments z = []) = false) as ->.
  { apply bool_decide_eq_false. simpl. by destruct (zone_segments (current_zone st)). }
  rewrite andb_true_r.
  assert (numbered (ps_zones st ++ [z])) as Hnum' by (by eapply numbered_replace).
  split; [lia|]. replace (lenZ pre + (start + take)) with (lenZ pre + start + take) by lia.
  destruct (Z.leb_spec size (zone_bytes z)) as [Hfull|Hfull].
  - split; [done|].
    pose proof (closed_zones_le _ _ _ _ _ _ Ht' Hcl).
    assert (u64_add (ps_zone_id st) 1 = Z.of_nat (length (ps_zones st ++ [z]))) as Hid'.
    { rewrite Hid, length_app. simpl. unfold u64_add, wrap.
      rewrite Nat2Z.inj_add. apply Z.mod_small. nia. }
    constructor; simpl; rewrite ?Hid'; try done.
    + rewrite fmap_app, concat_app. simpl. by rewrite !app_nil_r.
    + apply Forall_app. split; [done|]. constructor; [|done]. unfold zone_closed. lia.
    + by apply numbered_snoc.
  - split; [done|]. constructor; done.
Qed.

(** Fuel above the bytes left is enough for a positive segment size. *)
Lemma slice_loop_inv fuel size capsule pre slice post start st :
  0 < size → lenZ (pre ++ slice ++ post) < 2 ^ 64 →
  0 ≤ start ≤ lenZ slice → lenZ slice - start < Z.of_nat fuel → cursor st = lenZ pre →
  plan_inv size capsule (pre ++ slice ++ post) (lenZ pre + start) st →
  ∃ st', slice_loop fuel size capsule slice start st = Some st' ∧ cursor st' = lenZ pre ∧
    plan_inv size capsule (pre ++ slice ++ post) (lenZ pre + lenZ slice) st'.
Proof.
  intros Hsize Htot. revert start st.
  induction fuel as [|fuel IH]; intros start st Hs Hf Hc Hi; [lia|]. cbn [slice_loop].
  destruct (Z.ltb_spec start (lenZ slice)) as [Hlt|Hge].
  - pose proof (plan_step_inv size capsule pre slice post start st Hsize Htot ltac:(lia) Hc Hi) as Hp.
    destruct (plan_step size capsule slice start st) as [start' st'].
    destruct Hp as (? & ? & ?). apply IH; [lia|lia|done|done].
  - exists st. replace (lenZ slice) with start at 1 by lia. by split_and!.
Qed.

Lemma slices_loop_inv extra size capsule pre slices st :
  (1 ≤ extra)%nat → 0 < size → lenZ (pre ++ concat slices) < 2 ^ 64 → cursor st = lenZ pre →
  plan_inv size capsule (pre ++ concat slices) (lenZ pre) st →
  ∃ st', slices_loop extra size capsule slices st = Some st' ∧
    plan_inv size capsule (pre ++ concat slices) (lenZ (pre ++ concat slices)) st'.
Proof.
  intros Hex Hsize. revert pre st. induction slices as [|slice r IH]; intros pre st Htot Hc Hi.
  - exists st. simpl in *. rewrite app_nil_r in *. by split.
  - cbn [slices_loop concat] in *. pose proof (lenZ_nonneg slice).
    destruct (slice_loop_inv (length slice + extra) size capsule pre slice (concat r) 0 st)
      as (st' & -> & Hc' & Hi'); try done;
      [unfold lenZ; lia|by rewrite Z.add_0_r|].
    rewrite app_assoc in *. rewrite <- lenZ_app in Hi'.
    apply IH; [done| |].
    + simpl. rewrite Hc'. rewrite !lenZ_app in *. pose proof (lenZ_nonneg (concat r)).
      pose proof (lenZ_nonneg pre). unfold u64_add, wrap. apply Z.mod_small. lia.
    + by destruct Hi'.
Qed.

(** The planner's result is the loop's last state. *)
Lemma build_plan_final policy fresh capsules slices :
  let size := default_segment_size (strategy (layout policy)) in
  0 < size → lenZ (concat slices) < 2 ^ 64 →
  ∃ st, build_plan policy fresh capsules slices = Some (mkZonePlan (final_zones st) None) ∧
    plan_inv size (capsule_id_for fresh capsules) (concat slices) (lenZ (concat slices)) st.
Proof.
  intros size Hsize Htot. unfold build_plan, build_plan_fuel. fold size.
  destruct (slices_loop_inv 1 size (capsule_id_for fresh capsules) [] slices
    (mkPlanState [] 0 (mkZone 0 0 []) 0 0)) as (st & -> & Hi); [done..| |by exists st].
  constructor; try done. intros i z Hz.
  apply list_lookup_singleton_Some in Hz as [-> <-]. done.
Qed.

Lemma final_zones_segments st :
  concat (zone_segments <$> final_zones st) =
  concat (zone_segments <$> ps_zones st) ++ zone_segments (current_zone st).
Proof.
  unfold final_zones. case_bool_decide as Hc.
  - by rewrite Hc, app_nil_r.
  - rewrite fmap_app, concat_app. simpl. by rewrite app_nil_r.
Qed.

(** The bytes a reference stands for; tiling references stand for the data. *)
Definition ref_chunk (data : bytes) (r : SegmentRef) : bytes :=
  takeZ (ref_length r) (dropZ (ref_offset r) data).

Lemma tiles_data size capsule data a refs b :
  0 ≤ a → tiles size capsule data a refs b →
  concat (ref_chunk data <$> refs) = takeZ (b - a) (dropZ a data).
Proof.
  revert a. induction refs as [|r refs IH]; intros a Ha; simpl.
  - intros ->. by rewrite Z.sub_diag, takeZ_le0.
  - intros (_ & Ho & Hl & Hin & _ & Ht). pose proof (tiles_le _ _ _ _ _ _ Ht).
    change (list_fmap _ _ (ref_chunk data) refs) with (ref_chunk data <$> refs).
    rewrite (IH (a + ref_length r)) by (done || lia). unfold ref_chunk. rewrite Ho.
    rewrite !takeZ_take, !dropZ_drop.
    replace (Z.to_nat (b - a)) with (Z.to_nat (ref_length r) + Z.to_nat (b - (a + ref_length r)))%nat
      by lia.
    replace (Z.to_nat (a + ref_length r)) with (Z.to_nat a + Z.to_nat (ref_length r))%nat by lia.
    by rewrite <- drop_drop, take_take_drop.
Qed.

(** A round with segment size zero stays where it is. *)
Lemma slice_loop_zero fuel capsule slice st :
  0 < lenZ slice → slice_loop fuel 0 capsule slice 0 st = None.
Proof.
  intros Hl. revert st. induction fuel as [|fuel IH]; intros st; [done|]. cbn [slice_loop].
  destruct (Z.ltb_spec 0 (lenZ slice)); [|lia]. unfold plan_step.
  replace (Z.min (lenZ slice - 0) 0) with 0 by lia. apply IH.
Qed.
End layout_lemmas.

(** ** Properties *)
Section layout_properties.
Context `{Crates}.

(** C26: for a positive segment size [build_plan] terminates and partitions the input:
    the segment references of its zones, in order, tile the concatenated slices
    without gap or overlap, each at most one segment long and carrying the hash of
    its own bytes; zones are numbered from zero and seeded by their number, none is
    empty, and each but the last holds at least one and less than two segment sizes. *)
Theorem build_plan_partitions policy fresh capsules slices :
  let size := default_segment_size (strategy (layout policy)) in
  0 < size → lenZ (concat slices) < 2 ^ 64 →
  ∃ plan, build_plan policy fresh capsules slices = Some plan ∧ merkle_root plan = None ∧
    tiles size (capsule_id_for fresh capsules) (concat slices) 0
      (concat (zone_segments <$> zones plan)) (lenZ (concat slices)) ∧
    numbered (zones plan) ∧
    Forall (λ z, zone_segments z ≠ []) (zones plan) ∧
    ∀ i z, zones plan !! i = Some z → (S i < length (zones plan))%nat → zone_closed size z.
Proof.
  intros size Hsize Htot.
  destruct (build_plan_final policy fresh capsules slices Hsize Htot) as (st & -> & [Ht Hcl Hnum Hid Hus Hop]).
  fold size in Ht, Hcl.
  assert (Forall (λ z, zone_segments z ≠ []) (ps_zones st)) as Hne.
  { eapply Forall_impl; [done|]. intros z [Hz _] Hn. unfold zone_bytes in Hz.
    rewrite Hn in Hz. unfold sumZ in Hz. simpl in Hz. lia. }
  eexists. split; [reflexivity|]. split; [done|].
  unfold final_zones. case_bool_decide as Hc; cbn [zones].
  - rewrite Hc, app_nil_r in Ht. split_and!; try done.
    + intros i z Hz. apply Hnum. by apply lookup_app_l_Some.
    + intros i z Hz _. rewrite Forall_lookup in Hcl. by apply (Hcl i).
  - split_and!; try done.
    + rewrite fmap_app, concat_app. simpl. by rewrite app_nil_r.
    + apply Forall_app. by split; [|constructor].
    + intros i z Hz Hi. rewrite length_app in Hi. simpl in Hi.
      rewrite lookup_app_l in Hz by lia. rewrite Forall_lookup in Hcl. by apply (Hcl i).
Qed.

(** A fixed strategy with segment size zero makes the planner loop for ever on any
    non-empty input: no amount of fuel lets it finish. *)
Theorem zero_segment_size_diverges extra policy fresh capsules slice slices :
  strategy (layout policy) = Fixed 0 → slice ≠ [] →
  build_plan_fuel extra policy fresh capsules (slice :: slices) = None.
Proof.
  intros Hs Hne. unfold build_plan_fuel. rewrite Hs. cbn [default_segment_size slices_loop].
  rewrite slice_loop_zero; [done|]. destruct slice; [done|]. rewrite lenZ_cons.
  pose proof (lenZ_nonneg slice). lia.
Qed.

(** The engine a policy compiles to plans like the fixed planner; only the
    quantum-ready one adds a root, the hash of all the data for either algorithm.
    The ZNS and learned strategies panic in the default build. *)
Theorem engine_synthesizes policy fresh capsules slices :
  match LayoutEngine_new policy with
  | Ok engine =>
      synthesize engine fresh capsules slices policy =
        (λ plan, mkZonePlan (zones plan)
           (match strategy (layout policy) with
            | QuantumReady _ => Some (hash_content (concat slices))
            | _ => None
            end)) <$> build_plan policy fresh capsules slices
  | Err _ => False
  | Panic =>
      (∃ z g, strategy (layout policy) = ZnsGraph z g) ∨
      (∃ path, strategy (layout policy) = Learned path)
  end.
Proof.
  assert (∀ plan, build_plan policy fresh capsules slices = Some plan → merkle_root plan = None) as Hm.
  { intros plan. unfold build_plan, build_plan_fuel. destruct (slices_loop _ _ _ _ _); [|done].
    intros ?; by simplify_eq. }
  unfold LayoutEngine_new, compile, synthesize, offload_synthesize.
  destruct (strategy (layout policy)) as [size| |z g|path|algo] eqn:Hs; try (by eauto).
  1-2: destruct (build_plan policy fresh capsules slices) as [[zs root]|] eqn:Hp; [|done];
    specialize (Hm _ eq_refl); simpl in *; by subst.
  destruct (build_plan policy fresh capsules slices) as [[zs root]|]; [|done].
  by destruct algo.
Qed.
End layout_properties.

(** ** Witnesses *)
Definition with_strategy (s : LayoutStrategy) : Policy :=
  {| compression := LZ4 1; dedupe := true; compact_interval_secs := None; erasure_profile := None;
     encryption := Disabled; crypto_profile := Classical;
     layout := mkLayoutPolicy s (6, 2) (f32_lit 7 1);
     rpo := 0; latency_target := 0; sovereignty := Local |}.

Definition sample_slices : list bytes := [[x01; x02; x03; x04; x05]; []; [x06; x07]].
Definition sample_id : CapsuleId := mkCapsuleId (replicate 16 x01).

Lemma build_plan_partitions_witness :
  ∃ plan, build_plan (H := toy_crates) (with_strategy (Fixed 2)) sample_id [] sample_slices = Some plan ∧
    (concat (zone_segments <$> zones plan)) ≠ [] ∧
    tiles (H := toy_crates) 2 sample_id (concat sample_slices) 0
      (concat (zone_segments <$> zones plan)) 7.
Proof.
  destruct (build_plan_partitions (H := toy_crates) (with_strategy (Fixed 2)) sample_id []
    sample_slices eq_refl eq_refl) as (plan & Hp & _ & Ht & _).
  exists plan. split; [exact Hp|]. split; [|exact Ht].
  vm_compute in Hp. injection Hp as <-. discriminate.
Defined.

Lemma zero_segment_size_diverges_witness :
  build_plan_fuel (H := toy_crates) 1000 (with_strategy (Fixed 0)) sample_id [] [[x01]] = None.
Proof.
  apply (zero_segment_size_diverges (H := toy_crates) 1000 (with_strategy (Fixed 0)) sample_id []
    [x01] [] eq_refl). discriminate.
Defined.
