(* ===== verification/Scaling.v ===== *)
(** Crate [scaling], crates/scaling/src/compiler.rs: the policy compiler that turns
    telemetry into scaling actions, over a snapshot of the mesh.  Byte counts are
    [u64] and percentages are IEEE floats, as in the code. *)
From S2P Require Import Prelude Errors Common.
From Stdlib Require Import Floats.SpecFloat.

Inductive ReplicationStrategy :=
| MetroSync (replica_count : Z)
| AsyncWithBatching (rpo : Duration)
| NoReplication.

Inductive EvacuationUrgency := Immediate | Gradual.

Inductive ScalingAction :=
| Replicate (capsule_id : CapsuleId) (strategy : ReplicationStrategy) (targets : list NodeId)
| Migrate (capsule_id : CapsuleId) (reason : string) (destination : NodeId) (transform : bool)
| Evacuate (source_node : NodeId) (reason : string) (urgency : EvacuationUrgency)
| Rebalance (overloaded_nodes underutilized_nodes : list NodeId)
| Federate (capsule_id : CapsuleId) (zone : ZoneId)
| ShardEC (capsule_id : CapsuleId) (parity : Z) (zones : list ZoneId).

(** [EdgeTier] is [NetworkTier::Edge]. *)
Inductive NetworkTier := Standard | Premium | EdgeTier.

Record NodeInfo := mkNodeInfo {
  zone : ZoneId;
  available_bytes : Z;
  used_bytes : Z;
  network_tier : NetworkTier;
}.

Record MeshState := mkMeshState {
  nodes : list (NodeId * NodeInfo);
  local_zone : ZoneId;
}.

#[export] Instance ReplicationStrategy_eq_dec : EqDecision ReplicationStrategy.
Proof. solve_decision. Defined.

(** ** The mesh snapshot *)

(** [self.nodes.iter().find(|(id, _)| *id == node_id)] *)
Definition find_node (m : MeshState) (id : NodeId) : option NodeInfo :=
  snd <$> find (λ kv, bool_decide (fst kv = id)) (nodes m).

(** [.map(f).unwrap_or(d)] *)
Definition map_or {A B : Type} (d : B) (f : A → B) (o : option A) : B :=
  match o with
  | Some a => f a
  | None => d
  end.

Definition available_nodes (m : MeshState) : list NodeId := (nodes m).*1.

Definition zone_ids (m : MeshState) : list ZoneId :=
  foldl (λ zs kv,
    if existsb (λ z, bool_decide (z = zone (snd kv))) zs then zs else zs ++ [zone (snd kv)])
    [local_zone m] (nodes m).

Definition satisfies_sovereignty (m : MeshState) (id : NodeId) (s : SovereigntyLevel) : bool :=
  match s with
  | Global => true
  | Zone => map_or false (λ info, bool_decide (zone info = local_zone m)) (find_node m id)
  | Local => false
  end.

Definition is_metro_zone (m : MeshState) (id : NodeId) : bool :=
  map_or false (λ info, match zone info with Metro _ => true | _ => false end) (find_node m id).

Definition is_same_geo_region (m : MeshState) (id : NodeId) : bool :=
  map_or false (λ info,
    match local_zone m, zone info with
    | Metro n1, Metro n2 => String.eqb n1 n2
    | Geo n1, Geo n2 => String.eqb n1 n2
    | _, _ => false
    end) (find_node m id).

Definition has_capacity (m : MeshState) (id : NodeId) (required_bytes : Z) : bool :=
  map_or false (λ info, required_bytes <=? available_bytes info) (find_node m id).

Definition utilization (m : MeshState) (id : NodeId) : Z :=
  map_or 100 (λ info,
    let total := u64_add (available_bytes info) (used_bytes info) in
    if total =? 0 then 0 else u64_mul (used_bytes info) 100 `div` total) (find_node m id).

Definition find_underutilized_nodes (m : MeshState) (threshold_percent : f32) : list NodeId :=
  (filter (λ kv,
     let info := snd kv in
     let total := u64_add (available_bytes info) (used_bytes info) in
     (if total =? 0 then false
      else f32_lt (f32_mul (f32_div (f32_of_Z (used_bytes info)) (f32_of_Z total)) (f32_of_Z 100))
             threshold_percent) = true) (nodes m)).*1.

Definition requires_transformation (m : MeshState) (destination : NodeId) (policy : Policy) : bool :=
  if bool_decide (sovereignty policy = Zone) then
    map_or false (λ info, negb (bool_decide (zone info = local_zone m))) (find_node m destination)
  else false.

(** ** The compiler *)
Record PolicyCompiler := mkPolicyCompiler { default_policy : Policy }.

Definition with_defaults : PolicyCompiler := mkPolicyCompiler metro_sync.

Definition retain (f : NodeId → bool) (l : list NodeId) : list NodeId := filter (λ x, f x = true) l.

Definition select_replication_targets (policy : Policy) (m : MeshState) : list NodeId :=
  let candidates := available_nodes m in
  let candidates := retain (λ id, satisfies_sovereignty m id (sovereignty policy)) candidates in
  let candidates :=
    if latency_target policy <? from_millis 2 then retain (is_metro_zone m) candidates
    else if latency_target policy <? from_millis 100 then retain (is_same_geo_region m) candidates
    else candidates in
  takeZ 2 (retain (λ id, has_capacity m id 1000000) candidates).

(** [min_by_key]: the first of the least elements. *)
Fixpoint min_by_key {A : Type} (key : A → Z) (l : list A) : option A :=
  match l with
  | [] => None
  | x :: r =>
      match min_by_key key r with
      | None => Some x
      | Some y => if key y <? key x then Some y else Some x
      end
  end.

Definition select_migration_target (policy : Policy) (m : MeshState) : option NodeId :=
  let candidates := available_nodes m in
  let candidates := retain (λ id, satisfies_sovereignty m id (sovereignty policy)) candidates in
  let candidates :=
    if latency_target policy <? from_millis 2 then retain (is_metro_zone m) candidates
    else candidates in
  min_by_key (utilization m) (retain (λ id, has_capacity m id 10000000) candidates).

Definition compile_replication_strategy (capsule_id : CapsuleId) (policy : Policy) (m : MeshState) :
    list ScalingAction :=
  let strategy :=
    if rpo policy =? 0 then MetroSync 2
    else if rpo policy <? from_secs 60 then AsyncWithBatching (rpo policy)
    else NoReplication in
  if bool_decide (strategy = NoReplication) then []
  else
    let targets := select_replication_targets policy m in
    if bool_decide (targets = []) then [] else [Replicate capsule_id strategy targets].

Definition compile_migration_for_heat (capsule_id : CapsuleId) (accesses_per_min : Z)
    (policy : Policy) (m : MeshState) : list ScalingAction :=
  if accesses_per_min <=? 100 then []
  else if from_millis 10 <=? latency_target policy then []
  else
    match select_migration_target policy m with
    | None => []
    | Some destination =>
        let transform := requires_transformation m destination policy in
        [Migrate capsule_id ("heat_spike_" +:+ pretty accesses_per_min +:+ "_accesses_per_min")
           destination transform]
    end.

Definition compile_rebalancing (node_id : NodeId) (used_percent : f32) (m : MeshState) :
    list ScalingAction :=
  if f32_lt used_percent (f32_of_Z 80) then []
  else
    let underutilized := find_underutilized_nodes m (f32_of_Z 50) in
    if bool_decide (underutilized = []) then [] else [Rebalance [node_id] underutilized].

Definition compile_evacuation (node_id : NodeId) (reason : string) (m : MeshState) :
    list ScalingAction :=
  let urgency :=
    if str_contains reason "disk_failure" || str_contains reason "power" then Immediate else Gradual in
  [Evacuate node_id reason urgency].

(** The validity test of each arm is a placeholder in the code. *)
Definition validate_sovereignty (actions : list ScalingAction) (policy : Policy) :
    list ScalingAction :=
  if bool_decide (sovereignty policy = Global) then actions
  else
    filter (λ action,
      (match action with
       | Replicate _ _ targets => forallb (λ _, true) targets
       | Migrate _ _ _ _ => true
       | Federate _ _ | ShardEC _ _ _ => true
       | Evacuate _ _ _ | Rebalance _ _ => true
       end) = true) actions.

(** The capacity figures of a [CapacityThreshold] event. *)
Definition used_percent_of (used total : Z) : f32 :=
  if 0 <? total then f32_of_f64 (f64_mul (f64_div (f64_of_Z used) (f64_of_Z total)) (f64_of_Z 100))
  else f32_of_Z 0.

Definition normalized_threshold_of (threshold_pct : f64) : f32 :=
  if SFleb (SFabs threshold_pct) (f64_of_Z 1) then f32_of_f64 (f64_mul threshold_pct (f64_of_Z 100))
  else f32_of_f64 threshold_pct.

Definition compile_scaling_actions (c : PolicyCompiler) (event : Telemetry) (policy : Policy)
    (m : MeshState) : list ScalingAction :=
  let actions :=
    match event with
    | NewCapsule id _ _ => compile_replication_strategy id policy m
    | HeatSpike id accesses_per_min _ => compile_migration_for_heat id accesses_per_min policy m
    | CapacityThreshold node_id used total threshold_pct =>
        let used_percent := used_percent_of used total in
        if f32_ge used_percent (normalized_threshold_of threshold_pct)
        then compile_rebalancing node_id used_percent m
        else []
    | ViewProjection id _ =>
        (if bool_decide (sovereignty policy = Local) then [] else [Federate id (local_zone m)]) ++
        (if bool_decide (zone_ids m = []) then [] else [ShardEC id 2 (zone_ids m)])
    | NodeDegraded node_id reason => compile_evacuation node_id reason m
    end in
  validate_sovereignty actions policy.

Definition compile_scaling (policy : Policy) (event : Telemetry) (m : MeshState) :
    list ScalingAction :=
  compile_scaling_actions with_defaults event policy m.

(** ** Specification *)

(** A mesh node that may hold a replica. *)
Definition replica_eligible (m : MeshState) (policy : Policy) (id : NodeId) : Prop :=
  ∃ info, find_node m id = Some info ∧
    match sovereignty policy with
    | Global => True
    | Zone => zone info = local_zone m
    | Local => False
    end ∧
    (latency_target policy < from_millis 2 → ∃ n, zone info = Metro n) ∧
    (from_millis 2 ≤ latency_target policy < from_millis 100 →
       zone info = local_zone m ∧ ∀ n, zone info ≠ Edge n) ∧
    1000000 ≤ available_bytes info.

(** A mesh node a hot capsule may move to. *)
Definition migration_eligible (m : MeshState) (policy : Policy) (id : NodeId) : Prop :=
  ∃ info, find_node m id = Some info ∧
    match sovereignty policy with
    | Global => True
    | Zone => zone info = local_zone m
    | Local => False
    end ∧
    (latency_target policy < from_millis 2 → ∃ n, zone info = Metro n) ∧
    10000000 ≤ available_bytes info.

(** ** Lemmas *)
Section scaling_lemmas.
Implicit Types m : MeshState.

Lemma retain_elem f l x : x ∈ retain f l ↔ f x = true ∧ x ∈ l.
Proof. unfold retain. by rewrite list_elem_of_filter. Qed.

Lemma retain_sublist f l : retain f l `sublist_of` l.
Proof. apply sublist_filter. Qed.

Lemma takeZ_sublist {A} n (l : list A) : takeZ n l `sublist_of` l.
Proof. rewrite takeZ_take. apply sublist_take. Qed.

Lemma validate_sovereignty_id actions policy : validate_sovereignty actions policy = actions.
Proof.
  unfold validate_sovereignty. case_bool_decide; [done|].
  induction actions as [|a actions IH]; [done|]. rewrite filter_cons_True; [by rewrite IH|].
  destruct a; try done. apply forallb_forall. done.
Qed.

Lemma sovereignty_iff m policy id :
  satisfies_sovereignty m id (sovereignty policy) = true ∧ is_Some (find_node m id) ↔
  ∃ info, find_node m id = Some info ∧
    match sovereignty policy with
    | Global => True
    | Zone => zone info = local_zone m
    | Local => False
    end.
Proof.
  unfold satisfies_sovereignty. split.
  - intros [Hs [info Hi]]. exists info. split; [done|]. rewrite Hi in Hs.
    destruct (sovereignty policy); [done| |done]. by apply bool_decide_eq_true in Hs.
  - intros (info & Hi & Hs). split; [|by exists info]. rewrite Hi.
    destruct (sovereignty policy); [done| |done]. by apply bool_decide_eq_true.
Qed.

Lemma metro_iff m id :
  is_metro_zone m id = true ↔ ∃ info, find_node m id = Some info ∧ ∃ n, zone info = Metro n.
Proof.
  unfold is_metro_zone. destruct (find_node m id) as [info|]; simpl.
  - split.
    + intros Hz. exists info. split; [done|]. destruct (zone info); try done. eauto.
    + intros (info' & [= <-] & n & ->). done.
  - split; [done|]. by intros (? & ? & _).
Qed.

Lemma geo_iff m id :
  is_same_geo_region m id = true ↔
  ∃ info, find_node m id = Some info ∧ zone info = local_zone m ∧ ∀ n, zone info ≠ Edge n.
Proof.
  unfold is_same_geo_region. destruct (find_node m id) as [info|]; simpl.
  - split.
    + intros Hz. exists info. split; [done|].
      destruct (local_zone m), (zone info); try done; apply String.eqb_eq in Hz as ->; done.
    + intros (info' & [= <-] & <- & Hn). destruct (zone info) as [n|n|n]; try apply String.eqb_refl.
      by destruct (Hn n).
  - split; [done|]. by intros (? & ? & _).
Qed.

Lemma capacity_iff m id n :
  has_capacity m id n = true ↔ ∃ info, find_node m id = Some info ∧ n ≤ available_bytes info.
Proof.
  unfold has_capacity. destruct (find_node m id) as [info|]; simpl.
  - rewrite Z.leb_le. split; [eauto|]. by intros (? & [= <-] & ?).
  - split; [done|]. by intros (? & ? & _).
Qed.

(** The filters of the code, together, decide eligibility. *)
Definition replica_candidates policy m : list NodeId :=
  retain (λ id, has_capacity m id 1000000)
    (let candidates := retain (λ id, satisfies_sovereignty m id (sovereignty policy)) (available_nodes m) in
     if latency_target policy <? from_millis 2 then retain (is_metro_zone m) candidates
     else if latency_target policy <? from_millis 100 then retain (is_same_geo_region m) candidates
     else candidates).

Lemma replica_candidates_elem policy m id :
  id ∈ replica_candidates policy m ↔ id ∈ available_nodes m ∧ replica_eligible m policy id.
Proof.
  unfold replica_candidates. rewrite retain_elem, capacity_iff.
  assert (satisfies_sovereignty m id (sovereignty policy) = true →
    ∀ info, find_node m id = Some info →
    match sovereignty policy with
    | Global => True
    | Zone => zone info = local_zone m
    | Local => False
    end) as Hsov.
  { intros Hs info Hi. destruct (proj1 (sovereignty_iff m policy id)) as (info' & Hi' & ?); [eauto|].
    by simplify_eq. }
  assert (∀ info, find_node m id = Some info →
    match sovereignty policy with
    | Global => True
    | Zone => zone info = local_zone m
    | Local => False
    end → satisfies_sovereignty m id (sovereignty policy) = true) as Hsov'.
  { intros info Hi Hs. apply (sovereignty_iff m policy id). eauto. }
  split.
  - intros [(info & Hi & Hcap) Hel]. destruct (Z.ltb_spec (latency_target policy) (from_millis 2)).
    + apply retain_elem in Hel as [(info' & Hi' & Hz)%metro_iff [Hs Ha]%retain_elem].
      simplify_eq. split; [done|]. exists info.
      split; [done|]. split; [by apply Hsov|]. split; [done|]. split; [lia|done].
    + destruct (Z.ltb_spec (latency_target policy) (from_millis 100)).
      * apply retain_elem in Hel as [(info' & Hi' & Hz)%geo_iff [Hs Ha]%retain_elem].
        simplify_eq. split; [done|]. exists info.
        split; [done|]. split; [by apply Hsov|]. split; [lia|]. split; [done|done].
      * apply retain_elem in Hel as [Hs Ha]. split; [done|]. exists info.
        split; [done|]. split; [by apply Hsov|]. split; [lia|]. split; [lia|done].
  - intros [Ha (info & Hi & Hs & Hm & Hg & Hcap)]. split; [eauto|].
    assert (id ∈ retain (λ id, satisfies_sovereignty m id (sovereignty policy)) (available_nodes m)) as Hr.
    { apply retain_elem. split; [|done]. by eapply Hsov'. }
    destruct (Z.ltb_spec (latency_target policy) (from_millis 2)).
    + apply retain_elem. split; [|done]. apply metro_iff. eauto.
    + destruct (Z.ltb_spec (latency_target policy) (from_millis 100)); [|done].
      apply retain_elem. split; [|done]. apply geo_iff. exists info. split; [done|]. apply Hg. lia.
Qed.

Lemma replica_candidates_sublist policy m : replica_candidates policy m `sublist_of` available_nodes m.
Proof.
  unfold replica_candidates. etrans; [apply retain_sublist|].
  destruct (_ <? _); [|destruct (_ <? _)]; [etrans; [apply retain_sublist|]..|];
    apply retain_sublist.
Qed.

Lemma min_by_key_spec {A} (key : A → Z) l :
  match min_by_key key l with
  | None => l = []
  | Some x => x ∈ l ∧ ∀ y, y ∈ l → key x ≤ key y
  end.
Proof.
  induction l as [|x l IH]; [done|]. simpl. destruct (min_by_key key l) as [y|].
  - destruct IH as [Hy Hmin]. destruct (Z.ltb_spec (key y) (key x)).
    + split; [by right|]. intros z [->|Hz]%elem_of_cons; [lia|by apply Hmin].
    + split; [by left|]. intros z [->|Hz]%elem_of_cons; [lia|]. specialize (Hmin z Hz). lia.
  - subst l. split; [by left|]. intros z [->|Hz]%elem_of_cons; [lia|]. by apply elem_of_nil in Hz.
Qed.

Definition migration_candidates policy m : list NodeId :=
  retain (λ id, has_capacity m id 10000000)
    (let candidates := retain (λ id, satisfies_sovereignty m id (sovereignty policy)) (available_nodes m) in
     if latency_target policy <? from_millis 2 then retain (is_metro_zone m) candidates
     else candidates).

Lemma migration_candidates_elem policy m id :
  id ∈ migration_candidates policy m ↔ id ∈ available_nodes m ∧ migration_eligible m policy id.
Proof.
  unfold migration_candidates. rewrite retain_elem, capacity_iff. split.
  - intros [(info & Hi & Hcap) Hel].
    assert (id ∈ retain (λ id, satisfies_sovereignty m id (sovereignty policy)) (available_nodes m) ∧
      (latency_target policy < from_millis 2 → ∃ n, zone info = Metro n)) as [[Hs Ha]%retain_elem Hm].
    { destruct (Z.ltb_spec (latency_target policy) (from_millis 2)); [|split; [done|lia]].
      apply retain_elem in Hel as [(info' & Hi' & Hz)%metro_iff ?]. simplify_eq. by split. }
    destruct (proj1 (sovereignty_iff m policy id)) as (info' & Hi' & ?); [eauto|]. simplify_eq.
    split; [done|]. exists info. by split_and!.
  - intros [Ha (info & Hi & Hs & Hm & Hcap)]. split; [eauto|].
    assert (id ∈ retain (λ id, satisfies_sovereignty m id (sovereignty policy)) (available_nodes m)) as Hr.
    { apply retain_elem. split; [|done]. apply (sovereignty_iff m policy id). eauto. }
    destruct (Z.ltb_spec (latency_target policy) (from_millis 2)); [|done].
    apply retain_elem. split; [|done]. apply metro_iff. eauto.
Qed.

(** The zones of the mesh, each once, the local one first. *)
Lemma zone_ids_spec m :
  NoDup (zone_ids m) ∧ head (zone_ids m) = Some (local_zone m) ∧
  ∀ z, z ∈ zone_ids m ↔ z = local_zone m ∨ ∃ kv, kv ∈ nodes m ∧ z = zone (snd kv).
Proof.
  unfold zone_ids. set (f := λ zs kv, _).
  assert (∀ l zs, NoDup zs → head zs = Some (local_zone m) →
    NoDup (foldl f zs l) ∧ head (foldl f zs l) = Some (local_zone m) ∧
    ∀ z, z ∈ foldl f zs l ↔ z ∈ zs ∨ ∃ kv, kv ∈ l ∧ z = zone (snd kv)) as Hgen.
  { induction l as [|kv l IH]; intros zs Hnd Hh; simpl.
    - split_and!; [done|done|]. intros z. split; [by left|].
      by intros [?|(kv & []%elem_of_nil & _)].
    - assert (NoDup (f zs kv) ∧ head (f zs kv) = Some (local_zone m) ∧
        ∀ z, z ∈ f zs kv ↔ z ∈ zs ∨ z = zone (snd kv)) as (H1 & H2 & H3).
      { unfold f. destruct (existsb _ zs) eqn:He.
        - apply existsb_exists in He as (z & Hz%list_elem_of_In & ->%bool_decide_eq_true).
          split_and!; [done|done|]. intros z'. split; [by left|]. by intros [?| ->].
        - assert (zone (snd kv) ∉ zs) as Hni.
          { intros Hz. apply Bool.not_true_iff_false in He. apply He. apply existsb_exists.
            exists (zone (snd kv)). split; [by apply list_elem_of_In|by apply bool_decide_eq_true]. }
          split_and!.
          + apply NoDup_app. split_and!; [done| |apply NoDup_singleton].
            by intros z Hz ->%list_elem_of_singleton.
          + by destruct zs.
          + intros z. rewrite elem_of_app, list_elem_of_singleton. done. }
      destruct (IH (f zs kv) H1 H2) as (? & ? & H4). split_and!; [done|done|].
      intros z. rewrite H4, H3. split.
      + intros [[?| ->]|(kv' & ? & ->)]; [by left|right|right].
        * exists kv. split; [by left|done].
        * exists kv'. split; [by right|done].
      + intros [?|(kv' & [->|?]%elem_of_cons & ->)]; [by left; left|by left; right|].
        right. by exists kv'. }
  destruct (Hgen (nodes m) [local_zone m]) as (? & ? & Hz);
    [apply NoDup_singleton|done|]. split_and!; [done|done|].
  intros z. rewrite Hz, list_elem_of_singleton. done.
Qed.
End scaling_lemmas.

(** ** Properties *)
Section scaling_properties.
Implicit Types m : MeshState.

(** A new capsule is replicated exactly when its recovery point is below a minute
    and some mesh node is eligible.  The action's strategy follows the recovery
    point; its one or two targets are the first eligible nodes of the mesh, so every
    target satisfies the policy's sovereignty, latency class and capacity, and a
    capsule with local sovereignty is never replicated. *)
Theorem new_capsule_replication c id p node policy m :
  match compile_scaling_actions c (NewCapsule id p node) policy m with
  | [] => from_secs 60 ≤ rpo policy ∨
      ∀ x, x ∈ available_nodes m → ¬ replica_eligible m policy x
  | [Replicate id' strategy targets] =>
      id' = id ∧ rpo policy < from_secs 60 ∧ sovereignty policy ≠ Local ∧
      strategy = (if rpo policy =? 0 then MetroSync 2 else AsyncWithBatching (rpo policy)) ∧
      (1 ≤ length targets ≤ 2)%nat ∧ targets `sublist_of` available_nodes m ∧
      Forall (replica_eligible m policy) targets
  | _ => False
  end.
Proof.
  unfold compile_scaling_actions. rewrite validate_sovereignty_id.
  unfold compile_replication_strategy, select_replication_targets.
  fold (replica_candidates policy m).
  set (strategy := if rpo policy =? 0 then MetroSync 2
    else if rpo policy <? from_secs 60 then AsyncWithBatching (rpo policy) else NoReplication).
  assert (strategy = NoReplication ∧ from_secs 60 ≤ rpo policy ∨
    strategy ≠ NoReplication ∧ rpo policy < from_secs 60 ∧
    strategy = (if rpo policy =? 0 then MetroSync 2 else AsyncWithBatching (rpo policy))) as Hst.
  { subst strategy. unfold from_secs. destruct (Z.eqb_spec (rpo policy) 0); [right; split_and!; done || lia|].
    destruct (Z.ltb_spec (rpo policy) (60 * 1000000000)); [by right|by left]. }
  destruct Hst as [[-> Hr]|(Hne & Hr & Hs)].
  { rewrite bool_decide_true by done. by left. }
  rewrite bool_decide_false by done. case_bool_decide as Ht.
  - right. intros x Hx Hel.
    assert (x ∈ replica_candidates policy m) as Hc by (by apply replica_candidates_elem).
    destruct (replica_candidates policy m); [by apply elem_of_nil in Hc|done].
  - split; [done|]. split; [done|].
    assert (Forall (replica_eligible m policy) (takeZ 2 (replica_candidates policy m))) as Hf.
    { apply Forall_forall. intros x Hx.
      assert (x ∈ replica_candidates policy m) as Hc
        by (eapply elem_of_sublist; [done|apply takeZ_sublist]).
      by apply replica_candidates_elem in Hc as [_ ?]. }
    split_and!; try done.
    + destruct (takeZ 2 (replica_candidates policy m)) as [|x l]; [done|].
      apply Forall_cons in Hf as [(info & _ & Hsv & _) _]. by destruct (sovereignty policy).
    + destruct (takeZ 2 (replica_candidates policy m)); [done|]. simpl. lia.
    + rewrite takeZ_take, length_take. lia.
    + etrans; [apply takeZ_sublist|]. apply replica_candidates_sublist.
Qed.

(** A heat spike moves a capsule exactly when it is accessed more than 100 times a
    minute, its latency target is below 10 ms and some mesh node is eligible; the
    destination is an eligible node of least utilization, and the action never asks
    for a transformation. *)
Theorem heat_spike_migration c id accesses node policy m :
  match compile_scaling_actions c (HeatSpike id accesses node) policy m with
  | [] => accesses ≤ 100 ∨ from_millis 10 ≤ latency_target policy ∨
      ∀ x, x ∈ available_nodes m → ¬ migration_eligible m policy x
  | [Migrate id' reason destination transform] =>
      id' = id ∧ 100 < accesses ∧ latency_target policy < from_millis 10 ∧
      destination ∈ available_nodes m ∧ migration_eligible m policy destination ∧
      (∀ x, x ∈ available_nodes m → migration_eligible m policy x →
         utilization m destination ≤ utilization m x) ∧
      transform = false
  | _ => False
  end.
Proof.
  unfold compile_scaling_actions. rewrite validate_sovereignty_id.
  unfold compile_migration_for_heat, select_migration_target. fold (migration_candidates policy m).
  destruct (Z.leb_spec accesses 100); [by left|].
  destruct (Z.leb_spec (from_millis 10) (latency_target policy)); [by right; left|].
  pose proof (min_by_key_spec (utilization m) (migration_candidates policy m)) as Hmin.
  destruct (min_by_key _ _) as [d|].
  - destruct Hmin as [[Ha Hel]%migration_candidates_elem Hmin].
    split_and!; try done.
    + intros x Hx Hx'. apply Hmin. by apply migration_candidates_elem.
    + destruct Hel as (info & Hi & Hs & _). unfold requires_transformation. rewrite Hi. simpl.
      destruct (sovereignty policy); try done. simpl. rewrite Hs. by rewrite bool_decide_true.
  - right; right. intros x Hx Hel.
    assert (x ∈ migration_candidates policy m) as Hc by (by apply migration_candidates_elem).
    rewrite Hmin in Hc. by apply elem_of_nil in Hc.
Qed.

(** The final validation step filters nothing: its tests are placeholders, so it
    returns every list of actions unchanged, even replication or migration to nodes
    the policy's sovereignty excludes. *)
Theorem validation_is_identity actions policy : validate_sovereignty actions policy = actions.
Proof. apply validate_sovereignty_id. Qed.

(** A view projection always shards the capsule's metadata over every zone of the
    mesh, whatever the policy's sovereignty: a capsule with local sovereignty is not
    federated, yet the shard action still names every remote zone once. *)
Theorem view_projection_shards_everywhere c id view policy m :
  ∃ zs, NoDup zs ∧ head zs = Some (local_zone m) ∧
    (∀ z, z ∈ zs ↔ z = local_zone m ∨ ∃ kv, kv ∈ nodes m ∧ z = zone (snd kv)) ∧
    compile_scaling_actions c (ViewProjection id view) policy m =
      (if bool_decide (sovereignty policy = Local) then [] else [Federate id (local_zone m)])
      ++ [ShardEC id 2 zs].
Proof.
  destruct (zone_ids_spec m) as (Hnd & Hh & Hz). exists (zone_ids m). split_and!; [done..|].
  unfold compile_scaling_actions. rewrite validate_sovereignty_id.
  f_equal. rewrite bool_decide_false; [done|]. intros Hn. by rewrite Hn in Hh.
Qed.
End scaling_properties.
