(* ===== verification/Mesh.v ===== *)
(** Crate [scaling], crates/scaling/src/lib.rs: the mesh node, its table of peers, the
    mirroring of segments to a peer and the listener at the other end; and the cluster
    handles of vendor/raft-rs it calls for federation.

    What leaves a node is on its [wire], one entry per connection in the order they were
    made, and in its [journal], the log lines that say what it did to other nodes and what
    the agent decided (the stub of the cluster does nothing else, so there a line stands for
    the call); lines about its own progress are left out.  A schedule gives the
    outcomes of the network calls, as for files: a failed write may have sent any prefix. *)
From S2P Require Import Prelude Errors Common Scaling.

(** A socket address, by its text. *)
Abbreviation SocketAddr := string.

Record NodeCapabilities := mkNodeCapabilities {
  has_nvram : bool;
  has_gpu : bool;
  cap_network_tier : NetworkTier;
  cap_available_bytes : Z;
}.

Definition NodeCapabilities_default : NodeCapabilities := mkNodeCapabilities true false Standard 1000000000000.

Record MetadataShard := mkMetadataShard {
  shard_id : Z;
  shard_owner : NodeId;
  shard_zone : ZoneId;
}.

Record MeshNode := mkMeshNode {
  mn_id : NodeId;
  mn_zone : ZoneId;
  mn_capabilities : NodeCapabilities;
  mn_peers : gmap NodeId SocketAddr;
  mn_listen_addr : SocketAddr;
}.

Inductive LogLine :=
| SegmentMirrored (target : NodeId) (bytes : Z)
| ReplicatingMetadata (cluster : string) (capsule : CapsuleId) (zone : string)
| StoringShard (cluster : string) (shard bytes : Z)
| ResolvedTarget (capsule : CapsuleId) (target : NodeId)
| TriggeredFederation (capsule : CapsuleId) (zone : string)
| StoredShard (capsule : CapsuleId) (shard : Z) (owner : NodeId) (zone : ZoneId)
| MirrorReadError
| AcceptError
| AgentStarted (node : NodeId)
| ExecutingReplication (capsule : CapsuleId) (strategy : ReplicationStrategy) (target_count : Z)
| ExecutingMigration (capsule : CapsuleId) (destination : NodeId) (reason : string) (transform : bool)
| FederateNoop (capsule : CapsuleId) (zone : ZoneId)
| ShardNoop (capsule : CapsuleId) (shard_targets : Z)
| ExecutingEvacuation (source : NodeId) (reason : string) (urgency : EvacuationUrgency)
| ExecutingRebalancing (overloaded_count underutilized_count : Z)
| TelemetryClosed.

Record Mesh := mkMesh {
  node : MeshNode;
  net_faults : faults;
  wire : list (SocketAddr * bytes);
  journal : list LogLine;
}.

Definition set_wire (f : faults) (w : list (SocketAddr * bytes)) (m : Mesh) : Mesh :=
  mkMesh (node m) f w (journal m).

Definition tell (l : LogLine) : M Mesh Error unit :=
  modify (λ m, mkMesh (node m) (net_faults m) (wire m) (journal m ++ [l])).

(** ** The node *)
Definition MeshNode_new (id : NodeId) (zone : ZoneId) (listen_addr : SocketAddr) : MeshNode :=
  mkMeshNode id zone NodeCapabilities_default ∅ listen_addr.

Definition register_peer (peer_id : NodeId) (addr : SocketAddr) : M Mesh Error unit :=
  modify (λ m, let n := node m in
    mkMesh (mkMeshNode (mn_id n) (mn_zone n) (mn_capabilities n) (<[peer_id := addr]> (mn_peers n)) (mn_listen_addr n))
      (net_faults m) (wire m) (journal m)).

Section mesh.
Context `{HashOrder}.

Definition discover_peers : M Mesh Error (list NodeId) := gets (λ m, (hash_iter (mn_peers (node m))).*1).

(** *** Sending *)

(** [TcpStream::connect(addr)] *)
Definition connect (addr : SocketAddr) : M Mesh Error unit := λ m,
  match next_fault (net_faults m) with
  | (None, fs) => (Ok tt, set_wire fs (wire m ++ [(addr, [])]) m)
  | (Some _, fs) => (Err (Msg "failed to connect to target"), set_wire fs (wire m) m)
  end.

(** More bytes over the connection made last. *)
Fixpoint push (data : bytes) (w : list (SocketAddr * bytes)) : list (SocketAddr * bytes) :=
  match w with
  | [] => []
  | [(addr, sent)] => [(addr, sent ++ data)]
  | c :: w => c :: push data w
  end.

(** [stream.write_all(data)] *)
Definition stream_write_all (data : bytes) : M Mesh Error unit := λ m,
  match next_fault (net_faults m) with
  | (None, fs) => (Ok tt, set_wire fs (push data (wire m)) m)
  | (Some k, fs) => (Err (Msg "failed to write segment"), set_wire fs (push (takeZ k data) (wire m)) m)
  end.

(** [stream.shutdown()] *)
Definition shutdown : M Mesh Error unit := λ m,
  match next_fault (net_faults m) with
  | (None, fs) => (Ok tt, set_wire fs (wire m) m)
  | (Some _, fs) => (Err (Msg "failed to shutdown stream"), set_wire fs (wire m) m)
  end.

Definition mirror_segment (segment_data : bytes) (target : NodeId) : M Mesh Error unit :=
  let! m := gets (λ m, m) in
  let! target_addr := lift (ok_or (mn_peers (node m) !! target) (Msg "target node not found in peer registry")) in
  connect target_addr ;;;
  stream_write_all segment_data ;;;
  shutdown ;;;
  tell (SegmentMirrored target (lenZ segment_data)).

(** *** Receiving *)

(** [socket.try_read(&mut buf)] *)
Inductive TryRead := ReadEof | ReadBytes (n : Z) | WouldBlock | ReadFailed.

(** What a connection logs.  The bytes read are dropped: no store is at hand. *)
Fixpoint handle_mirror_connection (reads : list TryRead) : list LogLine :=
  match reads with
  | ReadBytes n :: reads => handle_mirror_connection reads
  | ReadFailed :: _ => [MirrorReadError]
  | ReadEof :: _ | WouldBlock :: _ | [] => []
  end.

(** [listener.accept()]: a connection with what its reads will return, or a failure. *)
Inductive Accepted := Connection (reads : list TryRead) | AcceptFailed.

Definition start_mirror_listener (arrivals : list Accepted) : list LogLine :=
  arrivals ≫= λ a,
    match a with
    | Connection reads => handle_mirror_connection reads
    | AcceptFailed => [AcceptError]
    end.

(** *** Federation *)

(** vendor/raft-rs: a cluster is known by its name. *)
Definition RaftCluster_new : string := "space-phase4".
Definition RaftCluster_for_zone (zone : string) : string := "space-phase4-zone-" +:+ zone.

Definition raft_replicate (cluster : string) (capsule : CapsuleId) (zone : string) : M Mesh Error unit :=
  tell (ReplicatingMetadata cluster capsule zone).

Definition store_shard (cluster : string) (shard : Z) (payload : bytes) : M Mesh Error unit :=
  tell (StoringShard cluster shard (lenZ payload)).

Definition resolve_federated (id : CapsuleId) : M Mesh Error NodeId :=
  let! peers := discover_peers in
  let! self := gets (λ m, mn_id (node m)) in
  let target := default self (head peers) in
  tell (ResolvedTarget id target) ;;;
  ret target.

Definition federate_capsule (id : CapsuleId) (zone : ZoneId) : M Mesh Error unit :=
  let cluster := RaftCluster_new in
  let zone_ref := ZoneId_display zone in
  raft_replicate cluster id zone_ref ;;;
  tell (TriggeredFederation id zone_ref).

Definition shard_metadata (id : CapsuleId) (shards : list MetadataShard) (payload : bytes) : M Mesh Error unit :=
  foldM (λ _ shard,
    let cluster := RaftCluster_for_zone (ZoneId_display (shard_zone shard)) in
    store_shard cluster (shard_id shard) payload ;;;
    tell (StoredShard id (shard_id shard) (shard_owner shard) (shard_zone shard))) tt shards.
End mesh.

(** ** Lemmas *)
Section mesh_lemmas.
Context `{HashOrder}.
Implicit Types m : Mesh.

(** What a call adds to the journal, nothing else. *)
Definition says (m : Mesh) (l : list LogLine) : Mesh := mkMesh (node m) (net_faults m) (wire m) (journal m ++ l).

Lemma says_nil m : says m [] = m.
Proof. unfold says. rewrite app_nil_r. by destruct m. Qed.

Lemma says_app m l l' : says (says m l) l' = says m (l ++ l').
Proof. unfold says. simpl. by rewrite app_assoc. Qed.

Lemma push_app data w addr sent : push data (w ++ [(addr, sent)]) = w ++ [(addr, sent ++ data)].
Proof.
  induction w as [|c w IH]; [done|]. rewrite <- app_comm_cons. destruct c as [a b].
  destruct w; simpl in *; [done|]. by rewrite IH.
Qed.

Lemma discover_peers_elem m ps m' p :
  discover_peers m = (Ok ps, m') → m' = m ∧ (p ∈ ps ↔ is_Some (mn_peers (node m) !! p)) ∧ NoDup ps.
Proof.
  intros [= <- <-]. split; [done|]. split; [|auto with space].
  rewrite list_elem_of_fmap. split.
  - intros ([q a] & -> & Hin%hash_iter_elem). by exists a.
  - intros [a Ha]. exists (p, a). split; [done|]. by apply hash_iter_elem.
Qed.

(** A mirror makes at most one connection, to the address of its target, and sends a
    prefix of the segment over it, the whole of it when it succeeds. *)
Lemma mirror_spec data target m :
  let '(r, m') := mirror_segment data target m in
  node m' = node m ∧ r ≠ Panic ∧
  match r with
  | Ok _ => ∃ a, mn_peers (node m) !! target = Some a ∧ wire m' = wire m ++ [(a, data)] ∧
      journal m' = journal m ++ [SegmentMirrored target (lenZ data)]
  | _ => journal m' = journal m ∧
      (wire m' = wire m ∨ ∃ a k, mn_peers (node m) !! target = Some a ∧ wire m' = wire m ++ [(a, takeZ k data)])
  end.
Proof.
  unfold mirror_segment, bind, gets, lift. destruct (mn_peers (node m) !! target) as [a|]; cbn [ok_or];
    [|split; [done|split; [done|split; [done|by left]]]].
  unfold connect. destruct (next_fault (net_faults m)) as [[k|] fs1]; [by split_and!; [..|left]|].
  unfold stream_write_all. cbn [net_faults set_wire]. destruct (next_fault fs1) as [[k|] fs2].
  - cbn [node wire journal set_wire]. rewrite push_app. split; [done|]. split; [done|]. split; [done|]. right. by exists a, k.
  - unfold shutdown. cbn [net_faults set_wire]. destruct (next_fault fs2) as [[k|] fs3]; cbn [node wire journal set_wire modify tell].
    + rewrite push_app. split; [done|]. split; [done|]. split; [done|]. right. exists a, (lenZ data).
      by rewrite takeZ_ge by lia.
    + rewrite push_app. split; [done|]. split; [done|]. by exists a.
Qed.

(** On a quiet network every registered target gets the segment. *)
Lemma mirror_quiet data target a m :
  net_faults m = [] → mn_peers (node m) !! target = Some a →
  mirror_segment data target m =
    (Ok tt, mkMesh (node m) [] (wire m ++ [(a, data)]) (journal m ++ [SegmentMirrored target (lenZ data)])).
Proof.
  intros Hf Ha. unfold mirror_segment, bind, gets, lift, connect, stream_write_all, shutdown, tell, modify.
  rewrite Ha, Hf. cbn. by rewrite push_app.
Qed.

Lemma federate_says id zone m :
  federate_capsule id zone m = (Ok tt, says m
    [ReplicatingMetadata RaftCluster_new id (ZoneId_display zone); TriggeredFederation id (ZoneId_display zone)]).
Proof. unfold federate_capsule, says, bind, raft_replicate, tell, modify. cbn. by rewrite <- app_assoc. Qed.

Definition shard_lines (id : CapsuleId) (payload : bytes) (s : MetadataShard) : list LogLine :=
  [StoringShard (RaftCluster_for_zone (ZoneId_display (shard_zone s))) (shard_id s) (lenZ payload);
   StoredShard id (shard_id s) (shard_owner s) (shard_zone s)].

Lemma shard_metadata_says id shards payload m :
  shard_metadata id shards payload m = (Ok tt, says m (shards ≫= shard_lines id payload)).
Proof.
  revert m. induction shards as [|s l IH]; intros m; [by rewrite says_nil|].
  unfold shard_metadata in *. cbn [foldM mbind list_bind]. unfold bind at 1 2, store_shard, tell, modify.
  rewrite IH. unfold says. cbn. by rewrite <- !app_assoc.
Qed.
End mesh_lemmas.
