(* ===== verification/Replication.v ===== *)
(** What the podms feature adds to an asynchronous write (capsule-registry/src/pipeline.rs,
    the end of [write_capsule_with_policy_async]): the mirroring of a capsule's segments to
    peers of the mesh, the telemetry event, and, with phase4, the federation of the capsule.

    The write itself is AsyncPipeline.v; everything here runs after the capsule is in the
    registry. *)
From S2P Require Import Prelude Errors Common Externals Scaling Mesh.
From S2P Require Nvram Compression KeyManager Encryption Dedup Registry Gc WritePipeline.
From S2P Require PipelineInvariant PipelineTheorems AsyncPipeline AsyncSchedule AsyncInvariant AsyncTheorems.
Import Nvram Compression KeyManager Encryption Registry Gc WritePipeline PipelineInvariant.
Import PipelineTheorems AsyncPipeline AsyncSchedule AsyncTheorems.

(** An unbounded channel: whether its receiver still exists, and what was sent. *)
Record Channel := mkChannel { ch_open : bool; ch_sent : list Telemetry }.

(** [tx.send(event)] *)
Definition send (e : Telemetry) (tx : Channel) : Channel :=
  if ch_open tx then mkChannel true (ch_sent tx ++ [e]) else tx.

Section replication.
Context {JR : JsonDoc RegistryState} {JN : JsonDoc SegmentMap} `{Crates} `{HashOrder}.

(** The pipeline with the mesh node it was given. *)
Record Linked := mkLinked { ln_pipeline : WritePipeline; ln_mesh : Mesh }.

Definition on_log {A : Type} (m : M NvramLog Error A) : M Linked Error A :=
  zoom ln_pipeline (λ p s, mkLinked p (ln_mesh s)) (nv m).
Definition on_mesh {A : Type} (m : M Mesh Error A) : M Linked Error A :=
  zoom ln_mesh (λ x s, mkLinked (ln_pipeline s) x) m.

(** A segment to one target; a failure is logged and the loop goes on. *)
Definition mirror_to (segment_data : bytes) (replicated_count : Z) (target_id : NodeId) : M Linked Error Z :=
  let! r := attempt (E' := Error) (on_mesh (mirror_segment segment_data target_id)) in
  ret (match r with inl _ => replicated_count + 1 | inr _ => replicated_count end).

(** A segment to all targets. *)
Definition mirror_stored (targets : list NodeId) (replicated_count : Z) (seg_id : SegmentId) : M Linked Error Z :=
  let! segment_data := on_log (read seg_id) in
  let! segment_meta := on_log (get_segment_metadata seg_id) in
  foldM (mirror_to segment_data) replicated_count targets.

Definition perform_metro_sync_replication (segment_ids : list SegmentId) : M Linked Error Z :=
  let! peers := on_mesh discover_peers in
  match peers with
  | [] => ret 0
  | _ =>
      let target_count := Z.min 2 (lenZ peers) in
      let targets := takeZ target_count peers in
      foldM (mirror_stored targets) 0 segment_ids
  end.

(** *** The pipeline of this build *)
Record Podms := mkPodms {
  pd_pipeline : WritePipeline;
  telemetry_tx : option Channel;
  mesh_node : option Mesh;
}.

Definition podms_new (p : WritePipeline) : Podms := mkPodms p None None.
Definition with_telemetry_channel (tx : Channel) (s : Podms) : Podms := mkPodms (pd_pipeline s) (Some tx) (mesh_node s).
Definition with_mesh_node (m : Mesh) (s : Podms) : Podms := mkPodms (pd_pipeline s) (telemetry_tx s) (Some m).

(** [if policy.rpo == Duration::ZERO { .. }]: a failure is not fatal. *)
Definition replicate_now (segment_ids : list SegmentId) (policy : Policy) (s : Podms) : Podms :=
  if rpo policy =? 0 then
    match mesh_node s with
    | Some m =>
        let '(_, l) := perform_metro_sync_replication segment_ids (mkLinked (pd_pipeline s) m) in
        mkPodms (ln_pipeline l) (telemetry_tx s) (Some (ln_mesh l))
    | None => s
    end
  else s.

Definition emit_telemetry (capsule_id : CapsuleId) (policy : Policy) (s : Podms) : Podms :=
  mkPodms (pd_pipeline s) (send (NewCapsule capsule_id policy None) <$> telemetry_tx s) (mesh_node s).

(** With phase4. *)
Definition federate_new (capsule_id : CapsuleId) (policy : Policy) : M Podms Error unit := λ s,
  match mesh_node s with
  | Some m =>
      if bool_decide (sovereignty policy = Local) then (Ok tt, s)
      else
        let '(r, m) := federate_capsule capsule_id (mn_zone (node m)) m in
        (r, mkPodms (pd_pipeline s) (telemetry_tx s) (Some m))
  | None => (Ok tt, s)
  end.

(** After the summary of the write. *)
Definition after_write (phase4 : bool) (capsule_id : CapsuleId) (segment_ids : list SegmentId) (policy : Policy) :
    M Podms Error CapsuleId :=
  modify (replicate_now segment_ids policy) ;;;
  modify (emit_telemetry capsule_id policy) ;;;
  (if phase4 then federate_new capsule_id policy else ret tt) ;;;
  ret capsule_id.

(** The ids a write has just given its capsule. *)
Definition segments_of (p : WritePipeline) (id : CapsuleId) : list SegmentId :=
  default [] (cap_segments <$> capsules (rg p) !! id).

(** [write_capsule_with_policy_async] of this build may return [r] and leave [s'].  A write of
    no bytes returns before the end. *)
Definition podms_write (config : PipelineConfig) (phase4 : bool) (id : CapsuleId) (now : option Z)
    (data : bytes) (policy : Policy) (s : Podms) (r : Res Error CapsuleId) (s' : Podms) : Prop :=
  ∃ r1 p1, write_capsule_with_policy_async config id now data policy (pd_pipeline s) r1 p1 ∧
    let s1 := mkPodms p1 (telemetry_tx s) (mesh_node s) in
    match r1, data with
    | Ok c, _ :: _ => after_write phase4 c (segments_of p1 c) policy s1 = (r, s')
    | _, _ => r = r1 ∧ s' = s1
    end.
End replication.

(** ** Lemmas *)
Section replication_lemmas.
Context {JR : JsonDoc RegistryState} {JN : JsonDoc SegmentMap} `{Crates} `{HashOrder}.
Implicit Types l : Linked.
Implicit Types p : WritePipeline.
Implicit Types m : Mesh.

(** A connection of [m] to one of [ts] that carries a prefix of a segment of [p]. *)
Definition mirrors p m (ts : list NodeId) (ids : list SegmentId) (c : SocketAddr * bytes) : Prop :=
  ∃ t id raw k, t ∈ ts ∧ id ∈ ids ∧ mn_peers (node m) !! t = Some c.1 ∧ segment_bytes (lg p) id = Some raw ∧
    c.2 = takeZ k raw.

(** What the replication of some segments leaves: tables and node as they were, and
    connections of that kind. *)
Definition replicated (ts : list NodeId) (ids : list SegmentId) l l' : Prop :=
  read_only (ln_pipeline l) (ln_pipeline l') ∧ key_manager (ln_pipeline l') = key_manager (ln_pipeline l) ∧
  node (ln_mesh l') = node (ln_mesh l) ∧
  ∃ cs, wire (ln_mesh l') = wire (ln_mesh l) ++ cs ∧ Forall (mirrors (ln_pipeline l) (ln_mesh l) ts ids) cs.

#[export] Instance replicated_preorder ts ids : PreOrder (replicated ts ids).
Proof.
  split.
  - intros l. split; [done|]. split; [done|]. split; [done|]. exists []. by rewrite app_nil_r.
  - intros a b c (R1 & K1 & N1 & cs1 & W1 & F1) (R2 & K2 & N2 & cs2 & W2 & F2).
    split; [by etrans|]. split; [congruence|]. split; [congruence|]. exists (cs1 ++ cs2).
    split; [by rewrite W2, W1, app_assoc|]. apply Forall_app. split; [done|].
    eapply Forall_impl; [exact F2|]. intros x (t & id & raw & k & ? & ? & Hp & Hb & ?).
    exists t, id, raw, k. rewrite <- N1. split_and!; try done.
    destruct R1 as (_ & Hv & _). by rewrite <- (segment_bytes_view _ _ id Hv).
Qed.

Lemma mirror_to_replicated ts ids id raw n t l :
  t ∈ ts → id ∈ ids → segment_bytes (lg (ln_pipeline l)) id = Some raw →
  match mirror_to raw n t l with
  | (Ok n', l') => replicated ts ids l l' ∧ n ≤ n' ≤ n + 1
  | _ => False
  end.
Proof.
  intros Ht Hid Hraw. unfold mirror_to, bind, attempt, on_mesh, zoom, ret.
  pose proof (mirror_spec raw t (ln_mesh l)) as Hm. destruct (mirror_segment raw t (ln_mesh l)) as [[[]|e| ] m'];
    destruct Hm as (Hn & Hnp & Hw); [| |done].
  - destruct Hw as (a & Ha & Hw & _). split; [|lia]. split; [done|]. split; [done|]. split; [done|].
    exists [(a, raw)]. split; [done|]. apply Forall_singleton. exists t, id, raw, (lenZ raw).
    split_and!; [done..|]. simpl. by rewrite takeZ_ge.
  - split; [|lia]. split; [done|]. split; [done|]. split; [done|].
    destruct Hw as [_ [Hw|(a & k & Ha & Hw)]]; cbn [ln_mesh].
    + exists []. by rewrite app_nil_r.
    + exists [(a, takeZ k raw)]. split; [done|]. apply Forall_singleton. by exists t, id, raw, k.
Qed.

Lemma foldM_replicated {A : Type} (f : Z → A → M Linked Error Z) ts ids xs n l :
  (∀ n x l', x ∈ xs → replicated ts ids l l' →
     match f n x l' with (Panic, _) => False | (_, l'') => replicated ts ids l' l'' end) →
  match foldM f n xs l with (Panic, _) => False | (_, l') => replicated ts ids l l' end.
Proof.
  assert (∀ l0 n, (∀ n x l', x ∈ xs → replicated ts ids l l' →
      match f n x l' with (Panic, _) => False | (_, l'') => replicated ts ids l' l'' end) →
    replicated ts ids l l0 →
    match foldM f n xs l0 with (Panic, _) => False | (_, l') => replicated ts ids l l' end) as Hg.
  { induction xs as [|x xs IH]; intros l0 n0 Hf Hl; [done|]. cbn [foldM]. unfold bind.
    pose proof (Hf n0 x l0 ltac:(by left) Hl) as Hx. destruct (f n0 x l0) as [[n1|e| ] l1]; [|by etrans|done].
    apply IH; [|by etrans]. intros. apply Hf; [by right|done]. }
  intros Hf. by apply Hg.
Qed.

(** Reading the log. *)
Lemma read_linked ts ids id l :
  match on_log (read id) l with
  | (Ok raw, l') => segment_bytes (lg (ln_pipeline l)) id = Some raw ∧ replicated ts ids l l'
  | (Err _, l') => replicated ts ids l l'
  | (Panic, _) => False
  end.
Proof.
  unfold on_log, zoom, nv, on_store, on_nvram, zoom. fold (lg (ln_pipeline l)).
  pose proof (read_effect id (lg (ln_pipeline l))) as Hr.
  assert (∀ d, nv_faults (lg (ln_pipeline l)) = [] → _) as Hq by exact (λ d, read_quiet id (lg (ln_pipeline l)) d).
  destruct (read id (lg (ln_pipeline l))) as [[raw|e| ] x] eqn:He; [| |done].
  - destruct Hr as (Hb & Hv & Hm). split; [done|]. split; [|split; [done|split; [done|exists []; by rewrite app_nil_r]]].
    split_and!; [done..|]. intros Hf. specialize (Hq raw Hf Hb). injection Hq as ->. exact Hf.
  - destruct Hr as (Hv & Hm). split; [|split; [done|split; [done|exists []; by rewrite app_nil_r]]].
    split_and!; [done..|]. intros Hf. cbn.
    destruct (segment_map (lg (ln_pipeline l)) !! id) as [s|] eqn:Hs.
    + rewrite (read_ok _ _ _ Hf Hs) in He. by injection He as _ <-.
    + rewrite (read_missing _ _ Hs) in He. by injection He as _ <-.
Qed.

Lemma mirror_stored_replicated ts ids n id l :
  id ∈ ids → match mirror_stored ts n id l with (Panic, _) => False | (_, l') => replicated ts ids l l' end.
Proof.
  intros Hid. unfold mirror_stored. unfold bind at 1. pose proof (read_linked ts ids id l) as Hr.
  destruct (on_log (read id) l) as [[raw|e| ] l1]; [|done..]. destruct Hr as [Hb Hl1].
  assert (replicated ts ids l1 l1) as Hrefl by done.
  unfold bind, on_log at 1, zoom, nv, on_store, on_nvram, zoom, get_segment_metadata, bind, gets, lift.
  assert (segment_bytes (lg (ln_pipeline l1)) id = Some raw) as Hb1.
  { destruct Hl1 as ((_ & Hv & _) & _). by rewrite (segment_bytes_view _ _ id Hv). }
  assert (mkLinked {| store := {| registry := registry (store (ln_pipeline l1)); nvram := nvram (store (ln_pipeline l1)) |};
    key_manager := key_manager (ln_pipeline l1) |} (ln_mesh l1) = l1) as Heta by (by destruct l1 as [[[? ?] ?] ?]).
  destruct (segment_map _ !! id) as [s|]; cbn [ok_or]; rewrite Heta; [|done].
  pose proof (foldM_replicated (mirror_to raw) ts ids ts n l1) as Hf.
  assert (∀ n t l2, t ∈ ts → replicated ts ids l1 l2 →
    match mirror_to raw n t l2 with (Panic, _) => False | (_, l3) => replicated ts ids l2 l3 end) as Hto.
  { intros n0 t l2 Ht Hl. pose proof (mirror_to_replicated ts ids id raw n0 t l2 Ht Hid) as Hm.
    destruct Hl as ((_ & Hv' & _) & _). rewrite (segment_bytes_view _ _ id Hv') in Hm.
    specialize (Hm Hb1). by destruct (mirror_to raw n0 t l2) as [[n1|e| ] l3]; destruct Hm. }
  specialize (Hf Hto). destruct (foldM (mirror_to raw) n ts l1) as [[n'|e| ] l3]; [by etrans|by etrans|done].
Qed.

(** The targets: the first two peers, in the order of the table. *)
Definition targets_of m : list NodeId := takeZ 2 (hash_iter (mn_peers (node m))).*1.

Lemma perform_replicated ids l :
  match perform_metro_sync_replication ids l with
  | (Panic, _) => False
  | (_, l') => replicated (targets_of (ln_mesh l)) ids l l'
  end.
Proof.
  unfold perform_metro_sync_replication. unfold bind, on_mesh, zoom, discover_peers, gets. unfold targets_of.
  assert (mkLinked (ln_pipeline l) (ln_mesh l) = l) as Heta by (by destruct l).
  destruct (hash_iter _).*1 as [|t ts] eqn:Hps; [rewrite Heta; apply replicated_preorder|]. rewrite Heta. cbv zeta.
  replace (takeZ (Z.min 2 (lenZ (t :: ts))) (t :: ts)) with (takeZ 2 (t :: ts)).
  2:{ destruct (Z.min_spec 2 (lenZ (t :: ts))) as [[_ ->]|[Hlt ->]]; [done|]. by rewrite !takeZ_ge. }
  apply foldM_replicated. intros n id l' Hid _. by apply mirror_stored_replicated.
Qed.

(** *** When nothing fails *)
Definition addr_of m (t : NodeId) : SocketAddr := default EmptyString (mn_peers (node m) !! t).

Definition sent_to m (ts : list NodeId) (raw : bytes) : list (SocketAddr * bytes) := (λ t, (addr_of m t, raw)) <$> ts.

(** [l'] after these connections, without a failure to come. *)
Definition quietly l (cs : list (SocketAddr * bytes)) l' : Prop :=
  ln_pipeline l' = ln_pipeline l ∧ node (ln_mesh l') = node (ln_mesh l) ∧ net_faults (ln_mesh l') = [] ∧
  wire (ln_mesh l') = wire (ln_mesh l) ++ cs.

Lemma quietly_trans l cs1 l1 cs2 l2 : quietly l cs1 l1 → quietly l1 cs2 l2 → quietly l (cs1 ++ cs2) l2.
Proof. intros (P1 & N1 & F1 & W1) (P2 & N2 & F2 & W2). split_and!; [congruence..|]. by rewrite W2, W1, app_assoc. Qed.

Lemma mirror_all_quiet raw ts l :
  net_faults (ln_mesh l) = [] → (∀ t, t ∈ ts → is_Some (mn_peers (node (ln_mesh l)) !! t)) →
  ∀ n, ∃ l', foldM (mirror_to raw) n ts l = (Ok (n + lenZ ts), l') ∧ quietly l (sent_to (ln_mesh l) ts raw) l'.
Proof.
  revert l. induction ts as [|t ts IH]; intros l Hf Hts n.
  { exists l. split; [cbn; unfold ret; by rewrite Z.add_0_r|]. split_and!; [done..|]. by rewrite app_nil_r. }
  destruct (Hts t ltac:(by left)) as [a Ha]. cbn [foldM].
  assert (∃ l1, mirror_to raw n t l = (Ok (n + 1), l1) ∧ quietly l [(addr_of (ln_mesh l) t, raw)] l1) as (l1 & Hm & H1).
  { unfold mirror_to, bind, attempt, on_mesh, zoom, ret. rewrite (mirror_quiet raw t a) by done.
    eexists. split; [done|]. unfold addr_of. rewrite Ha. done. }
  unfold bind. rewrite Hm. destruct (IH l1) with (n := n + 1) as (l2 & Hr & H2); [by apply H1| |].
  { intros t' Ht'. destruct H1 as (_ & -> & _). apply Hts. by right. }
  exists l2. split.
  - rewrite Hr. f_equal. f_equal. rewrite lenZ_cons. lia.
  - change (sent_to (ln_mesh l) (t :: ts) raw) with ([(addr_of (ln_mesh l) t, raw)] ++ sent_to (ln_mesh l) ts raw).
    replace (sent_to (ln_mesh l) ts raw) with (sent_to (ln_mesh l1) ts raw); [by eapply quietly_trans|].
    unfold sent_to, addr_of. by destruct H1 as (_ & -> & _).
Qed.

Lemma mirror_stored_quiet ts ids raws l :
  nv_faults (lg (ln_pipeline l)) = [] → net_faults (ln_mesh l) = [] →
  (∀ t, t ∈ ts → is_Some (mn_peers (node (ln_mesh l)) !! t)) →
  Forall2 (λ id raw, segment_bytes (lg (ln_pipeline l)) id = Some raw) ids raws →
  ∀ n, ∃ l', foldM (mirror_stored ts) n ids l = (Ok (n + lenZ ids * lenZ ts), l') ∧
    quietly l (raws ≫= sent_to (ln_mesh l) ts) l'.
Proof.
  intros Hnf Hf Hts Hraws. revert l Hnf Hf Hts Hraws. revert raws.
  induction ids as [|id ids IH]; intros raws l Hnf Hf Hts Hraws n.
  { apply Forall2_nil_inv_l in Hraws as ->. exists l.
    split; [unfold foldM, ret; do 2 f_equal; unfold lenZ; simpl; lia|]. split_and!; [done..|]. by rewrite app_nil_r. }
  apply Forall2_cons_inv_l in Hraws as (raw & raws' & Hb & Hraws & ->). cbn [foldM].
  destruct (mirror_all_quiet raw ts l Hf Hts n) as (l1 & Hm & H1).
  assert (mirror_stored ts n id l = (Ok (n + lenZ ts), l1)) as Hs.
  { unfold mirror_stored, on_log, zoom, nv, on_store, on_nvram, zoom, bind. fold (lg (ln_pipeline l)).
    rewrite (read_quiet id _ raw Hnf Hb). cbn [store nvram lg ln_pipeline].
    unfold get_segment_metadata, bind, gets, lift. fold (lg (ln_pipeline l)).
    unfold segment_bytes in Hb. destruct (segment_map (lg (ln_pipeline l)) !! id) as [sg|] eqn:Hsg; [|done].
    cbn [ok_or]. rewrite <- Hm. f_equal. by destruct l as [[[? ?] ?] ?]. }
  unfold bind. rewrite Hs. destruct (IH raws' l1) with (n := n + lenZ ts) as (l2 & Hr & H2).
  - by destruct H1 as (-> & _).
  - by apply H1.
  - by destruct H1 as (_ & -> & _).
  - by destruct H1 as (-> & _).
  - exists l2. split; [rewrite Hr; do 2 f_equal; rewrite lenZ_cons; lia|]. cbn [mbind list_bind].
    replace (raws' ≫= sent_to (ln_mesh l) ts) with (raws' ≫= sent_to (ln_mesh l1) ts); [by eapply quietly_trans|].
    apply list_bind_ext; [|done]. intros x. unfold sent_to, addr_of. by destruct H1 as (_ & -> & _).
Qed.

Lemma targets_registered m t : t ∈ targets_of m → is_Some (mn_peers (node m) !! t).
Proof.
  unfold targets_of. rewrite takeZ_take. intros Ht. eapply elem_of_sublist in Ht; [|apply sublist_take].
  apply list_elem_of_fmap in Ht as ([q a] & -> & Hin%hash_iter_elem). by exists a.
Qed.

Lemma perform_quiet ids raws l :
  nv_faults (lg (ln_pipeline l)) = [] → net_faults (ln_mesh l) = [] →
  Forall2 (λ id raw, segment_bytes (lg (ln_pipeline l)) id = Some raw) ids raws →
  ∃ l', perform_metro_sync_replication ids l = (Ok (lenZ ids * lenZ (targets_of (ln_mesh l))), l') ∧
    quietly l (raws ≫= sent_to (ln_mesh l) (targets_of (ln_mesh l))) l'.
Proof.
  intros Hnf Hf Hraws. unfold perform_metro_sync_replication. unfold bind, on_mesh, zoom, discover_peers, gets.
  assert (mkLinked (ln_pipeline l) (ln_mesh l) = l) as Heta by (by destruct l). rewrite Heta.
  pose proof (targets_registered (ln_mesh l)) as Hreg. unfold targets_of in *.
  destruct (hash_iter _).*1 as [|t ts] eqn:Hps.
  - exists l. split; [unfold ret; do 2 f_equal; unfold lenZ; simpl; lia|]. split_and!; [done..|].
    assert (raws ≫= sent_to (ln_mesh l) (takeZ 2 []) = []) as ->; [|by rewrite app_nil_r].
    clear. by induction raws.
  - cbv zeta. replace (takeZ (Z.min 2 (lenZ (t :: ts))) (t :: ts)) with (takeZ 2 (t :: ts)).
    2:{ destruct (Z.min_spec 2 (lenZ (t :: ts))) as [[_ ->]|[Hlt ->]]; [done|]. by rewrite !takeZ_ge. }
    destruct (mirror_stored_quiet (takeZ 2 (t :: ts)) ids raws l Hnf Hf Hreg Hraws 0) as (l' & Hr & Hq).
    exists l'. split; [exact Hr|exact Hq].
Qed.
End replication_lemmas.

Section replication_properties.
Context {JR : JsonDoc RegistryState} {JN : JsonDoc SegmentMap} `{Crates} `{!XtsLaws} `{HashOrder}.
Implicit Types p : WritePipeline.
Implicit Types m : Mesh.
Implicit Types s : Podms.

(** What the mesh of a write gets. *)
Definition mesh_after p (ids : list SegmentId) (policy : Policy) (o o' : option Mesh) : Prop :=
  match o, o' with
  | Some m, Some m' => node m' = node m ∧ ∃ cs, wire m' = wire m ++ cs ∧ Forall (mirrors p m (targets_of m) ids) cs ∧
      (rpo policy ≠ 0 → cs = [])
  | None, None => True
  | _, _ => False
  end.

Lemma after_write_effect phase4 c ids policy s :
  ∃ s', after_write phase4 c ids policy s = (Ok c, s') ∧
    read_only (pd_pipeline s) (pd_pipeline s') ∧ key_manager (pd_pipeline s') = key_manager (pd_pipeline s) ∧
    telemetry_tx s' = send (NewCapsule c policy None) <$> telemetry_tx s ∧
    mesh_after (pd_pipeline s) ids policy (mesh_node s) (mesh_node s').
Proof.
  unfold after_write, bind, modify, ret.
  set (s1 := replicate_now ids policy s).
  assert (read_only (pd_pipeline s) (pd_pipeline s1) ∧ key_manager (pd_pipeline s1) = key_manager (pd_pipeline s) ∧
    telemetry_tx s1 = telemetry_tx s ∧ mesh_after (pd_pipeline s) ids policy (mesh_node s) (mesh_node s1)) as (R & K & T & G).
  { subst s1. unfold replicate_now. destruct s as [p tx [m|]]; cbn [mesh_node pd_pipeline telemetry_tx].
    2:{ by destruct (rpo policy =? 0). }
    destruct (Z.eqb_spec (rpo policy) 0) as [Hz|Hz].
    2:{ do 4 (split; [done|]). exists []. by rewrite app_nil_r. }
    pose proof (perform_replicated ids (mkLinked p m)) as Hp.
    destruct (perform_metro_sync_replication ids (mkLinked p m)) as [[n|e| ] [p' m']]; [| |done];
      destruct Hp as (HR & HK & HN & cs & HW & HF); do 4 (split; [done|]); by exists cs. }
  clearbody s1. set (s2 := emit_telemetry c policy s1).
  assert (∃ s3, (if phase4 then federate_new c policy else λ s, (Ok tt, s)) s2 = (Ok tt, s3) ∧ pd_pipeline s3 = pd_pipeline s2 ∧
    telemetry_tx s3 = telemetry_tx s2 ∧
    match mesh_node s2, mesh_node s3 with
    | Some a, Some b => node b = node a ∧ wire b = wire a
    | None, None => True
    | _, _ => False
    end) as (s3 & He & P3 & T3 & G3).
  { assert (match mesh_node s2, mesh_node s2 with Some a, Some b => node b = node a ∧ wire b = wire a | None, None => True | _, _ => False end)
      as Hsame by (by destruct (mesh_node s2)).
    destruct phase4; [|by exists s2]. unfold federate_new. destruct (mesh_node s2) as [m|] eqn:Hm.
    2:{ exists s2. by rewrite Hm. }
    case_bool_decide; [exists s2; by rewrite Hm|]. rewrite federate_says. by eexists. }
  rewrite He. exists s3. split; [done|]. rewrite P3, T3. split; [done|]. split; [done|].
  split; [subst s2; cbn; by rewrite T|]. subst s2. cbn [mesh_node emit_telemetry] in G3.
  unfold mesh_after in *. destruct (mesh_node s) as [m|], (mesh_node s1) as [m1|], (mesh_node s3) as [m3|]; try done.
  destruct G as (N1 & cs & W1 & F1 & Z1). destruct G3 as [N3 W3]. split; [congruence|]. exists cs.
  split; [congruence|done].
Qed.

(** C7: mirroring and telemetry leave the write as it is.  A write of the podms build that
    returns [r] is a write of the plain asynchronous path that returns [r]: whatever the
    network does, the tables, the files and the keys are those that write left.  A
    successful write of some bytes sends exactly one event; what it puts on the wire are
    connections to the first two peers, each with a prefix of a segment of the capsule, and
    none unless the recovery point is zero; a write that failed sends nothing. *)
Theorem podms_write_is_the_write config phase4 id now data policy s r s' :
  podms_write config phase4 id now data policy s r s' →
  ∃ p1, write_capsule_with_policy_async config id now data policy (pd_pipeline s) r p1 ∧
    read_only p1 (pd_pipeline s') ∧ key_manager (pd_pipeline s') = key_manager p1 ∧
    match r, data with
    | Ok c, _ :: _ => telemetry_tx s' = send (NewCapsule c policy None) <$> telemetry_tx s ∧
        mesh_after p1 (segments_of p1 c) policy (mesh_node s) (mesh_node s')
    | _, _ => telemetry_tx s' = telemetry_tx s ∧ mesh_node s' = mesh_node s
    end.
Proof.
  intros (r1 & p1 & Hw & Ha). cbv zeta in Ha. exists p1.
  destruct r1 as [c|e| ]; [|by destruct Ha as [-> ->]..].
  destruct data as [|x data]; [by destruct Ha as [-> ->]|].
  destruct (after_write_effect phase4 c (segments_of p1 c) policy (mkPodms p1 (telemetry_tx s) (mesh_node s)))
    as (s2 & He & R & K & T & G).
  rewrite He in Ha. injection Ha as <- <-. done.
Qed.

(** The segments of a readable capsule have bytes, which unseal and decode to its data. *)
Definition decodes p (cap : Capsule) (id : SegmentId) (raw out : bytes) : Prop :=
  segment_bytes (lg p) id = Some raw ∧
  ∃ sg d, segment_map (lg p) !! id = Some sg ∧ unseal (key_manager p) sg raw = Some d ∧
    decompress_for (compression (cap_policy cap)) d = Ok out.

Lemma capsule_reads_raw p cap data :
  capsule_reads p cap data →
  ∃ raws outs, Forall3 (decodes p cap) (cap_segments cap) raws outs ∧ concat outs = data.
Proof.
  intros (_ & outs & Hr & Hd).
  assert (∃ raws, Forall3 (decodes p cap) (cap_segments cap) raws outs) as [raws Hf]; [|by exists raws, outs].
  clear Hd. induction Hr as [|id out ids outs (d & h & Hc & Ho) _ [raws IH]]; [exists []; constructor|].
  unfold content in Hc. destruct (segment_map (lg p) !! id) as [sg|] eqn:Hs; [|done].
  destruct (segment_bytes (lg p) id) as [raw|] eqn:Hb; [|done]. cbn [mbind option_bind] in Hc.
  destruct (unseal (key_manager p) sg raw) as [d'|] eqn:Hu; [|done]. injection Hc as -> _.
  exists (raw :: raws). constructor; [|done]. split; [done|]. by exists sg, d.
Qed.

(** C8: a write whose recovery point is zero reaches the mesh.  Where the write of some bytes
    succeeded and neither the log nor the network fails afterwards, the rest of the call
    succeeds, and each of the first two peers got one connection per segment of the capsule, in order, with
    exactly the bytes stored for it; unsealed and decoded they are the data of the write. *)
Theorem zero_rpo_write_reaches_peers D config phase4 id now data policy s m p1 :
  hash_injective_on D → pipe_ok D (pd_pipeline s) → fits data (pd_pipeline s) → chunks_ok D (compression policy) data →
  write_capsule_with_policy_async config id now data policy (pd_pipeline s) (Ok id) p1 →
  data ≠ [] → rpo policy = 0 → nv_faults (lg p1) = [] → mesh_node s = Some m → net_faults m = [] →
  ∃ s' m' cap raws outs, podms_write config phase4 id now data policy s (Ok id) s' ∧ mesh_node s' = Some m' ∧
    pd_pipeline s' = p1 ∧ capsules (rg p1) !! id = Some cap ∧
    wire m' = wire m ++ (raws ≫= sent_to m (targets_of m)) ∧
    Forall3 (decodes p1 cap) (cap_segments cap) raws outs ∧ concat outs = data.
Proof.
  intros Hinj [G Hi] Hf Hok Hw Hne Hz Hq Hm Hn.
  pose proof (async_write_spec D G config id now data policy _ _ _ Hinj Hok Hf Hi Hw) as (_ & _ & Hi1).
  destruct (capsules (rg p1) !! id) as [cap|] eqn:Hc.
  2:{ pose proof (pi_dom _ _ _ _ Hi1 id Hc) as Hd. by rewrite lookup_insert_eq in Hd. }
  destruct (pi_caps _ _ _ _ Hi1 id cap Hc) as (data' & Hd & Hr). rewrite lookup_insert_eq in Hd. injection Hd as <-.
  destruct (capsule_reads_raw p1 cap data Hr) as (raws & outs & Hdec & Hcat).
  assert (segments_of p1 id = cap_segments cap) as Hseg by (unfold segments_of; by rewrite Hc).
  assert (Forall2 (λ i raw, segment_bytes (lg p1) i = Some raw) (cap_segments cap) raws) as Hraws.
  { clear -Hdec. induction Hdec as [|i raw out ids raws outs [Hb _] _ IH]; by constructor. }
  destruct (perform_quiet (cap_segments cap) raws (mkLinked p1 m) Hq Hn Hraws) as ([p2 m2] & Hp & Hp1 & Hnode & _ & Hwire).
  cbn [ln_pipeline ln_mesh] in *. subst p2.
  set (s1 := mkPodms p1 (telemetry_tx s) (Some m)).
  assert (replicate_now (cap_segments cap) policy s1 = mkPodms p1 (telemetry_tx s) (Some m2)) as Hrep.
  { unfold replicate_now. rewrite Hz. simpl. by rewrite Hp. }
  assert (∃ s' m', after_write phase4 id (cap_segments cap) policy s1 = (Ok id, s') ∧ mesh_node s' = Some m' ∧
    pd_pipeline s' = p1 ∧ wire m' = wire m2) as (s' & m' & Haw & Hm' & Hp' & Hw').
  { unfold after_write, bind, modify, ret. rewrite Hrep. destruct phase4; [|by eexists _, _].
    unfold federate_new, emit_telemetry. cbn [mesh_node pd_pipeline telemetry_tx].
    case_bool_decide; [by eexists _, _|]. rewrite federate_says. by eexists _, _. }
  exists s', m', cap, raws, outs. split; [|by rewrite Hw', Hwire].
  exists (Ok id), p1. split; [done|]. cbv zeta. rewrite Hm, Hseg. by destruct data.
Qed.
End replication_properties.

(** ** Witnesses on the toy crates *)
Section replication_witnesses.
#[local] Existing Instance toy_crates.
#[local] Existing Instance toy_XtsLaws.
#[local] Existing Instance listed_order.
#[local] Existing Instance toy_state_doc.
#[local] Instance replication_map_doc : JsonDoc SegmentMap := plain_doc SegmentMap.

(** The default policy with a recovery point of zero. *)
Definition zero_rpo : Policy :=
  {| compression := LZ4 1; dedupe := true; compact_interval_secs := Some 3600; erasure_profile := None;
     encryption := Disabled; crypto_profile := Classical; layout := LayoutPolicy_default; rpo := 0;
     latency_target := from_millis 2; sovereignty := Zone |}.

Definition zero_run (p : WritePipeline) : option WriteState :=
  run_events zero_rpo two_cpus (chunks SEGMENT_SIZE text) [Spawn; Prepare 0; Send 0; Receive; Receive] (async_start 1 p).

Definition zero_write (c : CapsuleId) (p : WritePipeline) : Res Error CapsuleId * WritePipeline :=
  match zero_run p with
  | Some s => if async_done (chunks SEGMENT_SIZE text) s
              then async_finish c (Some 1) (lenZ text) zero_rpo 1 s else (Panic, p)
  | None => (Panic, p)
  end.

Lemma zero_write_async c p r p' :
  zero_write c p = (r, p') → r ≠ Panic →
  write_capsule_with_policy_async two_cpus c (Some 1) text zero_rpo p r p'.
Proof.
  unfold zero_write. intros Hw Hnp. destruct (zero_run p) as [s|] eqn:He; [|congruence].
  destruct (async_done _ s) eqn:Hd; [|congruence].
  assert (chunks SEGMENT_SIZE text = [text]) as Ht by (vm_compute; reflexivity). rewrite Ht in Hd.
  unfold zero_run in He. rewrite Ht in He. unfold write_capsule_with_policy_async. rewrite Ht.
  exists s. split; [by eapply run_events_steps|done].
Qed.

Definition peer_a : NodeId := mkNodeId [x0a].
Definition peer_b : NodeId := mkNodeId [x0b].
Definition peer_c : NodeId := mkNodeId [x0c].

(** A node with three peers; [fs]: the outcomes of its network calls. *)
Definition three_peers (fs : faults) : Mesh :=
  mkMesh (mkMeshNode (mkNodeId [x01]) (Metro "a") NodeCapabilities_default
    (<[peer_a := "a:1"]> (<[peer_b := "b:1"]> (<[peer_c := "c:1"]> ∅))) "self:1") fs [] [].

Definition start_podms (fs : faults) : Podms :=
  with_mesh_node (three_peers fs) (with_telemetry_channel (mkChannel true []) (podms_new (empty_pipeline None []))).

Definition zero_done := zero_write cap_a (empty_pipeline None []).

Lemma zero_done_write :
  write_capsule_with_policy_async two_cpus cap_a (Some 1) text zero_rpo (empty_pipeline None []) (Ok cap_a) (snd zero_done).
Proof.
  apply zero_write_async; [|done]. assert (fst zero_done = Ok cap_a) as <- by (vm_compute; reflexivity).
  apply surjective_pairing.
Qed.

(** The rest of the call after that write. *)
Definition zero_rest (fs : faults) : Res Error CapsuleId * Podms :=
  after_write true cap_a (segments_of (snd zero_done) cap_a) zero_rpo
    (mkPodms (snd zero_done) (telemetry_tx (start_podms fs)) (mesh_node (start_podms fs))).

Lemma podms_write_is_the_write_witness :
  ∃ p1, write_capsule_with_policy_async two_cpus cap_a (Some 1) text zero_rpo (empty_pipeline None []) (Ok cap_a) p1 ∧
    read_only p1 (pd_pipeline (snd (zero_rest [Some 0]))) ∧
    key_manager (pd_pipeline (snd (zero_rest [Some 0]))) = key_manager p1 ∧
    telemetry_tx (snd (zero_rest [Some 0])) = Some (mkChannel true [NewCapsule cap_a zero_rpo None]) ∧
    mesh_after p1 (segments_of p1 cap_a) zero_rpo (Some (three_peers [Some 0])) (mesh_node (snd (zero_rest [Some 0]))).
Proof.
  refine (podms_write_is_the_write two_cpus true cap_a (Some 1) text zero_rpo (start_podms [Some 0]) (Ok cap_a)
    (snd (zero_rest [Some 0])) _).
  exists (Ok cap_a), (snd zero_done). split; [exact zero_done_write|].
  assert (fst (zero_rest [Some 0]) = Ok cap_a) as Hr by (vm_compute; reflexivity).
  change (zero_rest [Some 0] = (Ok cap_a, snd (zero_rest [Some 0]))). rewrite <- Hr. apply surjective_pairing.
Defined.

Lemma zero_rpo_write_reaches_peers_witness :
  ∃ s' m' cap raws outs,
    podms_write two_cpus true cap_a (Some 1) text zero_rpo (start_podms []) (Ok cap_a) s' ∧ mesh_node s' = Some m' ∧
    pd_pipeline s' = snd zero_done ∧ capsules (rg (snd zero_done)) !! cap_a = Some cap ∧
    wire m' = wire (three_peers []) ++ (raws ≫= sent_to (three_peers []) (targets_of (three_peers []))) ∧
    Forall3 (decodes (snd zero_done) cap) (cap_segments cap) raws outs ∧ concat outs = text.
Proof.
  refine (zero_rpo_write_reaches_peers only_frame two_cpus true cap_a (Some 1) text zero_rpo (start_podms [])
    (three_peers []) (snd zero_done) only_frame_injective _ (text_fits None []) text_chunks_ok zero_done_write
    _ eq_refl _ eq_refl eq_refl).
  - exists ∅. by apply empty_ok.
  - discriminate.
  - vm_compute; reflexivity.
Defined.

(** Two of the three peers get the frame, whatever zone they are in. *)
Example two_peers_get_the_frame :
  match mesh_node (snd (zero_rest [])) with
  | Some m => (snd <$> wire m) = [frame; frame]
  | None => False
  end.
Proof. vm_compute; reflexivity. Qed.

(** A write with a recovery point of zero succeeds without a single replica. *)
Example zero_rpo_without_replicas :
  fst (zero_rest [Some 0; Some 0]) = Ok cap_a ∧ wire <$> mesh_node (snd (zero_rest [Some 0; Some 0])) = Some [].
Proof. split; vm_compute; reflexivity. Qed.

(** The node at the other end keeps nothing of what it receives, and stops listening to a
    connection that has nothing to read yet. *)
Example receiver_drops_the_bytes :
  handle_mirror_connection [ReadBytes 3; ReadEof] = [] ∧ handle_mirror_connection (WouldBlock :: [ReadBytes 3; ReadEof]) = [].
Proof. by split. Qed.
End replication_witnesses.
