(* ===== verification/Agent.v ===== *)
(** Crate [scaling], crates/scaling/src/agent.rs: the agent that consumes telemetry, compiles
    each event against a snapshot of its mesh (Scaling.v) and executes the actions.  The
    executors of the code stop at their log lines; lines of level debug are left out. *)
From S2P Require Import Prelude Errors Common Scaling Mesh.

Record ScalingAgent := mkScalingAgent { agent_compiler : PolicyCompiler }.

Definition ScalingAgent_new : ScalingAgent := mkScalingAgent with_defaults.
Definition with_policy (default_policy : Policy) : ScalingAgent := mkScalingAgent (mkPolicyCompiler default_policy).

(** Figures every peer is given, in the zone of the agent. *)
Definition placeholder (zone : ZoneId) : NodeInfo := mkNodeInfo zone 1000000000 100000000 Premium.

Definition execute_replication (capsule_id : CapsuleId) (strategy : ReplicationStrategy) (targets : list NodeId) :
    M Mesh Error unit :=
  tell (ExecutingReplication capsule_id strategy (lenZ targets)).

Definition execute_migration (capsule_id : CapsuleId) (reason : string) (destination : NodeId) (transform : bool) :
    M Mesh Error unit :=
  tell (ExecutingMigration capsule_id destination reason transform).

Definition execute_evacuation (source_node : NodeId) (reason : string) (urgency : EvacuationUrgency) :
    M Mesh Error unit :=
  tell (ExecutingEvacuation source_node reason urgency).

Definition execute_rebalancing (overloaded_nodes underutilized_nodes : list NodeId) : M Mesh Error unit :=
  tell (ExecutingRebalancing (lenZ overloaded_nodes) (lenZ underutilized_nodes)).

Definition execute_action (action : ScalingAction) : M Mesh Error unit :=
  match action with
  | Replicate capsule_id strategy targets => execute_replication capsule_id strategy targets
  | Migrate capsule_id reason destination transform => execute_migration capsule_id reason destination transform
  | Federate capsule_id zone => tell (FederateNoop capsule_id zone)
  | ShardEC capsule_id _ zones => tell (ShardNoop capsule_id (lenZ zones))
  | Evacuate source_node reason urgency => execute_evacuation source_node reason urgency
  | Rebalance overloaded_nodes underutilized_nodes => execute_rebalancing overloaded_nodes underutilized_nodes
  end.

Section agent.
Context `{HashOrder}.

Definition build_mesh_state : M Mesh Error MeshState :=
  let! peer_ids := discover_peers in
  let! zone := gets (λ m, mn_zone (node m)) in
  ret (mkMeshState ((λ peer_id, (peer_id, placeholder zone)) <$> peer_ids) zone).

(** Events that carry no policy are compiled under that of metro synchronization. *)
Definition event_policy (event : Telemetry) : Policy :=
  match event with
  | NewCapsule _ policy _ => policy
  | _ => metro_sync
  end.

Definition handle_telemetry_event (a : ScalingAgent) (event : Telemetry) : M Mesh Error unit :=
  let policy := event_policy event in
  let! mesh_state := build_mesh_state in
  let actions := compile_scaling_actions (agent_compiler a) event policy mesh_state in
  foldM (λ _ action, let! _ := attempt (E' := Error) (execute_action action) in ret tt) tt actions.

(** The agent on the events it receives before the channel closes. *)
Definition run (a : ScalingAgent) (events : list Telemetry) : M Mesh Error unit :=
  let! id := gets (λ m, mn_id (node m)) in
  tell (AgentStarted id) ;;;
  foldM (λ _ event, let! _ := attempt (E' := Error) (handle_telemetry_event a event) in ret tt) tt events ;;;
  tell TelemetryClosed.
End agent.

(** ** Specification: what the agent does about an event *)
Definition latency_allows (zone : ZoneId) (policy : Policy) : bool :=
  if latency_target policy <? from_millis 2 then match zone with Metro _ => true | _ => false end
  else if latency_target policy <? from_millis 100 then match zone with Edge _ => false | _ => true end
  else true.

Definition agent_says (zone : ZoneId) (peers : list NodeId) (event : Telemetry) : list LogLine :=
  match event with
  | NewCapsule id policy _ =>
      if bool_decide (peers = []) then []
      else if negb (rpo policy <? from_secs 60) then []
      else if bool_decide (sovereignty policy = Local) then []
      else if latency_allows zone policy
      then [ExecutingReplication id (if rpo policy =? 0 then MetroSync 2 else AsyncWithBatching (rpo policy))
              (Z.min 2 (lenZ peers))]
      else []
  | HeatSpike id accesses_per_min _ =>
      match peers with
      | [] => []
      | destination :: _ =>
          if accesses_per_min <=? 100 then []
          else [ExecutingMigration id destination
                  ("heat_spike_" +:+ pretty accesses_per_min +:+ "_accesses_per_min") false]
      end
  | CapacityThreshold node_id used total threshold_pct =>
      if bool_decide (peers = []) then []
      else if negb (f32_ge (used_percent_of used total) (normalized_threshold_of threshold_pct)) then []
      else if f32_lt (used_percent_of used total) (f32_of_Z 80) then []
      else [ExecutingRebalancing 1 (lenZ peers)]
  | NodeDegraded node_id reason =>
      [ExecutingEvacuation node_id reason
        (if str_contains reason "disk_failure" || str_contains reason "power" then Immediate else Gradual)]
  | ViewProjection id _ => [FederateNoop id zone; ShardNoop id 1]
  end.

(** ** Lemmas *)
Section agent_lemmas.
Context `{HashOrder}.
Implicit Types m : Mesh.

(** The line of an action. *)
Definition action_line (a : ScalingAction) : LogLine :=
  match a with
  | Replicate id strategy targets => ExecutingReplication id strategy (lenZ targets)
  | Migrate id reason destination transform => ExecutingMigration id destination reason transform
  | Federate id zone => FederateNoop id zone
  | ShardEC id _ zones => ShardNoop id (lenZ zones)
  | Evacuate source reason urgency => ExecutingEvacuation source reason urgency
  | Rebalance over under => ExecutingRebalancing (lenZ over) (lenZ under)
  end.

Lemma execute_says a m : execute_action a m = (Ok tt, says m [action_line a]).
Proof. by destruct a. Qed.

Lemma execute_all_says actions m :
  foldM (λ _ action, let! _ := attempt (E' := Error) (execute_action action) in ret tt) tt actions m =
    (Ok tt, says m (action_line <$> actions)).
Proof.
  revert m. induction actions as [|a l IH]; intros m; [by rewrite says_nil|].
  cbn [foldM]. unfold bind at 1. unfold bind at 1, attempt. rewrite execute_says. unfold ret at 1.
  rewrite IH, says_app. done.
Qed.

(** *** A mesh whose nodes all look alike *)
Definition alike (zone : ZoneId) (peers : list NodeId) : MeshState :=
  mkMeshState ((λ p, (p, placeholder zone)) <$> peers) zone.

Section alike.
Context (z : ZoneId) (ps : list NodeId).

Lemma alike_nodes : available_nodes (alike z ps) = ps.
Proof. unfold available_nodes, alike. simpl. rewrite <- list_fmap_compose. by apply list_fmap_id. Qed.

Lemma alike_find p : p ∈ ps → find_node (alike z ps) p = Some (placeholder z).
Proof.
  unfold find_node, alike. simpl. induction ps as [|q l IH]; [by intros []%elem_of_nil|].
  simpl. intros [->|Hp]%elem_of_cons; [by rewrite bool_decide_true|].
  case_bool_decide; [done|by apply IH].
Qed.

Lemma retain_all f l : (∀ p, p ∈ l → f p = true) → retain f l = l.
Proof.
  intros Hf. unfold retain. induction l as [|x l IH]; [done|].
  rewrite filter_cons_True by (apply Hf; by left). f_equal. apply IH. intros p Hp. apply Hf. by right.
Qed.

Lemma retain_none f l : (∀ p, p ∈ l → f p = false) → retain f l = [].
Proof.
  intros Hf. unfold retain. induction l as [|x l IH]; [done|].
  rewrite filter_cons_False; [|by rewrite (Hf x) by left]. apply IH. intros p Hp. apply Hf. by right.
Qed.

Lemma retain_const f b l : (∀ p, p ∈ l → f p = b) → retain f l = if b then l else [].
Proof. destruct b; [apply retain_all|apply retain_none]. Qed.

Lemma alike_replication policy :
  select_replication_targets policy (alike z ps) =
    if bool_decide (sovereignty policy = Local) then [] else if latency_allows z policy then takeZ 2 ps else [].
Proof.
  unfold select_replication_targets. rewrite alike_nodes.
  rewrite (retain_const (λ id, satisfies_sovereignty _ id _) (negb (bool_decide (sovereignty policy = Local))) ps).
  2:{ intros p Hp. unfold satisfies_sovereignty. rewrite (alike_find p Hp). cbn.
      destruct (sovereignty policy); [done| |done]. by rewrite bool_decide_true. }
  case_bool_decide; cbn [negb].
  { destruct (_ <? _); [done|]. by destruct (_ <? _). }
  assert (∀ l, (∀ p, p ∈ l → p ∈ ps) → retain (λ id, has_capacity (alike z ps) id 1000000) l = l) as Hcap.
  { intros l Hl. apply retain_all. intros p Hp. unfold has_capacity. by rewrite (alike_find p) by auto. }
  unfold latency_allows. destruct (latency_target policy <? from_millis 2).
  - rewrite (retain_const (is_metro_zone _) (match z with Metro _ => true | _ => false end) ps).
    2:{ intros p Hp. unfold is_metro_zone. by rewrite (alike_find p Hp). }
    destruct z; [by rewrite Hcap|done|done].
  - destruct (latency_target policy <? from_millis 100); [|by rewrite Hcap].
    rewrite (retain_const (is_same_geo_region _) (match z with Edge _ => false | _ => true end) ps).
    2:{ intros p Hp. unfold is_same_geo_region. rewrite (alike_find p Hp). cbn.
        destruct z; [apply String.eqb_refl|apply String.eqb_refl|done]. }
    destruct z; [by rewrite Hcap|by rewrite Hcap|done].
Qed.

Lemma alike_migration : select_migration_target metro_sync (alike z ps) = head ps.
Proof.
  unfold select_migration_target. rewrite alike_nodes. cbn [sovereignty metro_sync latency_target].
  change (from_millis 2 <? from_millis 2) with false. cbv iota.
  rewrite (retain_all (λ id, satisfies_sovereignty _ id _)).
  2:{ intros p Hp. unfold satisfies_sovereignty. rewrite (alike_find p Hp). by apply bool_decide_true. }
  rewrite retain_all by (intros p Hp; unfold has_capacity; by rewrite (alike_find p Hp)).
  assert (∀ l, (∀ p, p ∈ l → p ∈ ps) → min_by_key (utilization (alike z ps)) l = head l) as Hmin; [|by apply Hmin].
  induction l as [|x l IH]; intros Hl; [done|]. cbn [min_by_key head].
  rewrite IH by (intros p Hp; apply Hl; by right). destruct l as [|y l]; [done|]. cbn [head].
  assert (∀ p, p ∈ ps → utilization (alike z ps) p = 9) as Hu
    by (intros p Hp; unfold utilization; by rewrite (alike_find p Hp)).
  rewrite !Hu by (apply Hl; set_solver). done.
Qed.

Lemma alike_underutilized : find_underutilized_nodes (alike z ps) (f32_of_Z 50) = ps.
Proof.
  unfold find_underutilized_nodes, alike. cbn [nodes].
  induction ps as [|p l IH]; [done|]. rewrite fmap_cons, filter_cons_True; [|by vm_compute].
  rewrite fmap_cons. by rewrite IH.
Qed.

Lemma alike_zones : zone_ids (alike z ps) = [z].
Proof.
  unfold zone_ids, alike. cbn [nodes local_zone]. induction ps as [|p l IH]; [done|].
  rewrite fmap_cons. cbn [foldl existsb snd placeholder zone]. by rewrite bool_decide_true.
Qed.

Lemma alike_replicate id policy strategy :
  action_line <$> (if bool_decide (select_replication_targets policy (alike z ps) = []) then []
                   else [Replicate id strategy (select_replication_targets policy (alike z ps))]) =
  if bool_decide (ps = []) then []
  else if bool_decide (sovereignty policy = Local) then []
  else if latency_allows z policy then [ExecutingReplication id strategy (Z.min 2 (lenZ ps))]
  else [].
Proof.
  rewrite alike_replication. destruct (decide (sovereignty policy = Local)) as [Hl|Hl].
  { rewrite (bool_decide_true (sovereignty policy = Local)), (bool_decide_true (([] : list NodeId) = [])) by done.
    by destruct (bool_decide (ps = [])). }
  rewrite (bool_decide_false (sovereignty policy = Local)) by done.
  destruct (latency_allows z policy).
  2:{ rewrite (bool_decide_true (([] : list NodeId) = [])) by done. by destruct (bool_decide (ps = [])). }
  destruct ps as [|p [|q l]]; [done|done|]. cbn. do 2 f_equal. rewrite !lenZ_cons.
  pose proof (lenZ_nonneg l). rewrite Z.min_l by lia.
  change (0 <? 2 - 1) with true. cbv iota. by rewrite takeZ_le0.
Qed.

Lemma alike_actions c event :
  action_line <$> compile_scaling_actions c event (event_policy event) (alike z ps) = agent_says z ps event.
Proof.
  unfold compile_scaling_actions. rewrite validate_sovereignty_id.
  destruct event as [id policy n|id k n|nid used total thr|nid reason|id view]; cbn [event_policy agent_says].
  - unfold compile_replication_strategy. destruct (Z.eqb_spec (rpo policy) 0) as [->|Hz].
    + rewrite bool_decide_false by done. apply alike_replicate.
    + destruct (rpo policy <? from_secs 60); cbn [negb].
      * rewrite bool_decide_false by done. apply alike_replicate.
      * rewrite bool_decide_true by done. by destruct (bool_decide (ps = [])).
  - unfold compile_migration_for_heat. rewrite alike_migration.
    destruct (k <=? 100); [by destruct ps|]. change (from_millis 10 <=? latency_target metro_sync) with false.
    cbv iota. destruct ps as [|p l] eqn:Hps; [done|]. cbn [head]. unfold requires_transformation.
    rewrite bool_decide_true by done. rewrite <- Hps, (alike_find p) by (rewrite Hps; by left).
    cbn. by rewrite bool_decide_true.
  - unfold compile_rebalancing. destruct (f32_ge _ _); cbn [negb]; [|by case_bool_decide].
    destruct (f32_lt _ _); [by case_bool_decide|]. rewrite alike_underutilized. case_bool_decide; done.
  - done.
  - rewrite alike_zones. done.
Qed.
End alike.

Lemma handle_says a event m :
  handle_telemetry_event a event m =
    (Ok tt, says m (agent_says (mn_zone (node m)) (hash_iter (mn_peers (node m))).*1 event)).
Proof.
  unfold handle_telemetry_event. unfold bind at 1, build_mesh_state, bind, discover_peers, gets, ret.
  rewrite execute_all_says. fold (alike (mn_zone (node m)) (hash_iter (mn_peers (node m))).*1).
  by rewrite alike_actions.
Qed.

Lemma handle_all_says a events m :
  foldM (λ _ event, let! _ := attempt (E' := Error) (handle_telemetry_event a event) in ret tt) tt events m =
    (Ok tt, says m (events ≫= agent_says (mn_zone (node m)) (hash_iter (mn_peers (node m))).*1)).
Proof.
  revert m. induction events as [|e l IH]; intros m; [by rewrite says_nil|].
  cbn [foldM]. unfold bind at 1. unfold bind at 1, attempt. rewrite handle_says. unfold ret at 1.
  rewrite IH, says_app. done.
Qed.
End agent_lemmas.

(** ** Properties *)
Section agent_properties.
Context `{HashOrder}.

(** C32: what the agent does.  It takes every event in order, ends when the channel closes, and
    for each event writes exactly the lines [agent_says] gives; it sends nothing, and leaves
    peers and network alone.  In particular a new capsule goes to the first two peers whatever their zones are, a
    heat spike moves any capsule, whatever its policy, to the first peer, and a full node is
    balanced against all peers, itself among them. *)
Theorem agent_runs_as_specified a events m :
  run a events m = (Ok tt, says m
    ([AgentStarted (mn_id (node m))] ++
     (events ≫= agent_says (mn_zone (node m)) (hash_iter (mn_peers (node m))).*1) ++
     [TelemetryClosed])).
Proof.
  unfold run. unfold bind at 1, gets. unfold bind at 1, tell, modify. unfold bind at 1.
  change (mkMesh (node m) (net_faults m) (wire m) (journal m ++ [AgentStarted (mn_id (node m))]))
    with (says m [AgentStarted (mn_id (node m))]).
  rewrite handle_all_says. change (node (says m _)) with (node m).
  change (mkMesh (node (says ?a ?b)) _ _ (journal (says ?a ?b) ++ ?l)) with (says (says a b) l).
  by rewrite !says_app.
Qed.

(** A capsule that must stay on its node is moved all the same: the agent compiles heat spikes
    under a policy of its own. *)
Lemma heat_moves_local_capsules a (c : Capsule) k n m p ps :
  sovereignty (cap_policy c) = Local → 100 < k → (hash_iter (mn_peers (node m))).*1 = p :: ps →
  on_migrate c p (mn_zone (node m)) = Err (Msg "capsule has Local sovereignty, cannot migrate") ∧
  handle_telemetry_event a (HeatSpike (cap_id c) k n) m =
    (Ok tt, says m [ExecutingMigration (cap_id c) p ("heat_spike_" +:+ pretty k +:+ "_accesses_per_min") false]).
Proof.
  intros Hl Hk Hp. split; [unfold on_migrate; by rewrite Hl|]. rewrite handle_says, Hp. cbn [agent_says].
  by rewrite (proj2 (Z.leb_gt k 100)) by lia.
Qed.
End agent_properties.

(** A node that reports itself full is balanced against itself. *)
Example full_node_is_its_own_target :
  compile_scaling_actions with_defaults (CapacityThreshold (mkNodeId [x0a]) 95 100 (f64_of_Z 80)) metro_sync
    (alike (Metro "a") [mkNodeId [x0a]]) = [Rebalance [mkNodeId [x0a]] [mkNodeId [x0a]]].
Proof. vm_compute; reflexivity. Qed.
