(* ===== verification/Views.v ===== *)
(** The view projections of the phase4 feature: NVMe-oF (protocol-nvme/src/lib.rs), CSI
    (protocol-csi/src/lib.rs), FUSE (protocol-fuse/src/lib.rs) and NFS
    (protocol-nfs/src/phase4.rs), the handles of the crates under vendor/ they return, and the
    command of spacectl that runs them.

    The four repeat one loop over the compiled actions ([run_actions]).  The registry is only
    read; what a projection does to the outside are calls on the mesh.  The JSON text of a
    capsule is a parameter. *)
From S2P Require Import Prelude Errors Common Externals Scaling Mesh SpaceCtl.
From S2P Require Registry.
Import Registry.

(** [MeshState::empty(zone)] *)
Definition MeshState_empty (zone : ZoneId) : MeshState := mkMeshState [] zone.

(** *** vendor/spdk-rs, vendor/fuse-rs, vendor/nfs-rs, vendor/csi-driver-rs *)
Record Namespace := mkNamespace { ns_data : bytes }.
Record NvmeTargetBuilder := mkNvmeTargetBuilder { builder_namespaces : list Namespace }.
Record NvmeTarget := mkNvmeTarget { target_namespaces : list Namespace }.

Definition add_namespace (n : Namespace) (b : NvmeTargetBuilder) : NvmeTargetBuilder :=
  mkNvmeTargetBuilder (builder_namespaces b ++ [n]).
Definition build_target (b : NvmeTargetBuilder) : NvmeTarget := mkNvmeTarget (builder_namespaces b).

Record MountHandle := mkMountHandle { mountpoint : string; mounted_data : bytes }.
Definition mount (data : bytes) (at_ : string) : MountHandle := mkMountHandle at_ data.

(** The exports: a name with the path of its options. *)
Record NfsServer := mkNfsServer { exports : list (string * string) }.
Definition NfsServer_export (name path : string) (s : NfsServer) : NfsServer := mkNfsServer (exports s ++ [(name, path)]).

Record CsiServer := mkCsiServer { csi_capsule_id : string }.
Definition provision (capsule_id : string) : CsiServer := mkCsiServer capsule_id.

Record NvmeView := mkNvmeView { nvme_capsule_id : CapsuleId; nvme_target : NvmeTarget }.

Section views.
Context {JR : JsonDoc RegistryState} {JC : JsonDoc Capsule} `{HashOrder} `{UuidText}.
Context (json_bytes : doc Capsule → bytes).
Implicit Types registry : CapsuleRegistry.

Definition run_action registry (action : ScalingAction) : M Mesh Error unit :=
  match action with
  | Federate capsule_id zone => federate_capsule capsule_id zone
  | ShardEC capsule_id _ zones =>
      match zones with
      | [] => ret tt
      | _ =>
          let! payload := lift (fst (serialize_capsule capsule_id registry)) in
          let! owner := gets (λ m, mn_id (node m)) in
          let shards := zip_with (λ zone shard_id, mkMetadataShard shard_id owner zone) zones
                          (shard_keys capsule_id (lenZ zones)) in
          shard_metadata capsule_id shards (json_bytes payload)
      end
  | _ => ret tt
  end.

(** Telemetry, the compiled actions, and the loop over them. *)
Definition run_actions (id : CapsuleId) (view : string) (policy : Policy) registry : M Mesh Error unit :=
  let! zone := gets (λ m, mn_zone (node m)) in
  let actions := compile_scaling policy (ViewProjection id view) (MeshState_empty zone) in
  foldM (λ _ action, run_action registry action) tt actions.

Definition project_nvme_view (id : CapsuleId) (policy : Policy) registry : M Mesh Error NvmeView :=
  let! capsule := lift (fst (lookup id registry)) in
  let! transformed := lift (apply_transform capsule [] policy) in
  run_actions id "nvme" policy registry ;;;
  ret (mkNvmeView id (build_target (add_namespace (mkNamespace transformed) (mkNvmeTargetBuilder [])))).

Definition mount_fuse_view (id : CapsuleId) (policy : Policy) (at_ : string) registry : M Mesh Error MountHandle :=
  let! capsule := lift (fst (lookup id registry)) in
  let! transformed := lift (apply_transform capsule [] policy) in
  run_actions id "fuse" policy registry ;;;
  ret (mount transformed at_).

Definition export_nfs_view (id : CapsuleId) (policy : Policy) registry : M Mesh Error NfsServer :=
  let! capsule := lift (fst (lookup id registry)) in
  run_actions id "nfs" policy registry ;;;
  let export_path := "/capsules/" +:+ uuid_text (as_uuid id) in
  ret (NfsServer_export (uuid_text (as_uuid id)) export_path (mkNfsServer [])).

(** [req]: the id of the request, a text. *)
Definition csi_provision_capsule (req : string) (policy : Policy) registry : M Mesh Error CsiServer :=
  let! uuid := lift (ok_or (parse_uuid req) (Msg "invalid UUID")) in
  let id := mkCapsuleId uuid in
  let! capsule := lift (fst (lookup id registry)) in
  run_actions id "csi" policy registry ;;;
  ret (provision (uuid_text (as_uuid id))).

(** *** The command [project] of spacectl *)
Inductive Phase4View := ViewNvme | ViewNfs | ViewFuse | ViewCsi.

(** [policy]: the outcome of reading and parsing the file; [disk], [fs]: the registry's file
    and the outcome of opening it; [self]: the id the mesh node draws. *)
Definition handle_project_command (view : Phase4View) (id : string) (policy : Res Error Policy)
    (disk : option (doc RegistryState)) (fs : faults) (self : NodeId) : Res Error unit * list LogLine :=
  match parse_uuid id, policy with
  | None, _ => (Err (Msg "invalid UUID"), [])
  | Some _, Err e => (Err e, [])
  | Some _, Panic => (Panic, [])
  | Some uuid, Ok policy =>
      let capsule_id := mkCapsuleId uuid in
      match reg_open disk fs with
      | Ok registry =>
          let mesh := mkMesh (MeshNode_new self (Metro "local") "127.0.0.1:0") [] [] [] in
          let '(r, m) :=
            match view with
            | ViewNvme => (project_nvme_view capsule_id policy registry ;;; ret tt) mesh
            | ViewNfs => (export_nfs_view capsule_id policy registry ;;; ret tt) mesh
            | ViewFuse => (mount_fuse_view capsule_id policy "/tmp/space" registry ;;; ret tt) mesh
            | ViewCsi => (csi_provision_capsule (uuid_text uuid) policy registry ;;; ret tt) mesh
            end in
          (r, journal m)
      | _ => (Panic, [])
      end
  end.

(** ** What a projection says to the mesh *)
Definition view_lines (id : CapsuleId) (policy : Policy) (n : MeshNode) (payload : bytes) : list LogLine :=
  let zone := ZoneId_display (mn_zone n) in
  (if bool_decide (sovereignty policy = Local) then []
   else [ReplicatingMetadata RaftCluster_new id zone; TriggeredFederation id zone]) ++
  shard_lines id payload (mkMetadataShard (u64_add (from_le_bytes (takeZ 8 (as_uuid id))) 0) (mn_id n) (mn_zone n)).

Lemma run_actions_says id view policy registry c m :
  capsules registry !! id = Some c →
  run_actions id view policy registry m = (Ok tt, says m (view_lines id policy (node m) (json_bytes (to_doc c)))).
Proof.
  intros Hc. unfold run_actions, view_lines. unfold bind at 1, gets. unfold compile_scaling, compile_scaling_actions.
  rewrite validate_sovereignty_id. change (zone_ids (MeshState_empty (mn_zone (node m)))) with [mn_zone (node m)].
  rewrite (bool_decide_false ([mn_zone (node m)] = [])) by done.
  assert (∀ m', node m' = node m → run_action registry (ShardEC id 2 [mn_zone (node m)]) m' =
    (Ok tt, says m' (shard_lines id (json_bytes (to_doc c))
      (mkMetadataShard (u64_add (from_le_bytes (takeZ 8 (as_uuid id))) 0) (mn_id (node m)) (mn_zone (node m)))))) as Hs.
  { intros m' Hn. unfold run_action. unfold bind at 1, lift, serialize_capsule, bind at 1, lookup, bind, gets, lift.
    rewrite Hc. cbn [ok_or fst ret]. rewrite Hn. change (lenZ [mn_zone (node m)]) with 1.
    assert (shard_keys id 1 = [u64_add (from_le_bytes (takeZ 8 (as_uuid id))) 0]) as -> by done.
    cbn [zip_with]. rewrite shard_metadata_says. cbn [mbind list_bind]. by rewrite app_nil_r. }
  case_bool_decide; cbn [app foldM].
  - unfold bind. rewrite Hs by done. done.
  - pose proof (federate_says id (mn_zone (node m)) m : run_action registry (Federate id (mn_zone (node m))) m = _) as Hf.
    change (local_zone (MeshState_empty (mn_zone (node m)))) with (mn_zone (node m)).
    unfold bind. rewrite Hf, Hs by done. unfold ret. by rewrite says_app.
Qed.
End views.

(** ** Properties *)
Section view_properties.
Context {JR : JsonDoc RegistryState} {JC : JsonDoc Capsule} `{HashOrder} `{UuidText}.
Context (json_bytes : doc Capsule → bytes).

(** A projection over a capsule that is there, and one over a capsule that is not. *)
Definition projects {A : Type} (view : M Mesh Error A) (id : CapsuleId) (policy : Policy) (r : CapsuleRegistry)
    (result : A) (m : Mesh) : Prop :=
  view m =
    match capsules r !! id with
    | None => (Err (Msg "Capsule not found"), m)
    | Some c => (Ok result, says m (view_lines id policy (node m) (json_bytes (to_doc c))))
    end.

(** C33: the four projections do the same.  Over a capsule the registry has, each succeeds, tells
    the mesh exactly the same lines, one federation unless the policy says local and always one shard for the
    node's own zone with the JSON text of the capsule, and sends nothing else; over any
    other id each fails without a word.  What they return does not depend on the capsule's
    data: the namespace and the mounted file system are empty. *)
Theorem views_project_alike id policy at_ r m :
  projects (project_nvme_view json_bytes id policy r) id policy r (mkNvmeView id (mkNvmeTarget [mkNamespace []])) m ∧
  projects (mount_fuse_view json_bytes id policy at_ r) id policy r (mkMountHandle at_ []) m ∧
  projects (export_nfs_view json_bytes id policy r) id policy r
    (mkNfsServer [(uuid_text (as_uuid id), "/capsules/" +:+ uuid_text (as_uuid id))]) m ∧
  (∀ req, parse_uuid req = Some (as_uuid id) →
     projects (csi_provision_capsule json_bytes req policy r) id policy r (mkCsiServer (uuid_text (as_uuid id))) m).
Proof.
  unfold projects. destruct (capsules r !! id) as [c|] eqn:Hc.
  - pose proof (λ view, run_actions_says json_bytes id view policy r c m Hc) as Hrun.
    assert (fst (lookup id r) = Ok c) as Hl by (unfold lookup, bind, gets, lift; by rewrite Hc).
    split; [|split; [|split]]; [..|intros req Hreq];
      unfold project_nvme_view, mount_fuse_view, export_nfs_view, csi_provision_capsule;
      rewrite ?Hreq; cbn [ok_or]; unfold bind, lift; destruct id as [u]; cbn [as_uuid] in *; rewrite Hl; cbn [apply_transform];
      by rewrite Hrun.
  - assert (fst (lookup id r) = Err (Msg "Capsule not found")) as Hl by (unfold lookup, bind, gets, lift; by rewrite Hc).
    split; [|split; [|split]]; [..|intros req Hreq];
      unfold project_nvme_view, mount_fuse_view, export_nfs_view, csi_provision_capsule;
      rewrite ?Hreq; cbn [ok_or]; unfold bind, lift; destruct id as [u]; cbn [as_uuid] in *; by rewrite Hl.
Qed.

(** The command over a capsule that is there: every view succeeds, over a mesh without peers. *)
Lemma project_command_succeeds `{!UuidLaws} view u policy disk fs self r c :
  lenZ u = 16 → reg_open disk fs = Ok r → capsules r !! mkCapsuleId u = Some c →
  handle_project_command json_bytes view (uuid_text u) (Ok policy) disk fs self =
    (Ok tt, view_lines (mkCapsuleId u) policy (MeshNode_new self (Metro "local") "127.0.0.1:0") (json_bytes (to_doc c))).
Proof.
  intros Hu Hr Hc. unfold handle_project_command. rewrite (parse_uuid_text u Hu), Hr.
  assert (fst (lookup (mkCapsuleId u) r) = Ok c) as Hl by (unfold lookup, bind, gets, lift; by rewrite Hc).
  set (m := mkMesh _ _ _ _).
  pose proof (λ view, run_actions_says json_bytes (mkCapsuleId u) view policy r c m Hc) as Hrun.
  destruct view; unfold project_nvme_view, mount_fuse_view, export_nfs_view, csi_provision_capsule;
    rewrite ?(parse_uuid_text u Hu); cbn [ok_or]; unfold bind, lift; rewrite Hl; cbn [apply_transform];
    by rewrite Hrun.
Qed.
End view_properties.

(** ** Witness: a registry with one capsule *)
Section view_witnesses.
#[local] Instance view_state_doc : JsonDoc RegistryState := plain_doc RegistryState.
#[local] Instance view_capsule_doc : JsonDoc Capsule := plain_doc Capsule.
#[local] Existing Instance listed_order.
#[local] Instance view_uuid : UuidText :=
  {| uuid_text := String.string_of_list_byte; parse_uuid := λ s, Some (string_bytes s) |}.

Definition shown_id : CapsuleId := mkCapsuleId (replicate 16 x0a).
Definition shown_text : string := String.string_of_list_byte (replicate 16 x0a).
Definition shown : CapsuleRegistry :=
  mkCapsuleRegistry (<[shown_id := mkCapsule shown_id 40 [mkSegmentId 0] 0 metro_sync 0]> ∅) 1 ∅ None [].
Definition quiet_mesh : Mesh := mkMesh (MeshNode_new (mkNodeId [x01]) (Metro "local") "127.0.0.1:0") [] [] [].

Lemma views_project_alike_witness :
  parse_uuid shown_text = Some (as_uuid shown_id) ∧
  projects (λ _, [x7b]) (csi_provision_capsule (λ _, [x7b]) shown_text metro_sync shown) shown_id metro_sync shown
    (mkCsiServer (uuid_text (as_uuid shown_id))) quiet_mesh.
Proof.
  assert (parse_uuid shown_text = Some (as_uuid shown_id)) as Hp by (vm_compute; reflexivity).
  split; [exact Hp|].
  destruct (views_project_alike (λ _, [x7b]) shown_id metro_sync "/mnt" shown quiet_mesh) as (_ & _ & _ & Hcsi).
  apply (Hcsi shown_text Hp).
Defined.

(** The capsule has forty bytes, its namespace has none. *)
Example namespace_is_empty :
  match project_nvme_view (λ _, [x7b]) shown_id metro_sync shown quiet_mesh with
  | (Ok v, m) => nvme_target v = mkNvmeTarget [mkNamespace []] ∧ (cap_size <$> capsules shown !! shown_id) = Some 40 ∧
      length (journal m) = 4%nat
  | _ => False
  end.
Proof. vm_compute. by split. Qed.
End view_witnesses.
