(* ===== verification/Storage.v ===== *)
(** Crate [storage] (crates/storage/src/lib.rs): the in-memory backend and the one over
    the simulated NVRAM log, with their transactions.  The mutex of the in-memory
    backend is held inside one call; its transactions only stage, and apply
    everything at [commit].  The lock is never poisoned, as no holder panics. *)
From S2P Require Import Prelude Errors Common Traits Externals.
From S2P Require Nvram.
Import Nvram.

Definition SegNotFound (text : string) (id : SegmentId) : Error := MsgSegment text id.

(** ** The in-memory backend *)
Module InMemory.
(** [InMemoryBackend], by its [Inner]. *)
Record Inner := mkInner {
  segments : gmap SegmentId bytes;
  metadata_map : gmap SegmentId Segment;
}.

Record Transaction := mkTransaction {
  staged_segments : gmap SegmentId bytes;
  staged_metadata : gmap SegmentId Segment;
  deleted : list SegmentId;
}.

Definition new : Inner := mkInner ∅ ∅.

Definition append (segment : SegmentId) (data : bytes) : M Inner Error unit :=
  modify (λ s, mkInner (<[segment := data]> (segments s)) (metadata_map s)).

Definition read (segment : SegmentId) : M Inner Error bytes :=
  let! s := gets (λ s, s) in
  lift (ok_or (segments s !! segment) (SegNotFound "segment not found" segment)).

Definition metadata (segment : SegmentId) : M Inner Error Segment :=
  let! s := gets (λ s, s) in
  lift (ok_or (metadata_map s !! segment) (SegNotFound "segment metadata not found" segment)).

Definition delete (segment : SegmentId) : M Inner Error unit :=
  modify (λ s, mkInner (base.delete segment (segments s)) (base.delete segment (metadata_map s))).

Definition segment_ids `{HashOrder} : M Inner Error (list SegmentId) :=
  gets (λ s, (hash_iter (metadata_map s)).*1).

Definition begin_txn : M Inner Error Transaction := ret (mkTransaction ∅ ∅ []).

Definition on_staged (f : Transaction → Transaction) : M (Transaction * Inner) Error unit :=
  modify (λ ts, (f ts.1, ts.2)).

Definition txn_append (segment : SegmentId) (data : bytes) : M (Transaction * Inner) Error unit :=
  on_staged (λ t, mkTransaction (<[segment := data]> (staged_segments t)) (staged_metadata t)
                    (deleted t)).

Definition txn_set_segment_metadata (segment : SegmentId) (m : Segment) :
    M (Transaction * Inner) Error unit :=
  on_staged (λ t, mkTransaction (staged_segments t) (<[segment := m]> (staged_metadata t))
                    (deleted t)).

Definition txn_delete (segment : SegmentId) : M (Transaction * Inner) Error unit :=
  on_staged (λ t, mkTransaction (staged_segments t) (staged_metadata t) (deleted t ++ [segment])).

(** The staged entries are inserted, then the deleted ones removed. *)
Definition txn_commit : M (Transaction * Inner) Error unit :=
  modify (λ '(t, s),
    let s := mkInner (staged_segments t ∪ segments s) (metadata_map s) in
    let s := mkInner (segments s) (staged_metadata t ∪ metadata_map s) in
    (t, foldl (λ s id, mkInner (base.delete id (segments s)) (base.delete id (metadata_map s)))
          s (deleted t))).

Definition txn_rollback : M (Transaction * Inner) Error unit := ret tt.
End InMemory.

#[export] Instance InMemoryBackend `{HashOrder} :
    StorageBackend InMemory.Inner InMemory.Transaction :=
  {| sb_append := InMemory.append; sb_read := InMemory.read; sb_metadata := InMemory.metadata;
     sb_delete := InMemory.delete; sb_segment_ids := InMemory.segment_ids;
     sb_begin_txn := InMemory.begin_txn; tx_append := InMemory.txn_append;
     tx_set_segment_metadata := InMemory.txn_set_segment_metadata;
     tx_delete := InMemory.txn_delete; tx_commit := InMemory.txn_commit;
     tx_rollback := InMemory.txn_rollback; tx_drop := λ _ s, s |}.

(** ** The NVRAM backend *)
Module NvramStorage.
Section nvram_storage.
Context {J : JsonDoc SegmentMap}.

(** [NvramStorageTransaction]; the backend is the log itself. *)
Record Transaction := mkTransaction { inner : NvramTransaction; deleted : list SegmentId }.

Definition append (segment : SegmentId) (data : bytes) : M NvramLog Error unit :=
  Nvram.append segment data ;;; ret tt.

Definition read (segment : SegmentId) : M NvramLog Error bytes := Nvram.read segment.

Definition metadata (segment : SegmentId) : M NvramLog Error Segment :=
  get_segment_metadata segment.

Definition delete (segment : SegmentId) : M NvramLog Error unit :=
  remove_segment segment ;;; ret tt.

Definition segment_ids `{HashOrder} : M NvramLog Error (list SegmentId) := list_segment_ids.

Definition begin_txn : M NvramLog Error Transaction :=
  gets (λ l, mkTransaction (begin_transaction l) []).

Definition on_inner {A : Type} (m : M TxnState Error A) : M (Transaction * NvramLog) Error A :=
  zoom (λ ts, mkTxnState (inner ts.1) ts.2)
       (λ s ts, (mkTransaction (txn s) (deleted ts.1), txn_log s)) m.

Definition txn_append (segment : SegmentId) (data : bytes) :
    M (Transaction * NvramLog) Error unit :=
  on_inner (append_segment segment data) ;;; ret tt.

Definition txn_set_segment_metadata (segment : SegmentId) (m : Segment) :
    M (Transaction * NvramLog) Error unit :=
  on_inner (set_segment_metadata segment m).

Definition txn_delete (segment : SegmentId) : M (Transaction * NvramLog) Error unit :=
  modify (λ ts, (mkTransaction (inner ts.1) (deleted ts.1 ++ [segment]), ts.2)).

Definition txn_commit : M (Transaction * NvramLog) Error unit :=
  on_inner commit ;;;
  let! ts := gets (λ ts, ts) in
  foldM (λ _ seg, on_inner (on_log (remove_segment seg)) ;;; ret tt) tt (deleted ts.1).

Definition txn_rollback : M (Transaction * NvramLog) Error unit := on_inner rollback.

Definition drop (t : Transaction) (l : NvramLog) : NvramLog :=
  txn_log (txn_drop (mkTxnState (inner t) l)).2.
End nvram_storage.
End NvramStorage.

#[export] Instance NvramBackend {J : JsonDoc SegmentMap} `{HashOrder} :
    StorageBackend NvramLog NvramStorage.Transaction :=
  {| sb_append := NvramStorage.append; sb_read := NvramStorage.read;
     sb_metadata := NvramStorage.metadata; sb_delete := NvramStorage.delete;
     sb_segment_ids := NvramStorage.segment_ids; sb_begin_txn := NvramStorage.begin_txn;
     tx_append := NvramStorage.txn_append;
     tx_set_segment_metadata := NvramStorage.txn_set_segment_metadata;
     tx_delete := NvramStorage.txn_delete; tx_commit := NvramStorage.txn_commit;
     tx_rollback := NvramStorage.txn_rollback; tx_drop := NvramStorage.drop |}.

(** ** The in-memory backend keeps the interface's laws, and never fails *)
Lemma in_memory_delete_all ids s :
  foldl (λ s id, InMemory.mkInner (base.delete id (InMemory.segments s))
                   (base.delete id (InMemory.metadata_map s))) s ids =
  InMemory.mkInner (delete_all ids (InMemory.segments s))
                   (delete_all ids (InMemory.metadata_map s)).
Proof.
  revert s. induction ids as [|id ids IH]; intros [d m]; [done|]. simpl. by rewrite IH.
Qed.

#[export] Instance InMemorySpec `{HashOrder} : StorageSpec InMemory.Inner InMemory.Transaction.
Proof.
  refine {|
    view_of := λ s, mkStorageView (InMemory.segments s) (InMemory.metadata_map s);
    staged_of := λ t, mkStaged (InMemory.staged_segments t) (InMemory.staged_metadata t)
                        (InMemory.deleted t);
    fallible := False |}.
  - intros id [d m]. unfold wp. cbn. destruct (d !! id) eqn:Hd; cbn; auto.
  - intros id [d m]. unfold wp. cbn. destruct (m !! id) eqn:Hd; cbn; auto.
  - done.
  - intros s. split; [done|]. cbn. by rewrite hash_iter_perm.
  - done.
  - done.
  - done.
  - done.
  - intros [t s]. unfold wp. cbn. by rewrite in_memory_delete_all.
  - done.
  - done.
Defined.
