(* ===== verification/ModularPipeline.v ===== *)
(** Crate [pipeline] (crates/pipeline/src/lib.rs): the pipeline generic in its traits,
    the encryptors, keyrings, evaluator and in-memory catalog it ships, and the
    pipelines assembled from them (here and in crates/capsule-registry/src/lib.rs).

    The [async] methods run without interference: each holds [&mut self], and no other
    clone of the backend or catalog is at work between two of its awaits; a future is
    polled to its end.  An encryptor and a keyring that share a key manager are two
    views of one state [X].  [DedupStats] copies kept for statistics are modelled. *)
From S2P Require Import Prelude Errors Common Traits Externals.
From S2P Require Compression KeyManager Encryption Dedup Layout Nvram Registry Storage.
Import (hints) Compression Dedup Registry Storage.

(** ** Encryptors and keyrings *)
Definition NoopEncryptor_encrypt (data : bytes) (policy : EncryptionPolicy) (segment : SegmentId) :
    M unit Error (bytes * EncryptionSummary) := ret (data, EncryptionSummary_new "noop").

Definition NoopEncryptor_decrypt (data : bytes) (policy : EncryptionPolicy) (segment : SegmentId) :
    M unit Error bytes := ret data.

#[export] Instance NoopEncryptor : Encryptor unit :=
  {| tr_encrypt := NoopEncryptor_encrypt; tr_decrypt := NoopEncryptor_decrypt;
     tr_compute_mac := λ _ _, Ok []; tr_verify_mac := λ _ _ _, Ok tt |}.

#[export] Instance NullKeyring : Keyring unit :=
  {| kr_derive_key := λ _ _, ret (replicate 32 x00); kr_rotate_key := λ _, ret tt |}.

Section xts.
Context `{Crates}.
Import KeyManager Encryption.

Definition acquire_key (requested : option Z) : M KeyManager Error (Z * XtsKeyPair) :=
  let! manager := gets (λ m, m) in
  let key_version := default (current_version manager) requested in
  let! key_pair := map_err (λ e, Context "failed to load XTS key" (OfEncryption e))
                     (get_key key_version) in
  ret (key_version, key_pair).

Definition XtsEncryptor_encrypt (data : bytes) (policy : EncryptionPolicy) (segment : SegmentId) :
    M KeyManager Error (bytes * EncryptionSummary) :=
  if negb (Common.is_enabled policy) then ret (data, EncryptionSummary_new "none")
  else
    let! (key_version, key_pair) := acquire_key (policy_key_version policy) in
    let hash := blake3_hash data in
    let tweak := derive_tweak_from_hash hash in
    let! (ciphertext, metadata) :=
      lift (res_map_err (λ e, Context "segment encryption failed" (OfEncryption e))
              (encrypt_segment data key_pair key_version tweak)) in
    let! mac := lift (res_map_err (λ e, Context "failed to compute MAC" (OfEncryption e))
                        (compute_mac ciphertext metadata (key1 key_pair) (key2 key_pair))) in
    let metadata := set_integrity_tag mac metadata in
    ret (ciphertext,
         {| es_algorithm := "xts-aes-256";
            es_key_version := md_key_version metadata;
            es_encryption_version := md_encryption_version metadata;
            es_mac := md_integrity_tag metadata;
            es_tweak_nonce := md_tweak_nonce metadata;
            es_integrity_tag := md_integrity_tag metadata |}).

(** "Placeholder implementation returns ciphertext." *)
Definition XtsEncryptor_decrypt (data : bytes) (policy : EncryptionPolicy) (segment : SegmentId) :
    M KeyManager Error bytes := ret data.

#[export] Instance XtsEncryptor : Encryptor KeyManager :=
  {| tr_encrypt := XtsEncryptor_encrypt; tr_decrypt := XtsEncryptor_decrypt;
     tr_compute_mac := λ data _, Ok (blake3_hash data); tr_verify_mac := λ _ _ _, Ok tt |}.

Definition KeyManagerKeyring_derive_key (capsule : CapsuleId) (segment : SegmentId) :
    M KeyManager Error bytes :=
  let! version := gets current_version in
  let! key_pair := map_err (λ e, Context "failed to load key for derivation" (OfEncryption e))
                     (get_key version) in
  ret (key1 key_pair).

Definition KeyManagerKeyring_rotate_key (capsule : CapsuleId) : M KeyManager Error unit :=
  map_err (λ e, Context "key rotation failed" (OfEncryption e)) rotate ;;; ret tt.

#[export] Instance KeyManagerKeyring : Keyring KeyManager :=
  {| kr_derive_key := KeyManagerKeyring_derive_key; kr_rotate_key := KeyManagerKeyring_rotate_key |}.
End xts.

#[export] Instance DefaultPolicyEvaluator : PolicyEvaluator :=
  {| evaluate_compression := λ policy _, Ok (compression policy);
     evaluate_dedup := λ policy, Ok (dedupe policy);
     evaluate_encryption := λ policy, Ok (encryption policy);
     evaluate_replication := λ _, Ok (mkReplicationStrategy false []) |}.

(** ** The in-memory catalog *)
Module InMemoryCatalog.
Record Inner := mkInner {
  next_segment : Z;
  capsules : gmap CapsuleId Capsule;
  content : gmap ContentHash SegmentId;
}.

Definition new : Inner := mkInner 0 ∅ ∅.

Definition allocate_segment : M Inner Error SegmentId :=
  let! seg := gets next_segment in
  modify (λ c, mkInner (u64_add (next_segment c) 1) (capsules c) (content c)) ;;;
  ret (mkSegmentId seg).

Definition lookup_capsule (id : CapsuleId) : M Inner Error Capsule :=
  let! c := gets (λ c, c) in
  lift (ok_or (capsules c !! id) (Msg "capsule not found")).

Definition create_capsule (now : option Z) (id : CapsuleId) (size : Z) (policy : Policy)
    (segments : list SegmentId) (stats : DedupStats) : M Inner Error unit :=
  let! created_at := lift (ok_or now (IoFailed "duration_since")) in
  let capsule := mkCapsule id size segments created_at policy (bytes_saved stats) in
  modify (λ c, mkInner (next_segment c) (<[id := capsule]> (capsules c)) (content c)).

Definition delete_capsule (id : CapsuleId) : M Inner Error Capsule :=
  let! removed := gets (λ c, capsules c !! id) in
  modify (λ c, mkInner (next_segment c) (delete id (capsules c)) (content c)) ;;;
  lift (ok_or removed (Msg "capsule not found")).

Definition lookup_content (hash : ContentHash) : M Inner Error (option SegmentId) :=
  gets (λ c, content c !! hash).

Definition register_content (hash : ContentHash) (segment : SegmentId) : M Inner Error unit :=
  modify (λ c, mkInner (next_segment c) (capsules c) (<[hash := segment]> (content c))).

Definition deregister_content (hash : ContentHash) (segment : SegmentId) : M Inner Error bool :=
  let! existing := gets (λ c, content c !! hash) in
  if bool_decide (existing = Some segment) then
    modify (λ c, mkInner (next_segment c) (capsules c) (delete hash (content c))) ;;;
    ret true
  else ret false.

#[export] Instance InMemoryCatalog `{HashOrder} : CapsuleCatalog Inner :=
  {| cat_allocate_segment := allocate_segment; cat_lookup_capsule := lookup_capsule;
     cat_create_capsule := create_capsule; cat_delete_capsule := delete_capsule;
     cat_lookup_content := lookup_content; cat_register_content := register_content;
     cat_deregister_content := deregister_content;
     cat_capsules := λ c, (hash_iter (capsules c)).*2;
     cat_content_entries := λ c, hash_iter (content c) |}.
End InMemoryCatalog.
Export (hints) InMemoryCatalog.

(** ** The pipeline *)
Record Pipeline (S X R Dd : Type) := mkPipeline {
  pl_deduper : Dd;
  pl_storage : S;
  pl_keys : X;
  pl_keyring : bool;
  pl_stats : DedupStats;
  pl_catalog : R;
}.
#[global] Arguments mkPipeline {S X R Dd}.
#[global] Arguments pl_deduper {S X R Dd}.
#[global] Arguments pl_storage {S X R Dd}.
#[global] Arguments pl_keys {S X R Dd}.
#[global] Arguments pl_keyring {S X R Dd}.
#[global] Arguments pl_stats {S X R Dd}.
#[global] Arguments pl_catalog {S X R Dd}.

Section pipeline.
Context {S T X R Dd : Type} `{Crates} `{!Compressor} `{!Deduper Dd} `{!Encryptor X}
  `{!Keyring X} `{!StorageBackend S T} `{!PolicyEvaluator} `{!CapsuleCatalog R}.
#[local] Abbreviation P := (Pipeline S X R Dd).

Definition Pipeline_new (deduper : Dd) (keys : X) (storage : S) (keyring : bool) (catalog : R) : P :=
  mkPipeline deduper storage keys keyring DedupStats_new catalog.

Definition set_storage (s : S) (p : P) : P :=
  mkPipeline (pl_deduper p) s (pl_keys p) (pl_keyring p) (pl_stats p) (pl_catalog p).

Definition on_storage {A : Type} (m : M S Error A) : M P Error A := zoom pl_storage set_storage m.
Definition on_catalog {A : Type} (m : M R Error A) : M P Error A :=
  zoom pl_catalog (λ c p, mkPipeline (pl_deduper p) (pl_storage p) (pl_keys p) (pl_keyring p)
                            (pl_stats p) c) m.
Definition on_keys {A : Type} (m : M X Error A) : M P Error A :=
  zoom pl_keys (λ x p, mkPipeline (pl_deduper p) (pl_storage p) x (pl_keyring p)
                         (pl_stats p) (pl_catalog p)) m.
Definition on_deduper {A : Type} (m : M Dd Error A) : M P Error A :=
  zoom pl_deduper (λ d p, mkPipeline d (pl_storage p) (pl_keys p) (pl_keyring p)
                            (pl_stats p) (pl_catalog p)) m.

(** A transaction lives from [begin_txn] to the end of its scope, also when [?]
    leaves the scope early. *)
Definition with_txn {A : Type} (body : M (T * P) Error A) : M P Error A :=
  let! t := on_storage sb_begin_txn in
  λ p, let '(r, (t, p)) := body (t, p) in (r, set_storage (tx_drop t (pl_storage p)) p).

Definition in_txn {A : Type} (m : M (T * S) Error A) : M (T * P) Error A :=
  zoom (λ tp, (tp.1, pl_storage tp.2)) (λ ts tp, (ts.1, set_storage ts.2 tp.2)) m.
Definition in_pipe {A : Type} (m : M P Error A) : M (T * P) Error A :=
  zoom snd (λ p tp, (tp.1, p)) m.

(** [deduper.update_stats] and [stats.record]. *)
Definition count_segment (len : Z) (was_deduped : bool) : M P Error unit :=
  modify (λ p, mkPipeline (tr_update_stats len was_deduped (pl_deduper p)) (pl_storage p)
                 (pl_keys p) (pl_keyring p) (record len was_deduped (pl_stats p)) (pl_catalog p)).

(** The segment named by the catalog takes one more reference. *)
Definition reference_existing (existing : SegmentId) : M P Error unit :=
  let! metadata := on_storage (sb_metadata existing) in
  let metadata := set_refs (u32_add (seg_ref_count metadata) 1) (seg_access_count metadata) metadata in
  with_txn (
    in_txn (tx_set_segment_metadata existing metadata) ;;;
    in_txn tx_commit).

(** The [Segment] literal of a new segment. *)
Definition segment_record (seg_id : SegmentId) (payload : bytes) (summary : CompressionSummary)
    (hash : ContentHash) (es : EncryptionSummary) (encrypted : bool) : Segment :=
  {| seg_id := seg_id; seg_offset := 0; seg_len := wrap 32 (lenZ payload);
     seg_compressed := cs_compressed summary; seg_compression_algo := cs_algorithm summary;
     seg_content_hash := Some hash; seg_ref_count := 1; seg_deduplicated := false;
     seg_access_count := 0; seg_encryption_version := es_encryption_version es;
     seg_key_version := es_key_version es; seg_tweak_nonce := es_tweak_nonce es;
     seg_integrity_tag := es_integrity_tag es; seg_encrypted := encrypted;
     seg_pq_ciphertext := None; seg_pq_nonce := None |}.

(** The payload of a new segment. *)
Definition seal_payload (capsule_id : CapsuleId) (encryption_policy : EncryptionPolicy)
    (seg_id : SegmentId) (view : bytes) : M P Error (bytes * EncryptionSummary) :=
  if Common.is_enabled encryption_policy then
    let! keyring := gets pl_keyring in
    (if keyring then on_keys (kr_derive_key capsule_id seg_id) ;;; ret tt else ret tt) ;;;
    on_keys (tr_encrypt view encryption_policy seg_id)
  else ret (view, EncryptionSummary_new "none").

Definition write_new (capsule_id : CapsuleId) (encryption_policy : EncryptionPolicy) (view : bytes)
    (summary : CompressionSummary) (hash : ContentHash) : M P Error SegmentId :=
  let! seg_id := with_txn (
    let! seg_id := in_pipe (on_catalog cat_allocate_segment) in
    let! (payload, encryption_summary) :=
      in_pipe (seal_payload capsule_id encryption_policy seg_id view) in
    in_txn (tx_append seg_id payload) ;;;
    in_txn (tx_set_segment_metadata seg_id
              (segment_record seg_id payload summary hash encryption_summary
                 (Common.is_enabled encryption_policy))) ;;;
    in_txn tx_commit ;;;
    ret seg_id) in
  on_catalog (cat_register_content hash seg_id) ;;;
  on_deduper (tr_register_content hash seg_id) ;;;
  ret seg_id.

(** The body of the loop over the planned segments. *)
Definition write_slice (capsule_id : CapsuleId) (data : bytes) (compression_policy : CompressionPolicy)
    (encryption_policy : EncryptionPolicy) (acc : list SegmentId * DedupStats)
    (seg : Layout.SegmentRef) : M P Error (list SegmentId * DedupStats) :=
  let '(segment_ids, dedup_stats) := acc in
  let start := Layout.ref_offset seg in
  let stop := u64_saturating_add start (Layout.ref_length seg) in
  if lenZ data <? stop then fail (Msg "zone plan refers beyond input data")
  else
    let chunk := takeZ (stop - start) (dropZ start data) in
    let! (view, summary) := lift (tr_compress chunk compression_policy) in
    let hash := tr_hash_content (as_ref view) in
    let! existing := on_catalog (cat_lookup_content hash) in
    match existing with
    | Some existing =>
        reference_existing existing ;;;
        count_segment (cs_output_size summary) true ;;;
        ret (segment_ids ++ [existing], record (cs_output_size summary) true dedup_stats)
    | None =>
        let! seg_id := write_new capsule_id encryption_policy (as_ref view) summary hash in
        count_segment (cs_output_size summary) false ;;;
        ret (segment_ids ++ [seg_id], record (cs_output_size summary) false dedup_stats)
    end.

(** [data.chunks(0)] panics; a plan is always found for the sizes that are left. *)
Definition plan_of (capsule_id : CapsuleId) (data : bytes) (policy : Policy) :
    Res Error Layout.ZonePlan :=
  let chunk_size := default_segment_size (strategy (layout policy)) in
  if chunk_size =? 0 then Panic
  else
    let data_slices := chunks chunk_size data in
    let? layout_engine := Layout.LayoutEngine_new policy in
    match Layout.synthesize layout_engine capsule_id [capsule_id] data_slices policy with
    | Some plan => Ok plan
    | None => Panic
    end.

(** [capsule_id] is the id drawn, [now] the clock when the capsule is recorded. *)
Definition write_capsule (capsule_id : CapsuleId) (now : option Z) (data : bytes) (policy : Policy) :
    M P Error CapsuleId :=
  let! compression_policy :=
    lift (evaluate_compression policy (takeZ (Z.min (lenZ data) 1024) data)) in
  let! zone_plan := lift (plan_of capsule_id data policy) in
  let! encryption_policy := lift (evaluate_encryption policy) in
  let! (segment_ids, dedup_stats) :=
    foldM (λ acc zone,
      foldM (write_slice capsule_id data compression_policy encryption_policy) acc
        (Layout.zone_segments zone))
      ([], DedupStats_new) (Layout.zones zone_plan) in
  on_catalog (cat_create_capsule now capsule_id (lenZ data) policy segment_ids dedup_stats) ;;;
  ret capsule_id.

Definition read_one (policy : EncryptionPolicy) (output : bytes) (seg_id : SegmentId) :
    M P Error bytes :=
  let! metadata := on_storage (sb_metadata seg_id) in
  let! raw := on_storage (sb_read seg_id) in
  let! decrypted :=
    (if seg_encrypted metadata then on_keys (tr_decrypt raw policy seg_id) else ret raw) in
  let! decompressed :=
    lift (decode (seg_compressed metadata) (seg_compression_algo metadata) decrypted) in
  ret (output ++ decompressed).

Definition read_capsule (id : CapsuleId) : M P Error bytes :=
  let! capsule := on_catalog (cat_lookup_capsule id) in
  foldM (read_one (encryption (cap_policy capsule))) [] (cap_segments capsule).

Definition release_one (seg_id : SegmentId) : M P Error unit :=
  let! metadata := on_storage (sb_metadata seg_id) in
  if 1 <? seg_ref_count metadata then
    let updated := set_refs (seg_ref_count metadata - 1) (seg_access_count metadata) metadata in
    with_txn (
      in_txn (tx_set_segment_metadata seg_id updated) ;;;
      in_txn tx_commit)
  else
    on_storage (sb_delete seg_id) ;;;
    match seg_content_hash metadata with
    | Some hash => on_catalog (cat_deregister_content hash seg_id) ;;; ret tt
    | None => ret tt
    end.

Definition delete_capsule (id : CapsuleId) : M P Error unit :=
  let! capsule := on_catalog (cat_lookup_capsule id) in
  foldM (λ _ seg_id, release_one seg_id) tt (cap_segments capsule) ;;;
  on_catalog (cat_delete_capsule id) ;;;
  ret tt.

(** Metadata that cannot be read is skipped. *)
Definition collect_one (referenced : gset SegmentId) (content_map : gmap SegmentId ContentHash)
    (reclaimed : Z) (seg_id : SegmentId) : M (T * P) Error Z :=
  let! metadata := attempt (in_pipe (on_storage (sb_metadata seg_id))) in
  match metadata with
  | inr _ => ret reclaimed
  | inl metadata =>
      if bool_decide (seg_id ∈ referenced) && (0 <? seg_ref_count metadata) then ret reclaimed
      else
        in_txn (tx_delete seg_id) ;;;
        (match content_map !! seg_id with
         | Some hash => in_pipe (on_catalog (cat_deregister_content hash seg_id)) ;;; ret tt
         | None => ret tt
         end) ;;;
        ret (u64_add reclaimed 1)
  end.

Definition garbage_collect : M P Error Z :=
  let! catalog := gets pl_catalog in
  let referenced : gset SegmentId :=
    list_to_set (concat (cap_segments <$> cat_capsules catalog)) in
  let content_map :=
    foldl (λ m hs, <[hs.2 := hs.1]> m) ∅ (cat_content_entries catalog) in
  let! orphan_segments := on_storage sb_segment_ids in
  with_txn (
    let! reclaimed := foldM (collect_one referenced content_map) 0 orphan_segments in
    in_txn tx_commit ;;;
    ret reclaimed).
End pipeline.

(** ** The pipelines the workspace assembles *)
Section assembled.
Context {JN : JsonDoc Nvram.SegmentMap} {JR : JsonDoc Registry.RegistryState} `{Crates} `{!HashOrder}.
Import KeyManager Nvram.
Import Registry (CapsuleRegistry).

(** [InMemoryPipeline], by its builder's defaults. *)
Definition InMemoryPipeline_default : Pipeline Storage.InMemory.Inner unit InMemoryCatalog.Inner
    Dedup.Blake3Deduper :=
  Pipeline_new Dedup.Blake3Deduper_new tt Storage.InMemory.new false InMemoryCatalog.new.

Abbreviation NvramPipeline := (Pipeline NvramLog unit InMemoryCatalog.Inner Dedup.Blake3Deduper).
Abbreviation NvramPipelineWithEncryption :=
  (Pipeline NvramLog KeyManager InMemoryCatalog.Inner Dedup.Blake3Deduper).

Definition pipeline_with_nvram (file : bytes) (metadata : option (doc SegmentMap)) (fs : faults) :
    Res Error NvramPipeline :=
  let? storage := nv_open file metadata fs in
  Ok (Pipeline_new Dedup.Blake3Deduper_new tt storage false InMemoryCatalog.new).

Definition pipeline_with_nvram_xts (file : bytes) (metadata : option (doc SegmentMap)) (fs : faults)
    (key_manager : KeyManager) : Res Error NvramPipelineWithEncryption :=
  let? storage := nv_open file metadata fs in
  Ok (Pipeline_new Dedup.Blake3Deduper_new key_manager storage true InMemoryCatalog.new).

(** [capsule_registry::modular_pipeline]: the registry is the catalog. *)
Abbreviation RegistryEncryptedPipeline :=
  (Pipeline NvramLog KeyManager CapsuleRegistry Dedup.Blake3Deduper).
Abbreviation RegistryPlainPipeline := (Pipeline NvramLog unit CapsuleRegistry Dedup.Blake3Deduper).

Inductive RegistryPipelineHandle :=
| Encrypted (p : RegistryEncryptedPipeline)
| Plain (p : RegistryPlainPipeline).

Definition on_handle {A : Type} (m1 : M RegistryEncryptedPipeline Error A)
    (m2 : M RegistryPlainPipeline Error A) : M RegistryPipelineHandle Error A := λ h,
  match h with
  | Encrypted p => let '(r, p') := m1 p in (r, Encrypted p')
  | Plain p => let '(r, p') := m2 p in (r, Plain p')
  end.

Definition handle_write_capsule (capsule_id : CapsuleId) (now : option Z) (data : bytes)
    (policy : Policy) : M RegistryPipelineHandle Error CapsuleId :=
  on_handle (write_capsule capsule_id now data policy) (write_capsule capsule_id now data policy).
Definition handle_read_capsule (id : CapsuleId) : M RegistryPipelineHandle Error bytes :=
  on_handle (read_capsule id) (read_capsule id).
Definition handle_delete_capsule (id : CapsuleId) : M RegistryPipelineHandle Error unit :=
  on_handle (delete_capsule id) (delete_capsule id).
Definition handle_garbage_collect : M RegistryPipelineHandle Error Z :=
  on_handle garbage_collect garbage_collect.

Definition build_encrypted_pipeline (storage : NvramLog) (registry : CapsuleRegistry)
    (key_manager : KeyManager) : RegistryEncryptedPipeline :=
  Pipeline_new Dedup.Blake3Deduper_new key_manager storage true registry.

(** [env] is SPACE_MASTER_KEY. *)
Definition registry_pipeline_from_backend (env : option string) (storage : NvramLog)
    (registry : CapsuleRegistry) : RegistryPipelineHandle :=
  match from_env env with
  | Ok manager => Encrypted (build_encrypted_pipeline storage registry manager)
  | _ => Plain (Pipeline_new Dedup.Blake3Deduper_new tt storage false registry)
  end.
End assembled.

(** ** The shipped components keep their laws; [XtsEncryptor] seals but does not open *)
#[export] Instance NoopSealing : Sealing unit.
Proof. by refine {| sealed := λ _ ct data, ct = data |}. Defined.

#[export] Instance NoopEncryptorLaws : EncryptorLaws unit.
Proof. by split; [intros ct data policy id x ->|]. Qed.

#[export] Instance NullKeyringLaws : KeyringLaws unit.
Proof. done. Qed.

#[export] Instance DefaultEvaluatorLaws : EvaluatorLaws.
Proof. done. Qed.

#[export] Instance Blake3DeduperLaws `{Crates} : DeduperLaws Dedup.Blake3Deduper.
Proof. done. Qed.

Section xts_laws.
Context `{Crates}.
Import KeyManager Encryption.

Lemma get_key_no_panic v m : (get_key v m).1 ≠ Panic.
Proof.
  unfold get_key. cbv [bind gets ret lift modify].
  pose proof (derive_key_no_panic m v). case_bool_decide as Hc; simpl.
  - by destruct Hc as [k ->].
  - destruct (derive_key m v) as [kp|e| ]; simpl; [|done..]. by rewrite lookup_insert_eq.
Qed.

#[export] Instance KeyManagerKeyringLaws : KeyringLaws KeyManager.
Proof.
  split. intros c id m. unfold wp. cbn. unfold KeyManagerKeyring_derive_key.
  cbv [bind gets map_err ret]. pose proof (get_key_no_panic (current_version m) m).
  by destruct (get_key _ m) as [[kp|e| ] m'].
Qed.

(** What it stores is a ciphertext under some key and tweak, or the data itself. *)
#[export] Instance XtsSealing : Sealing KeyManager.
Proof.
  refine {| sealed := λ _ ct data, ct = data ∨ ∃ kp tweak, encrypt data kp tweak = Ok ct |}.
  intros data policy id m. unfold wp. cbn. unfold XtsEncryptor_encrypt.
  destruct (negb _); [by left|]. unfold acquire_key. cbv [bind gets map_err ret lift].
  set (v := default _ _). pose proof (get_key_no_panic v m) as Hnp.
  destruct (get_key v m) as [[kp|e| ] m']; simpl in *; [|done..].
  unfold encrypt_segment. rewrite encrypt_cases.
  set (tweak := derive_tweak_from_hash (blake3_hash data)).
  pose proof (encrypt_cases data kp tweak) as He. destruct (lenZ data <? _); simpl; [done|].
  right. by exists kp, tweak.
Defined.
End xts_laws.
