(* ===== verification/ModularInvariant.v ===== *)
(** What the modular pipeline promises over any lawful compressor, encryptor, keyring
    and backend, with the in-memory catalog.

    The abstract state of a pipeline is what its backend stores and its catalog
    ([abs]).  The invariant [mod_inv] relates it to a ghost map from the live capsules
    to their segments, each with the chunk it stands for.  A capsule whose deletion
    failed half way is in the catalog but not live.  [D d x] says that a write was
    asked to store [d] as the compressed form of the chunk [x]. *)
From S2P Require Import Prelude Errors Common Traits Externals.
From S2P Require Layout Storage ModularPipeline.
Import ModularPipeline.
Import InMemoryCatalog (next_segment, capsules, content, mkInner).

#[local] Abbreviation Catalog := InMemoryCatalog.Inner.

Abbreviation Ghost := (gmap CapsuleId (list (SegmentId * bytes))) (only parsing).

Section mod_spec.
Context {X Dd : Type} `{!Compressor} `{!Deduper Dd} `{!Encryptor X} `{!Sealing X}.
Implicit Types (v : StorageView) (c : Catalog) (G : Ghost).

(** The segment is stored and decodes as [x]. *)
Definition seg_denotes v (id : SegmentId) (x : bytes) : Prop :=
  ∃ m ct d, v_meta v !! id = Some m ∧ v_data v !! id = Some ct ∧
    (if seg_encrypted m then sealed X id ct d else ct = d) ∧
    decode (seg_compressed m) (seg_compression_algo m) d = Ok x.

Definition refs_of v (id : SegmentId) : Z :=
  match v_meta v !! id with
  | Some m => seg_ref_count m
  | None => 0
  end.

(** References from the live capsules. *)
Definition live_refs G (id : SegmentId) : Z :=
  sumZ ((λ kl, countZ id kl.2.*1) <$> map_to_list G).

Record mod_inv (D : bytes → bytes → Prop) (held : list SegmentId) G v c : Prop := {
  mi_next : 0 ≤ next_segment c;
  mi_ids : ∀ id m, v_meta v !! id = Some m → 0 ≤ seg_u64 id < next_segment c;
  mi_caps : ∀ k l, G !! k = Some l →
    ∃ cap, capsules c !! k = Some cap ∧ cap_segments cap = l.*1 ∧
      cap_size cap = lenZ (concat l.*2) ∧ Forall (λ ix, seg_denotes v ix.1 ix.2) l;
  mi_refs : ∀ id, live_refs G id + countZ id held ≤ refs_of v id;
  mi_store : ∀ h id, content c !! h = Some id →
    ∃ m d x, v_meta v !! id = Some m ∧ seg_content_hash m = Some h ∧
      seg_denotes v id x ∧ D d x ∧ tr_hash_content d = h;
}.

(** Equal hashes only for compressed forms of one chunk: no collision of the content
    hash, and no chunk stored raw that is the compressed form of another. *)
Definition hash_decides (D : bytes → bytes → Prop) : Prop :=
  ∀ a x b y, D a x → D b y → tr_hash_content a = tr_hash_content b → x = y.

(** The segments planned for a write, none when no plan is made. *)
Definition plan_refs `{Crates} (k : CapsuleId) (data : bytes) (policy : Policy) :
    list Layout.SegmentRef :=
  match plan_of k data policy with
  | Ok plan => concat (Layout.zone_segments <$> Layout.zones plan)
  | _ => []
  end.

(** The compressed form of every planned chunk is in [D] with the chunk. *)
Definition planned_ok `{Crates} `{!PolicyEvaluator} (D : bytes → bytes → Prop) (k : CapsuleId)
    (data : bytes) (policy : Policy) : Prop :=
  ∀ r comp view s, r ∈ plan_refs k data policy →
    evaluate_compression policy (takeZ (Z.min (lenZ data) 1024) data) = Ok comp →
    tr_compress (Layout.ref_chunk data r) comp = Ok (view, s) →
    D (as_ref view) (Layout.ref_chunk data r).

(** Room for [n] more segments and references. *)
Definition room (n : Z) v c : Prop :=
  next_segment c + n < 2 ^ 64 ∧ ∀ id, refs_of v id + n ≤ U32_MAX.

Definition write_fits `{Crates} (k : CapsuleId) (data : bytes) (policy : Policy) v c : Prop :=
  0 ≤ default_segment_size (strategy (layout policy)) ∧ lenZ data < 2 ^ 64 ∧
  room (lenZ (plan_refs k data policy)) v c.
End mod_spec.

(** ** The invariant under changes of the abstract state *)
Section mod_inv_lemmas.
Context {X Dd : Type} `{!Compressor} `{!Deduper Dd} `{!Encryptor X} `{!Sealing X}.
Implicit Types (v : StorageView) (c : Catalog) (G : Ghost).

Lemma live_refs_insert G k l id :
  G !! k = None → live_refs (<[k := l]> G) id = countZ id l.*1 + live_refs G id.
Proof. intros Hk. unfold live_refs. by rewrite map_to_list_insert. Qed.

Lemma live_refs_delete G k l id :
  G !! k = Some l → live_refs G id = countZ id l.*1 + live_refs (delete k G) id.
Proof.
  intros Hk. rewrite <- (live_refs_insert (delete k G) k) by apply lookup_delete_eq.
  by rewrite insert_delete_id.
Qed.

Lemma live_refs_nonneg G id : 0 ≤ live_refs G id.
Proof.
  unfold live_refs. induction (map_to_list G) as [|kl r IH]; [done|].
  rewrite fmap_cons. unfold sumZ in *. simpl. pose proof (countZ_nonneg id kl.2.*1). lia.
Qed.

Lemma live_refs_elem G k l id : G !! k = Some l → id ∈ l.*1 → 0 < live_refs G id.
Proof.
  intros Hk Hid%countZ_elem. rewrite (live_refs_delete G k l) by done.
  pose proof (live_refs_nonneg (delete k G) id). lia.
Qed.

(** A change of the store that keeps what the segments of live capsules, and those
    the catalog still names, stand for. *)
Lemma mod_inv_change D held held' G v v' c c' :
  mod_inv D held G v c →
  (∀ k l, G !! k = Some l → capsules c' !! k = capsules c !! k) →
  content c' ⊆ content c → next_segment c ≤ next_segment c' →
  (∀ id m, v_meta v' !! id = Some m → 0 ≤ seg_u64 id < next_segment c') →
  (∀ id x, 0 < live_refs G id → seg_denotes v id x → seg_denotes v' id x) →
  (∀ h id m x, content c' !! h = Some id → v_meta v !! id = Some m → seg_denotes v id x →
     seg_denotes v' id x ∧ ∃ m', v_meta v' !! id = Some m' ∧ seg_content_hash m' = seg_content_hash m) →
  (∀ id, live_refs G id + countZ id held' ≤ refs_of v' id) →
  mod_inv D held' G v' c'.
Proof.
  intros [] Hcaps Hstore Hnext Hids Hden Hcont Hrefs. constructor; try done; [lia|..].
  - intros k l Hk. destruct (mi_caps0 k l Hk) as (cap & ? & ? & ? & Hf).
    exists cap. split_and!; [by rewrite (Hcaps k l)|done..|]. apply Forall_forall. intros ix Hix.
    rewrite Forall_forall in Hf. apply Hden; [|by apply Hf].
    apply (live_refs_elem G k l); [done|]. apply list_elem_of_fmap. by exists ix.
  - intros h id Hh. destruct (mi_store0 h id) as (m & d & x & ? & Hm & ? & ? & ?).
    { by eapply lookup_weaken. }
    destruct (Hcont h id m x) as (? & m' & ? & ?); [done..|]. exists m', d, x.
    split_and!; congruence || done.
Qed.

Lemma mod_inv_weaken D held held' G v c :
  mod_inv D held G v c → (∀ id, countZ id held' ≤ countZ id held) → mod_inv D held' G v c.
Proof.
  intros Hi Hh. pose proof Hi as []. apply (mod_inv_change D held held' G v v c c); try done.
  - eauto.
  - intros id. specialize (mi_refs0 id). specialize (Hh id). lia.
Qed.

Lemma mod_inv_drop D held G v c : mod_inv D held G v c → mod_inv D [] G v c.
Proof. intros Hi. apply (mod_inv_weaken _ _ _ _ _ _ Hi). intros. apply countZ_nonneg. Qed.

Lemma mod_inv_drop_last D held id G v c : mod_inv D (held ++ [id]) G v c → mod_inv D held G v c.
Proof.
  intros Hi. apply (mod_inv_weaken _ _ _ _ _ _ Hi). intros j. rewrite countZ_app.
  pose proof (countZ_nonneg j [id]). lia.
Qed.

Lemma held_lookup D held G v c id :
  mod_inv D held G v c → 0 < live_refs G id + countZ id held →
  ∃ m, v_meta v !! id = Some m ∧ live_refs G id + countZ id held ≤ seg_ref_count m.
Proof.
  intros Hi Hpos. pose proof (mi_refs _ _ _ _ _ Hi id) as Hr. unfold refs_of in Hr.
  destruct (v_meta v !! id) as [m|]; [by exists m|lia].
Qed.

(** Writing a count back. *)
Definition set_count v (id : SegmentId) (m : Segment) (n : Z) : StorageView :=
  mkStorageView (v_data v) (<[id := set_refs n (seg_access_count m) m]> (v_meta v)).

Lemma denotes_set_count v id m n j x :
  v_meta v !! id = Some m → seg_denotes v j x → seg_denotes (set_count v id m n) j x.
Proof.
  intros Hm (mj & ct & d & Hj & Hd & Hs & Hx). destruct (decide (j = id)) as [->|Hne].
  - assert (mj = m) as -> by congruence. exists (set_refs n (seg_access_count m) m), ct, d.
    split_and!; try done. apply lookup_insert_eq.
  - exists mj, ct, d. split_and!; try done. simpl. by rewrite lookup_insert_ne.
Qed.

Lemma mod_inv_set_count D held held' G v c id m n :
  mod_inv D held G v c → v_meta v !! id = Some m →
  (∀ j, live_refs G j + countZ j held' ≤ if decide (j = id) then n else refs_of v j) →
  mod_inv D held' G (set_count v id m n) c.
Proof.
  intros Hi Hm Hr. apply (mod_inv_change D held held' G v _ c c); try done; simpl.
  - intros j mj. destruct (decide (j = id)) as [->|Hne].
    + intros _. by eapply (mi_ids _ _ _ _ _ Hi).
    + rewrite lookup_insert_ne by done. apply (mi_ids _ _ _ _ _ Hi).
  - intros j x _. by apply denotes_set_count.
  - intros h j mj x _ Hj Hx. split; [by apply denotes_set_count|].
    destruct (decide (j = id)) as [->|Hne].
    + rewrite lookup_insert_eq. eexists. split; [done|]. simpl. congruence.
    + rewrite lookup_insert_ne by done. by exists mj.
  - intros j. specialize (Hr j). unfold refs_of in *. simpl. destruct (decide (j = id)) as [->|Hne].
    + by rewrite lookup_insert_eq.
    + by rewrite lookup_insert_ne.
Qed.

(** A fresh segment, then its entry in the content store. *)
Definition add_segment v (id : SegmentId) (ct : bytes) (m : Segment) : StorageView :=
  mkStorageView (<[id := ct]> (v_data v)) (<[id := m]> (v_meta v)).

Definition bump c : Catalog := mkInner (u64_add (next_segment c) 1) (capsules c) (content c).
Definition register c (h : ContentHash) (id : SegmentId) : Catalog :=
  mkInner (next_segment c) (capsules c) (<[h := id]> (content c)).

Lemma bump_next D held G v c :
  mod_inv D held G v c → next_segment c + 1 < 2 ^ 64 → next_segment (bump c) = next_segment c + 1.
Proof.
  intros Hi Hn. pose proof (mi_next _ _ _ _ _ Hi). simpl. unfold u64_add, wrap.
  apply Z.mod_small. lia.
Qed.

Lemma mod_inv_bump D held G v c :
  mod_inv D held G v c → next_segment c + 1 < 2 ^ 64 → mod_inv D held G v (bump c).
Proof.
  intros Hi Hn. pose proof (bump_next _ _ _ _ _ Hi Hn) as Hb.
  apply (mod_inv_change D held held G v v c); try done.
  - lia.
  - intros id m Hm%(mi_ids _ _ _ _ _ Hi). lia.
  - eauto.
  - apply Hi.
Qed.

Lemma fresh_unstored D held G v c :
  mod_inv D held G v c → v_meta v !! mkSegmentId (next_segment c) = None.
Proof.
  intros Hi. destruct (v_meta v !! _) eqn:Hv; [|done]. apply (mi_ids _ _ _ _ _ Hi) in Hv.
  simpl in Hv. lia.
Qed.

Lemma denotes_add_segment v id ct m j x :
  v_meta v !! id = None → seg_denotes v j x → seg_denotes (add_segment v id ct m) j x.
Proof.
  intros Hf (mj & cj & d & Hj & ? & ?). assert (j ≠ id) by congruence. exists mj, cj, d.
  simpl. by rewrite !lookup_insert_ne.
Qed.

Lemma mod_inv_fresh D held G v c ct m :
  let id := mkSegmentId (next_segment c) in
  mod_inv D held G v c → next_segment c + 1 < 2 ^ 64 → seg_ref_count m = 1 →
  mod_inv D (held ++ [id]) G (add_segment v id ct m) (bump c).
Proof.
  intros id Hi Hn Hm. pose proof (bump_next _ _ _ _ _ Hi Hn) as Hb.
  pose proof (fresh_unstored _ _ _ _ _ Hi : v_meta v !! id = None) as Hf.
  apply (mod_inv_change D held (held ++ [id]) G v _ c); try done; simpl in *.
  - lia.
  - intros j mj. pose proof (mi_next _ _ _ _ _ Hi). destruct (decide (j = id)) as [->|Hne].
    + intros _. simpl. lia.
    + rewrite lookup_insert_ne by done. intros Hj%(mi_ids _ _ _ _ _ Hi). lia.
  - intros j x _. by apply denotes_add_segment.
  - intros h j mj x _ Hj Hx. split; [by apply denotes_add_segment|]. exists mj. assert (j ≠ id) by congruence.
    by rewrite lookup_insert_ne.
  - intros j. pose proof (mi_refs _ _ _ _ _ Hi j) as Hr. unfold refs_of in *. simpl.
    rewrite countZ_app, countZ_cons, countZ_nil. destruct (decide (j = id)) as [->|Hne].
    + rewrite lookup_insert_eq, bool_decide_true by done. rewrite Hf in Hr. lia.
    + rewrite lookup_insert_ne, bool_decide_false by done. lia.
Qed.

Lemma mod_inv_register D held G v c id h d m x :
  mod_inv D held G v c → v_meta v !! id = Some m → seg_content_hash m = Some h →
  seg_denotes v id x → D d x → tr_hash_content d = h → mod_inv D held G v (register c h id).
Proof.
  intros [] Hm Hh Hx Hd Hdh. constructor; try done. intros h' id'. simpl.
  destruct (decide (h' = h)) as [->|Hne].
  - rewrite lookup_insert_eq. intros ?; simplify_eq. by exists m, d, x.
  - rewrite lookup_insert_ne by done. apply mi_store0.
Qed.

(** Recording and releasing a capsule. *)
Lemma mod_inv_create D G v c k l cap :
  mod_inv D l.*1 G v c → G !! k = None → cap_segments cap = l.*1 →
  cap_size cap = lenZ (concat l.*2) → Forall (λ ix, seg_denotes v ix.1 ix.2) l →
  mod_inv D [] (<[k := l]> G) v (mkInner (next_segment c) (<[k := cap]> (capsules c)) (content c)).
Proof.
  intros [] Hk Hs Hz Hf. constructor; try done; simpl.
  - intros k' l'. destruct (decide (k' = k)) as [->|Hne].
    + rewrite !lookup_insert_eq. intros ?; simplify_eq. by exists cap.
    + rewrite !lookup_insert_ne by done. apply mi_caps0.
  - intros id. rewrite live_refs_insert, countZ_nil by done. specialize (mi_refs0 id). lia.
Qed.

Lemma mod_inv_release D G v c k l :
  mod_inv D [] G v c → G !! k = Some l → mod_inv D l.*1 (delete k G) v c.
Proof.
  intros [] Hk. constructor; try done.
  - intros k' l' [_ Hl]%lookup_delete_Some. by apply mi_caps0.
  - intros id. specialize (mi_refs0 id). rewrite (live_refs_delete G k l), countZ_nil in mi_refs0 by done.
    lia.
Qed.

Lemma mod_inv_forget D held G v c k :
  mod_inv D held G v c → G !! k = None →
  mod_inv D held G v (mkInner (next_segment c) (delete k (capsules c)) (content c)).
Proof.
  intros [] Hk. constructor; try done. intros k' l' Hl. simpl.
  rewrite lookup_delete_ne by congruence. by apply mi_caps0.
Qed.

(** *** Removing segments *)
Lemma lookup_delete_all {V : Type} ids (m : gmap SegmentId V) j :
  delete_all ids m !! j = if decide (j ∈ ids) then None else m !! j.
Proof.
  unfold delete_all. revert m. induction ids as [|id ids IH]; intros m; simpl.
  { done. }
  rewrite IH. destruct (decide (j ∈ ids)) as [Hin|Hni]; [by rewrite decide_True by by right|].
  destruct (decide (j = id)) as [->|Hne].
  - rewrite lookup_delete_eq, decide_True; [done|by left].
  - rewrite lookup_delete_ne by done. rewrite decide_False; [done|].
    intros [?|?]%elem_of_cons; done.
Qed.

Definition remove_segments (ids : list SegmentId) v : StorageView :=
  mkStorageView (delete_all ids (v_data v)) (delete_all ids (v_meta v)).

Lemma denotes_remove ids v id x :
  id ∉ ids → seg_denotes v id x → seg_denotes (remove_segments ids v) id x.
Proof.
  intros Hni (m & ct & d & ? & ? & ?). exists m, ct, d. simpl.
  by rewrite !lookup_delete_all, !decide_False.
Qed.

(** Segments nobody references may go, once the content store does not name them. *)
Lemma mod_inv_remove D held held' G v c c' ids :
  mod_inv D held G v c → capsules c' = capsules c → next_segment c' = next_segment c →
  content c' ⊆ content c → (∀ h id, content c' !! h = Some id → id ∉ ids) →
  (∀ id, id ∈ ids → live_refs G id + countZ id held' ≤ 0) →
  (∀ id, countZ id held' ≤ countZ id held) →
  mod_inv D held' G (remove_segments ids v) c'.
Proof.
  intros Hi Hcaps Hnext Hsub Hstore Hz Hheld.
  apply (mod_inv_change D held held' G v _ c); try done.
  - by rewrite Hcaps.
  - by rewrite Hnext.
  - intros id m. simpl. rewrite lookup_delete_all, Hnext. case_decide; [done|]. apply Hi.
  - intros id x Hl Hx. apply denotes_remove; [|done]. intros Hin%Hz.
    pose proof (countZ_nonneg id held'). lia.
  - intros h id m x Hh Hm Hx. pose proof (Hstore h id Hh). split; [by apply denotes_remove|].
    exists m. simpl. by rewrite lookup_delete_all, decide_False.
  - intros id. pose proof (mi_refs _ _ _ _ _ Hi id) as Hr. specialize (Hheld id).
    unfold refs_of in *. simpl. rewrite lookup_delete_all. case_decide; [by apply Hz|]. lia.
Qed.

(** [deregister_content], as a function on the catalog. *)
Definition unname c (h : ContentHash) (id : SegmentId) : Catalog :=
  if bool_decide (content c !! h = Some id)
  then mkInner (next_segment c) (capsules c) (delete h (content c)) else c.

Lemma unname_frame c h id :
  capsules (unname c h id) = capsules c ∧ next_segment (unname c h id) = next_segment c ∧
  content (unname c h id) ⊆ content c.
Proof.
  unfold unname. case_bool_decide; [|done]. simpl. split_and!; try done. apply delete_subseteq.
Qed.

Lemma unname_other c h id h' : content (unname c h id) !! h' = Some id → h' ≠ h.
Proof.
  unfold unname. case_bool_decide as Hc; simpl; [|congruence]. intros Hd ->.
  by rewrite lookup_delete_eq in Hd.
Qed.
End mod_inv_lemmas.

(** ** Running the pipeline on its abstract state *)
Section mod_rules.
Context {S T X Dd : Type} `{Crates} `{!HashOrder} `{!Compressor}
  `{!CompressorLaws} `{!Deduper Dd} `{!DeduperLaws Dd} `{!Encryptor X} `{!Sealing X}
  `{!EncryptorLaws X}
  `{!Keyring X} `{!KeyringLaws X} `{!StorageBackend S T} `{!StorageSpec S T}
  `{!PolicyEvaluator} `{!EvaluatorLaws}.
#[local] Abbreviation P := (Pipeline S X Catalog Dd).
Implicit Types (p : P) (v : StorageView) (c : Catalog).

Definition V p : StorageView := view_of (pl_storage p).
Definition C p : Catalog := pl_catalog p.

(** Conditions on the abstract state a call leaves. *)
Definition awp {A : Type} (m : M P Error A) (Q : A → StorageView → Catalog → Prop)
    (R : Error → StorageView → Catalog → Prop) p : Prop :=
  wp m (λ a p', Q a (V p') (C p')) (λ e p', R e (V p') (C p')) p.

Definition tawp {A : Type} (m : M (T * P) Error A)
    (Q : A → Staged → StorageView → Catalog → Prop)
    (R : Error → StorageView → Catalog → Prop) (tp : T * P) : Prop :=
  wp m (λ a tp', Q a (staged_of tp'.1) (V tp'.2) (C tp'.2)) (λ e tp', R e (V tp'.2) (C tp'.2)) tp.

Lemma awp_bind {A B : Type} (m : M P Error A) (k : A → M P Error B) Q R p :
  awp m (λ a v c, ∀ p', V p' = v → C p' = c → awp (k a) Q R p') R p → awp (bind m k) Q R p.
Proof. intros Hm. apply wp_bind. eapply wp_mono; [exact Hm|naive_solver..]. Qed.

Lemma awp_mono {A : Type} (m : M P Error A) Q Q' R R' p :
  awp m Q R p → (∀ a v c, Q a v c → Q' a v c) → (∀ e v c, R e v c → R' e v c) → awp m Q' R' p.
Proof. intros Hm ??. eapply wp_mono; [exact Hm|naive_solver..]. Qed.

Lemma tawp_bind {A B : Type} (m : M (T * P) Error A) (k : A → M (T * P) Error B) Q R tp :
  tawp m (λ a s v c, ∀ tp', staged_of tp'.1 = s → V tp'.2 = v → C tp'.2 = c → tawp (k a) Q R tp') R tp →
  tawp (bind m k) Q R tp.
Proof. intros Hm. apply wp_bind. eapply wp_mono; [exact Hm|naive_solver..]. Qed.

Lemma tawp_mono {A : Type} (m : M (T * P) Error A) Q Q' R R' tp :
  tawp m Q R tp → (∀ a s v c, Q a s v c → Q' a s v c) → (∀ e v c, R e v c → R' e v c) →
  tawp m Q' R' tp.
Proof. intros Hm ??. eapply wp_mono; [exact Hm|naive_solver..]. Qed.

Lemma awp_ext {A : Type} (m m' : M P Error A) Q R p : m p = m' p → awp m' Q R p → awp m Q R p.
Proof. unfold awp, wp. by intros ->. Qed.

(** Calls on one component. *)
Lemma awp_storage {A : Type} (m : M S Error A) Q R p :
  wp m (λ a s, Q a (view_of s) (C p)) (λ e s, R e (view_of s) (C p)) (pl_storage p) →
  awp (on_storage m) Q R p.
Proof. intros Hm. by apply wp_zoom. Qed.

Lemma awp_catalog {A : Type} (m : M Catalog Error A) Q R p :
  wp m (λ a c, Q a (V p) c) (λ e c, R e (V p) c) (C p) → awp (on_catalog m) Q R p.
Proof. intros Hm. by apply wp_zoom. Qed.

Lemma awp_keys {A : Type} (m : M X Error A) (Q : A → StorageView → Catalog → Prop) R p :
  wp m (λ a _, Q a (V p) (C p)) (λ e _, R e (V p) (C p)) (pl_keys p) → awp (on_keys m) Q R p.
Proof. intros Hm. by apply wp_zoom. Qed.

Lemma tawp_txn {A : Type} (m : M (T * S) Error A) Q R (tp : T * P) :
  wp m (λ a ts, Q a (staged_of ts.1) (view_of ts.2) (C tp.2))
    (λ e ts, R e (view_of ts.2) (C tp.2)) (tp.1, pl_storage tp.2) →
  tawp (in_txn m) Q R tp.
Proof. intros Hm. by apply wp_zoom. Qed.

Lemma tawp_pipe {A : Type} (m : M P Error A) (Q : A → Staged → StorageView → Catalog → Prop) R tp :
  awp m (λ a v c, Q a (staged_of tp.1) v c) R tp.2 → tawp (in_pipe m) Q R tp.
Proof. intros Hm. by apply wp_zoom. Qed.

(** A transaction starts empty, and dropping it changes nothing. *)
Lemma awp_with_txn {A : Type} (body : M (T * P) Error A) (Q : A → StorageView → Catalog → Prop) R p :
  (∀ tp, staged_of tp.1 = mkStaged ∅ ∅ [] → V tp.2 = V p → C tp.2 = C p →
    tawp body (λ a _, Q a) R tp) →
  (∀ e, fallible → R e (V p) (C p)) → awp (with_txn body) Q R p.
Proof.
  intros Hb Hf. apply awp_bind, awp_storage. eapply wp_mono; [apply begin_law|..].
  - intros t s [Hv Ht] p' Hv' Hc'. specialize (Hb (t, p')). unfold tawp, awp, wp in *. simpl in *.
    rewrite Hv', Hv, Hc' in Hb. specialize (Hb Ht eq_refl eq_refl).
    destruct (body (t, p')) as [[a|e| ] [t2 p2]]; [| |done]; unfold V, C in *; simpl in *;
      by rewrite tx_drop_law.
  - intros e s [Hv Hfa]. rewrite Hv. by apply Hf.
Qed.

(** *** Taking a reference, and giving one back *)
Lemma set_metadata_spec id m (Q : unit → StorageView → Catalog → Prop) R p :
  Q tt (mkStorageView (v_data (V p)) (<[id := m]> (v_meta (V p)))) (C p) →
  (∀ e, fallible → R e (V p) (C p)) →
  awp (with_txn (in_txn (tx_set_segment_metadata id m) ;;; in_txn tx_commit)) Q R p.
Proof.
  intros HQ HR. apply awp_with_txn; [|done]. intros tp Ht Hv Hc.
  apply tawp_bind, tawp_txn. eapply wp_mono; [apply tx_metadata_law|..]; simpl.
  - intros _ ts [Hvs Hs] tp' Hs' Hv' Hc'. apply tawp_txn.
    eapply wp_mono; [apply tx_commit_law|..]; simpl.
    + intros [] ts' Hts'. rewrite Hts', Hs', Hs, Ht, Hc', Hc. fold (V tp'.2). rewrite Hv', Hvs.
      fold (V tp.2). rewrite Hv. unfold apply_staged. simpl.
      rewrite (left_id_L ∅ (∪)), insert_empty, <- insert_union_singleton_l. done.
    + intros e ts' [Hts' Hf]. rewrite Hts', Hc', Hc. fold (V tp'.2). rewrite Hv', Hvs.
      fold (V tp.2). rewrite Hv. by apply HR.
  - intros e ts' [Hts' Hf]. rewrite Hts', Hc. fold (V tp.2). rewrite Hv. by apply HR.
Qed.

Lemma reference_spec id m (Q : unit → StorageView → Catalog → Prop) R p :
  v_meta (V p) !! id = Some m →
  Q tt (set_count (V p) id m (u32_add (seg_ref_count m) 1)) (C p) →
  (∀ e, fallible → R e (V p) (C p)) → awp (reference_existing id) Q R p.
Proof.
  intros Hm HQ HR. apply awp_bind, awp_storage. eapply wp_mono; [apply metadata_law|..].
  - intros m' s [Hv Hm'] p' Hv' Hc'. fold (V p) in *. rewrite Hv in Hv'.
    apply set_metadata_spec; rewrite Hv', Hc'; [|done]. by assert (m' = m) as -> by congruence.
  - intros e s [Hv [Hn|Hf]]; fold (V p) in *; [congruence|]. rewrite Hv. by apply HR.
Qed.

Lemma seal_payload_spec k ep id view (Q : bytes * EncryptionSummary → StorageView → Catalog → Prop) R p :
  (∀ ct es, (if Common.is_enabled ep then sealed X id ct view else ct = view) → Q (ct, es) (V p) (C p)) →
  (∀ e, R e (V p) (C p)) → awp (seal_payload k ep id view) Q R p.
Proof.
  intros HQ HR. unfold seal_payload. destruct (Common.is_enabled ep); [|by apply HQ].
  assert (∀ p', V p' = V p → C p' = C p →
    awp (on_keys (tr_encrypt view ep id)) Q R p') as Henc.
  { intros p' Hv Hc. apply awp_keys. rewrite Hv, Hc.
    eapply wp_mono; [apply encrypt_seals|..]; [|by intros; apply HR].
    intros [ct es] _ Hs. by apply HQ. }
  apply awp_bind. unfold awp, wp, gets. intros p0 Hv0 Hc0. apply awp_bind.
  destruct (pl_keyring p); [|by intros p1 ??; apply Henc; congruence].
  apply awp_bind, awp_keys. rewrite Hv0, Hc0.
  eapply wp_mono; [apply derive_no_panic|..]; [|by intros; apply HR].
  intros _ _ _ p1 Hv1 Hc1. intros p2 Hv2 Hc2. apply Henc; congruence.
Qed.

Lemma awp_foldM {A B : Type} (I : B → list A → StorageView → Catalog → Prop) R
    (f : B → A → M P Error B) l b p :
  (∀ b x r p, I b (x :: r) (V p) (C p) → awp (f b x) (λ b' v c, I b' r v c) R p) →
  I b l (V p) (C p) → awp (foldM f b l) (λ b' v c, I b' [] v c) R p.
Proof.
  intros Hf Hi. apply (wp_foldM (λ b l p, I b l (V p) (C p)) (λ e p, R e (V p) (C p)) f l b p); [|done].
  intros b' x r p' Hi'. by apply Hf.
Qed.

(** *** Writing *)

(** What one more chunk [x] leaves: a segment for it, held by the write. *)
Definition took D held (G : Ghost) (x : bytes) v0 c0 (id : SegmentId) v c : Prop :=
  mod_inv D (held ++ [id]) G v c ∧ capsules c = capsules c0 ∧ seg_denotes v id x ∧
  (∀ j y, seg_denotes v0 j y → seg_denotes v j y) ∧
  (∀ n, 0 ≤ n → room (n + 1) v0 c0 → room n v c).

(** What a failed write leaves. *)
Definition spoilt D held (G : Ghost) c0 v c : Prop :=
  mod_inv D held G v c ∧ capsules c = capsules c0.

Lemma room_le n n' v c : n' ≤ n → room n v c → room n' v c.
Proof. intros Hn [Hs Hr]. split; [lia|]. intros id. specialize (Hr id). lia. Qed.

(** The transaction of a new segment. *)
Lemma append_new_spec k ep view summary h (Q : SegmentId → StorageView → Catalog → Prop) R p :
  (let id := mkSegmentId (next_segment (C p)) in
   ∀ ct es, (if Common.is_enabled ep then sealed X id ct view else ct = view) →
     Q id (add_segment (V p) id ct (segment_record id ct summary h es (Common.is_enabled ep)))
       (bump (C p))) →
  (∀ e, R e (V p) (C p)) → (∀ e, R e (V p) (bump (C p))) →
  awp (with_txn (
    let! seg_id := in_pipe (on_catalog cat_allocate_segment) in
    let! (payload, encryption_summary) := in_pipe (seal_payload k ep seg_id view) in
    in_txn (tx_append seg_id payload) ;;;
    in_txn (tx_set_segment_metadata seg_id
              (segment_record seg_id payload summary h encryption_summary
                 (Common.is_enabled ep))) ;;;
    in_txn tx_commit ;;;
    ret seg_id)) Q R p.
Proof.
  intros HQ HR HR'. apply awp_with_txn; [|by auto]. intros tp Ht Hv Hc. rewrite <- Hv, <- Hc in *.
  clear p Hv Hc. destruct tp as [t p]. simpl in *.
  apply tawp_bind, tawp_pipe, awp_catalog. unfold wp. cbn.
  intros [t1 p1] Ht1 Hv1 Hc1. simpl in *. apply tawp_bind, tawp_pipe. fold (bump (C p)) in *.
  apply seal_payload_spec; simpl; [|intros; rewrite Hv1, Hc1; auto].
  intros ct es Hct [t2 p2] Ht2 Hv2 Hc2. simpl in *.
  apply tawp_bind, tawp_txn. eapply wp_mono; [apply tx_append_law|..]; simpl; fold (V p2).
  2:{ intros e ts [-> _]. by rewrite Hc2, Hv2, Hv1, Hc1. }
  intros _ ts3 [Hv3 Hs3] [t4 p4] Hs4 Hv4 Hc4. simpl in *.
  apply tawp_bind, tawp_txn. eapply wp_mono; [apply tx_metadata_law|..]; simpl; fold (V p4).
  2:{ intros e ts [-> _]. by rewrite Hc4, Hc2, Hc1, Hv4, Hv3, Hv2, Hv1. }
  intros _ ts5 [Hv5 Hs5] [t6 p6] Hs6 Hv6 Hc6. simpl in *.
  apply tawp_bind, tawp_txn. eapply wp_mono; [apply tx_commit_law|..]; simpl; fold (V p6).
  2:{ intros e ts [-> _]. by rewrite Hc6, Hc4, Hc2, Hc1, Hv6, Hv5, Hv4, Hv3, Hv2, Hv1. }
  intros _ ts7 Hv7 [t8 p8] Hs8 Hv8 Hc8. simpl in *. unfold tawp, wp, ret. simpl.
  rewrite Hv8, Hc8, Hv7, Hc6, Hc4, Hc2, Hc1, Hv6, Hv5, Hv4, Hv3, Hv2, Hv1, Hs6, Hs5, Hs4, Hs3, Ht2, Ht1, Ht.
  unfold apply_staged. simpl. rewrite <- !insert_union_l, !(left_id_L ∅ (∪)). by apply HQ.
Qed.

Lemma awp_lift {A : Type} (r : Res Error A) (Q : A → StorageView → Catalog → Prop) R p :
  r ≠ Panic → (∀ a, r = Ok a → Q a (V p) (C p)) → (∀ e, r = Err e → R e (V p) (C p)) →
  awp (lift r) Q R p.
Proof. intros Hp HQ HR. unfold awp, wp, lift. destruct r; auto. Qed.

Lemma awp_gets {A : Type} (f : P → A) (Q : A → StorageView → Catalog → Prop) R p :
  Q (f p) (V p) (C p) → awp (gets f) Q R p.
Proof. done. Qed.

Lemma awp_count_segment n b (Q : unit → StorageView → Catalog → Prop) R p :
  Q tt (V p) (C p) → awp (count_segment n b) Q R p.
Proof. done. Qed.

Lemma awp_deduper (m : M Dd Error unit) (Q : unit → StorageView → Catalog → Prop) R p :
  wp m (λ _ _, True) (λ _ _, True) (pl_deduper p) → (∀ a, Q a (V p) (C p)) →
  (∀ e, R e (V p) (C p)) → awp (on_deduper m) Q R p.
Proof. intros Hm HQ HR. apply wp_zoom. eapply wp_mono; [exact Hm|auto..]. Qed.

Lemma took_new D held G v c ct m h d x :
  let id := mkSegmentId (next_segment c) in
  mod_inv D held G v c → next_segment c + 1 < 2 ^ 64 → seg_ref_count m = 1 →
  seg_content_hash m = Some h → seg_denotes (add_segment v id ct m) id x → D d x →
  tr_hash_content d = h →
  took D held G x v c id (add_segment v id ct m) (register (bump c) h id).
Proof.
  intros id Hi Hn Hm Hh Hx HD Hd. pose proof (fresh_unstored _ _ _ _ _ Hi : v_meta v !! id = None) as Hf.
  split_and!; try done.
  - eapply (mod_inv_register _ _ _ _ _ _ _ d m x); try done; [by apply mod_inv_fresh|].
    apply lookup_insert_eq.
  - intros j y. by apply denotes_add_segment.
  - intros n Hn0 [Hr1 Hr2]. pose proof (bump_next _ _ _ _ _ Hi Hn) as Hb. split; [simpl in *; lia|].
    intros j. specialize (Hr2 j). unfold refs_of in *. simpl. destruct (decide (j = id)) as [->|Hne].
    + rewrite lookup_insert_eq, Hm. rewrite Hf in Hr2. lia.
    + rewrite lookup_insert_ne by done. lia.
Qed.

Lemma mod_write_new_spec D held G k ep view summary x p :
  mod_inv D held G (V p) (C p) → next_segment (C p) + 1 < 2 ^ 64 → D view x →
  decode (cs_compressed summary) (cs_algorithm summary) view = Ok x →
  awp (write_new k ep view summary (tr_hash_content view))
    (took D held G x (V p) (C p)) (λ _, spoilt D held G (C p)) p.
Proof.
  intros Hi Hn HD Hx. apply awp_bind, append_new_spec.
  2:{ intros _. by split. }
  2:{ intros _. split; [by apply mod_inv_bump|done]. }
  cbv zeta. intros ct es Hct p1 Hv1 Hc1.
  set (id := mkSegmentId _) in *. set (m := segment_record _ _ _ _ _ _) in *.
  assert (took D held G x (V p) (C p) id (add_segment (V p) id ct m)
            (register (bump (C p)) (tr_hash_content view) id)) as Ht.
  { eapply took_new; try done. exists m, ct, view. simpl. by rewrite !lookup_insert_eq. }
  apply awp_bind, awp_catalog. unfold wp. cbn. intros p2 Hv2 Hc2.
  rewrite Hv1, Hc1 in *. fold (register (bump (C p)) (tr_hash_content view) id) in Hc2.
  apply awp_bind, awp_deduper; [apply register_no_panic|..]; rewrite Hv2, Hc2.
  - intros _ p3 Hv3 Hc3. unfold awp, wp, ret. by rewrite Hv3, Hc3.
  - intros e. split; [|done]. by eapply mod_inv_drop_last, Ht.
Qed.

Lemma took_hit D held G v c id d x :
  hash_decides D → mod_inv D held G v c → room 1 v c →
  content c !! tr_hash_content d = Some id → D d x →
  ∃ m, v_meta v !! id = Some m ∧
    took D held G x v c id (set_count v id m (u32_add (seg_ref_count m) 1)) c.
Proof.
  intros HD Hi [_ Hr] Hst Hd. destruct (mi_store _ _ _ _ _ Hi _ _ Hst) as (m & d' & x' & Hm & Hh & Hx & Hd' & He).
  assert (x' = x) as -> by by eapply HD. exists m. split; [done|].
  assert (0 ≤ seg_ref_count m < U32_MAX) as Hb.
  { specialize (Hr id). pose proof (mi_refs _ _ _ _ _ Hi id). unfold refs_of in *. rewrite Hm in *.
    pose proof (live_refs_nonneg G id). pose proof (countZ_nonneg id held). lia. }
  assert (u32_add (seg_ref_count m) 1 = seg_ref_count m + 1) as ->.
  { unfold u32_add, wrap, U32_MAX in *. apply Z.mod_small. lia. }
  split_and!; try done.
  - eapply mod_inv_set_count; try done. intros j. rewrite countZ_app, countZ_cons, countZ_nil.
    pose proof (mi_refs _ _ _ _ _ Hi j) as Hj. case_decide as Hc.
    + subst j. rewrite bool_decide_true by done. unfold refs_of in Hj. rewrite Hm in Hj. lia.
    + rewrite bool_decide_false by done. lia.
  - by apply denotes_set_count.
  - intros j y. by apply denotes_set_count.
  - intros n Hn [Hs Hr']. split; [lia|]. intros j. specialize (Hr' j). unfold refs_of in *. simpl.
    destruct (decide (j = id)) as [->|Hne]; [rewrite lookup_insert_eq, Hm in *; simpl; lia|].
    rewrite lookup_insert_ne by done. lia.
Qed.

(** One planned segment. *)
Lemma write_slice_spec D held G k data comp ep ids st r p :
  hash_decides D → mod_inv D held G (V p) (C p) → room 1 (V p) (C p) →
  0 ≤ Layout.ref_offset r → 0 ≤ Layout.ref_length r →
  Layout.ref_offset r + Layout.ref_length r ≤ lenZ data → lenZ data < 2 ^ 64 →
  (∀ view s, tr_compress (Layout.ref_chunk data r) comp = Ok (view, s) →
     D (as_ref view) (Layout.ref_chunk data r)) →
  awp (write_slice k data comp ep (ids, st) r)
    (λ acc v c, ∃ id, acc.1 = ids ++ [id] ∧
       took D held G (Layout.ref_chunk data r) (V p) (C p) id v c)
    (λ _, spoilt D held G (C p)) p.
Proof.
  intros HD Hi Hroom Ho Hl Hin Hlen Hok. unfold write_slice.
  assert (u64_saturating_add (Layout.ref_offset r) (Layout.ref_length r) =
          Layout.ref_offset r + Layout.ref_length r) as ->.
  { unfold u64_saturating_add, U64_MAX. lia. }
  destruct (Z.ltb_spec (lenZ data) (Layout.ref_offset r + Layout.ref_length r)); [lia|].
  replace (Layout.ref_offset r + Layout.ref_length r - Layout.ref_offset r)
    with (Layout.ref_length r) by lia. fold (Layout.ref_chunk data r).
  set (x := Layout.ref_chunk data r) in *.
  apply awp_bind, awp_lift; [apply compress_no_panic| |intros; by split].
  intros [view s] Hc p1 Hv1 Hc1. pose proof (decode_compress _ _ _ _ Hc) as Hdec.
  specialize (Hok _ _ Hc). apply awp_bind, awp_catalog. unfold wp. cbn.
  intros p2 Hv2 Hc2. rewrite Hc1 in *. rewrite Hv1 in *.
  destruct (content (C p) !! tr_hash_content (as_ref view)) as [id|] eqn:Hst.
  - destruct (took_hit D held G (V p) (C p) id (as_ref view) x) as (m & Hm & Ht); try done.
    apply awp_bind, (reference_spec id m); rewrite ?Hv2, ?Hc2; [done| |by intros; split].
    intros p3 Hv3 Hc3. apply awp_bind, awp_count_segment. intros p4 Hv4 Hc4.
    unfold awp, wp, ret. rewrite Hv4, Hc4, Hv3, Hc3. by exists id.
  - apply awp_bind. eapply awp_mono; [apply (mod_write_new_spec D held G); rewrite ?Hv2, ?Hc2; try done; apply Hroom|..].
    + intros id v c Ht p3 Hv3 Hc3. apply awp_bind, awp_count_segment.
      intros p4 Hv4 Hc4. unfold awp, wp, ret. rewrite Hv4, Hc4, Hv3, Hc3. exists id. split; [done|].
      by rewrite Hv2, Hc2 in Ht.
    + intros e v c Ht. by rewrite Hc2 in Ht.
Qed.

(** The planned references tile the data. *)
Lemma plan_of_tiles k data policy plan :
  plan_of k data policy = Ok plan → 0 ≤ default_segment_size (strategy (layout policy)) →
  lenZ data < 2 ^ 64 →
  Layout.tiles (default_segment_size (strategy (layout policy))) k data 0
    (concat (Layout.zone_segments <$> Layout.zones plan)) (lenZ data).
Proof.
  unfold plan_of. intros Hp Hs Hl. destruct (Z.eqb_spec (default_segment_size (strategy (layout policy))) 0) as [|Hnz];
    [done|]. set (size := default_segment_size _) in *. set (slices := chunks size data) in *.
  assert (concat slices = data) as Hcat by (apply concat_chunks; lia).
  destruct (Layout.build_plan_final policy k [k] slices) as (st & Hb & [Ht _ _ _ _ _]);
    [fold size; lia|by rewrite Hcat|]. rewrite Hcat in Ht.
  assert (Layout.zones plan = Layout.final_zones st) as ->; [|by rewrite Layout.final_zones_segments].
  unfold Layout.LayoutEngine_new, Layout.compile, Layout.synthesize, Layout.offload_synthesize in Hp.
  destruct (strategy (layout policy)); simpl in Hp; try done; rewrite Hb in Hp; by simplify_eq/=.
Qed.

Lemma tiles_in size k data a refs b :
  0 ≤ a → Layout.tiles size k data a refs b →
  Forall (λ r, 0 ≤ Layout.ref_offset r ∧ 0 ≤ Layout.ref_length r ∧
    Layout.ref_offset r + Layout.ref_length r ≤ lenZ data) refs.
Proof.
  revert a. induction refs as [|r refs IH]; intros a Ha; [constructor|].
  intros (_ & <- & ? & ? & _ & Ht). constructor; [lia|]. eapply IH; [|done]. lia.
Qed.

(** The loop over the planned segments. *)
Lemma write_loop_spec D G k data comp ep refs p :
  hash_decides D → mod_inv D [] G (V p) (C p) → room (lenZ refs) (V p) (C p) → lenZ data < 2 ^ 64 →
  Forall (λ r, 0 ≤ Layout.ref_offset r ∧ 0 ≤ Layout.ref_length r ∧
    Layout.ref_offset r + Layout.ref_length r ≤ lenZ data) refs →
  (∀ r view s, r ∈ refs → tr_compress (Layout.ref_chunk data r) comp = Ok (view, s) →
     D (as_ref view) (Layout.ref_chunk data r)) →
  awp (foldM (write_slice k data comp ep) ([], DedupStats_new) refs)
    (λ acc v c, ∃ l, acc.1 = l.*1 ∧ l.*2 = Layout.ref_chunk data <$> refs ∧
       mod_inv D l.*1 G v c ∧ Forall (λ ix, seg_denotes v ix.1 ix.2) l ∧
       capsules c = capsules (C p))
    (λ _ v c, mod_inv D [] G v c ∧ capsules c = capsules (C p)) p.
Proof.
  intros HD Hi Hroom Hlen Hin Hok.
  set (I := λ (acc : list SegmentId * DedupStats) rest v c, ∃ l, acc.1 = l.*1 ∧
    l.*2 ++ (Layout.ref_chunk data <$> rest) = Layout.ref_chunk data <$> refs ∧
    mod_inv D l.*1 G v c ∧ Forall (λ ix, seg_denotes v ix.1 ix.2) l ∧
    capsules c = capsules (C p) ∧ room (lenZ rest) v c ∧ (∀ r, r ∈ rest → r ∈ refs)).
  eapply awp_mono; [apply (awp_foldM I (λ _ v c, mod_inv D [] G v c ∧ capsules c = capsules (C p)))|..].
  - intros [ids st] r rest q (l & Hids & Hl & Hi' & Hf & Hcaps & Hr & Hsub). simpl in Hids. subst ids.
    assert (r ∈ refs) as Hrin by (apply Hsub; by left).
    rewrite Forall_forall in Hin. destruct (Hin r Hrin) as (? & ? & ?).
    rewrite lenZ_cons in Hr. pose proof (lenZ_nonneg rest).
    eapply awp_mono; [apply (write_slice_spec D l.*1 G)|..]; try done.
    + eapply room_le; [|done]. lia.
    + intros view s. by apply Hok.
    + intros acc v c (id & Hacc & Hi2 & Hcaps2 & Hx & Hold & Hroom2).
      exists (l ++ [(id, Layout.ref_chunk data r)]). rewrite !fmap_app. simpl.
      split_and!; [done| |done| |congruence| |].
      * by rewrite <- app_assoc.
      * apply Forall_app. split; [|by constructor]. eapply Forall_impl; [done|]. intros ix. apply Hold.
      * apply Hroom2; [lia|]. by rewrite Z.add_comm.
      * intros r' Hr'. apply Hsub. by right.
    + intros e v c [Hi2 Hc2]. split; [by eapply mod_inv_drop|congruence].
  - exists []. by split_and!.
  - intros acc v c (l & ? & Hl & ? & ? & ? & _). exists l. rewrite fmap_nil, app_nil_r in Hl. done.
  - done.
Qed.

Lemma write_capsule_spec D G k now data policy p :
  hash_decides D → mod_inv D [] G (V p) (C p) → G !! k = None →
  write_fits k data policy (V p) (C p) → planned_ok D k data policy →
  plan_of k data policy ≠ Panic →
  awp (write_capsule k now data policy)
    (λ id v c, id = k ∧ ∃ l cap, concat l.*2 = data ∧ mod_inv D [] (<[k := l]> G) v c ∧
       capsules c = <[k := cap]> (capsules (C p)))
    (λ _ v c, mod_inv D [] G v c ∧ capsules c = capsules (C p)) p.
Proof.
  intros HD Hi HG (Hs & Hlen & Hroom) Hok Hnp.
  apply awp_bind, awp_lift; [apply compression_no_panic| |done].
  intros comp Hcomp p1 Hv1 Hc1. apply awp_bind, awp_lift; [done| |by rewrite Hv1, Hc1].
  intros plan Hplan p2 Hv2 Hc2. apply awp_bind, awp_lift; [apply encryption_no_panic| |];
    rewrite ?Hv2, ?Hc2, ?Hv1, ?Hc1; [|done].
  intros ep Hep p3 Hv3 Hc3. pose proof (plan_of_tiles _ _ _ _ Hplan Hs Hlen) as Ht.
  unfold plan_refs, planned_ok, plan_refs in *. rewrite Hplan in *. set (refs := concat _) in *.
  pose proof (Layout.tiles_data _ _ _ _ _ _ (Z.le_refl 0) Ht) as Hdata.
  rewrite Z.sub_0_r, dropZ_le0, takeZ_ge in Hdata by done.
  apply awp_bind. eapply awp_ext; [apply foldM_concat|]. fold refs.
  eapply awp_mono; [apply (write_loop_spec D G); rewrite ?Hv3, ?Hc3; try done|..].
  - exact (tiles_in _ _ _ _ _ _ (Z.le_refl 0) Ht).
  - intros r view s Hr Hvs. by eapply Hok.
  - intros [ids st] v c (l & Hids & Hl & Hil & Hf & Hcaps) p4 Hv4 Hc4. simpl in Hids. subst ids.
    rewrite Hc3 in Hcaps. apply awp_bind, awp_catalog. unfold wp. cbn.
    destruct now as [t|]; simpl.
    + intros p5 Hv5 Hc5. unfold awp, wp, ret. split; [done|]. exists l.
      eexists (mkCapsule k (lenZ data) l.*1 t policy (bytes_saved st)).
      rewrite Hv5, Hc5, Hv4, Hc4. split; [by rewrite Hl|]. split; [|simpl; by rewrite Hcaps].
      apply mod_inv_create; try done. simpl. by rewrite Hl, Hdata.
    + rewrite Hv4, Hc4. split; [by eapply mod_inv_drop|done].
  - intros e v c [? Hcaps]. rewrite Hc3 in Hcaps. done.
Qed.

(** *** Reading *)
Definition unchanged p v c : Prop := v = V p ∧ c = C p.

Lemma read_one_spec pol out id x p :
  seg_denotes (V p) id x →
  awp (read_one pol out id) (λ out' v c, out' = out ++ x ∧ unchanged p v c)
    (λ _ v c, unchanged p v c ∧ fallible) p.
Proof.
  intros (m & ct & d & Hm & Hd & Hs & Hx).
  apply awp_bind, awp_storage. eapply wp_mono; [apply metadata_law|..]; fold (V p).
  2:{ intros e s [Hv [Hn|Hf]]; [congruence|by repeat split]. }
  intros m' s [Hv Hm'] p1 Hv1 Hc1. assert (m' = m) as -> by congruence. rewrite Hv in Hv1.
  apply awp_bind, awp_storage. eapply wp_mono; [apply read_law|..]; fold (V p1); rewrite Hv1.
  2:{ intros e s' [Hv' [Hn|Hf]]; [congruence|by repeat split]. }
  intros raw s' [Hv' Hraw] p2 Hv2 Hc2. assert (raw = ct) as -> by congruence. rewrite Hv' in Hv2.
  apply awp_bind.
  assert (awp (if seg_encrypted m then on_keys (tr_decrypt ct pol id) else ret ct)
    (λ a v c, a = d ∧ unchanged p v c) (λ _ v c, unchanged p v c ∧ fallible) p2) as Hdec.
  { unfold unchanged. destruct (seg_encrypted m).
    - apply awp_keys. eapply wp_mono; [by apply decrypt_opens|..]; [|done].
      intros a _ ->. by rewrite Hv2, Hc2, Hc1.
    - subst ct. unfold awp, wp, ret. by rewrite Hv2, Hc2, Hc1. }
  eapply awp_mono; [apply Hdec| |done]. intros a v c [-> [-> ->]] p3 Hv3 Hc3.
  apply awp_bind, awp_lift; rewrite Hx; [done| |done]. intros a [= <-] p4 Hv4 Hc4.
  unfold awp, wp, ret, unchanged. by rewrite Hv4, Hc4, Hv3, Hc3.
Qed.

(** A read changes nothing, whatever it finds. *)
Lemma read_one_quiet pol out id p :
  awp (read_one pol out id) (λ _, unchanged p) (λ _, unchanged p) p.
Proof.
  apply awp_bind, awp_storage. eapply wp_mono; [apply metadata_law|..]; fold (V p); [|by intros e s [-> _]].
  intros m s [Hv _] p1 Hv1 Hc1. rewrite Hv in Hv1.
  apply awp_bind, awp_storage. eapply wp_mono; [apply read_law|..]; fold (V p1); rewrite Hv1, Hc1;
    [|by intros e s' [-> _]].
  intros raw s' [Hv' _] p2 Hv2 Hc2. rewrite Hv' in Hv2. apply awp_bind.
  assert (awp (if seg_encrypted m then on_keys (tr_decrypt raw pol id) else ret raw)
    (λ _, unchanged p) (λ _, unchanged p) p2) as Hdec.
  { unfold unchanged. destruct (seg_encrypted m).
    - apply awp_keys. rewrite Hv2, Hc2. eapply wp_mono; [apply decrypt_no_panic|done..].
    - unfold awp, wp, ret. by rewrite Hv2, Hc2. }
  eapply awp_mono; [apply Hdec| |done]. intros d v c [-> ->] p3 Hv3 Hc3.
  apply awp_bind, awp_lift.
  - unfold decode. destruct (seg_compressed m); [apply decompress_no_panic|done].
  - intros x _ p4 Hv4 Hc4. unfold awp, wp, ret, unchanged. by rewrite Hv4, Hc4, Hv3, Hc3.
  - intros e _. unfold unchanged. by rewrite Hv3, Hc3.
Qed.

Lemma read_capsule_spec D held G k l p :
  mod_inv D held G (V p) (C p) → G !! k = Some l →
  awp (read_capsule k) (λ out v c, out = concat l.*2 ∧ unchanged p v c)
    (λ _ v c, unchanged p v c ∧ fallible) p.
Proof.
  intros Hi Hk. destruct (mi_caps _ _ _ _ _ Hi k l Hk) as (cap & Hcap & Hseg & _ & Hf).
  apply awp_bind, awp_catalog. unfold wp. cbn. rewrite Hcap. cbn. intros p1 Hv1 Hc1. rewrite Hseg.
  set (I := λ (out : bytes) (ids : list SegmentId) v c, ∃ done rest, l = done ++ rest ∧
    ids = rest.*1 ∧ out = concat done.*2 ∧ unchanged p v c).
  eapply awp_mono; [apply (awp_foldM I (λ _ v c, unchanged p v c ∧ fallible))|..].
  - intros out id ids q (dn & rest & -> & Hids & -> & Hv & Hc).
    destruct rest as [|[j x] rest]; [done|]. simplify_eq/=.
    rewrite Forall_app, Forall_cons in Hf. destruct Hf as (_ & Hx & _).
    eapply awp_mono; [apply (read_one_spec _ _ _ x); by rewrite Hv|..]; unfold unchanged; rewrite Hv, Hc; [|done].
    intros out v c [-> [-> ->]]. exists (dn ++ [(j, x)]), rest. rewrite <- app_assoc.
    split_and!; try done. by rewrite fmap_app, concat_app; simpl; rewrite app_nil_r.
  - exists [], l. done.
  - intros out v c (dn & rest & -> & Hnil & -> & Hu).
    apply symmetry, fmap_nil_inv in Hnil as ->. by rewrite app_nil_r.
  - done.
Qed.

Lemma read_capsule_quiet k p : awp (read_capsule k) (λ _, unchanged p) (λ _, unchanged p) p.
Proof.
  apply awp_bind, awp_catalog. unfold wp. cbn. destruct (capsules (C p) !! k) as [cap|]; cbn; [|done].
  intros p1 Hv1 Hc1. eapply awp_mono; [apply (awp_foldM (λ _ _, unchanged p) (λ _, unchanged p))|..]; try done.
  intros out id ids q [Hv Hc]. eapply awp_mono; [apply read_one_quiet|..];
    unfold unchanged; by rewrite Hv, Hc.
Qed.

(** *** Deleting *)
Lemma delete_segment_spec id (Q : unit → StorageView → Catalog → Prop) R p :
  Q tt (remove_segments [id] (V p)) (C p) → (∀ e, fallible → R e (V p) (C p)) →
  awp (on_storage (sb_delete id)) Q R p.
Proof.
  intros HQ HR. apply awp_storage. eapply wp_mono; [apply delete_law|..]; fold (V p).
  - by intros [] s ->.
  - intros e s [-> Hf]. by apply HR.
Qed.

Lemma mod_deregister_spec h id (Q : bool → StorageView → Catalog → Prop) R p :
  (∀ b, Q b (V p) (unname (C p) h id)) → awp (on_catalog (cat_deregister_content h id)) Q R p.
Proof.
  intros HQ. apply awp_catalog. unfold unname in HQ. unfold wp. cbn.
  unfold InMemoryCatalog.deregister_content, bind, gets.
  case_bool_decide; apply HQ.
Qed.

Lemma release_one_spec D G id held p :
  mod_inv D (id :: held) G (V p) (C p) →
  awp (release_one id) (λ _ v c, mod_inv D held G v c ∧ capsules c = capsules (C p))
    (λ _ v c, mod_inv D [] G v c ∧ capsules c = capsules (C p) ∧ fallible) p.
Proof.
  intros Hi. assert (mod_inv D [] G (V p) (C p)) as Hi0 by by eapply mod_inv_drop.
  destruct (held_lookup _ _ _ _ _ id Hi) as (m & Hm & Href).
  { rewrite countZ_cons, bool_decide_true by done. pose proof (live_refs_nonneg G id).
    pose proof (countZ_nonneg id held). lia. }
  rewrite countZ_cons, bool_decide_true in Href by done.
  apply awp_bind, awp_storage. eapply wp_mono; [apply metadata_law|..]; fold (V p).
  2:{ intros e s [Hv [Hn|Hf]]; [congruence|by rewrite Hv]. }
  intros m' s [Hv Hm'] p1 Hv1 Hc1. assert (m' = m) as -> by congruence. rewrite Hv in Hv1.
  destruct (Z.ltb_spec 1 (seg_ref_count m)) as [Hgt|Hle].
  - apply set_metadata_spec; rewrite Hv1, Hc1; [|done]. split; [|done].
    apply (mod_inv_set_count D (id :: held) held G _ _ id m); [done|done|]. intros j.
    pose proof (mi_refs _ _ _ _ _ Hi j) as Hj. rewrite countZ_cons in Hj.
    destruct (decide (j = id)) as [->|Hc]; [lia|]. rewrite bool_decide_false in Hj by congruence. lia.
  - apply awp_bind, delete_segment_spec; rewrite Hv1, Hc1; [|done]. intros p2 Hv2 Hc2.
    pose proof (live_refs_nonneg G id). pose proof (countZ_nonneg id held).
    assert (∀ c', capsules c' = capsules (C p) → next_segment c' = next_segment (C p) →
      content c' ⊆ content (C p) → (∀ h, content c' !! h ≠ Some id) →
      mod_inv D held G (remove_segments [id] (V p)) c') as Hrem.
    { intros c' ??? Hno. apply (mod_inv_remove D (id :: held) held G (V p) (C p)); try done.
      - intros h j Hh Hin%list_elem_of_singleton. subst j. by eapply Hno.
      - intros j ->%list_elem_of_singleton. lia.
      - intros j. rewrite countZ_cons. case_bool_decide; lia. }
    assert (∀ h, content (C p) !! h = Some id → seg_content_hash m = Some h) as Huniq.
    { intros h Hh. destruct (mi_store _ _ _ _ _ Hi _ _ Hh) as (m2 & _ & _ & Hm2 & ? & _). congruence. }
    destruct (seg_content_hash m) as [h|].
    + apply awp_bind, mod_deregister_spec. intros b p3 Hv3 Hc3. unfold awp, wp, ret.
      rewrite Hv3, Hc3, Hv2, Hc2. destruct (unname_frame (C p) h id) as (Hf1 & Hf2 & Hf3).
      split; [|done]. apply Hrem; try done. intros h' Hh'.
      assert (content (C p) !! h' = Some id) as Hold by by eapply lookup_weaken.
      apply Huniq in Hold. apply unname_other in Hh'. congruence.
    + unfold awp, wp, ret. rewrite Hv2, Hc2. split; [|done]. apply Hrem; try done.
      intros h Hh. by apply Huniq in Hh.
Qed.

Lemma mod_delete_capsule_spec D G k l p :
  mod_inv D [] G (V p) (C p) → G !! k = Some l →
  awp (delete_capsule k)
    (λ _ v c, mod_inv D [] (delete k G) v c ∧ capsules c = delete k (capsules (C p)))
    (λ _ v c, mod_inv D [] (delete k G) v c ∧ capsules c = capsules (C p) ∧ fallible) p.
Proof.
  intros Hi Hk. destruct (mi_caps _ _ _ _ _ Hi k l Hk) as (cap & Hcap & Hseg & _ & _).
  apply awp_bind, awp_catalog. unfold wp. cbn. rewrite Hcap. cbn. intros p1 Hv1 Hc1. rewrite Hseg.
  apply awp_bind.
  eapply awp_mono; [apply (awp_foldM (λ _ ids v c, mod_inv D ids (delete k G) v c ∧ capsules c = capsules (C p))
    (λ _ v c, mod_inv D [] (delete k G) v c ∧ capsules c = capsules (C p) ∧ fallible))|..].
  - intros [] id ids q [Hiq Hcq]. eapply awp_mono; [by apply (release_one_spec D (delete k G))|..].
    + intros [] v c [? Hc]. split; [done|congruence].
    + intros e v c (? & Hc & ?). split_and!; [done|congruence|done].
  - rewrite Hv1, Hc1. split; [by apply mod_inv_release|done].
  - intros [] v c [Hi2 Hc2] p2 Hv2 Hc3. apply awp_bind, awp_catalog. unfold wp. cbn.
    rewrite Hc3, Hc2, Hcap. cbn. intros p3 Hv3 Hc4. unfold awp, wp, ret. rewrite Hc4, Hv3, Hv2.
    split; [|done]. rewrite <- Hc2. apply mod_inv_forget; [done|]. apply lookup_delete_eq.
  - done.
Qed.

Lemma delete_missing k p :
  capsules (C p) !! k = None →
  awp (delete_capsule k) (λ _, unchanged p) (λ _, unchanged p) p.
Proof. intros Hk. apply awp_bind, awp_catalog. unfold wp. cbn. rewrite Hk. done. Qed.

(** *** Collecting *)
Definition referenced_ids c : gset SegmentId :=
  list_to_set (concat (cap_segments <$> (hash_iter (capsules c)).*2)).

(** What the collector reclaims. *)
Definition garbage v c (id : SegmentId) : Prop :=
  ∃ m, v_meta v !! id = Some m ∧ ¬ (id ∈ referenced_ids c ∧ 0 < seg_ref_count m).

Lemma elem_of_referenced c id :
  id ∈ referenced_ids c ↔ ∃ k cap, capsules c !! k = Some cap ∧ id ∈ cap_segments cap.
Proof.
  unfold referenced_ids. rewrite elem_of_list_to_set, list_elem_of_In, in_concat.
  setoid_rewrite <- list_elem_of_In. setoid_rewrite list_elem_of_fmap. split.
  - intros (l & (cap & -> & [[k cap'] [-> Hk]]%list_elem_of_fmap) & Hid).
    exists k, cap'. split; [|done]. rewrite hash_iter_perm in Hk. by apply elem_of_map_to_list.
  - intros (k & cap & Hk & Hid). exists (cap_segments cap). split; [|done]. exists cap. split; [done|].
    apply list_elem_of_fmap. exists (k, cap). split; [done|]. rewrite hash_iter_perm.
    by apply elem_of_map_to_list.
Qed.

Lemma garbage_unreferenced D G v c id :
  mod_inv D [] G v c → garbage v c id → live_refs G id ≤ 0.
Proof.
  intros Hi (m & Hm & Hg). destruct (decide (live_refs G id ≤ 0)) as [|Hpos]; [done|].
  destruct Hg. destruct (held_lookup _ _ _ _ _ id Hi) as (m' & Hm' & Hr);
    [rewrite countZ_nil; lia|]. rewrite countZ_nil in Hr. assert (m' = m) as -> by congruence.
  split; [|lia]. apply elem_of_referenced.
  assert (∃ k l, G !! k = Some l ∧ id ∈ l.*1) as (k & l & Hk & Hid).
  { clear -Hpos. unfold live_refs in Hpos.
    assert (∃ kl, kl ∈ map_to_list G ∧ id ∈ kl.2.*1) as ([k l] & Hk%elem_of_map_to_list & ?); [|by exists k, l].
    induction (map_to_list G) as [|kl r IH]; [done|]. rewrite fmap_cons in Hpos.
    destruct (decide (id ∈ kl.2.*1)); [exists kl; split; [by left|done]|].
    destruct IH as (kl' & ? & ?); [|exists kl'; split; [by right|done]].
    intros Hle. apply Hpos. unfold sumZ in *. simpl.
    assert (¬ 0 < countZ id kl.2.*1) by by rewrite <- countZ_elem. lia. }
  destruct (mi_caps _ _ _ _ _ Hi k l Hk) as (cap & ? & Hs & _). exists k, cap. by rewrite Hs.
Qed.

(** The inverted content store names every segment that is named once. *)
Lemma content_map_lookup (l : list (ContentHash * SegmentId)) m0 h id :
  (∀ h', (h', id) ∈ l → h' = h) → ((h, id) ∈ l ∨ m0 !! id = Some h) →
  foldl (λ (m : gmap SegmentId ContentHash) hs, <[hs.2 := hs.1]> m) m0 l !! id = Some h.
Proof.
  revert m0. induction l as [|[h1 id1] l IH]; intros m0 Hu Hin; simpl.
  { destruct Hin as [Hin|]; [by apply not_elem_of_nil in Hin|done]. }
  apply IH; [intros h' ?; apply Hu; by right|].
  destruct (decide (id1 = id)) as [->|Hne].
  - right. rewrite lookup_insert_eq. f_equal. apply Hu. by left.
  - rewrite lookup_insert_ne by done. destruct Hin as [[?|?]%elem_of_cons|?]; [|by left|by right].
    by simplify_eq.
Qed.

Lemma tawp_foldM {A B : Type} (I : B → list A → Staged → StorageView → Catalog → Prop) R
    (f : B → A → M (T * P) Error B) l b tp :
  (∀ b x r tp, I b (x :: r) (staged_of tp.1) (V tp.2) (C tp.2) →
     tawp (f b x) (λ b' s v c, I b' r s v c) R tp) →
  I b l (staged_of tp.1) (V tp.2) (C tp.2) → tawp (foldM f b l) (λ b' s v c, I b' [] s v c) R tp.
Proof.
  intros Hf Hi.
  apply (wp_foldM (λ b l tp, I b l (staged_of tp.1) (V tp.2) (C tp.2))
    (λ e tp, R e (V tp.2) (C tp.2)) f l b tp); [|done].
  intros b' x r p' Hi'. by apply Hf.
Qed.

(** The collector's loop: [rest] is still to be visited, [ids] are staged. *)
Record collecting D G v0 c0 (rest : list SegmentId) (s : Staged) v c : Prop := {
  co_view : v = v0;
  co_caps : capsules c = capsules c0 ∧ next_segment c = next_segment c0;
  co_content : content c ⊆ content c0;
  co_staged : ∃ ids, s = mkStaged ∅ ∅ ids ∧
    (∀ id, id ∈ ids → garbage v0 c0 id) ∧
    (∀ h id, content c !! h = Some id → id ∉ ids) ∧
    (¬ fallible → ∀ id, garbage v0 c0 id → id ∈ rest ∨ id ∈ ids);
  co_inv : mod_inv D [] G v0 c0;
}.

Lemma mod_inv_content D held G v c c' :
  mod_inv D held G v c → capsules c' = capsules c → next_segment c' = next_segment c →
  content c' ⊆ content c → mod_inv D held G v c'.
Proof.
  intros Hi Hc Hn Hs. apply (mod_inv_change D held held G v v c c'); try done.
  - by rewrite Hc.
  - by rewrite Hn.
  - rewrite Hn. apply Hi.
  - eauto.
  - apply Hi.
Qed.

Definition content_map_of c : gmap SegmentId ContentHash :=
  foldl (λ m hs, <[hs.2 := hs.1]> m) ∅ (hash_iter (content c)).

Lemma content_map_of_lookup D held G v c h id :
  mod_inv D held G v c → content c !! h = Some id → content_map_of c !! id = Some h.
Proof.
  intros Hi Hh. assert (∀ h', (h', id) ∈ hash_iter (content c) ↔ content c !! h' = Some id) as Hel.
  { intros h'. rewrite hash_iter_perm. apply elem_of_map_to_list. }
  apply content_map_lookup; [|left; by apply Hel].
  intros h' Hh'%Hel. destruct (mi_store _ _ _ _ _ Hi _ _ Hh) as (m & ? & ? & Hm & Hmh & _).
  destruct (mi_store _ _ _ _ _ Hi _ _ Hh') as (m' & ? & ? & Hm' & Hmh' & _). congruence.
Qed.

(** Skipping a segment that is not garbage. *)
Lemma collecting_skip D G v0 c0 id rest s v c :
  collecting D G v0 c0 (id :: rest) s v c → (¬ fallible → ¬ garbage v0 c0 id) →
  collecting D G v0 c0 rest s v c.
Proof.
  intros [] Hg. constructor; try done. destruct co_staged0 as (ids & ? & ? & ? & Hall).
  exists ids. split_and!; try done. intros Hf j Hj. destruct (Hall Hf j Hj) as [[->|?]%elem_of_cons|?]; auto.
  by destruct (Hg Hf).
Qed.

(** Staging one that is, once the catalog no longer names it. *)
Lemma collecting_stage D G v0 c0 id rest s v c c' :
  collecting D G v0 c0 (id :: rest) s v c → garbage v0 c0 id →
  capsules c' = capsules c → next_segment c' = next_segment c → content c' ⊆ content c →
  (∀ h, content c' !! h ≠ Some id) →
  collecting D G v0 c0 rest (mkStaged (sg_data s) (sg_meta s) (sg_deleted s ++ [id])) v c'.
Proof.
  intros [-> [Hcc Hcn] ? (ids & -> & Hgs & Hns & Hall) ?] Hg Hc Hn Hs Hno.
  constructor; try done; [split; congruence|by trans (content c)|].
  exists (ids ++ [id]). simpl. split_and!; [done|..].
  - intros j [?|Hj%list_elem_of_singleton]%elem_of_app; [by apply Hgs|by subst].
  - intros h j Hh [Hj|Hj%list_elem_of_singleton]%elem_of_app; [|by subst; eapply Hno].
    eapply Hns; [|done]. by eapply lookup_weaken.
  - intros Hf j Hj. rewrite elem_of_app, list_elem_of_singleton.
    destruct (Hall Hf j Hj) as [[->|?]%elem_of_cons|?]; auto.
Qed.

Lemma collect_one_spec D G v0 c0 n id rest tp :
  collecting D G v0 c0 (id :: rest) (staged_of tp.1) (V tp.2) (C tp.2) →
  tawp (collect_one (referenced_ids c0) (content_map_of c0) n id)
    (λ _, collecting D G v0 c0 rest)
    (λ _ v c, mod_inv D [] G v c ∧ capsules c = capsules c0 ∧ fallible) tp.
Proof.
  intros Hco. assert (∀ v c s, collecting D G v0 c0 (id :: rest) s v c →
    mod_inv D [] G v c ∧ capsules c = capsules c0) as Hinv.
  { intros v c s [-> [? ?] ? _ Hi]. split; [by eapply mod_inv_content|done]. }
  apply tawp_bind. apply wp_attempt. apply wp_zoom, wp_zoom. eapply wp_mono; [apply metadata_law|..];
    simpl; fold (V tp.2).
  2:{ intros e s [Hv Hn] tp' Hs' Hv' Hc'. change (V tp'.2 = view_of s) in Hv'.
      change (C tp'.2 = C tp.2) in Hc'. unfold tawp, wp, ret. rewrite Hs', Hv', Hc', Hv.
      apply (collecting_skip _ _ _ _ id); [done|]. intros Hf (m & Hm & _).
      rewrite <- (co_view _ _ _ _ _ _ _ _ Hco) in Hm. destruct Hn; congruence. }
  intros m s [Hv Hm] tp1 Ht1 Hv1 Hc1. change (V tp1.2 = view_of s) in Hv1. rewrite Hv in Hv1. change (C tp1.2 = C tp.2) in Hc1.
  rewrite <- Ht1, <- Hv1, <- Hc1 in Hco. rewrite <- Hv1 in Hm.
  clear tp Ht1 Hv1 Hc1 Hv. pose proof (co_view _ _ _ _ _ _ _ _ Hco) as Hv0.
  destruct (bool_decide (id ∈ referenced_ids c0) && (0 <? seg_ref_count m)) eqn:Hb.
  { apply andb_prop in Hb as [Hb1%bool_decide_eq_true Hb2%Z.ltb_lt]. unfold tawp, wp, ret.
    apply (collecting_skip _ _ _ _ id); [done|]. intros _ (m' & Hm' & Hg). apply Hg.
    rewrite <- Hv0, Hm in Hm'. by simplify_eq. }
  assert (garbage v0 c0 id) as Hg.
  { exists m. split; [by rewrite <- Hv0|]. intros [Hg1 Hg2]. rewrite bool_decide_true in Hb by done.
    simpl in Hb. lia. }
  apply tawp_bind, tawp_txn. eapply wp_mono; [apply tx_delete_law|..]; simpl; fold (V tp1.2).
  2:{ intros e ts [-> Hf]. destruct (Hinv _ _ _ Hco). done. }
  intros _ ts [Hv Hs] tp2 Hs2 Hv2 Hc2. rewrite Hv in Hv2. rewrite Hs in Hs2.
  assert (∀ h, content (C tp1.2) !! h = Some id → content_map_of c0 !! id = Some h) as Hmap.
  { intros h Hh. eapply content_map_of_lookup; [apply Hco|].
    eapply lookup_weaken; [done|apply Hco]. }
  apply tawp_bind.
  destruct (content_map_of c0 !! id) as [h|] eqn:Hcm.
  - apply tawp_bind, tawp_pipe, mod_deregister_spec. intros b tp3 Hs3 Hv3 Hc3.
    unfold tawp at 1, wp, ret. intros tp4 Hs4 Hv4 Hc4. unfold tawp, wp, ret.
    rewrite Hs4, Hv4, Hc4, Hs3, Hv3, Hc3, Hs2, Hv2, Hc2.
    destruct (unname_frame (C tp1.2) h id) as (Hf1 & Hf2 & Hf3).
    eapply collecting_stage; try done. intros h' Hh'. pose proof (unname_other _ _ _ _ Hh') as Hne.
    specialize (Hmap h' ltac:(by eapply lookup_weaken)). congruence.
  - unfold tawp at 1, wp, ret. intros tp4 Hs4 Hv4 Hc4. unfold tawp, wp, ret.
    rewrite Hs4, Hv4, Hc4, Hs2, Hv2, Hc2. eapply collecting_stage; try done.
    intros h Hh. by apply Hmap in Hh.
Qed.

(** The collector removes garbage only; without failures, all of it. *)
Lemma mod_garbage_collect_spec D G p :
  mod_inv D [] G (V p) (C p) →
  awp garbage_collect
    (λ _ v c, mod_inv D [] G v c ∧ capsules c = capsules (C p) ∧
       ∃ ids, v = remove_segments ids (V p) ∧ (∀ id, id ∈ ids → garbage (V p) (C p) id) ∧
         (¬ fallible → ∀ id, garbage (V p) (C p) id → id ∈ ids))
    (λ _ v c, mod_inv D [] G v c ∧ capsules c = capsules (C p) ∧ fallible) p.
Proof.
  intros Hi. apply awp_bind, awp_gets. intros p1 Hv1 Hc1. cbv zeta.
  change (pl_catalog p) with (C p).
  apply awp_bind, awp_storage. eapply wp_mono; [apply segment_ids_law|..]; fold (V p1); rewrite Hv1, Hc1;
    [|by intros e s [-> ?]].
  intros ids s [Hv Hids] p2 Hv2 Hc2. rewrite Hv in Hv2.
  apply awp_with_txn; rewrite Hv2, Hc2; [|done]. intros tp Hs Hvt Hct.
  assert (collecting D G (V p) (C p) ids (staged_of tp.1) (V tp.2) (C tp.2)) as Hco.
  { rewrite Hs, Hvt, Hct. constructor; try done. exists []. split_and!; try done.
    - intros id Hid. by apply not_elem_of_nil in Hid.
    - intros h id _. apply not_elem_of_nil.
    - intros _ id (m & Hm & _). left. rewrite Hids. apply list_elem_of_fmap. exists (id, m).
      split; [done|]. by apply elem_of_map_to_list. }
  apply tawp_bind. eapply tawp_mono; [apply (tawp_foldM (λ _, collecting D G (V p) (C p)))|..]; [|done|..].
  - intros n id rest tp' Hco'. by apply collect_one_spec.
  - intros n s' v c [-> [Hcaps Hnext] Hsub (dels & -> & Hg & Hno & Hall) _] tp3 Hs3 Hv3 Hc3.
    assert (mod_inv D [] G (V p) c) as Hic by by eapply mod_inv_content.
    apply tawp_bind, tawp_txn. eapply wp_mono; [apply tx_commit_law|..]; simpl; fold (V tp3.2);
      rewrite Hv3, Hc3; [|by intros e ts [-> ?]].
    intros _ ts Hts tp4 Hs4 Hv4 Hc4. unfold tawp, wp, ret. rewrite Hv4, Hc4, Hts, Hs3.
    unfold apply_staged. simpl. rewrite !(left_id_L ∅ (∪)). fold (remove_segments dels (V p)).
    split_and!; [|done|].
    + apply (mod_inv_remove D [] [] G (V p) c c dels); try done.
      intros id Hid. rewrite countZ_nil. pose proof (garbage_unreferenced _ _ _ _ _ Hi (Hg id Hid)). lia.
    + exists dels. split_and!; [done|done|]. intros Hf id Hid.
      destruct (Hall Hf id Hid) as [Hn|?]; [by apply not_elem_of_nil in Hn|done].
  - done.
Qed.
End mod_rules.
