(* ===== verification/ModularTheorems.v ===== *)
(** The properties of the modular pipeline: over every lawful backend stored data
    survives any sequence of client calls, collection is exact and deletion takes
    nothing it should not; and what the NVRAM backend and the XTS encryptor, which
    do not keep the laws, do instead. *)
From S2P Require Import Prelude Errors Common Traits Externals.
From S2P Require Compression KeyManager Encryption Dedup Nvram Layout Storage.
From S2P Require ModularPipeline ModularInvariant.
Import ModularPipeline ModularInvariant.
Import InMemoryCatalog (next_segment, capsules, content, mkInner).
Import (hints) Compression Dedup Storage.

(** ** Clients of a lawful pipeline *)
Section clients.
Context {S T X Dd : Type} `{Crates} `{!HashOrder} `{!Compressor} `{!CompressorLaws}
  `{!Deduper Dd} `{!DeduperLaws Dd} `{!Encryptor X} `{!Sealing X} `{!EncryptorLaws X}
  `{!Keyring X} `{!KeyringLaws X} `{!StorageBackend S T} `{!StorageSpec S T}
  `{!PolicyEvaluator} `{!EvaluatorLaws}.
#[local] Abbreviation P := (Pipeline S X InMemoryCatalog.Inner Dd).
Implicit Types p : P.

(** The calls a client makes, whatever they return: ids drawn for writes are new,
    nobody deletes [keep], and a deletion that failed is not tried again; those
    capsules are the set [broken]. *)
Inductive client_step (D : bytes → bytes → Prop) (keep : CapsuleId) :
    gset CapsuleId * P → gset CapsuleId * P → Prop :=
| step_write broken k now data policy p r p' :
    capsules (C p) !! k = None → write_fits k data policy (V p) (C p) → planned_ok D k data policy →
    write_capsule k now data policy p = (r, p') → client_step D keep (broken, p) (broken, p')
| step_read broken k p r p' :
    read_capsule k p = (r, p') → client_step D keep (broken, p) (broken, p')
| step_delete broken k p r p' :
    k ≠ keep → k ∉ broken → delete_capsule k p = (r, p') →
    client_step D keep (broken, p) (if is_ok r then broken else {[k]} ∪ broken, p')
| step_gc broken p r p' :
    garbage_collect p = (r, p') → client_step D keep (broken, p) (broken, p').

(** Every capsule of the catalog is live or broken. *)
Definition covered (G : gmap CapsuleId (list (SegmentId * bytes))) (broken : gset CapsuleId)
    (c : InMemoryCatalog.Inner) : Prop :=
  ∀ k, is_Some (capsules c !! k) → is_Some (G !! k) ∨ k ∈ broken.

Definition mod_ok D (broken : gset CapsuleId) p : Prop :=
  ∃ G, mod_inv D [] G (V p) (C p) ∧ covered G broken (C p).

Lemma awp_run {A : Type} (m : M P Error A) Q R p r p' :
  awp m Q R p → m p = (r, p') →
  match r with Ok a => Q a (V p') (C p') | Err e => R e (V p') (C p') | Panic => False end.
Proof. apply wp_run. Qed.

(** A write whose plan panics has done nothing. *)
Lemma write_panics k now data policy p r p' :
  plan_of k data policy = Panic → write_capsule k now data policy p = (r, p') →
  p' = p ∧ is_ok r = false.
Proof.
  intros Hp. unfold write_capsule. cbv [bind lift]. rewrite Hp.
  destruct (evaluate_compression _ _); intros; by simplify_eq.
Qed.

Lemma write_unused D G k p : mod_inv D [] G (V p) (C p) → capsules (C p) !! k = None → G !! k = None.
Proof.
  intros Hi Hk. destruct (G !! k) as [l|] eqn:Hl; [|done].
  destruct (mi_caps _ _ _ _ _ Hi k l Hl) as (cap & ? & _). congruence.
Qed.

Lemma covered_insert G broken c c' k l cap :
  covered G broken c → capsules c' = <[k := cap]> (capsules c) → covered (<[k := l]> G) broken c'.
Proof.
  intros Hc He j Hj. rewrite He in Hj. destruct (decide (j = k)) as [->|Hne].
  - left. by rewrite lookup_insert_eq.
  - rewrite lookup_insert_ne in Hj by done. rewrite lookup_insert_ne by done. by apply Hc.
Qed.

Lemma covered_same G broken c c' : covered G broken c → capsules c' = capsules c → covered G broken c'.
Proof. unfold covered. by intros ? ->. Qed.

Lemma client_step_keeps D keep b p b' p' G l :
  hash_decides D → client_step D keep (b, p) (b', p') →
  mod_inv D [] G (V p) (C p) → covered G b (C p) → G !! keep = Some l →
  ∃ G', mod_inv D [] G' (V p') (C p') ∧ covered G' b' (C p') ∧ G' !! keep = Some l.
Proof.
  intros HD Hst Hi Hcov Hl. inversion Hst as
    [? k now data policy ? r ? Hnew Hfit Hok Hw|? k ? r ? Hr|? k ? r ? Hne Hnb Hd|? ? r ? Hg]; subst.
  - destruct (plan_of k data policy) as [plan|pe| ] eqn:Hp.
    3:{ destruct (write_panics _ _ _ _ _ _ _ Hp Hw) as [-> _]. by exists G. }
    1-2: pose proof (awp_run _ _ _ _ _ _ (write_capsule_spec D G k now data policy p HD Hi
      (write_unused _ _ _ _ Hi Hnew) Hfit Hok ltac:(congruence)) Hw) as Hs.
    1-2: destruct r as [id|e| ]; [|destruct Hs; exists G; eauto using covered_same|done].
    1-2: destruct Hs as (-> & l' & cap & _ & Hi' & Hc'); exists (<[k := l']> G); split_and!;
      [done|by eapply covered_insert|]; rewrite lookup_insert_ne; [done|];
      intros ->; pose proof (write_unused _ _ _ _ Hi Hnew); congruence.
  - pose proof (awp_run _ _ _ _ _ _ (read_capsule_quiet k p) Hr) as Hs.
    exists G. destruct r; [..|done]; destruct Hs as [-> ->]; done.
  - destruct (capsules (C p) !! k) as [cap|] eqn:Hk.
    + destruct (Hcov k) as [[l' Hl']|]; [by rewrite Hk|..|done].
      pose proof (awp_run _ _ _ _ _ _ (mod_delete_capsule_spec D G k l' p Hi Hl') Hd) as Hs.
      exists (delete k G). rewrite lookup_delete_ne by done. destruct r as [u|e| ]; [..|done].
      * destruct Hs as [? Hc]. split_and!; [done| |done]. intros j. rewrite Hc. simpl.
        destruct (decide (j = k)) as [->|?]; [rewrite lookup_delete_eq; by intros [??]|].
        rewrite !lookup_delete_ne by done. apply Hcov.
      * destruct Hs as (? & Hc & _). split_and!; [done| |done]. intros j. rewrite Hc. simpl.
        destruct (decide (j = k)) as [->|?]; [right; set_solver|].
        rewrite lookup_delete_ne by done. intros [?|?]%Hcov; [by left|right; set_solver].
    + pose proof (awp_run _ _ _ _ _ _ (delete_missing k p Hk) Hd) as Hs.
      exists G. destruct r; [..|done]; destruct Hs as [-> ->]; split_and!; try done.
      intros j [?|?]%Hcov; [by left|right; simpl; set_solver].
  - pose proof (awp_run _ _ _ _ _ _ (mod_garbage_collect_spec D G p Hi) Hg) as Hs.
    exists G. destruct r; [| |done]; destruct Hs as (? & ? & _); eauto using covered_same.
Qed.

Lemma client_steps_keep D keep b p b' p' G l :
  hash_decides D → rtc (client_step D keep) (b, p) (b', p') →
  mod_inv D [] G (V p) (C p) → covered G b (C p) → G !! keep = Some l →
  ∃ G', mod_inv D [] G' (V p') (C p') ∧ covered G' b' (C p') ∧ G' !! keep = Some l.
Proof.
  intros HD Hst. remember (b, p) as s eqn:Es. remember (b', p') as s' eqn:Es'.
  revert b p Es G. induction Hst as [s|s [b1 p1] s' Hs _ IH]; intros b p -> G Hi Hc Hl.
  - simplify_eq. by exists G.
  - destruct (client_step_keeps _ _ _ _ _ _ _ _ HD Hs Hi Hc Hl) as (G1 & ? & ? & ?).
    by eapply IH.
Qed.

Lemma read_live D G k l p :
  mod_inv D [] G (V p) (C p) → G !! k = Some l →
  match read_capsule k p with
  | (Ok out, _) => out = concat l.*2
  | (Err _, _) => fallible
  | (Panic, _) => False
  end.
Proof.
  intros Hi Hl. destruct (read_capsule k p) as [r p'] eqn:Hr.
  pose proof (awp_run _ _ _ _ _ _ (read_capsule_spec D [] G k l p Hi Hl) Hr) as Hs.
  destruct r; [..|done]; by destruct Hs.
Qed.

(** A write keeps the state sound, whatever it returns. *)
Lemma write_keeps_ok D broken k now data policy p r p' :
  hash_decides D → mod_ok D broken p → capsules (C p) !! k = None →
  write_fits k data policy (V p) (C p) → planned_ok D k data policy →
  write_capsule k now data policy p = (r, p') → mod_ok D broken p'.
Proof.
  intros HD (G & Hi & Hcov) Hnew Hfit Hok Hw.
  destruct (plan_of k data policy) as [plan|pe| ] eqn:Hp.
  3:{ destruct (write_panics _ _ _ _ _ _ _ Hp Hw) as [-> _]. by exists G. }
  all: pose proof (awp_run _ _ _ _ _ _ (write_capsule_spec D G k now data policy p HD Hi
    (write_unused _ _ _ _ Hi Hnew) Hfit Hok ltac:(congruence)) Hw) as Hs.
  all: destruct r as [id|e| ]; [|destruct Hs; exists G; eauto using covered_same|done].
  all: destruct Hs as (-> & l' & cap & _ & Hi' & Hc'); exists (<[k := l']> G); split;
    [done|by eapply covered_insert].
Qed.

(** ** Properties of every lawful pipeline *)

(** C4: over any backend, compressor, encryptor, keyring, deduper and evaluator that
    keep their laws, a capsule whose write returned reads back the bytes written, after
    any sequence of writes of new capsules, reads, deletions of other capsules and
    collections, with whatever failures; the read fails only if the backend's own calls
    can fail.  One call is excluded: deleting again a capsule whose deletion failed half
    way, which takes back references it no longer has
    ([retried_deletion_destroys_another]). *)
Theorem modular_capsule_survives D broken p k now data policy p1 broken2 p2 :
  hash_decides D → mod_ok D broken p → capsules (C p) !! k = None →
  write_fits k data policy (V p) (C p) → planned_ok D k data policy →
  write_capsule k now data policy p = (Ok k, p1) →
  rtc (client_step D k) (broken, p1) (broken2, p2) →
  match read_capsule k p2 with
  | (Ok out, _) => out = data
  | (Err _, _) => fallible
  | (Panic, _) => False
  end.
Proof.
  intros HD (G & Hi & Hcov) Hnew Hfit Hok Hw Hst.
  assert (plan_of k data policy ≠ Panic) as Hp.
  { intros Hp. by destruct (write_panics _ _ _ _ _ _ _ Hp Hw). }
  pose proof (awp_run _ _ _ _ _ _ (write_capsule_spec D G k now data policy p HD Hi
    (write_unused _ _ _ _ Hi Hnew) Hfit Hok Hp) Hw) as (_ & l & cap & <- & Hi1 & Hc1).
  destruct (client_steps_keep _ _ _ _ _ _ _ l HD Hst Hi1) as (G2 & Hi2 & _ & Hl2).
  - by eapply covered_insert.
  - apply lookup_insert_eq.
  - by apply (read_live D G2).
Qed.

(** Over a backend whose calls do not fail, collection succeeds and keeps exactly the
    segments that some capsule of the catalog lists and that carry a reference; the
    catalog keeps its capsules and the state stays sound. *)
Theorem modular_collect_exact D broken p :
  ¬ fallible → mod_ok D broken p →
  match garbage_collect p with
  | (Ok _, p') =>
      mod_ok D broken p' ∧ capsules (C p') = capsules (C p) ∧
      ∀ id, v_meta (V p') !! id =
        match v_meta (V p) !! id with
        | Some m =>
            if bool_decide (id ∈ referenced_ids (C p)) && (0 <? seg_ref_count m)
            then Some m else None
        | None => None
        end
  | _ => False
  end.
Proof.
  intros Hf (G & Hi & Hcov). destruct (garbage_collect p) as [r p'] eqn:Hg.
  pose proof (awp_run _ _ _ _ _ _ (mod_garbage_collect_spec D G p Hi) Hg) as Hs.
  destruct r; [|by destruct Hs as (_ & _ & ?)|done].
  destruct Hs as (Hi' & Hc & ids & Hv & Honly & Hall). split_and!; [|done|].
  { exists G. eauto using covered_same. }
  intros id. rewrite Hv. simpl. rewrite lookup_delete_all.
  destruct (v_meta (V p) !! id) as [m|] eqn:Hm; [|by case_decide].
  destruct (bool_decide (id ∈ referenced_ids (C p)) && (0 <? seg_ref_count m)) eqn:Hb.
  - rewrite decide_False; [done|]. intros (m' & Hm' & Hng)%Honly. apply Hng.
    apply andb_prop in Hb as [Hb1%bool_decide_eq_true Hb2%Z.ltb_lt].
    by assert (m' = m) as -> by congruence.
  - rewrite decide_True; [done|]. apply Hall; [done|]. exists m. split; [done|]. intros [H1' H2'].
    rewrite bool_decide_true in Hb by done. simpl in Hb. lia.
Qed.

(** C28: deleting a capsule for the first time, whether or not the deletion fails half way,
    leaves every other capsule that could be read and was not itself left half deleted
    readable with the same bytes, failures of the backend aside; when it succeeds the
    capsule is gone.  Deleting a half-deleted capsule again is excluded: it can take a
    segment another capsule lists ([retried_deletion_destroys_another]). *)
Theorem modular_delete_keeps_others D broken p k r p' :
  mod_ok D broken p → k ∉ broken → delete_capsule k p = (r, p') →
  (is_ok r = true → capsules (C p') !! k = None) ∧
  ∀ j data, j ≠ k → j ∉ broken → (read_capsule j p).1 = Ok data →
    match read_capsule j p' with
    | (Ok out, _) => out = data
    | (Err _, _) => fallible
    | (Panic, _) => False
    end.
Proof.
  intros (G & Hi & Hcov) Hk Hd.
  assert (∃ G', mod_inv D [] G' (V p') (C p') ∧ (∀ j, j ≠ k → G' !! j = G !! j) ∧
    (is_ok r = true → capsules (C p') !! k = None)) as (G' & Hi' & HG' & Hgone).
  { destruct (capsules (C p) !! k) as [cap|] eqn:Hcap.
    - destruct (Hcov k) as [[l Hl]|]; [by rewrite Hcap|..|done]. exists (delete k G).
      pose proof (awp_run _ _ _ _ _ _ (mod_delete_capsule_spec D G k l p Hi Hl) Hd) as Hs.
      destruct r; [..|done]; destruct Hs as [? Hc]; split_and!; try done;
        try (intros; by rewrite lookup_delete_ne). intros _. by rewrite Hc, lookup_delete_eq.
    - exists G. pose proof (awp_run _ _ _ _ _ _ (delete_missing k p Hcap) Hd) as Hs.
      destruct r; [..|done]; destruct Hs as [-> ->]; done. }
  split; [done|]. intros j data Hj Hnb Hr.
  destruct (capsules (C p) !! j) as [cap|] eqn:Hcap.
  - destruct (Hcov j) as [[l Hl]|]; [by rewrite Hcap|..|done].
    pose proof (read_live D G j l p Hi Hl) as Hold. destruct (read_capsule j p) as [r0 p0].
    simpl in Hr. subst r0 data. apply (read_live D G' j l p' Hi'). by rewrite HG'.
  - unfold read_capsule, on_catalog, zoom, bind in Hr. cbn in Hr. fold (C p) in Hr.
    by rewrite Hcap in Hr.
Qed.
End clients.

(** ** The NVRAM backend *)
Section nvram_pipeline.
Context {J : JsonDoc Nvram.SegmentMap} {X R Dd : Type} `{Crates} `{!HashOrder} `{!Compressor}
  `{!Deduper Dd} `{!Encryptor X} `{!Keyring X} `{!PolicyEvaluator} `{!CapsuleCatalog R}.
Import Nvram Storage.
#[local] Abbreviation P := (Pipeline NvramLog X R Dd).
Implicit Types p : P.

Lemma write_one_Ok m data (l l' : NvramLog) :
  write_pending [mkPendingSegment m data] l = (Ok tt, l') →
  nv_file l' = write_at (nv_file l) (seg_offset m) data ∧ segment_map l' = segment_map l.
Proof.
  unfold write_pending, foldM, nv_io, nv_write_all. cbv [bind ret].
  destruct (next_fault (nv_faults l)) as [[?|] f1]; [done|]. simpl.
  destruct (next_fault f1) as [[?|] f2]; [done|]. simpl.
  destruct (next_fault f2) as [[?|] f3]; [done|]. intros ?; by simplify_eq.
Qed.

Lemma save_Ok (l l' : NvramLog) :
  save_segment_map l = (Ok tt, l') → nv_file l' = nv_file l ∧ segment_map l' = segment_map l.
Proof.
  unfold save_segment_map. destruct (next_fault (nv_faults l)) as [[?|] f1]; intros; by simplify_eq.
Qed.

(** A transaction that appends one segment and then replaces its record writes the
    data where the record says. *)
Lemma nvram_txn_effect id data m (l : NvramLog) ts1 ts2 ts3 :
  seg_id m = id →
  NvramStorage.txn_append id data (NvramStorage.mkTransaction (begin_transaction l) [], l) = (Ok tt, ts1) →
  NvramStorage.txn_set_segment_metadata id m ts1 = (Ok tt, ts2) →
  NvramStorage.txn_commit ts2 = (Ok tt, ts3) →
  nv_file ts3.2 = write_at (nv_file l) (seg_offset m) data ∧
  segment_map ts3.2 = <[id := m]> (segment_map l) ∧
  NvramStorage.drop ts3.1 ts3.2 = ts3.2.
Proof.
  intros Hid Ha Hm Hc.
  unfold NvramStorage.txn_append, NvramStorage.on_inner, append_segment, ensure_active in Ha.
  cbn in Ha. unfold ret in Ha. injection Ha as <-.
  unfold NvramStorage.txn_set_segment_metadata, NvramStorage.on_inner, set_segment_metadata, zoom,
    ensure_active, bind, gets in Hm.
  cbn -[decide] in Hm. rewrite decide_True in Hm by done. cbn in Hm. injection Hm as <-.
  unfold NvramStorage.txn_commit in Hc. apply bind_Ok in Hc as ([] & s1 & Hc & Hd).
  apply zoom_Ok in Hc as (s2 & Hc & ->). cbn in Hc. unfold commit, bind, gets in Hc.
  cbn -[write_pending save_segment_map] in Hc. unfold on_log, zoom, attempt in Hc.
  cbn -[write_pending save_segment_map] in Hc.
  destruct (write_pending _ _) as [[[]|e| ] l1] eqn:Hw; [|done..]. apply write_one_Ok in Hw as [Hf Hs].
  cbn -[save_segment_map] in Hc.
  destruct (save_segment_map _) as [[[]|e| ] l2] eqn:Hsv; [|done..]. apply save_Ok in Hsv as [Hf2 Hs2].
  cbn in Hc. unfold on_txn, modify in Hc. injection Hc as <-. cbn in Hd. unfold ret in Hd.
  injection Hd as <-. simpl in *. by rewrite Hf2, Hs2, Hf, Hs, Hid.
Qed.

Lemma seal_payload_storage k ep id view p payload es p' :
  seal_payload k ep id view p = (Ok (payload, es), p') → pl_storage p' = pl_storage p.
Proof.
  unfold seal_payload. destruct (Common.is_enabled ep).
  - intros (b & p1 & Hk & He)%bind_Ok. cbn in Hk. injection Hk as Hb <-.
    apply bind_Ok in He as ([] & p2 & Hk & (x & _ & ->)%zoom_Ok).
    destruct b; [|unfold ret in Hk; by simplify_eq].
    by apply bind_Ok in Hk as (key & p3 & (x3 & _ & ->)%zoom_Ok & [= <-]).
  - by intros [= <- <- <-].
Qed.

(** What a new segment does to the log: the bytes stored are what sealing the chunk gives
    with the keys of the pipeline. *)
#[local] Abbreviation sealed_to k ep id view payload es p := (∃ q q' : P,
  pl_keys q = pl_keys p ∧ seal_payload k ep id view q = (Ok (payload, es), q')).

Lemma nvram_write_new k ep view summary h p id p' :
  write_new k ep view summary h p = (Ok id, p') →
  ∃ payload es, sealed_to k ep id view payload es p ∧
    nv_file (pl_storage p') = write_at (nv_file (pl_storage p)) 0 payload ∧
    segment_map (pl_storage p') =
      <[id := segment_record id payload summary h es (Common.is_enabled ep)]>
        (segment_map (pl_storage p)).
Proof.
  intros Hw. apply bind_Ok in Hw as (id' & p3 & Hw & Hr).
  apply bind_Ok in Hr as ([] & p4 & (c4 & _ & ->)%zoom_Ok & Hr).
  apply bind_Ok in Hr as ([] & p5 & (d5 & _ & ->)%zoom_Ok & Hr). cbn in Hr. injection Hr as -> <-.
  apply bind_Ok in Hw as (t & p1 & (l1 & Ht & ->)%zoom_Ok & Hw).
  cbn in Ht. injection Ht as <- <-.
  destruct (bind _ _ _) as [r [t2 p2]] eqn:Hb in Hw. injection Hw as -> <-.
  apply bind_Ok in Hb as (sid & tp1 & (q1 & (c1 & _ & ->)%zoom_Ok & ->)%zoom_Ok & Hb).
  apply bind_Ok in Hb as ([payload es] & tp2 & (q2 & Hseal & ->)%zoom_Ok & Hb).
  pose proof (seal_payload_storage _ _ _ _ _ _ _ _ Hseal) as Hst.
  apply bind_Ok in Hb as ([] & tp3 & (s3 & Ha & ->)%zoom_Ok & Hb).
  apply bind_Ok in Hb as ([] & tp4 & (s4 & Hm & ->)%zoom_Ok & Hb).
  apply bind_Ok in Hb as ([] & tp5 & (s5 & Hc & ->)%zoom_Ok & Hb).
  cbn in Hb. injection Hb as -> <- <-. simpl in *. rewrite Hst in Ha.
  exists payload, es. split; [eexists _, _; split; [|exact Hseal]; done|].
  destruct s3 as [t3 l3], s4 as [t4 l4]. simpl in *.
  by destruct (nvram_txn_effect id payload
    (segment_record id payload summary h es (Common.is_enabled ep)) (pl_storage p)
    (t3, l3) (t4, l4) s5 eq_refl Ha Hm Hc) as (? & ? & ->).
Qed.

Lemma set_storage_same p : set_storage (pl_storage p) p = p.
Proof. by destruct p. Qed.

(** The record of a segment the transaction did not append cannot be set. *)
Lemma nvram_set_metadata_fails id m p :
  with_txn (in_txn (tx_set_segment_metadata id m) ;;; in_txn tx_commit) p =
    (Err (MsgSegment "pending segment not found" id), p).
Proof.
  unfold with_txn, on_storage, zoom, bind. cbn.
  by destruct p as [d [] x b st c].
Qed.

Lemma nvram_metadata_Ok id m p :
  segment_map (pl_storage p) !! id = Some m → on_storage (sb_metadata id) p = (Ok m, p).
Proof.
  intros Hm. unfold on_storage, zoom. cbn. rewrite Hm. cbn. by rewrite set_storage_same.
Qed.

(** Two writes at the start of a file: the second hides the first as far as it goes. *)
Lemma write_front f d : write_at f 0 d = d ++ dropZ (lenZ d) f.
Proof.
  destruct (decide (d = [])) as [->|Hd]; [by rewrite dropZ_le0|].
  rewrite write_at_nonempty, takeZ_le0, Z.add_0_l by done. pose proof (lenZ_nonneg f).
  by replace (Z.to_nat (0 - lenZ f)) with 0%nat by lia.
Qed.

Lemma read_overwritten f a b :
  read_at (write_at (write_at f 0 a) 0 b) 0 (lenZ a) = Some (takeZ (lenZ a) (b ++ dropZ (lenZ b) a)).
Proof.
  pose proof (lenZ_nonneg a). pose proof (lenZ_nonneg b). pose proof (write_at_length_ge f 0 a).
  pose proof (write_at_length_ge (write_at f 0 a) 0 b).
  assert (lenZ a ≤ lenZ (write_at f 0 a)) by (rewrite write_front, lenZ_app; pose proof (lenZ_nonneg (dropZ (lenZ a) f)); lia).
  rewrite read_at_Some by lia. rewrite !write_front. f_equal.
  rewrite (dropZ_le0 0), !takeZ_take, !dropZ_drop by lia. unfold lenZ. rewrite !Nat2Z.id.
  rewrite drop_app, app_assoc, take_app_le; [done|]. rewrite length_app, length_drop. lia.
Qed.

(** Reading a segment of an NVRAM pipeline whose record lies at the start of the file. *)
Lemma nvram_read_front id m p n :
  segment_map (pl_storage p) !! id = Some m → seg_offset m = 0 → seg_len m = n →
  nv_faults (pl_storage p) = [] →
  (on_storage (sb_read id) p).1 = ok_or (read_at (nv_file (pl_storage p)) 0 n) (IoFailed "read_exact").
Proof.
  intros Hm Ho <- Hf. unfold on_storage, zoom.
  change (sb_read id (pl_storage p)) with (Nvram.read id (pl_storage p)).
  rewrite (read_ok _ _ m) by done. unfold segment_bytes. by rewrite Hm, Ho.
Qed.

(** C27: over the NVRAM backend every new segment is written at the start of the file and its
    record says so.  Of any two new segments, one after the other, encrypted or not and of
    any lengths, the first reads back what was stored for it until the second is written,
    and from then on the second's bytes as far as they go, followed by the rest of its
    own. *)
Theorem nvram_segments_overlap k1 k2 ep1 ep2 a b s1 s2 h1 h2 i j p p1 p2 :
  write_new k1 ep1 a s1 h1 p = (Ok i, p1) → write_new k2 ep2 b s2 h2 p1 = (Ok j, p2) → i ≠ j →
  ∃ ca cb es1 es2 mi mj, sealed_to k1 ep1 i a ca es1 p ∧ sealed_to k2 ep2 j b cb es2 p1 ∧
    nv_file (pl_storage p1) = write_at (nv_file (pl_storage p)) 0 ca ∧
    nv_file (pl_storage p2) = write_at (nv_file (pl_storage p1)) 0 cb ∧
    segment_map (pl_storage p2) = <[j := mj]> (<[i := mi]> (segment_map (pl_storage p))) ∧
    (seg_offset mi = 0 ∧ seg_len mi = wrap 32 (lenZ ca)) ∧
    (seg_offset mj = 0 ∧ seg_len mj = wrap 32 (lenZ cb)) ∧
    (lenZ ca < 2 ^ 32 → nv_faults (pl_storage p1) = [] →
      (on_storage (sb_read i) p1).1 = Ok ca) ∧
    (lenZ ca < 2 ^ 32 → nv_faults (pl_storage p2) = [] →
      (on_storage (sb_read i) p2).1 = Ok (takeZ (lenZ ca) (cb ++ dropZ (lenZ cb) ca))).
Proof.
  intros Hw1 Hw2 Hij.
  apply nvram_write_new in Hw1 as (ca & es1 & Ha & Hf1 & Hm1).
  apply nvram_write_new in Hw2 as (cb & es2 & Hb & Hf2 & Hm2).
  eexists ca, cb, es1, es2, _, _. split; [done|]. split; [done|]. split; [done|]. split; [done|].
  split; [by rewrite Hm2, Hm1|]. split; [done|]. split; [done|].
  split; intros Hl Hf; pose proof (lenZ_nonneg ca);
    assert (wrap 32 (lenZ ca) = lenZ ca) as Hw by (unfold wrap; apply Z.mod_small; lia).
  - erewrite nvram_read_front; [|by rewrite Hm1, lookup_insert_eq|done|done|done].
    rewrite Hf1, read_write_same by lia. cbn [ok_or].
    by rewrite takeZ_ge by lia.
  - erewrite nvram_read_front; [|by rewrite Hm2, lookup_insert_ne, Hm1, lookup_insert_eq|done|done|done].
    by rewrite Hf2, Hf1, read_overwritten.
Qed.

(** Over the NVRAM backend a segment cannot be shared: taking a second reference to a
    stored segment, as a dedup hit does, and giving back one of several, as a deletion
    does, both fail and change nothing. *)
Theorem nvram_sharing_fails id m p :
  segment_map (pl_storage p) !! id = Some m →
  reference_existing id p = (Err (MsgSegment "pending segment not found" id), p) ∧
  (1 < seg_ref_count m →
   release_one id p = (Err (MsgSegment "pending segment not found" id), p)).
Proof.
  intros Hm. split.
  - unfold reference_existing, bind at 1. rewrite (nvram_metadata_Ok id m) by done.
    apply nvram_set_metadata_fails.
  - intros Hr%Z.ltb_lt. unfold release_one, bind at 1. rewrite (nvram_metadata_Ok id m) by done.
    rewrite Hr. apply nvram_set_metadata_fails.
Qed.
End nvram_pipeline.

(** ** The XTS encryptor *)
Section xts_pipeline.
Context {S T Dd : Type} `{Crates} `{!HashOrder} `{!Compressor} `{!Deduper Dd} `{!DeduperLaws Dd}
  `{!StorageBackend S T} `{!StorageSpec S T}.
#[local] Abbreviation P := (Pipeline S KeyManager.KeyManager InMemoryCatalog.Inner Dd).
Implicit Types p : P.

(** What a new segment holds, failures of the catalog and the deduper aside. *)
Lemma xts_write_new k ep view summary h p :
  awp (write_new k ep view summary h)
    (λ id v _, ∃ ct es, (if Common.is_enabled ep then sealed KeyManager.KeyManager id ct view else ct = view) ∧
       v_meta v !! id = Some (segment_record id ct summary h es (Common.is_enabled ep)) ∧
       v_data v !! id = Some ct) (λ _ _ _, True) p.
Proof.
  apply awp_bind, append_new_spec; [|done..]. cbv zeta. intros ct es Hct p1 Hv1 _.
  set (id := mkSegmentId _) in *.
  apply awp_bind, awp_catalog. unfold wp. cbn. intros p2 Hv2 _.
  apply awp_bind, awp_deduper; [apply register_no_panic| |done].
  intros _ p3 Hv3 _. unfold awp, wp, ret. rewrite Hv3, Hv2, Hv1. exists ct, es. split; [done|].
  simpl. by rewrite !lookup_insert_eq.
Qed.

(** A chunk the XTS encryptor sealed is not opened again: over every lawful backend,
    reading back a new encrypted segment that was not compressed returns what was
    stored: the ciphertext under some key and tweak (or, were it stored in the clear,
    the chunk itself). *)
Theorem xts_reads_ciphertext k ep pol view summary h p id p1 :
  Common.is_enabled ep = true → cs_compressed summary = false →
  write_new k ep view summary h p = (Ok id, p1) →
  match read_one pol [] id p1 with
  | (Ok out, _) => out = view ∨ ∃ kp tweak, Encryption.encrypt view kp tweak = Ok out
  | (Err _, _) => fallible
  | (Panic, _) => False
  end.
Proof.
  intros He Hc Hw. pose proof (wp_run _ _ _ _ _ _ (xts_write_new k ep view summary h p) Hw) as Hs.
  destruct Hs as (ct & es & Hct & Hm & Hd). rewrite He in *. simpl in Hct.
  enough (awp (read_one pol [] id) (λ out _ _, out = ct) (λ _ _ _, fallible) p1) as Hr.
  { destruct (read_one pol [] id p1) as [r p2] eqn:Hrun.
    apply (wp_run _ _ _ _ _ _ Hr) in Hrun. destruct r; [by subst|done..]. }
  apply awp_bind, awp_storage. eapply wp_mono; [apply metadata_law|..]; fold (V p1);
    [|by intros e s [_ [?|?]]; [congruence|]].
  intros m s [Hv Hm'] p2 Hv2 _. rewrite Hv in Hv2. rewrite Hm in Hm'. simplify_eq/=.
  apply awp_bind, awp_storage. eapply wp_mono; [apply read_law|..]; fold (V p2); rewrite Hv2;
    [|by intros e s' [_ [?|?]]; [congruence|]].
  intros raw s' [_ Hraw] p3 _ _. assert (raw = ct) as -> by congruence.
  apply awp_bind, awp_keys. unfold wp. cbn. intros p4 _ _.
  apply awp_bind, awp_lift; rewrite Hc; [done| |done]. by intros x [= <-] p5 _ _.
Qed.
End xts_pipeline.

(** ** Witnesses *)
Section modular_witnesses.
#[local] Existing Instance toy_crates.
#[local] Existing Instance toy_HmacLaws.
#[local] Existing Instance listed_order.
#[local] Instance toy_map_doc : JsonDoc Nvram.SegmentMap := plain_doc Nvram.SegmentMap.
Import Compression Layout Storage.

Definition mem_pipeline : Type :=
  Pipeline InMemory.Inner unit InMemoryCatalog.Inner Dedup.Blake3Deduper.

Definition empty_mem : mem_pipeline :=
  Pipeline_new Dedup.Blake3Deduper_new tt InMemory.new false InMemoryCatalog.new.

Definition id_a : CapsuleId := mkCapsuleId (replicate 16 x0a).
Definition id_b : CapsuleId := mkCapsuleId (replicate 16 x0b).
Definition twenty : bytes := run_of 20 x61.
Definition twice : bytes := twenty ++ twenty.
Definition by_twenty : Policy := with_strategy (Fixed 20).

(** The one chunk the runs store, with its compressed form. *)
Definition only_twenty (d x : bytes) : Prop := d = [x04; x14; x61] ∧ x = twenty.

Lemma only_twenty_decides : hash_decides (Dd := Dedup.Blake3Deduper) only_twenty.
Proof. by intros a x b y [_ ->] [_ ->]. Qed.

Lemma twice_planned k : planned_ok only_twenty k twice by_twenty.
Proof.
  intros r comp view s Hr Hc Hv. simpl in Hc. injection Hc as <-.
  assert (ref_chunk twice r = twenty) as Hx.
  { assert (Forall (λ r, ref_chunk twice r = twenty) (plan_refs k twice by_twenty)) as Hf.
    { vm_compute. repeat constructor. }
    rewrite Forall_forall in Hf. by apply Hf. }
  rewrite Hx in *.
  assert (compress twenty (LZ4 1) = Ok (Owned [x04; x14; x61],
    mkCompressionSummary 20 20 "lz4:1" true false None)) as He by (vm_compute; reflexivity).
  change (compress twenty (LZ4 1) = Ok (view, s)) in Hv. rewrite He in Hv. by simplify_eq.
Qed.

Lemma mem_fits k (p : mem_pipeline) :
  next_segment (C p) + 2 < 2 ^ 64 →
  bool_decide (map_Forall (λ _ m, seg_ref_count m ≤ 1000) (v_meta (V p))) = true →
  write_fits k twice by_twenty (V p) (C p).
Proof.
  intros Hn Hr%bool_decide_eq_true. split; [done|]. split; [done|].
  assert (lenZ (plan_refs k twice by_twenty) = 2) as -> by (vm_compute; reflexivity).
  split; [done|]. intros id. unfold refs_of, U32_MAX.
  destruct (v_meta (V p) !! id) as [m|] eqn:Hm; [|lia]. specialize (Hr id m Hm). simpl in Hr. lia.
Qed.

Lemma empty_mem_ok : mod_ok only_twenty ∅ empty_mem.
Proof.
  exists ∅. split; [|intros k [c Hk]; by simpl in Hk; rewrite lookup_empty in Hk].
  constructor; try done.
Qed.

Definition mem1 := write_capsule id_a (Some 1) twice by_twenty empty_mem.
Definition mem2 := write_capsule id_b (Some 2) twice by_twenty (snd mem1).
Definition mem3 := delete_capsule id_b (snd mem2).
Definition mem4 := garbage_collect (snd mem3).

Lemma mem1_ok : write_capsule id_a (Some 1) twice by_twenty empty_mem = (Ok id_a, snd mem1).
Proof. vm_compute. reflexivity. Qed.

Lemma empty_mem_fits : write_fits id_a twice by_twenty (V empty_mem) (C empty_mem).
Proof. apply mem_fits; by vm_compute. Qed.

Lemma mem_steps :
  rtc (client_step only_twenty id_a) (∅, snd mem1) (∅, snd mem4).
Proof.
  apply rtc_l with (∅, snd mem2); [|apply rtc_l with (∅, snd mem3); [|apply rtc_once]].
  - apply (step_write only_twenty id_a ∅ id_b (Some 2) twice by_twenty (snd mem1) (fst mem2));
      [vm_compute; reflexivity| |apply twice_planned|apply surjective_pairing].
    apply mem_fits; by vm_compute.
  - assert (is_ok (fst mem3) = true) as Hok by (vm_compute; reflexivity).
    pose proof (step_delete only_twenty id_a ∅ id_b (snd mem2) (fst mem3) (snd mem3)) as Hstep.
    rewrite Hok in Hstep.
    apply Hstep; [by intros [=]|apply not_elem_of_empty|apply surjective_pairing].
  - apply (step_gc only_twenty id_a ∅ (snd mem3) (fst mem4)). apply surjective_pairing.
Qed.

Lemma modular_capsule_survives_witness :
  fst mem2 = Ok id_b ∧ fst mem3 = Ok tt ∧ fst mem4 = Ok 0 ∧
  fst (read_capsule id_a (snd mem4)) = Ok twice.
Proof.
  split; [vm_compute; reflexivity|]. split; [vm_compute; reflexivity|].
  split; [vm_compute; reflexivity|].
  pose proof (modular_capsule_survives only_twenty ∅ empty_mem id_a (Some 1) twice by_twenty
    (snd mem1) ∅ (snd mem4) only_twenty_decides empty_mem_ok eq_refl
    empty_mem_fits (twice_planned _) mem1_ok mem_steps) as Hx.
  destruct (read_capsule id_a (snd mem4)) as [[out|e| ] p]; [|destruct Hx..].
  simpl. by rewrite Hx.
Defined.

(** A write whose clock fails at the end: its segment is an orphan. *)
Definition orphaned := write_capsule id_b None twice by_twenty empty_mem.

Lemma orphaned_ok : mod_ok only_twenty ∅ (snd orphaned).
Proof.
  eapply (write_keeps_ok only_twenty ∅ id_b None twice by_twenty empty_mem (fst orphaned));
    [apply only_twenty_decides|apply empty_mem_ok|reflexivity| |apply twice_planned|
     apply surjective_pairing].
  apply mem_fits; by vm_compute.
Qed.

Lemma modular_collect_exact_witness :
  is_Some (v_meta (V (snd orphaned)) !! mkSegmentId 0) ∧
  match garbage_collect (snd orphaned) with
  | (Ok _, p') => mod_ok only_twenty ∅ p'
  | _ => False
  end.
Proof.
  split; [vm_compute; by eexists|].
  pose proof (modular_collect_exact only_twenty ∅ (snd orphaned) (λ f, f) orphaned_ok) as Hx.
  destruct (garbage_collect (snd orphaned)) as [[n|e| ] p]; [|destruct Hx..]. apply Hx.
Defined.

Lemma mem2_ok : mod_ok only_twenty ∅ (snd mem2).
Proof.
  eapply (write_keeps_ok only_twenty ∅ id_b (Some 2) twice by_twenty (snd mem1) (fst mem2));
    [apply only_twenty_decides| |vm_compute; reflexivity| |apply twice_planned|
     apply surjective_pairing].
  - eapply (write_keeps_ok only_twenty ∅ id_a (Some 1) twice by_twenty empty_mem);
      [apply only_twenty_decides|apply empty_mem_ok|reflexivity|apply empty_mem_fits|
       apply twice_planned|apply mem1_ok].
  - apply mem_fits; by vm_compute.
Qed.

Lemma modular_delete_keeps_others_witness :
  capsules (C (snd mem3)) !! id_b = None ∧ fst (read_capsule id_a (snd mem3)) = Ok twice.
Proof.
  destruct (modular_delete_keeps_others only_twenty ∅ (snd mem2) id_b (fst mem3) (snd mem3) mem2_ok
    (not_elem_of_empty _) (surjective_pairing _)) as [Hg Hr].
  split; [apply Hg; vm_compute; reflexivity|].
  assert (fst (read_capsule id_a (snd mem2)) = Ok twice) as Hold by (vm_compute; reflexivity).
  assert (id_a ≠ id_b) as Hne by by intros [=].
  pose proof (Hr id_a twice Hne (not_elem_of_empty _) Hold) as Hx.
  destruct (read_capsule id_a (snd mem3)) as [[out|e| ] p]; [|destruct Hx..]. simpl. by rewrite Hx.
Defined.

(** *** Trying a failed deletion again
    An in-memory backend whose commits fail by a schedule, without effect. *)
Definition Flaky : Type := InMemory.Inner * faults.

#[local] Abbreviation on_inner := (zoom (fst : Flaky → InMemory.Inner) (λ s f, (s, snd f))).
#[local] Abbreviation on_staged :=
  (zoom (λ ts : InMemory.Transaction * Flaky, (fst ts, fst (snd ts)))
        (λ s ts, (fst s, (snd s, snd (snd ts))))).

Definition flaky_commit : M (InMemory.Transaction * Flaky) Error unit := λ ts,
  let '(f, fs) := next_fault (snd (snd ts)) in
  let ts := (fst ts, (fst (snd ts), fs)) in
  match f with
  | None => on_staged InMemory.txn_commit ts
  | Some _ => (Err (IoFailed "commit"), ts)
  end.

#[local] Instance flaky_backend : StorageBackend Flaky InMemory.Transaction :=
  {| sb_append := λ id d, on_inner (InMemory.append id d); sb_read := λ id, on_inner (InMemory.read id);
     sb_metadata := λ id, on_inner (InMemory.metadata id); sb_delete := λ id, on_inner (InMemory.delete id);
     sb_segment_ids := on_inner InMemory.segment_ids; sb_begin_txn := on_inner InMemory.begin_txn;
     tx_append := λ id d, on_staged (InMemory.txn_append id d);
     tx_set_segment_metadata := λ id m, on_staged (InMemory.txn_set_segment_metadata id m);
     tx_delete := λ id, on_staged (InMemory.txn_delete id); tx_commit := flaky_commit;
     tx_rollback := on_staged InMemory.txn_rollback; tx_drop := λ _ s, s |}.

Definition flaky_pipeline : Type := Pipeline Flaky unit InMemoryCatalog.Inner Dedup.Blake3Deduper.

(** The fifth commit fails. *)
Definition empty_flaky : flaky_pipeline :=
  Pipeline_new Dedup.Blake3Deduper_new tt (InMemory.new, [None; None; None; None; Some 0]) false
    InMemoryCatalog.new.

(** A capsule of one chunk and one that has it twice; deleting the second fails at its second
    segment, and is tried again. *)
Definition before_retry : flaky_pipeline :=
  let p := snd (write_capsule id_a (Some 1) twenty by_twenty empty_flaky) in
  snd (write_capsule id_b (Some 2) twice by_twenty p).
Definition half_deleted := delete_capsule id_b before_retry.
Definition retried := delete_capsule id_b (snd half_deleted).

(** The first attempt gave one reference back; the second gives it back again, so the segment
    is removed although the other capsule, which nobody deleted, still lists it. *)
Example retried_deletion_destroys_another :
  fst (read_capsule id_a before_retry) = Ok twenty ∧
  fst half_deleted = Err (IoFailed "commit") ∧
  fst (read_capsule id_a (snd half_deleted)) = Ok twenty ∧
  fst retried = Ok tt ∧ is_ok (fst (read_capsule id_a (snd retried))) = false.
Proof. vm_compute. auto. Qed.

(** Two new segments in an NVRAM pipeline. *)
Definition nvram_pipeline : Type :=
  Pipeline (@Nvram.NvramLog toy_map_doc) unit InMemoryCatalog.Inner Dedup.Blake3Deduper.

Definition empty_nvram : nvram_pipeline :=
  Pipeline_new Dedup.Blake3Deduper_new tt (Nvram.mkNvramLog [] ∅ 0 None []) false
    InMemoryCatalog.new.

Definition plain_summary (n : Z) : CompressionSummary :=
  mkCompressionSummary n n "identity" false true None.

#[local] Abbreviation put b p :=
  (write_new id_a Disabled b (plain_summary (lenZ b)) (Dedup.hash_content b) p).

Definition nv1 : Res Error SegmentId * nvram_pipeline := put [x01; x02; x06; x07] empty_nvram.
Definition nv2 : Res Error SegmentId * nvram_pipeline := put [x03; x04; x05] (snd nv1).

Lemma nv1_ok : put [x01; x02; x06; x07] empty_nvram = (Ok (mkSegmentId 0), snd nv1).
Proof. vm_compute. reflexivity. Qed.

Lemma nv2_ok : put [x03; x04; x05] (snd nv1) = (Ok (mkSegmentId 1), snd nv2).
Proof. vm_compute. reflexivity. Qed.

Lemma nv2_quiet : Nvram.nv_faults (pl_storage (snd nv2)) = [].
Proof. vm_compute. reflexivity. Qed.

Lemma nvram_segments_overlap_witness :
  fst (on_storage (sb_read (mkSegmentId 0)) (snd nv1)) = Ok [x01; x02; x06; x07] ∧
  fst (on_storage (sb_read (mkSegmentId 0)) (snd nv2)) = Ok [x03; x04; x05; x07].
Proof.
  assert (mkSegmentId 0 ≠ mkSegmentId 1) as Hne by by intros [=].
  pose proof (nvram_segments_overlap id_a id_a Disabled Disabled [x01; x02; x06; x07] [x03; x04; x05]
    _ _ _ _ (mkSegmentId 0) (mkSegmentId 1) empty_nvram (snd nv1) (snd nv2) nv1_ok nv2_ok Hne) as Hx.
  destruct Hx as (ca & cb & es1 & es2 & mi & mj & (q1 & q1' & _ & [= <- _ _]) & (q2 & q2' & _ & [= <- _ _]) &
    _ & _ & _ & _ & _ & H1 & H2).
  split; [apply H1; vm_compute; reflexivity|].
  rewrite H2; [vm_compute; reflexivity|reflexivity|exact nv2_quiet].
Defined.

Lemma nvram_sharing_fails_witness :
  fst (reference_existing (mkSegmentId 0) (snd nv1)) =
    Err (MsgSegment "pending segment not found" (mkSegmentId 0)).
Proof.
  assert (∃ m, Nvram.segment_map (pl_storage (snd nv1)) !! mkSegmentId 0 = Some m) as [m Hm].
  { eexists. vm_compute. reflexivity. }
  destruct (nvram_sharing_fails (mkSegmentId 0) m (snd nv1) Hm) as [He _]. by rewrite He.
Defined.

(** An encrypted segment of an in-memory pipeline. *)
Definition xts_mem : Pipeline InMemory.Inner KeyManager.KeyManager InMemoryCatalog.Inner
    Dedup.Blake3Deduper :=
  Pipeline_new Dedup.Blake3Deduper_new (KeyManager.KeyManager_new (replicate 32 x11)) InMemory.new
    true InMemoryCatalog.new.

Definition xts1 :=
  write_new id_a (XtsAes256 None) twenty (plain_summary 20) (Dedup.hash_content twenty) xts_mem.

Lemma xts_reads_ciphertext_witness :
  fst (read_one (XtsAes256 None) [] (mkSegmentId 0) (snd xts1)) ≠ Ok twenty ∧
  match read_one (XtsAes256 None) [] (mkSegmentId 0) (snd xts1) with
  | (Ok out, _) => out = twenty ∨ ∃ kp tweak, Encryption.encrypt twenty kp tweak = Ok out
  | _ => False
  end.
Proof.
  split; [vm_compute; discriminate|].
  assert (xts1 = (Ok (mkSegmentId 0), snd xts1)) as Hw by (vm_compute; reflexivity).
  pose proof (xts_reads_ciphertext id_a (XtsAes256 None) (XtsAes256 None) twenty (plain_summary 20)
    (Dedup.hash_content twenty) xts_mem (mkSegmentId 0) (snd xts1) eq_refl eq_refl Hw) as Hx.
  destruct (read_one _ [] (mkSegmentId 0) (snd xts1)) as [[out|e| ] p]; [exact Hx|destruct Hx..].
Defined.
End modular_witnesses.
