(* ===== verification/ModularBuild.v ===== *)
(** The modular_pipeline feature: the write pipeline whose calls go to a registry pipeline
    (capsule-registry/src/pipeline.rs and the module modular_pipeline of lib.rs), and the
    commands of spacectl that run one (spacectl/src/main.rs, the flag --modular).

    The handle is built over clones of the registry and the log, which share their state: the
    store is one, lent to the handle for the time of a call ([lend]).  The build is the one without pipeline_async.  A tokio runtime is
    a boolean, whether it could be created. *)
From S2P Require Import Prelude Errors Common Externals Traits CapsuleService ModularPipeline SpaceCtl.
From S2P Require Nvram Compression KeyManager Encryption Dedup Registry Gc Storage WritePipeline PipelineTheorems.
From S2P Require PipelineInvariant BlockView NfsView.
Import Nvram KeyManager Registry Gc WritePipeline.

Section modular_build.
Context {JR : JsonDoc RegistryState} {JN : JsonDoc SegmentMap} `{Crates} `{HashOrder}.

(** [NvramBackend::open(path)?] *)
Definition registry_pipeline_from_env (file : bytes) (metadata : option (doc SegmentMap)) (fs : faults)
    (env : option string) (registry : CapsuleRegistry) : Res Error RegistryPipelineHandle :=
  let? backend := nv_open file metadata fs in
  Ok (registry_pipeline_from_backend env backend registry).

(** [NvramBackend::from_log(log)] *)
Definition registry_pipeline_from_log (log : NvramLog) (env : option string) (registry : CapsuleRegistry) :
    RegistryPipelineHandle :=
  registry_pipeline_from_backend env log registry.

Definition registry_nvram_pipeline_with_encryption (file : bytes) (metadata : option (doc SegmentMap)) (fs : faults)
    (registry : CapsuleRegistry) (key_manager : KeyManager) : 
    Res Error (Pipeline NvramLog KeyManager CapsuleRegistry Dedup.Blake3Deduper) :=
  let? storage := nv_open file metadata fs in
  Ok (build_encrypted_pipeline storage registry key_manager).

(** *** The write pipeline of this build *)
Record ModularBuild := mkModularBuild {
  mb_store : Store;
  mb_keys : option KeyManager;
  mb_modular : option RegistryPipelineHandle;
}.

Definition lend (s : Store) (h : RegistryPipelineHandle) : RegistryPipelineHandle :=
  match h with
  | Encrypted p =>
      Encrypted (mkPipeline (pl_deduper p) (nvram s) (pl_keys p) (pl_keyring p) (pl_stats p) (registry s))
  | Plain p => Plain (mkPipeline (pl_deduper p) (nvram s) (pl_keys p) (pl_keyring p) (pl_stats p) (registry s))
  end.

Definition store_of (h : RegistryPipelineHandle) : Store :=
  match h with
  | Encrypted p => mkStore (pl_catalog p) (pl_storage p)
  | Plain p => mkStore (pl_catalog p) (pl_storage p)
  end.

Definition on_legacy {A : Type} (m : M WritePipeline Error A) : M ModularBuild Error A := λ b,
  let '(r, p) := m (mkWritePipeline (mb_store b) (mb_keys b)) in
  (r, mkModularBuild (store p) (key_manager p) (mb_modular b)).

(** [if let (Some(modular), Some(runtime)) = (&self.modular, &self.runtime) { return .. }] *)
Definition delegate {A : Type} (modular : M RegistryPipelineHandle Error A) (legacy : M WritePipeline Error A) :
    M ModularBuild Error A := λ b,
  match mb_modular b with
  | Some h =>
      let '(r, h) := modular (lend (mb_store b) h) in
      (r, mkModularBuild (store_of h) (mb_keys b) (Some h))
  | None => on_legacy legacy b
  end.

Definition mb_write_with_policy (id : CapsuleId) (now : option Z) (data : bytes) (policy : Policy) :
    M ModularBuild Error CapsuleId :=
  delegate (handle_write_capsule id now data policy) (write_capsule_with_policy id now data policy).
Definition mb_write (id : CapsuleId) (now : option Z) (data : bytes) : M ModularBuild Error CapsuleId :=
  mb_write_with_policy id now data Policy_default.
Definition mb_read (id : CapsuleId) : M ModularBuild Error bytes :=
  delegate (handle_read_capsule id) (read_capsule id).
Definition mb_delete (id : CapsuleId) : M ModularBuild Error unit :=
  delegate (handle_delete_capsule id) (WritePipeline.delete_capsule id).
Definition mb_collect : M ModularBuild Error Z := delegate handle_garbage_collect garbage_collect.

(** The bounds come from the registry, the bytes from whichever reads. *)
Definition mb_read_range (id : CapsuleId) (offset len : Z) : M ModularBuild Error bytes :=
  let! capsule := on_legacy (reg (lookup id)) in
  if cap_size capsule <? u64_add offset len then fail (Msg "Read beyond capsule boundary")
  else
    let! full_data := mb_read id in
    lift (slice offset (u64_add offset len) full_data).

(** [new]: [disabled] says that SPACE_DISABLE_MODULAR_PIPELINE is set. *)
Definition ModularBuild_new (disabled runtime : bool) (env : option string) (r : CapsuleRegistry) (l : NvramLog)
    (km : option KeyManager) : Res Error unit * ModularBuild :=
  let handle := if negb disabled && runtime then Some (registry_pipeline_from_log l env r) else None in
  (attempt (on_legacy reconcile_refcounts) ;;; ret tt) (mkModularBuild (mkStore r l) km handle).

#[export] Instance modular_service : CapsuleService ModularBuild :=
  {| svc_write := mb_write; svc_read := mb_read; svc_range := mb_read_range; svc_delete := mb_delete |}.

(** *** spacectl create --modular, spacectl read --modular *)
Context {JD : JsonDoc NfsView.Nodes} {JV : JsonDoc BlockView.Volumes}.

(** [build_modular_pipeline_handle] and a call on the handle; the registry opens or panics, the
    runtime may fail to start. *)
Definition with_handle {A : Type} (runtime : bool) (env : Env) (master : option string) (m : M RegistryPipelineHandle Error A) :
    M Disk Error A := λ d,
  match reg_open (d_registry d) (e_registry env) with
  | Ok r =>
      match registry_pipeline_from_env (d_log d) (d_map d) (e_nvram env) master r with
      | Ok h =>
          if negb runtime then (Err (IoFailed "Runtime::new"), d) else
          let '(res, h) := m h in
          (res, files_of (mkWritePipeline (store_of h) None) d)
      | Err e => (Err e, d)
      | Panic => (Panic, d)
      end
  | _ => (Panic, d)
  end.

Definition modular_write_capsule (runtime : bool) (env : Env) (master : option string) (data : bytes) : M Disk Error CapsuleId :=
  with_handle runtime env master (handle_write_capsule (e_id env) (e_now env) data Policy_default).
Definition modular_read_capsule (runtime : bool) (env : Env) (master : option string) (id : CapsuleId) : M Disk Error bytes :=
  with_handle runtime env master (handle_read_capsule id).
End modular_build.

(** Without a handle the build does what the default one does. *)
Lemma no_handle_is_default `{JsonDoc RegistryState} `{JsonDoc SegmentMap} `{Crates} `{HashOrder} b :
  mb_modular b = None →
  (∀ id now data policy, mb_write_with_policy id now data policy b = on_legacy (write_capsule_with_policy id now data policy) b) ∧
  (∀ id, mb_read id b = on_legacy (read_capsule id) b) ∧
  (∀ id, mb_delete id b = on_legacy (WritePipeline.delete_capsule id) b) ∧
  mb_collect b = on_legacy garbage_collect b.
Proof. intros Hb. unfold mb_write_with_policy, mb_read, mb_delete, mb_collect, delegate. by rewrite Hb. Qed.

(** ** What the build does to its users, on the toy crates *)
Section modular_build_examples.
#[local] Existing Instance toy_state_doc.
#[local] Existing Instance toy_crates.
#[local] Existing Instance listed_order.
#[local] Instance modular_map_doc : JsonDoc SegmentMap := plain_doc SegmentMap.
#[local] Instance modular_nodes_doc : JsonDoc NfsView.Nodes := plain_doc NfsView.Nodes.
#[local] Instance modular_volumes_doc : JsonDoc BlockView.Volumes := plain_doc BlockView.Volumes.

Definition first_bytes : bytes := [x01; x02].
Definition second_bytes : bytes := [x03; x04; x05].
Definition first_id : CapsuleId := mkCapsuleId (replicate 16 x0a).
Definition second_id : CapsuleId := mkCapsuleId (replicate 16 x0b).
Definition modular_env (id : CapsuleId) : Env := mkEnv [] [] [] None id (Some 1) (Some 1).
Definition bare_disk : Disk := mkDisk None [] None None None.

(** Two processes of spacectl create --modular: the first capsule now reads as a piece of the
    second. *)
Definition create_first := modular_write_capsule true (modular_env first_id) None first_bytes bare_disk.
Definition create_second := modular_write_capsule true (modular_env second_id) None second_bytes (snd create_first).

Example modular_creates_overwrite :
  fst create_first = Ok first_id ∧ fst create_second = Ok second_id ∧
  fst (modular_read_capsule true (modular_env first_id) None first_id (snd create_first)) = Ok first_bytes ∧
  fst (modular_read_capsule true (modular_env first_id) None first_id (snd create_second)) = Ok [x03; x04].
Proof. split_and!; vm_compute; reflexivity. Qed.

(** The same under the views: a file is overwritten by another one. *)
Definition modular_nfs : NfsView.NfsView (P := ModularBuild) :=
  NfsView.mkNfsView
    (snd (ModularBuild_new false true None (mkCapsuleRegistry ∅ 0 ∅ None []) (mkNvramLog [] ∅ 0 None []) None))
    (NfsView.ensure_root_node 0 ∅) None [].
Definition nfs_first := NfsView.write_file first_id (Some 1) (Some 1) "/a" first_bytes modular_nfs.
Definition nfs_second := NfsView.write_file second_id (Some 1) (Some 1) "/b" second_bytes (snd nfs_first).

Example modular_files_overwrite :
  fst nfs_first = Ok first_id ∧ fst nfs_second = Ok second_id ∧
  fst (NfsView.read_file "/a" (snd nfs_first)) = Ok first_bytes ∧
  fst (NfsView.read_file "/a" (snd nfs_second)) = Ok [x03; x04].
Proof. split_and!; vm_compute; reflexivity. Qed.
End modular_build_examples.
