(* ===== verification/Values.v ===== *)
(** The values that toml and serde_json parse a text into, as far as the program looks at them,
    and integers parsed within a width. *)
From S2P Require Import Prelude.
#[local] Open Scope Z_scope.
#[local] Set Warnings "-register-all".

Inductive Toml :=
| TomlString (s : string)
| TomlArray (l : list Toml)
| TomlTable (t : list (string * Toml))
| TomlOther.

Fixpoint field {A : Type} (k : string) (l : list (string * A)) : option A :=
  match l with
  | [] => None
  | (k', x) :: l => if String.eqb k' k then Some x else field k l
  end.

(** [value.get(k)], [as_table], [as_array], [as_str] *)
Definition toml_get (k : string) (v : Toml) : option Toml :=
  match v with TomlTable t => field k t | _ => None end.
Definition toml_path (ks : list string) (v : Toml) : option Toml := foldl (λ o k, o ≫= toml_get k) (Some v) ks.
Definition toml_table (v : Toml) : option (list (string * Toml)) := match v with TomlTable t => Some t | _ => None end.
Definition toml_array (v : Toml) : option (list Toml) := match v with TomlArray l => Some l | _ => None end.
Definition toml_str (v : Toml) : option string := match v with TomlString s => Some s | _ => None end.

Inductive Json :=
| JsonBool (b : bool)
| JsonU64 (n : Z)
| JsonString (s : string)
| JsonArray (l : list Json)
| JsonObject (o : list (string * Json))
| JsonOther.

Definition json_get (k : string) (v : Json) : option Json :=
  match v with JsonObject o => field k o | _ => None end.

(** [str::parse::<u32>] and [str::parse::<u16>]: [parse_u64] within the width. *)
Definition U16_MAX : Z := 2 ^ 16 - 1.
Definition parse_width (max : Z) (s : string) : option Z :=
  match parse_u64 s with
  | Some v => if v <=? max then Some v else None
  | None => None
  end.

Lemma parse_width_range max s v : parse_width max s = Some v → 0 ≤ v ≤ max.
Proof.
  unfold parse_width. destruct (parse_u64 s) as [v'|] eqn:E; [|done].
  destruct (Z.leb_spec v' max); [|done]. intros [= <-]. split; [|done].
  unfold parse_u64 in E. cbv zeta in E.
  set (digits := match string_bytes s with x2b :: d => d | d => d end) in E.
  destruct (orb _ _) eqn:Eg in E; [done|].
  apply orb_false_iff in Eg as [_ Hd]. apply negb_false_iff in Hd.
  destruct (_ <=? U64_MAX); [|done]. injection E as <-.
  enough (∀ n, 0 ≤ n → forallb (in_range 48 57) digits = true →
    0 ≤ foldl (λ n b, n * 10 + (Z_of_byte b - 48)) n digits) as H0 by (by apply H0).
  clear. clearbody digits. induction digits as [|x l IH]; intros n Hn; simpl; [done|].
  intros [Hx Hl]%andb_true_iff. apply IH; [|done]. unfold in_range in Hx. lia.
Qed.
