(* ===== verification/Xtask.v ===== *)
(** The build tasks (xtask/src/main.rs): the audit that gates a change, the drift report and
    the dependency graph.

    Commands run as child processes: [exec] gives for the arguments of cargo whether it could
    be started, its success and its output, and the [World] remembers what was run.  What
    cargo_metadata, toml and serde_json parse are values here; semver is a parameter. *)
From S2P Require Import Prelude Errors Values.
From Stdlib Require Import Ascii.
From stdpp Require Import gmap sets.
#[local] Open Scope Z_scope.
#[local] Set Warnings "-clear-no-such-hyp".

(** cargo_metadata *)
Record Package := mkPackage { pkg_id : string; pkg_name : string; pkg_version : string }.
Record PackageNode := mkPackageNode { pn_id : string; pn_features : list string }.
Record Metadata := mkMetadata {
  md_packages : list Package;
  md_workspace_members : list string;
  md_resolve : option (list PackageNode);
}.

Class Semver := {
  Version : Type;
  VersionReq : Type;
  parse_version : string → option Version;
  parse_req : string → option VersionReq;
  req_matches : VersionReq → Version → bool;
}.

Definition TRANSITIVE_LIMIT : Z := 50.

(** ** The allowlist of features *)
Definition feature_list (items : list Toml) : Res Error (gset string) :=
  fold_res (λ set item,
    let? feature := ok_or (toml_str item) (Msg "allowed-features entries must be strings") in
    Ok ({[feature]} ∪ set)) ∅ items.

Definition load_feature_allowlist (manifest : Res Error Toml) : Res Error (gmap string (gset string)) :=
  let? doc := manifest in
  let allow := toml_path ["workspace"; "metadata"; "space"; "allowed-features"] doc ≫= toml_table in
  match allow with
  | None => Ok ∅
  | Some table =>
      fold_res (λ map kv,
        let? list := ok_or (toml_array kv.2) (Msg "allowed-features must be an array") in
        let? set := feature_list list in
        Ok (<[kv.1 := set]> map)) ∅ table
  end.

Definition unexpected_features (allowed : gset string) (features : list string) : list string :=
  List.filter (λ feature,
    if String.eqb feature "default" || String.prefix "dep:" feature then false
    else negb (bool_decide (feature ∈ allowed))) features.

Definition packages_by_id (metadata : Metadata) : gmap string Package :=
  foldl (λ m p, <[pkg_id p := p]> m) ∅ (md_packages metadata).

Definition violations (allowlist : gmap string (gset string)) (packages : gmap string Package) (nodes : list PackageNode) :
    list (string * list string) :=
  nodes ≫= λ n,
    match packages !! pn_id n with
    | Some pkg =>
        match allowlist !! pkg_name pkg with
        | Some allowed =>
            match unexpected_features allowed (pn_features n) with
            | [] => []
            | unexpected => [(pkg_name pkg, unexpected)]
            end
        | None => []
        end
    | None => []
    end.

Definition validate_feature_allowlist (manifest : Res Error Toml) (metadata : Res Error Metadata) : Res Error unit :=
  let? allowlist := load_feature_allowlist manifest in
  if bool_decide (size allowlist = 0%nat) then Ok tt
  else
    let? metadata := metadata in
    let? nodes := ok_or (md_resolve metadata) (Msg "metadata.resolve missing") in
    match violations allowlist (packages_by_id metadata) nodes with
    | [] => Ok tt
    | _ => Err (Msg "feature allowlist violations")
    end.

(** ** Version pins *)
Definition load_version_pins (manifest : Res Error Toml) : Res Error (gmap string string) :=
  let? doc := manifest in
  let? deps := ok_or (toml_path ["workspace"; "dependencies"] doc ≫= toml_table) (Msg "workspace.dependencies missing") in
  Ok (foldl (λ map kv,
    match kv.2 with
    | TomlString v => <[kv.1 := v]> map
    | TomlTable table =>
        match field "version" table ≫= toml_str with
        | Some version => <[kv.1 := version]> map
        | None => map
        end
    | _ => map
    end) ∅ deps).

Record PinMismatch := mkPinMismatch { pm_name : string; pm_expected_spec : string; pm_resolved : list string }.

(** [spec.trim_start_matches(&['=', '^'])] *)
Fixpoint sanitized (spec : string) : string :=
  match spec with
  | String c rest => if Ascii.eqb c "="%char || Ascii.eqb c "^"%char then sanitized rest else spec
  | EmptyString => EmptyString
  end.

(** The distinct versions of the packages of a name, in byte order. *)
Definition resolved_versions (metadata : Metadata) (name : string) : list string :=
  (btree_iter (foldl (λ set p, <[pkg_version p := tt]> set) (∅ : gmap string unit)
     (List.filter (λ p, String.eqb (pkg_name p) name) (md_packages metadata)))).*1.

Section semver.
Context `{Semver}.

Definition requirement (spec : string) : option VersionReq :=
  match parse_req spec with
  | Some req => Some req
  | None => parse_req ("=" +:+ sanitized spec)
  end.

Definition pin_mismatch (metadata : Metadata) (pin : string * string) : list PinMismatch :=
  let '(name, spec) := pin in
  let resolved := resolved_versions metadata name in
  match omap parse_version resolved with
  | [] => []
  | parsed_versions =>
      match requirement spec with
      | None => [mkPinMismatch name spec resolved]
      | Some req => if existsb (req_matches req) parsed_versions then [] else [mkPinMismatch name spec resolved]
      end
  end.

Definition find_pin_mismatches (metadata : Metadata) (pins : gmap string string) : list PinMismatch :=
  btree_iter pins ≫= pin_mismatch metadata.
End semver.

(** Packages outside the workspace, each once. *)
Definition count_transitive (metadata : Metadata) : Z :=
  match md_resolve metadata with
  | None => 0
  | Some nodes =>
      Z.of_nat (size (list_to_set (C := gset string)
        (filter (λ id, id ∉ md_workspace_members metadata) (pn_id <$> nodes))))
  end.

Record AdvisorySummary := mkAdvisorySummary { adv_found : bool; adv_count : Z; adv_severities : gmap string Z }.

(** [value]: what cargo audit printed, parsed; how the command ended is not looked at. *)
Definition audit_summary_of (value : Json) : AdvisorySummary :=
  let vulnerabilities :=
    match json_get "vulnerabilities" value with Some (JsonObject o) => JsonObject o | _ => JsonObject [] end in
  let found := match json_get "found" vulnerabilities with Some (JsonBool b) => b | _ => false end in
  let count := match json_get "count" vulnerabilities with Some (JsonU64 n) => n | _ => 0 end in
  let items := match json_get "list" vulnerabilities with Some (JsonArray l) => l | _ => [] end in
  mkAdvisorySummary found count
    (foldl (λ severities item,
      match json_get "advisory" item with
      | Some advisory =>
          let severity := match json_get "severity" advisory with Some (JsonString s) => s | _ => "unknown" end in
          <[severity := default 0 (severities !! severity) + 1]> severities
      | None => severities
      end) ∅ items).

(** ** The tasks *)
Record World := mkWorld {
  w_faults : faults;
  w_files : gmap string bytes;
  w_ran : list (list string);
}.

Section tasks.
Context (exec : list string → option (bool * bytes)).

Definition ran (args : list string) (w : World) : World := mkWorld (w_faults w) (w_files w) (w_ran w ++ [args]).

(** [command.args(args).status()] *)
Definition run (args : list string) : M World Error unit := λ w,
  match exec args with
  | None => (Err (Msg "failed to spawn cargo"), ran args w)
  | Some (success, _) => (if success then Ok tt else Err (Msg "command cargo exited"), ran args w)
  end.

(** [command.args(args).output()] *)
Definition run_capture (args : list string) : M World Error bytes := λ w,
  match exec args with
  | None => (Err (Msg "failed to execute cargo"), ran args w)
  | Some (success, stdout) => (if success then Ok stdout else Err (Msg "command cargo exited"), ran args w)
  end.

(** [fs::create_dir_all] and [fs::write] *)
Definition create_dir_all : M World Error unit := λ w,
  match next_fault (w_faults w) with
  | (None, fs) => (Ok tt, mkWorld fs (w_files w) (w_ran w))
  | (Some _, fs) => (Err (Msg "failed to create"), mkWorld fs (w_files w) (w_ran w))
  end.

Definition write_out (path : string) (content : bytes) : M World Error unit := λ w,
  match next_fault (w_faults w) with
  | (None, fs) => (Ok tt, mkWorld fs (<[path := content]> (w_files w)) (w_ran w))
  | (Some k, fs) =>
      (Err (Msg "failed to write"), mkWorld fs (if k <? 0 then w_files w else <[path := takeZ k content]> (w_files w)) (w_ran w))
  end.

Definition TREE_PATH : string := "target/xtask/cargo-tree.txt".
Definition DEPS_PATH : string := "target/xtask/cargo-deps.txt".
Definition tree_args : list string := ["tree"; "--workspace"; "--edges"; "normal,build,dev"; "--locked"].

Definition capture_tree_report : M World Error unit :=
  let! stdout := run_capture tree_args in
  create_dir_all ;;;
  write_out TREE_PATH stdout.

Definition audit (no_tests : bool) (manifest : Res Error Toml) (metadata : Res Error Metadata) : M World Error unit :=
  run ["fmt"; "--all"; "--"; "--check"] ;;;
  run ["check"; "--workspace"; "--all-targets"] ;;;
  (if no_tests then ret tt else run ["test"; "--workspace"; "--all-targets"]) ;;;
  lift (validate_feature_allowlist manifest metadata) ;;;
  capture_tree_report ;;;
  run ["audit"; "--deny"; "warnings"] ;;;
  run ["deny"; "check"; "bans"; "licenses"; "sources"] ;;;
  run ["bloat"; "-p"; "spacectl"; "--crates"; "--release"].

Definition graph_args : list string :=
  ["tree"; "--workspace"; "--all-targets"; "--all-features"; "--edges"; "normal,build,dev"; "--locked"].
Definition deps_args : list string := ["deps"; "--all-deps"; "--include-tests"].

(** cargo deps need not be there. *)
Definition graph : M World Error unit :=
  create_dir_all ;;;
  let! tree_bytes := run_capture graph_args in
  write_out TREE_PATH tree_bytes ;;;
  modify (ran deps_args) ;;;
  match exec deps_args with
  | Some (true, stdout) => write_out DEPS_PATH stdout
  | _ => ret tt
  end.

(** [serde_json::from_slice] *)
Context (from_slice : bytes → option Json).

Definition collect_audit_summary : M World Error AdvisorySummary :=
  modify (ran ["audit"; "--json"]) ;;;
  match exec ["audit"; "--json"] with
  | None => fail (Msg "failed to run cargo audit --json")
  | Some (_, stdout) =>
      let! value := lift (ok_or (from_slice stdout) (Msg "failed to parse cargo audit json output")) in
      ret (audit_summary_of value)
  end.

Record DriftSummary := mkDriftSummary {
  timestamp : string;
  advisories : AdvisorySummary;
  transitive_count : Z;
  transitive_limit : Z;
  pin_mismatches : list PinMismatch;
}.

(** [now]: the formatted clock; [json]: the report as text. *)
Definition drift `{Semver} (output : option string) (manifest : Res Error Toml) (metadata : Res Error Metadata)
    (now : Res Error string) (json : DriftSummary → bytes) : M World Error unit :=
  let! metadata := lift metadata in
  let! pins := lift (load_version_pins manifest) in
  let transitive_count := count_transitive metadata in
  let pin_mismatches := find_pin_mismatches metadata pins in
  let! advisory_summary := collect_audit_summary in
  let! timestamp := lift now in
  let summary := mkDriftSummary timestamp advisory_summary transitive_count TRANSITIVE_LIMIT pin_mismatches in
  create_dir_all ;;;
  write_out (default "target/xtask/drift-report.json" output) (json summary).
End tasks.

(** ** The allowlist, declaratively *)
Definition allowlist_respected (manifest : Res Error Toml) (metadata : Res Error Metadata) : Prop :=
  ∃ allowlist, load_feature_allowlist manifest = Ok allowlist ∧
    (allowlist = ∅ ∨
     ∃ md nodes, metadata = Ok md ∧ md_resolve md = Some nodes ∧
       ∀ n pkg allowed feature,
         n ∈ nodes → packages_by_id md !! pn_id n = Some pkg → allowlist !! pkg_name pkg = Some allowed →
         feature ∈ pn_features n → feature ≠ "default" → String.prefix "dep:" feature = false → feature ∈ allowed).

Lemma elem_of_unexpected allowed features f :
  f ∈ unexpected_features allowed features ↔
  f ∈ features ∧ f ≠ "default" ∧ String.prefix "dep:" f = false ∧ f ∉ allowed.
Proof.
  unfold unexpected_features. rewrite !list_elem_of_In, filter_In.
  destruct (String.eqb_spec f "default"), (String.prefix "dep:" f), (bool_decide_reflect (f ∈ allowed)); simpl; intuition (congruence || done).
Qed.

Lemma violations_nil allowlist packages nodes :
  violations allowlist packages nodes = [] ↔
  ∀ n pkg allowed feature,
    n ∈ nodes → packages !! pn_id n = Some pkg → allowlist !! pkg_name pkg = Some allowed →
    feature ∈ pn_features n → feature ≠ "default" → String.prefix "dep:" feature = false → feature ∈ allowed.
Proof.
  unfold violations. split.
  - intros Hnil n pkg allowed f Hn Hp Ha Hf Hd Hdep. destruct (decide (f ∈ allowed)) as [|Hno]; [done|exfalso].
    assert (f ∈ unexpected_features allowed (pn_features n)) as Hu by (rewrite elem_of_unexpected; done).
    destruct (unexpected_features allowed (pn_features n)) as [|u us] eqn:E; [set_solver|].
    assert ((pkg_name pkg, u :: us) ∈ (nodes ≫= λ n, match packages !! pn_id n with
      | Some pkg => match allowlist !! pkg_name pkg with
        | Some allowed => match unexpected_features allowed (pn_features n) with [] => [] | unexpected => [(pkg_name pkg, unexpected)] end
        | None => [] end | None => [] end)) as Hin.
    { apply list_elem_of_bind. exists n. rewrite Hp, Ha, E. set_solver. }
    rewrite Hnil in Hin. set_solver.
  - intros Hall. induction nodes as [|n nodes IH]; [done|]. cbn [mbind list_bind].
    rewrite IH by (intros; eapply Hall; eauto; set_solver). rewrite app_nil_r.
    destruct (packages !! pn_id n) as [pkg|] eqn:Hp; [|done]. destruct (allowlist !! pkg_name pkg) as [allowed|] eqn:Ha; [|done].
    destruct (unexpected_features allowed (pn_features n)) as [|u us] eqn:E; [done|exfalso].
    assert (u ∈ unexpected_features allowed (pn_features n)) as Hu by (rewrite E; set_solver).
    apply elem_of_unexpected in Hu as (Hf & Hd & Hdep & Hno). apply Hno. eapply Hall; eauto. set_solver.
Qed.

Lemma validate_ok manifest metadata :
  validate_feature_allowlist manifest metadata = Ok tt ↔ allowlist_respected manifest metadata.
Proof.
  unfold validate_feature_allowlist, allowlist_respected.
  destruct (load_feature_allowlist manifest) as [allowlist|e|] eqn:Hl; simpl; [|naive_solver..].
  case_bool_decide as Hs.
  - apply map_size_empty_inv in Hs as ->. naive_solver.
  - assert (allowlist ≠ ∅) as Hne by (intros ->; by rewrite map_size_empty in Hs).
    destruct metadata as [md|e|]; simpl; [|naive_solver..].
    destruct (md_resolve md) as [nodes|] eqn:Hr; simpl; [|naive_solver].
    destruct (violations _ _ _) as [|v vs] eqn:Ev.
    + split; [|done]. intros _. exists allowlist. split; [done|]. right. exists md, nodes. by rewrite <- violations_nil.
    + split; [done|]. intros (a & [= <-] & [->|(md' & nodes' & [= <-] & Hn & Hall)]); [done|].
      rewrite Hr in Hn. simplify_eq. apply violations_nil in Hall. congruence.
Qed.

(** The packages by id are those of the metadata, each id being of one package. *)
Lemma packages_by_id_spec md id pkg :
  NoDup (pkg_id <$> md_packages md) →
  packages_by_id md !! id = Some pkg ↔ pkg ∈ md_packages md ∧ pkg_id pkg = id.
Proof.
  intros Hnd. unfold packages_by_id.
  enough (∀ l (m : gmap string Package), NoDup (pkg_id <$> l) → (∀ p, p ∈ l → m !! pkg_id p = None) →
    foldl (λ m p, <[pkg_id p := p]> m) m l !! id = Some pkg ↔ m !! id = Some pkg ∨ pkg ∈ l ∧ pkg_id pkg = id) as H.
  { rewrite H by (done || set_solver). rewrite lookup_empty. naive_solver. }
  clear md Hnd. induction l as [|p l IH]; intros m Hnd Hm; simpl; [set_solver|].
  apply NoDup_cons in Hnd as [Hp Hnd]. rewrite IH; [|done|].
  - destruct (decide (pkg_id p = id)) as [<-|Hne].
    + rewrite lookup_insert_eq. pose proof (Hm p ltac:(set_solver)) as Hpn. rewrite Hpn.
      split; [intros [[= ->]|[Hin He]]; set_solver|]. intros [?|[[->|Hin]%elem_of_cons He]]; [done|by left|].
      destruct Hp. rewrite <- He. apply list_elem_of_fmap. eauto.
    + rewrite lookup_insert_ne by done. set_solver.
  - intros q Hq. rewrite lookup_insert_ne by (intros He; apply Hp; rewrite He; apply list_elem_of_fmap; eauto).
    apply Hm. set_solver.
Qed.

(** ** Pins, declaratively *)
Lemma elem_of_resolved_versions md name v :
  v ∈ resolved_versions md name ↔ ∃ p, p ∈ md_packages md ∧ pkg_name p = name ∧ pkg_version p = v.
Proof.
  unfold resolved_versions. rewrite list_elem_of_fmap.
  enough (∀ l (m : gmap string unit), foldl (λ set p, <[pkg_version p := tt]> set) m l !! v = Some tt ↔
    m !! v = Some tt ∨ ∃ p, p ∈ l ∧ pkg_version p = v) as H.
  { transitivity (foldl (λ set p, <[pkg_version p := tt]> set) (∅ : gmap string unit)
      (List.filter (λ p, String.eqb (pkg_name p) name) (md_packages md)) !! v = Some tt).
    - split; [intros ([? []] & -> & Hin); by apply elem_of_btree_iter|].
      intros Hin. exists (v, tt). split; [done|]. by apply elem_of_btree_iter.
    - rewrite H, lookup_empty. setoid_rewrite list_elem_of_In. setoid_rewrite filter_In.
      setoid_rewrite String.eqb_eq. naive_solver. }
  induction l as [|p l IH]; intros m; simpl; [set_solver|]. rewrite IH.
  destruct (decide (pkg_version p = v)) as [<-|Hne].
  - rewrite lookup_insert_eq. set_solver.
  - rewrite lookup_insert_ne by done. set_solver.
Qed.

Section pins.
Context `{Semver}.

(** A pin is broken when versions of the package are in use and none of them satisfies what it asks for. *)
Definition pin_broken (md : Metadata) (name spec : string) : Prop :=
  (∃ s v, s ∈ resolved_versions md name ∧ parse_version s = Some v) ∧
  ∀ req s v, requirement spec = Some req → s ∈ resolved_versions md name → parse_version s = Some v → req_matches req v = false.

Lemma pin_mismatch_spec md name spec :
  pin_broken md name spec ∧ pin_mismatch md (name, spec) = [mkPinMismatch name spec (resolved_versions md name)] ∨
  ¬ pin_broken md name spec ∧ pin_mismatch md (name, spec) = [].
Proof.
  unfold pin_broken, pin_mismatch.
  assert (∀ v, v ∈ omap parse_version (resolved_versions md name) ↔
    ∃ s, s ∈ resolved_versions md name ∧ parse_version s = Some v) as Hp by (intros v; apply list_elem_of_omap).
  destruct (omap parse_version (resolved_versions md name)) as [|v0 vs] eqn:E.
  { right. split; [|done]. intros [(s & v & Hs & Hv) _]. specialize (Hp v). set_solver. }
  assert (∃ s v, s ∈ resolved_versions md name ∧ parse_version s = Some v) as Hsome.
  { destruct (proj1 (Hp v0) ltac:(set_solver)) as (s & Hs). eauto. }
  destruct (requirement spec) as [req|]; [|left; split; [split; [done|]|]; naive_solver].
  destruct (existsb _ _) eqn:Ex.
  - right. split; [|done]. intros [_ Hall]. apply existsb_exists in Ex as (v & Hv%list_elem_of_In & Hm).
    apply Hp in Hv as (s & Hs & Hv). specialize (Hall req s v eq_refl Hs Hv). congruence.
  - left. split; [|done]. split; [done|]. intros req' s v [= <-] Hs Hv.
    apply not_true_is_false. intros Hm. apply not_true_iff_false in Ex. apply Ex, existsb_exists.
    exists v. rewrite <- list_elem_of_In. split; [|done]. apply Hp. eauto.
Qed.

Lemma elem_of_find_pin_mismatches md pins m :
  m ∈ find_pin_mismatches md pins ↔
  ∃ name spec, pins !! name = Some spec ∧ pin_broken md name spec ∧ m = mkPinMismatch name spec (resolved_versions md name).
Proof.
  unfold find_pin_mismatches. rewrite list_elem_of_bind. split.
  - intros ([name spec] & Hm & Hin%elem_of_btree_iter). exists name, spec. split; [done|].
    destruct (pin_mismatch_spec md name spec) as [[Hb He]|[_ He]]; rewrite He in Hm; set_solver.
  - intros (name & spec & Hin & Hb & ->). exists (name, spec). split; [|by apply elem_of_btree_iter].
    destruct (pin_mismatch_spec md name spec) as [[_ ->]|[? _]]; [set_solver|done].
Qed.
End pins.

(** ** The tasks *)
Section task_facts.
Context (exec : list string → option (bool * bytes)).
Implicit Types w : World.

Definition succeeds (args : list string) : bool := match exec args with Some (true, _) => true | _ => false end.

Definition stdout_of (args : list string) : bytes := match exec args with Some (_, stdout) => stdout | None => [] end.

(** The commands of an audit, in order. *)
Definition checks (no_tests : bool) : list (list string) :=
  [["fmt"; "--all"; "--"; "--check"]; ["check"; "--workspace"; "--all-targets"]] ++
  (if no_tests then [] else [["test"; "--workspace"; "--all-targets"]]).
Definition audit_commands (no_tests : bool) : list (list string) :=
  checks no_tests ++
  [tree_args; ["audit"; "--deny"; "warnings"]; ["deny"; "check"; "bans"; "licenses"; "sources"];
   ["bloat"; "-p"; "spacectl"; "--crates"; "--release"]].

(** [m] runs the first [k] commands of [l], in order; all of them but the last succeeded, so it
    stopped at the first that failed.  It succeeds only after all, when all succeeded and [P]
    holds, and has then written [files]; without I/O failures it fails only because the last
    command it ran failed or [P] does not hold. *)
Definition gate (m : M World Error unit) (l : list (list string)) (P : Prop) (files : gmap string bytes) : Prop :=
  ∀ w, ∃ k, (k ≤ length l)%nat ∧
    w_ran (m w).2 = w_ran w ++ take k l ∧
    Forall (λ args, succeeds args = true) (take (pred k) l) ∧
    ((m w).1 = Ok tt → Forall (λ args, succeeds args = true) l ∧ P ∧ k = length l ∧ w_files (m w).2 = files ∪ w_files w) ∧
    (w_faults w = [] →
       if is_ok (m w).1 then w_faults (m w).2 = []
       else Exists (λ args, succeeds args = false) (take k l) ∨ ¬ P).

Lemma succeeds_singleton args b : succeeds args = b → Forall (λ args, succeeds args = b) [args].
Proof. by rewrite Forall_singleton. Qed.

Lemma gate_run args : gate (run exec args) [args] True ∅.
Proof.
  intros w. exists 1%nat. unfold run. simpl. rewrite map_empty_union.
  destruct (exec args) as [[[] ?]|] eqn:E; simpl; split_and!; try done.
  - intros _. split_and!; try done. apply succeeds_singleton. unfold succeeds. by rewrite E.
  - intros _. left. left. unfold succeeds. by rewrite E.
  - intros _. left. left. unfold succeeds. by rewrite E.
Qed.

Lemma gate_skip : gate (ret tt) [] True ∅.
Proof. intros w. exists 0%nat. simpl. rewrite map_empty_union, app_nil_r. by split_and!. Qed.

Lemma gate_lift (r : Res Error unit) (P : Prop) : (r = Ok tt ↔ P) → gate (lift r) [] P ∅.
Proof.
  intros Hr w. exists 0%nat. simpl. rewrite map_empty_union, app_nil_r. split_and!; try done.
  - by intros Hp%Hr.
  - intros Hw. destruct r as [[]| |]; simpl; [done|right; intros Hp%Hr; discriminate..].
Qed.

Lemma gate_seq m1 m2 l1 l2 (P1 P2 : Prop) f1 f2 :
  gate m1 l1 P1 f1 → gate m2 l2 P2 f2 → gate (m1 ;;; m2) (l1 ++ l2) (P1 ∧ P2) (f2 ∪ f1).
Proof.
  intros H1 H2 w. destruct (H1 w) as (k1 & Hk1 & Hr1 & Hp1 & Hok1 & Hl1). unfold bind.
  destruct (m1 w) as [[[]|e|] w1]; simpl in *.
  { destruct (Hok1 eq_refl) as (Hs1 & HP1 & -> & Hf1). destruct (H2 w1) as (k2 & Hk2 & Hr2 & Hp2 & Hok2 & Hl2).
    exists (length l1 + k2)%nat. rewrite length_app, take_app_add, Hr2, Hr1, firstn_all, <- app_assoc.
    split; [lia|]. split; [done|]. split; [|split].
    - destruct k2 as [|k2]; [rewrite Nat.add_0_r, take_app_le by lia; by apply Forall_take|].
      rewrite Nat.add_succ_r. simpl. rewrite take_app_add. by apply Forall_app.
    - intros Hok. destruct (Hok2 Hok) as (Hs2 & HP2 & -> & Hf2). by rewrite Forall_app, Hf2, Hf1, (assoc_L (∪)).
    - intros Hw. specialize (Hl2 (Hl1 Hw)). destruct (is_ok (m2 w1).1); [done|].
      rewrite Exists_app. destruct Hl2; [left; by right|right]. by intros [_ ?]. }
  all: exists k1; rewrite length_app, !take_app_le, Hr1 by lia.
  all: split; [lia|]; split; [done|]; split; [done|]; split; [done|]; intros Hw.
  all: destruct (Hl1 Hw); [by left|right]; by intros [? _].
Qed.

Lemma gate_tree_report : gate (capture_tree_report exec) [tree_args] True {[TREE_PATH := stdout_of tree_args]}.
Proof.
  intros w. exists 1%nat. split; [done|]. cbv [capture_tree_report bind run_capture]. unfold stdout_of.
  destruct (exec tree_args) as [[[] out]|] eqn:E; simpl.
  2,3: split_and!; try done; intros _; left; left; unfold succeeds; by rewrite E.
  assert (Forall (λ args, succeeds args = true) [tree_args]) as Hs
    by (apply succeeds_singleton; unfold succeeds; by rewrite E).
  unfold create_dir_all, write_out. cbn [ran w_faults w_files w_ran].
  destruct (next_fault (w_faults w)) as [[k|] fs] eqn:E1; cbn [w_faults w_files w_ran fst snd].
  { split_and!; [done..|]. intros Hw. rewrite Hw in E1. by simpl in E1. }
  destruct (next_fault fs) as [[k|] fs'] eqn:E2; cbn [w_faults w_files w_ran fst snd].
  { split_and!; [done..|]. intros Hw. rewrite Hw in E1. simpl in E1. by simplify_eq. }
  rewrite insert_union_singleton_l. split_and!; [done..|].
  intros Hw. rewrite Hw in E1. simpl in E1. simplify_eq. simpl in E2. by simplify_eq.
Qed.

Lemma gate_iff m l l' P P' f f' : gate m l P f → l = l' → (P ↔ P') → f = f' → gate m l' P' f'.
Proof.
  intros Hg <- Hi <- w. destruct (Hg w) as (k & Hk & Hr & Hp & Hok & Hl). exists k. split_and!; try done.
  - intros Ho. destruct (Hok Ho) as (? & ?%Hi & ? & ?). by split_and!.
  - intros Hw. specialize (Hl Hw). destruct (is_ok (m w).1); [done|]. destruct Hl; [by left|right]. by intros ?%Hi.
Qed.

Lemma gate_audit no_tests manifest metadata :
  gate (audit exec no_tests manifest metadata) (audit_commands no_tests) (allowlist_respected manifest metadata)
    {[TREE_PATH := stdout_of tree_args]}.
Proof.
  assert (gate (if no_tests then ret tt else run exec ["test"; "--workspace"; "--all-targets"])
    (if no_tests then [] else [["test"; "--workspace"; "--all-targets"]]) True ∅) as Ht.
  { destruct no_tests; [apply gate_skip|apply gate_run]. }
  unfold audit. eapply gate_iff.
  - do 2 (apply gate_seq; [apply gate_run|]). apply gate_seq; [apply Ht|].
    apply gate_seq; [apply gate_lift, validate_ok|]. apply gate_seq; [apply gate_tree_report|].
    do 2 (apply gate_seq; [apply gate_run|]). apply gate_run.
  - by destruct no_tests.
  - tauto.
  - by rewrite !map_empty_union, !map_union_empty.
Qed.

(** The report of a drift run has every broken pin, and however bad what it reports, the run succeeds. *)
Lemma drift_reports_and_succeeds `{Semver} from_slice output manifest md pins now stdout value json w :
  w_faults w = [] → load_version_pins manifest = Ok pins →
  exec ["audit"; "--json"] = Some stdout → from_slice stdout.2 = Some value →
  ∃ report,
    drift exec from_slice output manifest (Ok md) (Ok now) json w =
      (Ok tt, mkWorld [] (<[default "target/xtask/drift-report.json" output := json report]> (w_files w))
         (w_ran w ++ [["audit"; "--json"]])) ∧
    (∀ m, m ∈ pin_mismatches report ↔
       ∃ name spec, pins !! name = Some spec ∧ pin_broken md name spec ∧
         m = mkPinMismatch name spec (resolved_versions md name)) ∧
    transitive_count report = count_transitive md ∧ advisories report = audit_summary_of value.
Proof.
  intros Hw Hp He Hv. destruct stdout as [ok stdout].
  eexists (mkDriftSummary now (audit_summary_of value) (count_transitive md) TRANSITIVE_LIMIT (find_pin_mismatches md pins)).
  split; [|split; [apply elem_of_find_pin_mismatches|done]].
  cbv [drift bind lift collect_audit_summary modify ok_or ret]. rewrite Hp, He. simpl in Hv. rewrite Hv.
  unfold create_dir_all, write_out, ran. cbn [w_faults w_files w_ran]. by rewrite Hw.
Qed.
End task_facts.

(** Nothing after the allowlist is run when it is not kept to. *)
Lemma audit_refuses_early exec no_tests manifest metadata w :
  ¬ allowlist_respected manifest metadata →
  (length (w_ran (audit exec no_tests manifest metadata w).2) ≤ length (w_ran w) + length (checks no_tests))%nat.
Proof.
  intros Hno. rewrite <- validate_ok in Hno. unfold audit, checks. cbv [bind run lift].
  destruct (validate_feature_allowlist manifest metadata) as [[]|e|]; [done|..].
  all: destruct (exec ["fmt"; _; _; _]) as [[[] ?]|]; simpl; rewrite ?length_app; simpl; [|destruct no_tests; simpl; lia..].
  all: destruct (exec ["check"; _; _]) as [[[] ?]|]; simpl; rewrite ?length_app; simpl; [|destruct no_tests; simpl; lia..].
  all: destruct no_tests; simpl; [rewrite !length_app; simpl; lia|].
  all: destruct (exec ["test"; _; _]) as [[[] ?]|]; simpl; rewrite ?length_app; simpl; lia.
Qed.

(** C38: [cargo xtask audit] runs its commands in order and stops at the first that fails: it
    ran the first [k], all but the last of them with success.  It succeeds only if it ran the
    whole list, every command succeeded and every workspace package with an allowlist uses no
    other features than those, [default] and [dep:] ones, and then the tree report holds what
    cargo tree printed.  When the allowlist is not kept to, none of the commands behind that
    check is run.  Without I/O failures it fails only because the last command it ran failed
    or the allowlist is not kept to. *)
Theorem audit_gates_changes exec no_tests manifest metadata w :
  ∃ k, (k ≤ length (audit_commands no_tests))%nat ∧
  w_ran (audit exec no_tests manifest metadata w).2 = w_ran w ++ take k (audit_commands no_tests) ∧
  Forall (λ args, succeeds exec args = true) (take (pred k) (audit_commands no_tests)) ∧
  ((audit exec no_tests manifest metadata w).1 = Ok tt →
     k = length (audit_commands no_tests) ∧
     Forall (λ args, succeeds exec args = true) (audit_commands no_tests) ∧
     allowlist_respected manifest metadata ∧
     w_files (audit exec no_tests manifest metadata w).2 = <[TREE_PATH := stdout_of exec tree_args]> (w_files w)) ∧
  (¬ allowlist_respected manifest metadata → (k ≤ length (checks no_tests))%nat) ∧
  (w_faults w = [] → (audit exec no_tests manifest metadata w).1 = Ok tt ∨
     Exists (λ args, succeeds exec args = false) (take k (audit_commands no_tests)) ∨
     ¬ allowlist_respected manifest metadata).
Proof.
  pose proof (audit_refuses_early exec no_tests manifest metadata w) as Hearly.
  destruct (gate_audit exec no_tests manifest metadata w) as (k & Hk & Hran & Hpre & Hok & Hlive).
  exists k. split; [done|]. split; [done|]. split; [done|]. split; [|split].
  - intros Hr. destruct (Hok Hr) as (Hs & Ha & Ht & Hf). by rewrite insert_union_singleton_l.
  - intros Hno%Hearly. rewrite Hran, length_app, length_take in Hno. lia.
  - intros Hw%Hlive. destruct ((audit _ _ _ _ w).1) as [[]|e|]; [by left|by right..].
Qed.

(** *** A workspace *)
Section workspace.
Definition sample_manifest : Toml :=
  TomlTable [("workspace", TomlTable [("metadata", TomlTable [("space", TomlTable [("allowed-features",
    TomlTable [("spacectl", TomlArray [TomlString "pipeline_async"]);
      ("encryption", TomlArray [TomlString "std"; TomlString "pqc"])])])])])].
Definition sample_metadata (features : list string) : Metadata :=
  mkMetadata [mkPackage "a" "encryption" "0.1.0"; mkPackage "b" "serde" "1.0.200"] ["a"]
    (Some [mkPackageNode "a" features; mkPackageNode "b" ["derive"]]).
Definition all_pass (args : list string) : option (bool * bytes) := Some (true, [x01; x02]).
Definition no_licence (args : list string) : option (bool * bytes) :=
  Some (negb (bool_decide (args = ["deny"; "check"; "bans"; "licenses"; "sources"])), []).
Definition idle : World := mkWorld [] ∅ [].

Lemma audit_gates_changes_witness :
  (audit all_pass false (Ok sample_manifest) (Ok (sample_metadata ["default"; "dep:rand"; "std"])) idle).1 = Ok tt ∧
  w_files (audit all_pass false (Ok sample_manifest) (Ok (sample_metadata ["default"; "dep:rand"; "std"])) idle).2
    !! TREE_PATH = Some [x01; x02].
Proof.
  pose proof (audit_gates_changes all_pass false (Ok sample_manifest)
    (Ok (sample_metadata ["default"; "dep:rand"; "std"])) idle) as Hmain.
  destruct Hmain as (k & _ & _ & _ & Hok & _ & Hlive).
  destruct (Hlive eq_refl) as [Hr|[Hfail|Hno]].
  - split; [exact Hr|]. destruct (Hok Hr) as (_ & _ & _ & ->). apply lookup_insert_eq.
  - exfalso. apply Exists_exists in Hfail as (args & _ & [=]).
  - destruct Hno. apply validate_ok. by vm_compute.
Defined.

(** A feature nobody allowed stops the audit before the tree is looked at. *)
Example unlisted_feature_is_refused :
  let '(r, w) := audit all_pass true (Ok sample_manifest) (Ok (sample_metadata ["std"; "simd"])) idle in
  is_ok r = false ∧ length (w_ran w) = 2%nat.
Proof. by vm_compute. Qed.

Example failing_command_stops_the_audit :
  let '(r, w) := audit no_licence true (Ok sample_manifest) (Ok (sample_metadata ["std"])) idle in
  is_ok r = false ∧ last (w_ran w) = Some ["deny"; "check"; "bans"; "licenses"; "sources"].
Proof. by vm_compute. Qed.

(** The packages an audit lets through may use any feature where no allowlist is kept. *)
Example no_allowlist_no_check : validate_feature_allowlist (Ok (TomlTable [])) (Err (Msg "unread")) = Ok tt.
Proof. reflexivity. Qed.
End workspace.
