(* ===== verification/Builder.v ===== *)
(** The builder of the modular pipeline (crates/pipeline/src/lib.rs, PipelineBuilder) and the
    defaults it falls back to.

    Compressor and evaluator are without state: the shipped ones have one value, which the
    classes give.  A keyring that is given is one over the encryptor's key manager, as everywhere the
    workspace makes one; what is derived from it is not used. *)
From S2P Require Import Prelude Errors Common Externals Traits ModularPipeline.
From S2P Require KeyManager Dedup Storage.

(** Rust's [Default] *)
Class Defaults (A : Type) := default_value : A.

#[export] Instance NoopEncryptor_default : Defaults unit := tt.
#[export] Instance InMemoryBackend_default : Defaults Storage.InMemory.Inner := Storage.InMemory.new.
#[export] Instance InMemoryCatalog_default : Defaults InMemoryCatalog.Inner := InMemoryCatalog.new.
#[export] Instance Blake3Deduper_default : Defaults Dedup.Blake3Deduper := Dedup.Blake3Deduper_new.
(** [XtsEncryptor] without a key manager of its own: a master key of zeros. *)
#[export] Instance XtsEncryptor_default `{Crates} : Defaults KeyManager.KeyManager :=
  KeyManager.KeyManager_new (replicate (Z.to_nat KeyManager.MASTER_KEY_SIZE) x00).

Record PipelineBuilder (S X R Dd : Type) := mkPipelineBuilder {
  pb_deduper : option Dd;
  pb_encryptor : option X;
  pb_storage : option S;
  pb_keyring : bool;
  pb_catalog : option R;
}.
#[global] Arguments mkPipelineBuilder {S X R Dd}.
#[global] Arguments pb_deduper {S X R Dd}.
#[global] Arguments pb_encryptor {S X R Dd}.
#[global] Arguments pb_storage {S X R Dd}.
#[global] Arguments pb_keyring {S X R Dd}.
#[global] Arguments pb_catalog {S X R Dd}.

Section builder.
Context {S X R Dd : Type} `{!Defaults S} `{!Defaults X} `{!Defaults R} `{!Defaults Dd}.
#[local] Abbreviation B := (PipelineBuilder S X R Dd).

Definition PipelineBuilder_new : B := mkPipelineBuilder None None None false None.

Definition with_deduper (deduper : Dd) (b : B) : B :=
  mkPipelineBuilder (Some deduper) (pb_encryptor b) (pb_storage b) (pb_keyring b) (pb_catalog b).
Definition with_encryptor (encryptor : X) (b : B) : B :=
  mkPipelineBuilder (pb_deduper b) (Some encryptor) (pb_storage b) (pb_keyring b) (pb_catalog b).
Definition with_storage (storage : S) (b : B) : B :=
  mkPipelineBuilder (pb_deduper b) (pb_encryptor b) (Some storage) (pb_keyring b) (pb_catalog b).
Definition with_keyring (b : B) : B :=
  mkPipelineBuilder (pb_deduper b) (pb_encryptor b) (pb_storage b) true (pb_catalog b).
Definition with_catalog (catalog : R) (b : B) : B :=
  mkPipelineBuilder (pb_deduper b) (pb_encryptor b) (pb_storage b) (pb_keyring b) (Some catalog).

Definition build (b : B) : Pipeline S X R Dd :=
  Pipeline_new (default default_value (pb_deduper b)) (default default_value (pb_encryptor b))
    (default default_value (pb_storage b)) (pb_keyring b) (default default_value (pb_catalog b)).

(** A part given twice is the last one given; the order of different parts does not matter. *)
Inductive setter :=
| SetDeduper (d : Dd) | SetEncryptor (x : X) | SetStorage (s : S) | SetKeyring | SetCatalog (r : R).
Definition set_part (b : B) (p : setter) : B :=
  match p with
  | SetDeduper d => with_deduper d b
  | SetEncryptor x => with_encryptor x b
  | SetStorage s => with_storage s b
  | SetKeyring => with_keyring b
  | SetCatalog r => with_catalog r b
  end.
Definition last_of {A : Type} (f : setter → option A) (ps : list setter) : option A := last (omap f ps).

Lemma last_of_snoc {A : Type} (f : setter → option A) ps p :
  last_of f (ps ++ [p]) = match f p with Some a => Some a | None => last_of f ps end.
Proof. unfold last_of. rewrite omap_app. simpl. destruct (f p); [by rewrite last_snoc|by rewrite app_nil_r]. Qed.

Lemma build_takes_the_last ps :
  build (foldl set_part PipelineBuilder_new ps) =
    Pipeline_new
      (default default_value (last_of (λ p, match p with SetDeduper d => Some d | _ => None end) ps))
      (default default_value (last_of (λ p, match p with SetEncryptor x => Some x | _ => None end) ps))
      (default default_value (last_of (λ p, match p with SetStorage s => Some s | _ => None end) ps))
      (existsb (λ p, match p with SetKeyring => true | _ => false end) ps)
      (default default_value (last_of (λ p, match p with SetCatalog r => Some r | _ => None end) ps)).
Proof.
  unfold build. induction ps as [|p ps IH] using rev_ind; [done|].
  rewrite foldl_app, !last_of_snoc, existsb_app. unfold Pipeline_new in IH. injection IH as H1 H2 H3 H4 H5.
  destruct p; simpl; unfold Pipeline_new; f_equal; rewrite ?orb_false_r, ?orb_true_r; done.
Qed.
End builder.

Lemma default_build_is_in_memory : build PipelineBuilder_new = InMemoryPipeline_default.
Proof. reflexivity. Qed.

(** A pipeline of the encrypting kind built without an encryptor has a master key anyone knows. *)
Lemma unset_encryptor_has_the_zero_key `{Crates} :
  KeyManager.master_key (pl_keys (build (with_keyring
    (PipelineBuilder_new (S := Storage.InMemory.Inner) (X := KeyManager.KeyManager) (R := InMemoryCatalog.Inner)
       (Dd := Dedup.Blake3Deduper))))) = replicate 32 x00.
Proof.
  change (KeyManager.master_key (KeyManager.KeyManager_new (replicate 32 x00)) = replicate 32 x00).
  unfold KeyManager.KeyManager_new. by destruct (KeyManager.derive_key _ _).
Qed.
