(* ===== verification/Legacy.v ===== *)
(** The first registry and pipeline, at the root of the repository (common/src/lib.rs,
    capsule-registry/src/lib.rs, capsule-registry/src/pipeline.rs), which the crates of the
    workspace supersede: segments go to the log as they are, nothing is shared or counted.

    The id a write draws and the clock are arguments; the log is that of [Nvram]. *)
From S2P Require Import Prelude Errors Common Externals.
From S2P Require Nvram WritePipeline.
Import Nvram.
#[local] Open Scope Z_scope.

Record Capsule := mkCapsule {
  lc_id : CapsuleId;
  lc_size : Z;
  lc_segments : list SegmentId;
  lc_created_at : Z;
}.

Record CapsuleRegistry := mkCapsuleRegistry {
  capsules : gmap CapsuleId Capsule;
  next_segment_id : Z;
}.

Definition CapsuleRegistry_new : CapsuleRegistry := mkCapsuleRegistry ∅ 0.

(** ** The registry *)
Definition create_capsule (i : CapsuleId) (now : option Z) (sz : Z) : M CapsuleRegistry Error CapsuleId := λ r,
  match capsules r !! i with
  | Some _ => (Err (Msg "Capsule collision (extremely unlikely)"), r)
  | None =>
      match now with
      | None => (Err (IoFailed "duration_since"), r)
      | Some t => (Ok i, mkCapsuleRegistry (<[i := mkCapsule i sz [] t]> (capsules r)) (next_segment_id r))
      end
  end.

Definition lookup (i : CapsuleId) : M CapsuleRegistry Error Capsule := λ r,
  (ok_or (capsules r !! i) (Msg "Capsule not found"), r).

Definition alloc_segment : M CapsuleRegistry Error SegmentId := λ r,
  (Ok (mkSegmentId (next_segment_id r)), mkCapsuleRegistry (capsules r) (u64_add (next_segment_id r) 1)).

Definition add_segment (capsule_id : CapsuleId) (seg_id : SegmentId) : M CapsuleRegistry Error unit := λ r,
  match capsules r !! capsule_id with
  | None => (Err (Msg "Capsule not found"), r)
  | Some c =>
      (Ok tt, mkCapsuleRegistry
        (<[capsule_id := mkCapsule (lc_id c) (lc_size c) (lc_segments c ++ [seg_id]) (lc_created_at c)]> (capsules r))
        (next_segment_id r))
  end.

Definition list_capsules `{HashOrder} : M CapsuleRegistry Error (list CapsuleId) :=
  gets (λ r, (hash_iter (capsules r)).*1).

Definition delete_capsule (i : CapsuleId) : M CapsuleRegistry Error Capsule := λ r,
  match capsules r !! i with
  | None => (Err (Msg "Capsule not found"), r)
  | Some c => (Ok c, mkCapsuleRegistry (delete i (capsules r)) (next_segment_id r))
  end.

(** ** The pipeline *)
Section pipeline.
Context {JN : JsonDoc SegmentMap}.

Record WritePipeline := mkWritePipeline { registry : CapsuleRegistry; nvram : NvramLog }.

Definition reg {A : Type} (m : M CapsuleRegistry Error A) : M WritePipeline Error A :=
  zoom registry (λ r p, mkWritePipeline r (nvram p)) m.
Definition nv {A : Type} (m : M NvramLog Error A) : M WritePipeline Error A :=
  zoom nvram (λ l p, mkWritePipeline (registry p) l) m.

Definition write_chunk (capsule_id : CapsuleId) (_ : unit) (chunk : bytes) : M WritePipeline Error unit :=
  let! seg_id := reg alloc_segment in
  nv (Nvram.append seg_id chunk) ;;;
  reg (add_segment capsule_id seg_id).

Definition write_capsule (i : CapsuleId) (now : option Z) (data : bytes) : M WritePipeline Error CapsuleId :=
  let! capsule_id := reg (create_capsule i now (lenZ data)) in
  foldM (write_chunk capsule_id) tt (chunks SEGMENT_SIZE data) ;;;
  ret capsule_id.

Definition read_chunk (result : bytes) (seg_id : SegmentId) : M WritePipeline Error bytes :=
  let! data := nv (Nvram.read seg_id) in
  ret (result ++ data).

Definition read_capsule (i : CapsuleId) : M WritePipeline Error bytes :=
  let! capsule := reg (lookup i) in
  foldM read_chunk [] (lc_segments capsule).

Definition read_range (i : CapsuleId) (offset len : Z) : M WritePipeline Error bytes :=
  let! capsule := reg (lookup i) in
  if lc_size capsule <? u64_add offset len then fail (Msg "Read beyond capsule boundary")
  else
    let! full_data := read_capsule i in
    lift (WritePipeline.slice offset (u64_add offset len) full_data).
End pipeline.

(** ** What is written stays readable *)
Section facts.
Context {JN : JsonDoc SegmentMap}.
Implicit Types p : WritePipeline.

Definition legacy_inv p : Prop := log_inv (nvram p) ∧ 0 ≤ next_segment_id (registry p).

Definition below (n : Z) (segs : list SegmentId) : Prop := Forall (λ s, seg_u64 s < n) segs.

(** The capsule is in the table with its size, and the log has its bytes. *)
Definition stored p (i : CapsuleId) (data : bytes) : Prop :=
  ∃ c parts, capsules (registry p) !! i = Some c ∧ lc_size c = lenZ data ∧
    below (next_segment_id (registry p)) (lc_segments c) ∧
    Forall2 (λ s d, segment_bytes (nvram p) s = Some d) (lc_segments c) parts ∧ concat parts = data.

(** Nothing but capsule [i] and new segments differs. *)
Definition grown (i : CapsuleId) p p' : Prop :=
  legacy_inv p' ∧ next_segment_id (registry p) ≤ next_segment_id (registry p') ∧
  (∀ k, k ≠ i → capsules (registry p') !! k = capsules (registry p) !! k) ∧
  ∀ s, seg_u64 s < next_segment_id (registry p) → segment_bytes (nvram p') s = segment_bytes (nvram p) s.

Definition fits p (bytes n : Z) : Prop :=
  next_offset (nvram p) + bytes < 2 ^ 64 ∧ next_segment_id (registry p) + n < 2 ^ 64.

Lemma grown_trans i p1 p2 p3 : grown i p1 p2 → grown i p2 p3 → grown i p1 p3.
Proof.
  intros (_ & H1 & H2 & H3) (Hi & H1' & H2' & H3'). split_and!; [done|lia|..].
  - intros k Hk. by rewrite H2', H2.
  - intros s Hs. rewrite H3', H3; [done|done|lia].
Qed.

Lemma bytes_below p p' segs parts n :
  below n segs → (∀ s, seg_u64 s < n → segment_bytes (nvram p') s = segment_bytes (nvram p) s) →
  Forall2 (λ s d, segment_bytes (nvram p) s = Some d) segs parts →
  Forall2 (λ s d, segment_bytes (nvram p') s = Some d) segs parts.
Proof.
  intros Hb Hs. induction 1 as [|s d segs parts Hd Hds IH]; [constructor|].
  apply Forall_cons in Hb as [? ?]. constructor; [by rewrite Hs|auto].
Qed.

Lemma grown_stored i k p p' data : k ≠ i → grown i p p' → stored p k data → stored p' k data.
Proof.
  intros Hk (_ & Hn & Hc & Hs) (c & parts & Hl & Hz & Hb & Hd & He). exists c, parts.
  split_and!; [by rewrite Hc|done| |by eapply bytes_below|done].
  eapply Forall_impl; [done|]. simpl. lia.
Qed.

Lemma legacy_chunk_spec i p c chunk :
  legacy_inv p → fits p (lenZ chunk) 1 → lenZ chunk < 2 ^ 32 → capsules (registry p) !! i = Some c →
  match write_chunk i tt chunk p with
  | (Ok _, p') =>
      grown i p p' ∧ next_segment_id (registry p') = next_segment_id (registry p) + 1 ∧
      next_offset (nvram p') = next_offset (nvram p) + lenZ chunk ∧
      ∃ s, capsules (registry p') !! i = Some (mkCapsule (lc_id c) (lc_size c) (lc_segments c ++ [s]) (lc_created_at c)) ∧
        seg_u64 s = next_segment_id (registry p) ∧ segment_bytes (nvram p') s = Some chunk
  | (Err _, p') => grown i p p'
  | (Panic, _) => False
  end.
Proof.
  intros [Hl Hn] [Ho Hid] Hlen Hc. destruct p as [[caps next] log]; simpl in *.
  cbv [write_chunk bind reg nv zoom alloc_segment]. simpl.
  rewrite u64_add_small by lia.
  pose proof (append_spec log (mkSegmentId next) chunk Hl Ho) as Hs.
  pose proof (lenZ_nonneg chunk). replace (wrap 32 (lenZ chunk)) with (lenZ chunk) in Hs by (unfold wrap; rewrite Z.mod_small; lia).
  destruct (Nvram.append _ _ _) as [[s|e|] log']; [| |done].
  - destruct Hs as (Hl' & _ & _ & _ & Hno & Hb & Hj). unfold add_segment; simpl. rewrite Hc. simpl.
    rewrite takeZ_ge in Hb by lia. unfold grown, legacy_inv; simpl. split_and!; try done; try lia.
    + intros k Hk. by rewrite lookup_insert_ne.
    + intros j Hlt. apply Hj. intros ->. simpl in Hlt. lia.
    + eexists. by rewrite lookup_insert_eq.
  - destruct Hs as (Hl' & Hj & _). unfold grown, legacy_inv; simpl. split_and!; try done; try lia.
    intros j Hlt. apply Hj. intros ->. simpl in Hlt. lia.
Qed.

Lemma grown_refl i p : legacy_inv p → grown i p p.
Proof. intros. split_and!; [done|lia|done|done]. Qed.

Lemma legacy_chunks_spec i cs : ∀ p c parts,
  legacy_inv p → fits p (lenZ (concat cs)) (lenZ cs) → Forall (λ d, lenZ d < 2 ^ 32) cs →
  capsules (registry p) !! i = Some c → below (next_segment_id (registry p)) (lc_segments c) →
  Forall2 (λ s d, segment_bytes (nvram p) s = Some d) (lc_segments c) parts →
  match foldM (write_chunk i) tt cs p with
  | (Ok _, p') =>
      grown i p p' ∧ ∃ c', capsules (registry p') !! i = Some c' ∧ lc_size c' = lc_size c ∧
        below (next_segment_id (registry p')) (lc_segments c') ∧
        Forall2 (λ s d, segment_bytes (nvram p') s = Some d) (lc_segments c') (parts ++ cs)
  | (Err _, p') => grown i p p'
  | (Panic, _) => False
  end.
Proof.
  induction cs as [|d cs IH]; intros p c parts Hi Hf Hlen Hc Hb Hp; simpl.
  { split; [by apply grown_refl|]. exists c. by rewrite app_nil_r. }
  apply Forall_cons in Hlen as [Hd Hcs]. destruct Hf as [Hfo Hfn].
  simpl in Hfo. rewrite lenZ_app in Hfo. rewrite lenZ_cons in Hfn.
  pose proof (lenZ_nonneg (concat cs)). pose proof (lenZ_nonneg cs). unfold bind.
  pose proof (legacy_chunk_spec i p c d Hi ltac:(split; lia) Hd Hc) as Hs.
  destruct (write_chunk i tt d p) as [[[]|e|] p1]; [|done|done].
  destruct Hs as (Hg & Hn & Ho & s & Hc1 & Hs & Hbytes). destruct Hg as (Hi1 & Hle & Hk & Hold) eqn:Eg.
  assert (below (next_segment_id (registry p1)) (lc_segments c ++ [s])) as Hb1.
  { apply Forall_app. split; [eapply Forall_impl; [exact Hb|simpl; lia]|]. constructor; [lia|constructor]. }
  assert (Forall2 (λ s d, segment_bytes (nvram p1) s = Some d) (lc_segments c ++ [s]) (parts ++ [d])) as Hp1.
  { apply Forall2_app; [by eapply bytes_below|]. by constructor. }
  specialize (IH p1 _ (parts ++ [d]) Hi1 ltac:(split; lia) Hcs Hc1 Hb1 Hp1).
  destruct (foldM (write_chunk i) tt cs p1) as [[[]|e|] p2]; [| |done].
  - destruct IH as (Hg2 & c' & Hc' & Hz & Hb' & Hp'). split; [by eapply grown_trans|].
    exists c'. rewrite <- app_assoc in Hp'. done.
  - by eapply grown_trans.
Qed.

(** A write stores the capsule or, having failed, touches no other one. *)
Lemma legacy_write_spec i now data p :
  legacy_inv p → fits p (lenZ data) (lenZ (chunks SEGMENT_SIZE data)) →
  match write_capsule i now data p with
  | (Ok i', p') => i' = i ∧ grown i p p' ∧ stored p' i data
  | (Err _, p') => grown i p p'
  | (Panic, _) => False
  end.
Proof.
  intros Hi Hf. pose proof (concat_chunks SEGMENT_SIZE data eq_refl) as Hcat.
  pose proof (chunks_bound SEGMENT_SIZE data eq_refl) as Hbound.
  destruct p as [[caps next] log]. cbv [write_capsule bind reg zoom create_capsule]. simpl.
  destruct (caps !! i) as [c|] eqn:Hfree; [by apply grown_refl|].
  destruct now as [t|]; [|by apply grown_refl].
  set (p0 := mkWritePipeline (mkCapsuleRegistry (<[i := mkCapsule i (lenZ data) [] t]> caps) next) log).
  pose proof (legacy_chunks_spec i (chunks SEGMENT_SIZE data) p0 (mkCapsule i (lenZ data) [] t) []) as Hs.
  rewrite Hcat in Hs. specialize (Hs Hi Hf).
  assert (grown i (mkWritePipeline (mkCapsuleRegistry caps next) log) p0) as Hg0.
  { unfold grown; simpl. split_and!; [done|lia| |done]. intros k Hk. by rewrite lookup_insert_ne. }
  assert (Forall (λ d : bytes, lenZ d < 2 ^ 32) (chunks SEGMENT_SIZE data)) as Hlen.
  { eapply Forall_impl; [exact Hbound|]. simpl. unfold SEGMENT_SIZE. lia. }
  specialize (Hs Hlen ltac:(apply lookup_insert_eq) ltac:(constructor) ltac:(constructor)).
  fold p0. destruct (foldM _ _ _ _) as [[[]|e|] p1]; [|by eapply grown_trans|done].
  destruct Hs as (Hg & c' & Hc' & Hz & Hb & Hp). split_and!; [done|by eapply grown_trans|].
  exists c', (chunks SEGMENT_SIZE data). done.
Qed.

Definition same_but_io p p' : Prop := registry p' = registry p ∧ log_view (nvram p') = log_view (nvram p).

Lemma read_chunks_spec segs parts : ∀ p acc,
  Forall2 (λ s d, segment_bytes (nvram p) s = Some d) segs parts →
  match foldM read_chunk acc segs p with
  | (Ok d, p') => d = acc ++ concat parts ∧ same_but_io p p'
  | (Err _, p') => same_but_io p p'
  | (Panic, _) => False
  end.
Proof.
  revert parts. induction segs as [|s segs IH]; intros parts p acc Hp; inversion Hp as [|? d ? parts' Hd Hds]; subst; simpl.
  { by rewrite app_nil_r. }
  destruct p as [r l]. simpl in *. unfold read_chunk. cbv [bind nv zoom ret]. simpl.
  pose proof (read_effect s l) as He. destruct (Nvram.read s l) as [[x|e|] l1]; [|by destruct He|done].
  destruct He as (Hx & Hv & _). rewrite Hd in Hx. injection Hx as <-.
  assert (Forall2 (λ s d, segment_bytes l1 s = Some d) segs parts') as Hds1.
  { eapply Forall2_impl; [exact Hds|]. simpl. intros s' d' <-. by apply segment_bytes_view. }
  specialize (IH parts' (mkWritePipeline r l1) (acc ++ d) Hds1).
  destruct (foldM _ _ _ _) as [[y|e|] p2]; [| |done].
  - destruct IH as (-> & Hr & Hv2). rewrite <- app_assoc. split; [done|]. split; [done|]. simpl in *. by rewrite Hv2.
  - destruct IH as (Hr & Hv2). split; [done|]. simpl in *. by rewrite Hv2.
Qed.

(** A stored capsule reads as its bytes or the read fails on I/O. *)
Lemma read_stored i data p :
  stored p i data →
  match read_capsule i p with
  | (Ok d, p') => d = data ∧ same_but_io p p'
  | (Err _, p') => same_but_io p p'
  | (Panic, _) => False
  end.
Proof.
  intros (c & parts & Hc & _ & _ & Hp & <-). destruct p as [r l].
  cbv [read_capsule bind reg zoom lookup]. simpl in *. rewrite Hc. simpl. exact (read_chunks_spec _ parts (mkWritePipeline r l) [] Hp).
Qed.

Lemma same_but_io_inv p p' : same_but_io p p' → legacy_inv p → legacy_inv p'.
Proof. intros [Hr Hv] [Hl Hn]. split; [by eapply log_inv_view|by rewrite Hr]. Qed.

Lemma same_but_io_stored p p' i data : same_but_io p p' → stored p i data → stored p' i data.
Proof.
  intros [Hr Hv] (c & parts & Hc & Hz & Hb & Hp & He). exists c, parts. rewrite Hr.
  split_and!; try done. eapply bytes_below; [exact Hb| |exact Hp]. intros s _. by apply segment_bytes_view.
Qed.

(** Any call that is not a delete of capsule [i], whatever its I/O does. *)
Inductive legacy_step (i : CapsuleId) : WritePipeline → WritePipeline → Prop :=
| legacy_write p p' k now data r :
    k ≠ i → fits p (lenZ data) (lenZ (chunks SEGMENT_SIZE data)) → write_capsule k now data p = (r, p') → legacy_step i p p'
| legacy_read p p' k data r : stored p k data → read_capsule k p = (r, p') → legacy_step i p p'
| legacy_delete p k : k ≠ i → legacy_step i p (mkWritePipeline (delete_capsule k (registry p)).2 (nvram p)).

Lemma delete_grown k p : legacy_inv p → grown k p (mkWritePipeline (delete_capsule k (registry p)).2 (nvram p)).
Proof.
  intros Hi. destruct p as [[caps next] l]. unfold delete_capsule; simpl.
  destruct (caps !! k) as [c|]; simpl; [|by apply grown_refl].
  split_and!; simpl; [done|lia| |done]. intros j Hj. by rewrite lookup_delete_ne.
Qed.

Lemma legacy_step_stored i p p' data :
  legacy_step i p p' → legacy_inv p → stored p i data → legacy_inv p' ∧ stored p' i data.
Proof.
  intros Hstep Hi Hd.
  assert (∀ k p', k ≠ i → grown k p p' → legacy_inv p' ∧ stored p' i data) as Hgrown.
  { intros k q Hk Hg. split; [apply Hg|]. eapply grown_stored; [|exact Hg|exact Hd]. done. }
  destruct Hstep as [p p' k now d r Hk Hf Hw|p p' k d r Hs Hr|p k Hk].
  - pose proof (legacy_write_spec k now d p Hi Hf) as Hspec. rewrite Hw in Hspec.
    destruct r as [i'|e|]; [| |done]; apply (Hgrown k); (done || apply Hspec).
  - pose proof (read_stored k d p Hs) as Hspec. rewrite Hr in Hspec.
    assert (same_but_io p p') as Hio by (destruct r; [apply Hspec|apply Hspec|done]).
    split; [by eapply same_but_io_inv|by eapply same_but_io_stored].
  - apply (Hgrown k); [done|]. by apply delete_grown.
Qed.

(** What a write stored stays stored through every later call that does not delete it, and reads
    as those bytes or fails on I/O. *)
Lemma legacy_capsule_survives i now data p p1 p2 :
  legacy_inv p → fits p (lenZ data) (lenZ (chunks SEGMENT_SIZE data)) →
  write_capsule i now data p = (Ok i, p1) → rtc (legacy_step i) p1 p2 →
  legacy_inv p2 ∧
  match (read_capsule i p2).1 with Ok d => d = data | Err _ => True | Panic => False end.
Proof.
  intros Hi Hf Hw Hrun. pose proof (legacy_write_spec i now data p Hi Hf) as Hs. rewrite Hw in Hs.
  destruct Hs as (_ & Hg & Hst). destruct Hg as [Hi1 _].
  assert (legacy_inv p2 ∧ stored p2 i data) as [Hi2 Hst2].
  { clear - Hrun Hi1 Hst. induction Hrun as [|x y z Hxy Hyz IH]; [done|].
    destruct (legacy_step_stored i x y data Hxy Hi1 Hst). by apply IH. }
  split; [done|]. pose proof (read_stored i data p2 Hst2) as Hr.
  destruct (read_capsule i p2) as [[d|e|] p3]; [apply Hr|done|done].
Qed.
End facts.

(** *** A write that fails half way leaves a capsule of the full size that reads as nothing *)
Section legacy_examples.
#[local] Existing Instance plain_doc.
Definition legacy_id : CapsuleId := mkCapsuleId (replicate 16 x0a).
Definition fresh_pipeline (fs : faults) : WritePipeline := mkWritePipeline CapsuleRegistry_new (mkNvramLog [] ∅ 0 None fs).

Example legacy_round_trip :
  let '(r, p) := write_capsule legacy_id (Some 1) [x01; x02; x03] (fresh_pipeline []) in
  r = Ok legacy_id ∧ (read_capsule legacy_id p).1 = Ok [x01; x02; x03] ∧
  (read_range legacy_id 1 2 p).1 = Ok [x02; x03] ∧ is_ok (read_range legacy_id 2 2 p).1 = false.
Proof. vm_compute. split_and!; reflexivity. Qed.

Example failed_write_leaves_an_empty_capsule :
  let '(r, p) := write_capsule legacy_id (Some 1) [x01; x02; x03] (fresh_pipeline [Some 0]) in
  is_ok r = false ∧ (read_capsule legacy_id p).1 = Ok [] ∧ (read_range legacy_id 0 3 p).1 = Panic.
Proof. vm_compute. split_and!; reflexivity. Qed.
End legacy_examples.
