(* ===== verification/Sim.v ===== *)
(** The simulators (crates/sim-nvram, crates/sim-nvmeof with its binary, crates/sim-other) on a
    Linux host.

    sim-nvram opens the log of [Nvram].  The host of sim-nvmeof gives what each read of
    /proc/meminfo returns, in order, which files exist, what running [truncate] does and
    whether the address can be bound; the connections the fallback server gets are an
    argument, with the outcome of accepting each and of its read. *)
From S2P Require Import Prelude Errors Common Externals Values.
From S2P Require Nvram AuditLog.
From stdpp Require Import sets.
Import Nvram.
#[local] Open Scope Z_scope.

(** ** sim-nvram *)
Record NvramSimConfig := mkNvramSimConfig {
  sim_backing_path : string;
  enable_fault_injection : bool;
  simulated_latency_us : Z;
}.

Definition NvramSimConfig_default : NvramSimConfig := mkNvramSimConfig "sim_nvram.log" false 0.

Section sim_nvram.
Context {JN : JsonDoc SegmentMap}.
(** What the file system has under a path and under its [.segments]. *)
Context (disk : string → bytes * option (doc SegmentMap)).

Definition start_nvram_sim (backing_path : string) (fs : faults) : Res Error NvramLog :=
  let? log := nv_open (disk backing_path).1 (disk backing_path).2 fs in
  Ok log.

Definition start_nvram_sim_with_config (config : NvramSimConfig) (fs : faults) : Res Error NvramLog :=
  let? log := nv_open (disk (sim_backing_path config)).1 (disk (sim_backing_path config)).2 fs in
  Ok log.

Definition create_sim_transaction (log : NvramLog) : Res Error NvramTransaction := Ok (begin_transaction log).

(** The path is all a configuration changes; that it is ":memory:" changes nothing. *)
Lemma config_is_its_path config fs :
  start_nvram_sim_with_config config fs = start_nvram_sim (sim_backing_path config) fs ∧
  start_nvram_sim (sim_backing_path config) fs = nv_open (disk (sim_backing_path config)).1 (disk (sim_backing_path config)).2 fs.
Proof. unfold start_nvram_sim_with_config, start_nvram_sim, res_bind. by destruct (nv_open _ _ _). Qed.
End sim_nvram.

(** ** sim-other *)
Definition start_other_sim : Res Error unit := Ok tt.

(** ** sim-nvmeof *)
Record NvmeofSimConfig := mkNvmeofSimConfig {
  node_id : string;
  backing_path : string;
  transport : string;
  listen_addr : string;
  listen_port : Z;
  subsystem_nqn : string;
}.

Definition NvmeofSimConfig_default : NvmeofSimConfig :=
  mkNvmeofSimConfig "sim-node1" "sim_nvmeof.img" "tcp" "127.0.0.1" 4420 "nqn.2024-01.dev.adaptive-storage:space-sim".

Record Host := mkHost {
  h_meminfo : list (option string);
  h_files : list string;
  h_truncate : option bool;
  h_bind : bool;
}.

(** [fs::read_to_string("/proc/meminfo")]; past the list it cannot be read. *)
Definition read_meminfo : M Host Error string := λ h,
  match h_meminfo h with
  | Some text :: rest => (Ok text, mkHost rest (h_files h) (h_truncate h) (h_bind h))
  | None :: rest => (Err (Msg "Failed to read /proc/meminfo"), mkHost rest (h_files h) (h_truncate h) (h_bind h))
  | [] => (Err (Msg "Failed to read /proc/meminfo"), h)
  end.

(** The first word of a text and what follows it; words are separated as [trim] trims. *)
Definition at_space (d : bytes) : bool := lenZ (trim_start d) <? lenZ d.
Fixpoint first_word (d : bytes) : bytes * bytes :=
  match d with
  | [] => ([], [])
  | a :: r => if at_space d then ([], d) else let '(w, rest) := first_word r in (a :: w, rest)
  end.

(** [l.split_whitespace().nth(1)] *)
Definition second_word (l : bytes) : option bytes :=
  match (first_word (trim_start (first_word (trim_start l)).2)).1 with
  | [] => None
  | w => Some w
  end.

Definition hugepages_total (meminfo : string) : Z :=
  default 0 (
    line ← find (λ l, String.prefix "HugePages_Total:" (String.string_of_list_byte l)) (AuditLog.text_lines (string_bytes meminfo));
    word ← second_word line;
    parse_width U32_MAX (String.string_of_list_byte word)).

Definition check_hugepages_available : M Host Error unit :=
  let! meminfo := read_meminfo in
  if hugepages_total meminfo =? 0 then fail (Msg "Hugepages not configured") else ret tt.

(** How [truncate] ended is not looked at, only that it could be run. *)
Definition ensure_backing_file_exists (path : string) : M Host Error unit := λ h,
  if bool_decide (path ∈ h_files h) then (Ok tt, h)
  else match h_truncate h with
       | None => (Err (Msg "Failed to create backing file"), h)
       | Some made => (Ok tt, mkHost (h_meminfo h) (if made then h_files h ++ [path] else h_files h) (h_truncate h) (h_bind h))
       end.

Definition is_spdk_available : M Host Error bool :=
  let! r := attempt check_hugepages_available in
  ret (match r with inl _ => true | inr _ => false end).

(** A connection: whether it was accepted, and what the one read returned. *)
Definition Connection : Type := option (option bytes).

(** What is written back on a connection. *)
Definition answer (c : Connection) : option bytes :=
  match c with
  | Some (Some (_ :: _)) => Some [x4f; x4b; x0a]
  | _ => None
  end.

Inductive Running :=
| SpdkTarget
| TcpServer (answers : list (option bytes)).

Definition run_tcp_fallback_sim (connections : list Connection) : M Host Error Running := λ h,
  if h_bind h then (Ok (TcpServer (answer <$> connections)), h) else (Err (Msg "Failed to bind"), h).

Definition start_nvmeof_sim_with_config (config : NvmeofSimConfig) (connections : list Connection) : M Host Error Running :=
  check_hugepages_available ;;;
  ensure_backing_file_exists (backing_path config) ;;;
  let! spdk := is_spdk_available in
  if negb spdk then run_tcp_fallback_sim connections else ret SpdkTarget.

Definition start_nvmeof_sim (node backing : string) (connections : list Connection) : M Host Error Running :=
  let d := NvmeofSimConfig_default in
  start_nvmeof_sim_with_config
    (mkNvmeofSimConfig node backing (transport d) (listen_addr d) (listen_port d) (subsystem_nqn d)) connections.

(** The binary: [env] gives the variables that are set to Unicode. *)
Definition sim_config (env : string → option string) : NvmeofSimConfig :=
  mkNvmeofSimConfig
    (default "sim-node1" (env "NODE_ID"))
    (default "/sim/nvmeof/backing.img" (env "BACKING_PATH"))
    (default "tcp" (env "TRANSPORT"))
    (default "0.0.0.0" (env "LISTEN_ADDR"))
    (default 4420 (parse_width U16_MAX (default "4420" (env "LISTEN_PORT"))))
    (default "nqn.2024-01.dev.adaptive-storage:space-sim" (env "SUBSYSTEM_NQN")).

Definition sim_main (env : string → option string) (connections : list Connection) : M Host Error Running :=
  start_nvmeof_sim_with_config (sim_config env) connections.

(** ** What the simulation needs to start *)
Definition has_hugepages (read : option (option string)) : bool :=
  match read with
  | Some (Some meminfo) => negb (hugepages_total meminfo =? 0)
  | _ => false
  end.

Lemma check_hugepages_spec h :
  check_hugepages_available h =
    (if has_hugepages (head (h_meminfo h)) then Ok tt
     else if match head (h_meminfo h) with Some (Some _) => true | _ => false end
       then Err (Msg "Hugepages not configured") else Err (Msg "Failed to read /proc/meminfo"),
     mkHost (tail (h_meminfo h)) (h_files h) (h_truncate h) (h_bind h)).
Proof.
  destruct h as [[|[m|] rest] files t b]; cbv [check_hugepages_available bind read_meminfo has_hugepages]; simpl; try done.
  by destruct (hugepages_total m =? 0).
Qed.

(** The simulation runs only where the first look at the host finds huge pages, and then serves
    over TCP only if a second look, just after, finds none. *)
Lemma start_spec config connections h :
  match start_nvmeof_sim_with_config config connections h with
  | (Ok running, h') =>
      has_hugepages (head (h_meminfo h)) = true ∧
      (running = SpdkTarget ∧ has_hugepages (head (tail (h_meminfo h))) = true ∨
       running = TcpServer (answer <$> connections) ∧ has_hugepages (head (tail (h_meminfo h))) = false ∧ h_bind h = true)
  | (Err _, h') =>
      has_hugepages (head (h_meminfo h)) = false ∧ h_files h' = h_files h ∨
      (backing_path config ∉ h_files h) ∧ h_truncate h = None ∨
      has_hugepages (head (tail (h_meminfo h))) = false ∧ h_bind h = false
  | (Panic, _) => False
  end.
Proof.
  unfold start_nvmeof_sim_with_config. unfold bind at 1. rewrite check_hugepages_spec.
  destruct (has_hugepages (head (h_meminfo h))); [|by destruct (head (h_meminfo h)) as [[]|]; left].
  unfold bind at 1. unfold ensure_backing_file_exists. cbn [h_files h_truncate h_meminfo h_bind].
  assert (∀ files, match (let! spdk := is_spdk_available in if negb spdk then run_tcp_fallback_sim connections else ret SpdkTarget)
    (mkHost (tail (h_meminfo h)) files (h_truncate h) (h_bind h)) with
    | (Ok running, h') => true = true ∧
      (running = SpdkTarget ∧ has_hugepages (head (tail (h_meminfo h))) = true ∨
       running = TcpServer (answer <$> connections) ∧ has_hugepages (head (tail (h_meminfo h))) = false ∧ h_bind h = true)
    | (Err _, h') => has_hugepages (head (tail (h_meminfo h))) = false ∧ h_bind h = false
    | (Panic, _) => False end) as Hrest.
  { intros files. unfold is_spdk_available, attempt, bind, ret. rewrite check_hugepages_spec. cbn [h_meminfo].
    destruct (has_hugepages (head (tail (h_meminfo h)))); [by split; [|left]|].
    unfold run_tcp_fallback_sim. destruct (head (tail (h_meminfo h))) as [[]|], (h_bind h) eqn:Eb; simpl; rewrite ?Eb; tauto. }
  case_bool_decide as Hin; [|destruct (h_truncate h) as [made|] eqn:Et; [|by right; left]].
  1: specialize (Hrest (h_files h)).
  2: specialize (Hrest (if made then h_files h ++ [backing_path config] else h_files h)).
  all: cbn [h_truncate]; destruct (bind _ _ _) as [[]]; tauto.
Qed.

Section host.
Definition lf : string := String (Ascii.ascii_of_nat 10) EmptyString.
Definition meminfo_text (pages : string) : string :=
  "MemTotal:       16309596 kB" +:+ lf +:+ "HugePages_Total:" +:+ pages +:+ lf +:+ "Hugepagesize:       2048 kB" +:+ lf.

(** A host without huge pages: the simulation ends with an error, not with the fallback. *)
Example no_hugepages_no_fallback :
  let h := mkHost [Some (meminfo_text "       0"); Some (meminfo_text "       0")] [] (Some true) true in
  start_nvmeof_sim "node1" "backing.img" [Some (Some [x52])] h =
    (Err (Msg "Hugepages not configured"), mkHost [Some (meminfo_text "       0")] [] (Some true) true).
Proof. vm_compute. reflexivity. Qed.

Example hugepages_start_the_target :
  let h := mkHost [Some (meminfo_text "    1024"); Some (meminfo_text "    1024")] [] (Some true) true in
  (start_nvmeof_sim "node1" "backing.img" [] h).1 = Ok SpdkTarget.
Proof. vm_compute. reflexivity. Qed.

(** A [truncate] that fails is not noticed: the target is reported ready without its file. *)
Example failed_truncate_is_not_noticed :
  let h := mkHost [Some (meminfo_text "    1024"); Some (meminfo_text "    1024")] [] (Some false) true in
  let '(r, h') := start_nvmeof_sim "node1" "backing.img" [] h in
  r = Ok SpdkTarget ∧ h_files h' = [].
Proof. vm_compute. split; reflexivity. Qed.

Example bad_port_is_the_default :
  listen_port (sim_config (λ k, if String.eqb k "LISTEN_PORT" then Some "70000" else None)) = 4420 ∧
  listen_port (sim_config (λ k, if String.eqb k "LISTEN_PORT" then Some "+65535" else None)) = 65535.
Proof. vm_compute. split; reflexivity. Qed.
End host.
