(* ===== verification/AuditEnv.v ===== *)
(** How the audit log is configured and how it reaches a time-stamping authority
    (common/src/security/audit_log.rs: AuditLogBuilder, from_env, HttpTsaClient).

    [env] gives the variables that are set to Unicode.  Sending a request is a parameter: whether an answer came,
    whether its status is a success, and the JSON of its body when it is JSON. *)
From S2P Require Import Prelude Errors Common Externals AuditLog Values.
#[local] Open Scope Z_scope.

Record HttpTsaClient := mkHttpTsaClient { tsa_endpoint : string; api_key : option string }.

(** The options with the two fields [AuditOptions] leaves out: the path, and which client. *)
Record AuditLogBuilder := mkAuditLogBuilder {
  ab_path : string;
  ab_options : AuditOptions;
  ab_client : option HttpTsaClient;
}.

Definition AuditLogBuilder_new (path : string) : AuditLogBuilder := mkAuditLogBuilder path AuditOptions_default None.
Definition on_options (f : AuditOptions → AuditOptions) (b : AuditLogBuilder) : AuditLogBuilder :=
  mkAuditLogBuilder (ab_path b) (f (ab_options b)) (ab_client b).
Definition set_client (c : HttpTsaClient) (b : AuditLogBuilder) : AuditLogBuilder :=
  mkAuditLogBuilder (ab_path b) (builder_tsa_client (ab_options b)) (Some c).

Definition builder_from_env (env : string → option string) : AuditLogBuilder :=
  let path := default "space.audit.log" (env "SPACE_AUDIT_LOG") in
  let batch := default 100 (env "SPACE_TSA_BATCH" ≫= parse_width U32_MAX) in
  let flush := default 1 (env "SPACE_AUDIT_FLUSH" ≫= parse_width U32_MAX) in
  let tsa_client := (λ endpoint, mkHttpTsaClient endpoint (env "SPACE_TSA_API_KEY")) <$> env "SPACE_TSA_ENDPOINT" in
  let builder := on_options (builder_tsa_batch_size batch) (on_options (builder_flush_interval flush) (AuditLogBuilder_new path)) in
  match tsa_client with
  | Some client => set_client client builder
  | None => builder
  end.

(** [files]: what is under a path and under its rotated name. *)
Definition from_env `{Crates} `{AuditJson} (env : string → option string) (files : string → option bytes * option bytes)
    (fs : faults) : Res Error (AuditLogBuilder * AuditState) :=
  let b := builder_from_env env in
  let? s := with_options (files (ab_path b)).1 (files (ab_path b)).2 fs in
  Ok (b, s).

(** ** The client *)
Record TsaRequest := mkTsaRequest { req_url : string; req_json : Json; req_authorization : option string }.

Section client.
Context (send : TsaRequest → option (bool * option Json)).

Definition tsa_request (c : HttpTsaClient) (digest_hex : string) : TsaRequest :=
  mkTsaRequest (tsa_endpoint c) (JsonObject [("digest", JsonString digest_hex)]) ((λ key, "Bearer " +:+ key) <$> api_key c).

(** [now] is [unix_ts]. *)
Definition http_timestamp (c : HttpTsaClient) (digest_hex : string) (now : Z) : TsaProof + Error :=
  match send (tsa_request c digest_hex) with
  | None => inr (Context "tsa request failed" (IoFailed "send"))
  | Some (false, _) => inr (Msg "tsa responded with")
  | Some (true, None) => inr (Context "tsa payload invalid" (IoFailed "json"))
  | Some (true, Some body) =>
      inl (mkTsaProof
        (match json_get "authority" body with Some (JsonString s) => s | _ => "tsa" end)
        (match json_get "timestamp" body with Some (JsonU64 n) => n | _ => now end)
        (match json_get "token" body with Some (JsonString s) => s | _ => "" end))
  end.

(** A proof is an answer with a success status and a JSON body; nothing in the body is required. *)
Lemma http_timestamp_spec c digest now :
  (∃ proof, http_timestamp c digest now = inl proof) ↔ ∃ body, send (tsa_request c digest) = Some (true, Some body).
Proof. unfold http_timestamp. destruct (send _) as [[[] [body|]]|]; split; intros [x [=]]; eauto. Qed.
End client.

(** ** What the environment can set *)

(** Whatever the variables say, the log flushes and asks for time stamps after a positive number of events, so that the
    counters of [AuditState], which go up by one, reach it. *)
Lemma env_intervals_are_positive env :
  1 ≤ flush_interval (ab_options (builder_from_env env)) ≤ U32_MAX ∧
  1 ≤ tsa_batch_size (ab_options (builder_from_env env)) ≤ U32_MAX ∧
  (tsa_client (ab_options (builder_from_env env)) = true ↔ is_Some (env "SPACE_TSA_ENDPOINT")) ∧
  max_file_bytes (ab_options (builder_from_env env)) = 1024 * 1024 * 1024.
Proof.
  assert (∀ k d, 1 ≤ d ≤ U32_MAX → 1 ≤ Z.max (default d (env k ≫= parse_width U32_MAX)) 1 ≤ U32_MAX) as Hv.
  { intros k d Hd. destruct (env k) as [v|]; simpl; [|lia].
    destruct (parse_width U32_MAX v) as [n|] eqn:E; simpl; [apply parse_width_range in E; unfold U32_MAX in *; lia|lia]. }
  pose proof (Hv "SPACE_AUDIT_FLUSH" 1 ltac:(by vm_compute)). pose proof (Hv "SPACE_TSA_BATCH" 100 ltac:(by vm_compute)).
  unfold builder_from_env. destruct (env "SPACE_TSA_ENDPOINT") as [e|] eqn:E; cbn [fmap option_fmap option_map];
    (split; [done|split; [done|split; [|done]]]); simpl; split; eauto; intros H1; (discriminate H1 || by destruct H1).
Qed.

Example zero_and_garbage_are_replaced :
  let env := λ k, if String.eqb k "SPACE_TSA_BATCH" then Some "0" else if String.eqb k "SPACE_AUDIT_FLUSH" then Some "often" else None in
  let o := ab_options (builder_from_env env) in
  (flush_interval o, tsa_batch_size o, tsa_client o) = (1, 1, false).
Proof. reflexivity. Qed.

(** An empty JSON object with a success status is taken for a proof, without a token. *)
Example empty_answer_is_a_proof :
  http_timestamp (λ _, Some (true, Some (JsonObject []))) (mkHttpTsaClient "http://tsa" None) "00" 7 = inl (mkTsaProof "tsa" 7 "").
Proof. reflexivity. Qed.
